(* ===== verification/_CoqProject ===== *)
-Q . S2P
Prelude.v
GoStr.v
GoNet.v
GoCodec.v
GoNetip.v
GoPath.v
Ini.v
ConfigTypes.v
World.v
Config.v
ConfigProps.v
Router.v
Resolver.v
Forward.v
Sni.v
Http.v
Relay.v
Shutdown.v
Lifecycle.v
ClientBind.v
Wireguard.v
Health.v
PingTable.v
Cli.v
UdpTable.v
UdpProxy.v
UdpProxyProps.v
UdpServer.v
UdpServerProps.v
UdpSpec.v
Process.v
