(* ===== verification/Prelude.v ===== *)
(** * A verification of wireproxy

    wireproxy is a user-space WireGuard client.  It reads a configuration file,
    brings up a WireGuard device over a user-space TCP/IP stack, and exposes
    the tunnel as SOCKS5, HTTP and SNI proxies and as TCP, UDP and STDIO
    tunnels.  This library models its Go code as Rocq functions and transition
    systems and proves what each part promises.

    ** How the program is put together

    [cmd/wireproxy/main.go] restricts itself (Landlock, pledge, unveil), parses
    the configuration ([config.go]), restricts network and files further
    according to it, starts the device ([wireguard.go], with the bind of
    [clientbind/clientbind.go] in one case), then calls [Bind] on every routine
    and only then [Serve] on each in a goroutine ([routine.go]: the interface
    [RoutineSpawner], eight implementations).  Every accepted connection is
    handled by a forwarder ([routine.go], [http.go], [sni.go]); the proxies
    dial through a domain whitelist ([router.go]), the tunnels resolve their
    target through the strategy of [routine.go].  The UDP routines
    ([udp_proxy.go], [udp_server_tunnel.go]) keep one session per client
    address in a table shared by a read loop, a goroutine per session and a
    reaper.  A health endpoint reports pings and device metrics.

    ** The files, in order, and what they model

    Foundations.  [Prelude]: Go error values with [errors.Is] and timeouts, the
    result type ([try]), procedures that fill a structure and may return early
    ([do]), machine integers ([wrap64], [wrapu16], [time_Sub] saturates as
    [time.Time.Sub] does), traversal, labelled transition systems (runs,
    reachability, invariants by induction on runs, termination by a rank,
    refinement of an abstract system by a simulation, [refines]).
    [GoStr], [GoNet], [GoCodec], [GoNetip], [GoPath]: the functions of Go's
    standard library that the program uses, executable, with their round
    trips.  [World]: a handler is a function on the trace of the operations
    performed so far, [M A]; the class [Environment] answers every operation,
    possibly depending on everything before, so a theorem about all
    environments is one about all behaviours of files, resolvers, sockets,
    clock, random source, device, TLS and HTTP libraries.  [let!] is sequencing
    and [perform] is one operation; [R] with [try!] adds the early return with
    an error, [mproc] with [do!] the structure filled in through a pointer, and
    [mtraverse] is the loop that stops at the first error.

    Configuration.  [Ini]: the interfaces of third-party code, [IniLib]
    (go-ini) with the documented laws [IniLaws] the theorems that need them
    assume, [RegexpLib] (regexp), [ConfigEnv] (environment variables);
    [MemIni] is an implementation of [IniLib] for the
    examples.  [ConfigTypes]: the records of [config.go], one Module each with
    the record [t], and the sum type [RoutineSpawner].  [Config]: one
    definition per function of [config.go], the files read and the names looked
    up being operations of [World]; a table-driven specification.
    [ConfigProps]: the properties of the parser.

    Connections.  [Router] ([router.go], [RoutedDial], [routedSocks5Dial]),
    [Resolver] ([LookupAddr], [ResolveAddrWithContext], [parseAddressPort]),
    [Forward] ([connForward], [tcpClientForward], [tcpServerForward],
    [STDIOTcpForward]), [Sni] ([sni.go]; the handshake of [crypto/tls] is the
    class [TlsLib], a strategy run by [drive] over [readOnlyConn]), [Http]
    ([http.go], [util.go], [CredentialValidator]).  A goroutine a handler starts
    is an operation [OGo] with its code as a value of [thread]; the code of each
    is a definition of its own ([connForward], [copyThenClose], [ping_reply]).
    [Relay]: the two copying goroutines of one connection as a transition
    system, one [Read], [Write] or [Close] at a time, with the remote ends.

    Routines.  [Shutdown] ([shutdown], [closedByUs], [closeListener]);
    [Lifecycle]: the class [Routine] with an instance per routine and one for
    the sum type, and the transition system [accept_step] of an accept loop
    racing with callers of [Close].

    UDP.  [UdpTable]: the class [Session] (what the table needs of a session)
    and the critical sections on the table, proved once; when a read has timed
    out ([past_deadline]).  [UdpProxy] and
    [UdpServer]: the state (a heap of session objects shared by pointer, the
    table, a program counter per goroutine, channels, sockets), [step] as an
    executable function of a label, and the invariant [inv] with its
    preservation.  One step is one action of one goroutine: a critical section,
    a channel operation, a socket call, an unlocked write.  A read is in progress
    with the deadline it was given, if any, and a timeout can only end it after
    that.  [UdpProxyProps] and
    [UdpServerProps]: the theorems, and a [Scenario] evaluated by computation.
    [UdpSpec]: the abstract machine of flows [nat_step] both tunnels implement,
    its [promise], and the two refinements.

    Device and program.  [ClientBind] ([clientbind.go]), [Wireguard]
    ([wireguard.go]; the class [Heredoc] stands for the heredoc package),
    [Health] ([ServeHTTP], [pingIPs], [StartPingIPs]), [PingTable] (the map of
    pongs as a transition system: locked writers, unlocked walks), [Cli]
    ([main.go]; the class [Landlock] with an instance per build,
    [landlock_other.go] and [landlock_android.go]; [main] up to the serving
    routines, [run_configured] from the reading of the configuration on).
    [Process] comes last: the life of the process after that, with the signals,
    the exits of the serving goroutines, the ping record of [PingTable] and the
    machines of the UDP tunnels inside it, and what ends the process.

    ** What the theorems show

    Parser: it refines a table-driven specification, accepts only well-formed
    configurations, with endpoints that one of its look-ups answered, loses no
    bit of a key, and can express every string.
    Routing and resolution: the whitelist alone decides between the tunnel and
    a direct connection, names are resolved on one side only, and the strategy
    decides the family.  Handlers: the complete list of effects on every
    branch of the HTTP and SNI proxies and of the forwarders, constant-time
    comparison equal to equality, and who is authenticated.  Lifecycle: [Bind]
    performs exactly the operations of its configuration, [Close] releases the listener and is idempotent,
    and [Serve] returns nil exactly for a deliberate shutdown, in every
    interleaving; routines stay well formed under any sequence of [Bind] and
    [Close].  Relay: every handler starts nothing or the two goroutines of a
    relay between the accepted connection and the one it dialled
    ([accepted_connections_are_relayed]); these copy faithfully and, once one is
    done, both end.  UDP: both tunnels refine one abstract machine, so datagrams
    are forwarded faithfully and traffic of different clients never mixes;
    table entries have one owner, the timeout is exact until it overflows, a
    closed session and a closed tunnel come to an end (a rank that every own
    step decreases, and until the end a step that needs nothing from the target
    and is enabled from the deadline of the read on), calls of [Close] one
    after the other are safe.  Device: the text given to the device reads back
    as the configuration, the bind leaks no socket, starting stops
    exactly at the first error.  Health: readiness is exact, only matching replies count,
    metrics reveal no key.  Program: everything is bound before anything
    serves; the tunnel starts inside the sandbox, and what happens on the network
    before are the look-ups of the configuration, which come before the network
    rules ([main_starts_in_the_sandbox]); the sandbox allows the listeners; the
    Android build never probes Landlock; an interrupt ends the process, and
    without one only a failing [Serve], health server or ping, the fatal error
    on the ping record, or another signal does.  The UDP tunnels never do:
    their only panic needs callers of [Close] ([no_Close_no_panic],
    [server_no_Close_no_panic]), and [main] never calls it.

    Some theorems state a weakness the code has: [Close] leaves silent UDP
    sessions behind ([silent_sessions_outlive_Close]), a server tunnel whose
    timeout overflows sets no read deadline, so that its closed sessions stay
    behind as well ([server_unarmed_read_never_ends]), [Close] panics when two calls
    overlap ([panic_is_overlapping_Close]) or, for the UDP proxy, before
    [Bind] ([Close_before_Bind]); failed forwards leave the accepted
    connection open ([tcp_forward_all_or_nothing], [proxy_request_exchange]);
    a ping without a valid reply leaks its socket ([pong_needs_matching_reply]);
    the sandbox forbids the direct connections of a whitelist
    ([sandbox_connects_only_to_server_targets]); an unknown resolve strategy
    resolves nothing ([unknown_strategy_resolves_nothing]); a connection has no
    half-close ([nothing_delivered_after_the_end]); a readiness request that
    meets a pong ends the process ([readyz_crashes_on_a_pong]); a ping interval
    of zero never pauses ([ping_loop_paces_itself]).

    ** Recursion and bounds

    All functions are structurally recursive, or recurse on a fuel that is the
    size of their input, with lemmas that it suffices where a theorem depends
    on it (decimal printing in [GoStr]).  The endless loops of the program are
    transition systems, so nothing is cut off: termination theorems bound the
    number of steps and show that the loop is not stuck before.

    ** What is not modelled

    The third-party code (device, netstack, [crypto/tls], go-ini, go-socks5,
    argparse, go-landlock, gVisor), which is a parameter or an answer of the
    environment; the parser and writers of [net/http]; buffering, so also the
    bytes [bufio] may have read past an HTTP request; [IgnoreIfMissing] of
    Landlock rules; the redirection of the standard streams in [main], but for
    the opens of the null device; what go-socks5 does with the dialer and the
    resolver it is given, and what it serves without them (UDP ASSOCIATE); the
    logger of the device; the Go memory model: accesses are sequentially
    consistent, and the unlocked accesses to [lastActive] are single steps.
    Build files, packaging and tests hold no program logic.

    ** Plan

    Still to come: the bytes read ahead by the HTTP proxy as part of its
    exchange; the connections of the SOCKS5 server as relays, given a law of its
    library; sessions of a UDP tunnel that ends together with its process.

    This first file also holds the notations, tactics and generic lemmas that
    the others share. *)

From stdpp Require Export base tactics gmap strings list fin_maps.
From Stdlib Require Export ZArith Lia.
From Stdlib Require Ascii.
Export (notations) Stdlib.Strings.Ascii.
Export (notations) Stdlib.Strings.String.
Export Stdlib.Strings.Ascii (ascii(..), N_of_ascii, ascii_of_N, ascii_of_nat,
  N_ascii_embedding, ascii_N_embedding, N_ascii_bounded).

#[global] Arguments String.append !s1 s2 : simpl nomatch.

(** ** Go error values

    [errorString] is [errors.New], [wrapError] is [fmt.Errorf] with one [%w]
    verb (the whole formatted message is kept, as Go does), [opError] is
    [*net.OpError], [errClosed] the sentinel [net.ErrClosed].  [extError] is an
    error built outside [src/] (the OS, gVisor, a third-party package): its
    message and the answer of its [Timeout] method; [extWrap] is one that also
    unwraps to another error. *)
Inductive error : Type :=
  | errorString (msg : string)
  | wrapError (msg : string) (inner : error)
  | opError (op : string) (inner : error)
  | errClosed
  | extError (msg : string) (timeout : bool)
  | extWrap (msg : string) (timeout : bool) (inner : error).

(** The [Error] method. *)
Fixpoint Error (e : error) : string :=
  match e with
  | errorString m => m
  | wrapError m _ => m
  | opError op e' => op +:+ ": " +:+ Error e'
  | errClosed => "use of closed network connection"
  | extError m _ => m
  | extWrap m _ _ => m
  end.

(** [errors.Is(err, net.ErrClosed)]: the unwrapping chain reaches the sentinel. *)
Fixpoint errors_Is_ErrClosed (e : error) : bool :=
  match e with
  | errClosed => true
  | wrapError _ e' | opError _ e' | extWrap _ _ e' => errors_Is_ErrClosed e'
  | errorString _ | extError _ _ => false
  end.

(** [err.(net.Error)] followed by [Timeout()]: a type assertion on the error
    itself, which does not unwrap; [net.OpError] forwards to what it wraps. *)
Fixpoint is_timeout (e : error) : bool :=
  match e with
  | extError _ t | extWrap _ t _ => t
  | opError _ e' => is_timeout e'
  | _ => false
  end.

(** [fmt.Errorf("<prefix>%w", err)]. *)
Definition Errorf_w (prefix : string) (e : error) : error :=
  wrapError (prefix +:+ Error e) e.

(** ** Results: the Go pair (value, error) where exactly one is meaningful *)
Inductive result (A : Type) : Type :=
  | Ok (a : A)
  | Err (e : error).
Arguments Ok {A} _.
Arguments Err {A} _.

Definition is_Ok {A} (r : result A) : Prop := exists a, r = Ok a.

#[export] Instance is_Ok_dec {A} (r : result A) : Decision (is_Ok r).
Proof.
  refine (match r with Ok a => left (ex_intro _ a eq_refl) | Err e => right _ end).
  intros [a H]; discriminate.
Defined.

Declare Scope go_scope.
Delimit Scope go_scope with go.
Open Scope go_scope.

(** [x, err := e; if err != nil { return err }; k]. *)
Notation "'try' x ':=' e 'in' k" :=
  (match e with Ok x => k | Err err => Err err end)
  (at level 10, x pattern, e at level 100, k at level 200) : go_scope.

(** ** State passing with errors

    A Go function that fills in a structure through a pointer and may return
    early with an error: the fields written before the error stay written. *)
Definition proc (S A : Type) : Type := S -> S * result A.

Definition pret {S A} (a : A) : proc S A := fun s => (s, Ok a).
Definition pfail {S A} (e : error) : proc S A := fun s => (s, Err e).
Definition plift {S A} (r : result A) : proc S A := fun s => (s, r).
Definition pmodify {S} (f : S -> S) : proc S unit := fun s => (f s, Ok tt).
Definition pbind {S A B} (m : proc S A) (k : A -> proc S B) : proc S B :=
  fun s => match m s with
           | (s', Ok a) => k a s'
           | (s', Err e) => (s', Err e)
           end.

Notation "'do' x <- m ; k" := (pbind m (fun x => k))
  (at level 10, x pattern, m at level 100, k at level 200) : go_scope.

(** ** Machine integers *)
Definition wrap64 (z : Z) : Z := ((z + 2^63) mod 2^64 - 2^63)%Z.
Definition wrapu16 (z : Z) : Z := (z mod 2^16)%Z.

(** [time.Duration(n) * time.Second]: 64-bit nanoseconds, wrapping. *)
Definition seconds (n : Z) : Z := wrap64 (n * 1000000000).

(** [t.Sub(u)]: saturates at the ends of the [Duration] range. *)
Definition time_Sub (t u : Z) : Z := Z.max (-2^63) (Z.min (2^63 - 1) (t - u)).

Lemma wrap64_small z : (-2^63 <= z < 2^63)%Z -> wrap64 z = z.
Proof. intros H. unfold wrap64. rewrite Z.mod_small; lia. Qed.

(** Up to 9223372036 seconds are exact; just above, the duration is negative. *)
Lemma seconds_exact t : (-9223372036 <= t <= 9223372036)%Z -> seconds t = (t * 1000000000)%Z.
Proof. intros. unfold seconds. apply wrap64_small. lia. Qed.
Lemma seconds_overflow t : (9223372037 <= t <= 18446744073)%Z -> (seconds t < 0)%Z.
Proof.
  intros. unfold seconds, wrap64.
  rewrite <- (Z.mod_unique (t * 1000000000 + 2^63) (2^64) 1 (t * 1000000000 + 2^63 - 2^64)); lia.
Qed.

Lemma wrap64_range z : (-2^63 <= wrap64 z < 2^63)%Z.
Proof. unfold wrap64. pose proof (Z.mod_pos_bound (z + 2^63) (2^64) ltac:(lia)). lia. Qed.

Lemma wrapu16_small z : (0 <= z < 65536)%Z -> wrapu16 z = z.
Proof. intros H. unfold wrapu16. apply Z.mod_small. lia. Qed.

Lemma wrapu16_range z : (0 <= wrapu16 z < 65536)%Z.
Proof. unfold wrapu16. apply Z.mod_pos_bound. lia. Qed.

(** [map] in the [result] monad: the loop [for _, x := range xs] that appends
    to a slice and returns at the first error. *)
Fixpoint traverse {A B} (f : A -> result B) (l : list A) : result (list B) :=
  match l with
  | [] => Ok []
  | x :: l' => try y := f x in try ys := traverse f l' in Ok (y :: ys)
  end.

Lemma traverse_Ok {A B} (f : A -> result B) l ys :
  traverse f l = Ok ys <-> Forall2 (fun x y => f x = Ok y) l ys.
Proof.
  split.
  - revert ys; induction l as [|x l IH]; intros ys; simpl.
    + intros [= <-]. constructor.
    + destruct (f x) eqn:E; [|discriminate].
      destruct (traverse f l); [|discriminate]. intros [= <-]. constructor; auto.
  - induction 1 as [|x y l ys E _ IH]; simpl; [done|]. by rewrite E, IH.
Qed.

Lemma traverse_length {A B} (f : A -> result B) l ys :
  traverse f l = Ok ys -> length ys = length l.
Proof. intros H%traverse_Ok. symmetry. by eapply Forall2_length. Qed.

(** The first failing element decides the error. *)
Lemma traverse_Err {A B} (f : A -> result B) l e :
  traverse f l = Err e <->
  exists l1 x l2 ys, l = l1 ++ x :: l2 /\ traverse f l1 = Ok ys /\ f x = Err e.
Proof.
  split.
  - induction l as [|x l IH]; simpl; [discriminate|].
    destruct (f x) eqn:E.
    + destruct (traverse f l) eqn:E2; [discriminate|]. intros [= ->].
      destruct (IH eq_refl) as (l1 & y & l2 & ys & -> & H1 & H2).
      exists (x :: l1), y, l2, (a :: ys). simpl. by rewrite E, H1.
    + intros [= ->]. by exists [], x, l, [].
  - intros (l1 & x & l2 & ys & -> & H1 & H2). revert ys H1.
    induction l1 as [|y l1 IH]; intros ys; simpl; [by rewrite H2|].
    destruct (f y); [|discriminate]. destruct (traverse f l1) eqn:E; [|discriminate].
    intros _. by rewrite (IH _ eq_refl).
Qed.

(** ** Labelled transition systems given by an executable step function *)
Section lts.
Context {state label : Type} (step : label -> state -> option state).

Fixpoint run (s : state) (ls : list label) : option state :=
  match ls with
  | [] => Some s
  | l :: ls' => s' ← step l s; run s' ls'
  end.

Definition reachable (init s : state) : Prop := exists ls, run init ls = Some s.

(** The state a concrete run reaches, for examples. *)
Definition after (init : state) (ls : list label) : state := default init (run init ls).
Lemma reachable_after init ls : reachable init (after init ls).
Proof.
  unfold after. destruct (run init ls) as [s|] eqn:E; simpl; [by exists ls|by exists []].
Qed.

Lemma run_app s ls1 ls2 : run s (ls1 ++ ls2) = s' ← run s ls1; run s' ls2.
Proof.
  revert s; induction ls1 as [|l ls1 IH]; intros s; simpl; [done|].
  destruct (step l s); simpl; [apply IH|done].
Qed.

Lemma reachable_refl s : reachable s s.
Proof. by exists []. Qed.

Lemma reachable_step init s l s' : reachable init s -> step l s = Some s' -> reachable init s'.
Proof.
  intros [ls H] Hs. exists (ls ++ [l]). rewrite run_app, H. simpl. by rewrite Hs.
Qed.

(** Invariants by induction on the run. *)
Lemma run_invariant (P : state -> Prop) s ls s' :
  (forall l s1 s2, P s1 -> step l s1 = Some s2 -> P s2) ->
  P s -> run s ls = Some s' -> P s'.
Proof.
  intros Hstep. revert s; induction ls as [|l ls IH]; simpl; intros s HP.
  - by intros [= <-].
  - destruct (step l s) eqn:E; simpl; [|done]. apply (IH _ (Hstep _ _ _ HP E)).
Qed.

Lemma reachable_invariant (P : state -> Prop) init s :
  P init -> (forall l s1 s2, P s1 -> step l s1 = Some s2 -> P s2) ->
  reachable init s -> P s.
Proof. intros H0 Hstep [ls H]. by eapply run_invariant. Qed.

(** A measure that the labels of one thread lower and that no other label
    raises bounds the thread's steps in every interleaving. *)
Lemma run_rank (own : label -> bool) (rank : state -> nat) (P : state -> Prop) s ls s' :
  (forall l s1 s2, P s1 -> step l s1 = Some s2 ->
     P s2 /\ (if own l then rank s2 < rank s1 else rank s2 <= rank s1)) ->
  P s -> run s ls = Some s' ->
  P s' /\ length (List.filter own ls) + rank s' <= rank s.
Proof.
  intros Hstep. revert s; induction ls as [|l ls IH]; simpl; intros s HP.
  - intros [= <-]. split; [done|lia].
  - destruct (step l s) as [s1|] eqn:E; simpl; [|done]. intros Hr.
    destruct (Hstep _ _ _ HP E) as [HP1 Hle]. destruct (IH _ HP1 Hr) as [HP' Hn].
    split; [done|]. destruct (own l); simpl; lia.
Qed.
End lts.

(** ** Refinement

    A system refines another one along an abstraction of its states if, where
    the invariant holds, each of its steps is matched by a possibly empty
    sequence of steps of the other. *)
Section refinement.
Context {state label astate alabel event : Type}.
Context (step : label -> state -> option state) (astep : alabel -> astate -> option astate).
Context (inv : state -> Prop) (abs : state -> astate).
Context (obs : label -> list event) (aobs : alabel -> list event).

Definition refines : Prop :=
  forall l s s', inv s -> step l s = Some s' ->
    inv s' /\ exists als, run astep (abs s) als = Some (abs s') /\ flat_map aobs als = obs l.

(** A run has an abstract run with the same events. *)
Lemma refines_run s ls s' :
  refines -> inv s -> run step s ls = Some s' ->
  inv s' /\ exists als, run astep (abs s) als = Some (abs s') /\ flat_map aobs als = flat_map obs ls.
Proof.
  intros Href. revert s. induction ls as [|l ls IH]; simpl; intros s Hi.
  - intros [= <-]. split; [done|]. by exists [].
  - destruct (step l s) as [s1|] eqn:E; simpl; [|done]. intros Hr.
    destruct (Href _ _ _ Hi E) as [Hi1 (als & Ha & He)].
    destruct (IH _ Hi1 Hr) as [Hi' (als' & Ha' & He')]. split; [done|].
    exists (als ++ als'). by rewrite run_app, Ha, flat_map_app, He, He'.
Qed.
End refinement.

(** ** Automation *)
Create HintDb go.
Create Rewrite HintDb gostr.
#[export] Hint Resolve wrap64_range wrapu16_range reachable_refl : go.

(** Split every [match] of a hypothesis or of the goal that is stuck, with its
    equation, and clean up. *)
Ltac go_cases := repeat (case_match; simplify_eq/=).

(** [lia] with the equations of division and remainder. *)
Ltac dlia := zify; Z.to_euclidean_division_equations; lia.

(** Run a [proc] computation symbolically. *)
Ltac proc_simpl :=
  cbn [pbind pret pfail plift pmodify fst snd] in *.
