(* ===== verification/GoStr.v ===== *)
(** * GoStr: the parts of Go's [strings], [bytes] and [strconv] the program uses

    A Go string is a byte sequence, here a [string] of 8-bit [ascii]
    characters.  Every function is executable and follows the package's
    documented byte-level behaviour; [strings.ToLower] and [strings.TrimSpace]
    look at Unicode only when a byte is not ASCII. *)

From S2P Require Import Prelude.

Local Open Scope nat_scope.

(** ** Bytes *)
Definition byte_eqb (a b : ascii) : bool := bool_decide (a = b).
Definition N_of_byte (c : ascii) : N := N_of_ascii c.

Lemma byte_eqb_eq a b : byte_eqb a b = true <-> a = b.
Proof. unfold byte_eqb. apply bool_decide_eq_true. Qed.
Lemma byte_eqb_refl a : byte_eqb a a = true.
Proof. by apply byte_eqb_eq. Qed.
Lemma byte_eqb_neq a b : byte_eqb a b = false <-> a <> b.
Proof. unfold byte_eqb. apply bool_decide_eq_false. Qed.

(** ** Slices *)
Fixpoint str_take (n : nat) (s : string) : string :=
  match n with
  | O => ""
  | S n' => match s with "" => "" | String c s' => String c (str_take n' s') end
  end.

Fixpoint str_drop (n : nat) (s : string) : string :=
  match n with
  | O => s
  | S n' => match s with "" => "" | String _ s' => str_drop n' s' end
  end.

#[global] Arguments str_take !n s : simpl nomatch.
#[global] Arguments str_drop !n s : simpl nomatch.

Fixpoint has_byte (c : ascii) (s : string) : bool :=
  match s with
  | "" => false
  | String d s' => byte_eqb c d || has_byte c s'
  end.

Fixpoint str_forall (f : ascii -> bool) (s : string) : bool :=
  match s with "" => true | String c s' => f c && str_forall f s' end.

(** [bytealg.IndexByteString]; [None] is [-1]. *)
Fixpoint index_byte (c : ascii) (s : string) : option nat :=
  match s with
  | "" => None
  | String d s' => if byte_eqb c d then Some 0 else S <$> index_byte c s'
  end.

(** [bytealg.LastIndexByteString]. *)
Fixpoint last_index_byte (c : ascii) (s : string) : option nat :=
  match s with
  | "" => None
  | String d s' =>
      match last_index_byte c s' with
      | Some i => Some (S i)
      | None => if byte_eqb c d then Some 0 else None
      end
  end.

(** [strings.HasPrefix], [strings.TrimPrefix], [strings.TrimSuffix] *)
Fixpoint strip_prefix (p s : string) : option string :=
  match p, s with
  | "", _ => Some s
  | String a p', String b s' => if byte_eqb a b then strip_prefix p' s' else None
  | _, _ => None
  end.

Definition HasPrefix (s p : string) : bool := bool_decide (is_Some (strip_prefix p s)).
Definition TrimPrefix (s p : string) : string := default s (strip_prefix p s).

Fixpoint HasSuffix (s p : string) : bool :=
  bool_decide (s = p) || match s with "" => false | String _ s' => HasSuffix s' p end.
Definition TrimSuffix (s p : string) : string :=
  if HasSuffix s p then str_take (String.length s - String.length p) s else s.

(** [strings.Contains(s, p)] *)
Fixpoint Contains (s p : string) : bool :=
  HasPrefix s p || match s with "" => false | String _ s' => Contains s' p end.

(** [strings.Replace(s, old, new, 1)] for a non-empty [old]. *)
Fixpoint Replace1 (s old new : string) : string :=
  match strip_prefix old s with
  | Some rest => new +:+ rest
  | None => match s with "" => "" | String c s' => String c (Replace1 s' old new) end
  end.

(** [strings.Split(s, sep)] for a one-byte separator: always at least one piece. *)
Fixpoint Split (s : string) (sep : ascii) : list string :=
  match s with
  | "" => [""]
  | String c s' =>
      if byte_eqb c sep then "" :: Split s' sep
      else match Split s' sep with
           | p :: ps => String c p :: ps
           | [] => [String c ""]
           end
  end.

(** [strings.SplitN(s, sep, 2)] for a one-byte separator. *)
Fixpoint SplitN2 (s : string) (sep : ascii) : list string :=
  match s with
  | "" => [""]
  | String c s' =>
      if byte_eqb c sep then [""; s']
      else match SplitN2 s' sep with
           | p :: ps => String c p :: ps
           | [] => [String c ""]
           end
  end.

(** [strings.Join(l, sep)] for a one-byte separator, the inverse of [Split]. *)
Fixpoint Join (l : list string) (sep : ascii) : string :=
  match l with
  | [] => ""
  | [x] => x
  | x :: l' => x +:+ String sep (Join l' sep)
  end.

(** ** White space

    [strings.TrimSpace] removes the code points of [unicode.IsSpace] at both
    ends; these are their UTF-8 encodings. *)
Definition b (n : nat) : ascii := ascii_of_nat n.
Definition str1 (n : nat) : string := String (b n) "".
Definition str3 (x y z : nat) : string := String (b x) (String (b y) (String (b z) "")).

Definition space_encodings : list string :=
  [str1 9; str1 10; str1 11; str1 12; str1 13; str1 32;
   String (b 194) (str1 133); String (b 194) (str1 160); str3 225 154 128] ++
  ((fun k => str3 226 128 k) <$> [128; 129; 130; 131; 132; 133; 134; 135; 136; 137; 138;
                                   168; 169; 175]) ++
  [str3 226 129 159; str3 227 128 128].

Fixpoint strip_any (ps : list string) (s : string) : option string :=
  match ps with
  | [] => None
  | p :: ps' => match strip_prefix p s with Some r => Some r | None => strip_any ps' s end
  end.

Fixpoint trim_left_go (fuel : nat) (ps : list string) (s : string) : string :=
  match fuel with
  | O => s
  | S f => match strip_any ps s with Some r => trim_left_go f ps r | None => s end
  end.

Fixpoint str_rev_app (s acc : string) : string :=
  match s with "" => acc | String c s' => str_rev_app s' (String c acc) end.
Definition str_rev (s : string) : string := str_rev_app s "".

(** Each round removes at least one byte, so the length is enough fuel. *)
Definition TrimLeftSpace (s : string) : string :=
  trim_left_go (String.length s) space_encodings s.
Definition TrimRightSpace (s : string) : string :=
  str_rev (trim_left_go (String.length s) (str_rev <$> space_encodings) (str_rev s)).
Definition TrimSpace (s : string) : string := TrimRightSpace (TrimLeftSpace s).

(** ** Lower case: ASCII exactly; a string with a byte above 127 goes through
    [unicode.ToLower], whose tables are a parameter. *)
Definition is_ascii (c : ascii) : bool := (N_of_byte c <? 128)%N.
Definition all_ascii (s : string) : bool := str_forall is_ascii s.

Definition lower_byte (c : ascii) : ascii :=
  if (65 <=? N_of_byte c)%N && (N_of_byte c <=? 90)%N
  then ascii_of_N (N_of_byte c + 32) else c.
Fixpoint lower_ascii (s : string) : string :=
  match s with "" => "" | String c s' => String (lower_byte c) (lower_ascii s') end.

Class UnicodeTables := { unicode_ToLower : string -> string }.

Definition ToLower `{UnicodeTables} (s : string) : string :=
  if all_ascii s then lower_ascii s else unicode_ToLower s.

(** ** Decimal numbers *)
Definition digit_byte (d : N) : ascii := ascii_of_N (48 + d).
Definition digit_val (c : ascii) : option Z :=
  let n := N_of_byte c in
  if (48 <=? n)%N && (n <=? 57)%N then Some (Z.of_N (n - 48)) else None.

Fixpoint utoa_go (fuel : nat) (n : N) (acc : string) : string :=
  match fuel with
  | O => acc
  | S f =>
      let acc' := String (digit_byte (n mod 10)) acc in
      if (n <? 10)%N then acc' else utoa_go f (n / 10) acc'
  end.

Definition utoa (n : N) : string := utoa_go (S (N.to_nat (N.log2 n))) n "".

(** [strconv.Itoa], and [fmt]'s [%d]. *)
Definition Itoa (z : Z) : string :=
  if (z <? 0)%Z then "-" +:+ utoa (Z.to_N (- z)) else utoa (Z.to_N z).

Fixpoint parse_digits (s : string) (acc : Z) : option Z :=
  match s with
  | "" => Some acc
  | String c s' => d ← digit_val c; parse_digits s' (acc * 10 + d)%Z
  end.

Definition parse_uint (s : string) : option Z :=
  if bool_decide (s = "") then None else parse_digits s 0.

(** A [*strconv.NumError]: the function and the kind of failure.  The quoted
    input that Go adds to the message is left out: no code path reads it. *)
Definition numError (fn why : string) : error :=
  errorString ("strconv." +:+ fn +:+ ": " +:+ why).

(** [strconv.Atoi] on a 64-bit platform: an optional sign, then decimal digits. *)
Definition Atoi (s : string) : result Z :=
  let signed := match s with
                | String "-" s' => (fun v => - v)%Z <$> parse_uint s'
                | String "+" s' => parse_uint s'
                | _ => parse_uint s
                end in
  match signed with
  | None => Err (numError "Atoi" "invalid syntax")
  | Some v => if bool_decide (-2^63 <= v < 2^63)%Z then Ok v
              else Err (numError "Atoi" "value out of range")
  end.

(** ** Lemmas *)
Lemma str_app_nil_r s : s +:+ "" = s.
Proof. induction s; simpl; congruence. Qed.
Lemma str_app_assoc s t u : s +:+ t +:+ u = (s +:+ t) +:+ u.
Proof. induction s; simpl; congruence. Qed.
Lemma str_length_app s t : String.length (s +:+ t) = String.length s + String.length t.
Proof. induction s; simpl; congruence. Qed.

Lemma str_take_app s t : str_take (String.length s) (s +:+ t) = s.
Proof. induction s; simpl; congruence. Qed.
Lemma str_drop_app s t : str_drop (String.length s) (s +:+ t) = t.
Proof. induction s; simpl; done. Qed.
Lemma str_drop_0 s : str_drop 0 s = s.
Proof. done. Qed.
Lemma str_drop_app_S s c t : str_drop (S (String.length s)) (s +:+ String c t) = t.
Proof. induction s; simpl; done. Qed.
Lemma str_take_drop n s : str_take n s +:+ str_drop n s = s.
Proof. revert n; induction s; intros [|n]; simpl; [done..|]. by rewrite IHs. Qed.

Lemma has_byte_app c s t : has_byte c (s +:+ t) = has_byte c s || has_byte c t.
Proof. induction s; simpl; [done|]. by rewrite IHs, orb_assoc. Qed.

Lemma index_byte_None c s : has_byte c s = false -> index_byte c s = None.
Proof.
  induction s as [|d s IH]; simpl; [done|]. intros [E ?]%orb_false_iff.
  rewrite E, IH; done.
Qed.
Lemma index_byte_Some_has c s i : index_byte c s = Some i -> has_byte c s = true.
Proof.
  revert i; induction s as [|d s IH]; simpl; [done|]. intros i.
  destruct (byte_eqb c d); simpl; [done|].
  destruct (index_byte c s); simpl; [|done]. intros _. by eapply IH.
Qed.
Lemma index_byte_app c s t :
  has_byte c s = false -> index_byte c (s +:+ String c t) = Some (String.length s).
Proof.
  induction s as [|d s IH]; simpl; [by rewrite byte_eqb_refl|].
  intros [E ?]%orb_false_iff. by rewrite E, IH.
Qed.
Lemma last_index_byte_None c s : has_byte c s = false -> last_index_byte c s = None.
Proof.
  induction s as [|d s IH]; simpl; [done|]. intros [E ?]%orb_false_iff.
  by rewrite IH, E.
Qed.
Lemma last_index_byte_app c s t :
  has_byte c t = false -> last_index_byte c (s +:+ String c t) = Some (String.length s).
Proof.
  intros Ht. induction s as [|d s IH]; simpl.
  - by rewrite last_index_byte_None, byte_eqb_refl.
  - by rewrite IH.
Qed.
Lemma last_index_byte_Some c s i :
  last_index_byte c s = Some i ->
  s = str_take i s +:+ String c (str_drop (S i) s) /\ has_byte c (str_drop (S i) s) = false.
Proof.
  revert i; induction s as [|d s IH]; simpl; [done|]. intros i.
  destruct (last_index_byte c s) as [j|] eqn:E.
  - intros [= <-]. destruct (IH j eq_refl) as [H1 H2].
    split; [exact (f_equal (String d) H1)|exact H2].
  - destruct (byte_eqb c d) eqn:Ed; [|done]. intros [= <-]. simpl.
    apply byte_eqb_eq in Ed as ->. split; [done|].
    clear IH. induction s as [|e s IH]; [done|]. simpl in *.
    destruct (last_index_byte d s); [done|]. destruct (byte_eqb d e); [done|]. by apply IH.
Qed.

Lemma strip_prefix_Some p s r : strip_prefix p s = Some r <-> s = p +:+ r.
Proof.
  split.
  - revert s; induction p as [|c p IH]; intros s; simpl; [by intros [= ->]|].
    destruct s as [|d s]; [done|]. destruct (byte_eqb c d) eqn:E; [|done].
    apply byte_eqb_eq in E as ->. intros H%IH. simpl. congruence.
  - intros ->. induction p; simpl; [done|]. by rewrite byte_eqb_refl.
Qed.

Lemma HasPrefix_spec s p : HasPrefix s p = true <-> exists r, s = p +:+ r.
Proof.
  unfold HasPrefix. rewrite bool_decide_eq_true. unfold is_Some.
  by setoid_rewrite strip_prefix_Some.
Qed.
Lemma TrimPrefix_app p s : TrimPrefix (p +:+ s) p = s.
Proof. unfold TrimPrefix. by rewrite (proj2 (strip_prefix_Some p _ s) eq_refl). Qed.

Lemma Replace1_prefix old new s : Replace1 (old +:+ s) old new = new +:+ s.
Proof.
  destruct (old +:+ s) eqn:E; cbn [Replace1]; rewrite <- E;
    by rewrite (proj2 (strip_prefix_Some old _ s) eq_refl).
Qed.

Lemma Split_cons s sep : exists p ps, Split s sep = p :: ps.
Proof.
  induction s as [|c s (p & ps & IH)]; simpl; [eauto|].
  destruct (byte_eqb c sep); [eauto|]. rewrite IH. eauto.
Qed.
Lemma byte_eqb_sym a c : byte_eqb a c = byte_eqb c a.
Proof. unfold byte_eqb. apply bool_decide_ext. naive_solver. Qed.

Lemma Split_none s sep : has_byte sep s = false -> Split s sep = [s].
Proof.
  induction s as [|c s IH]; simpl; [done|]. intros [E ?]%orb_false_iff.
  by rewrite byte_eqb_sym, E, IH.
Qed.
Lemma Split_app s sep t :
  has_byte sep s = false -> Split (s +:+ String sep t) sep = s :: Split t sep.
Proof.
  induction s as [|c s IH]; simpl; [by rewrite byte_eqb_refl|].
  intros [E ?]%orb_false_iff. by rewrite byte_eqb_sym, E, IH.
Qed.
(** Splitting undoes joining, as soon as no piece holds the separator. *)
Lemma Split_Join l sep :
  l <> [] -> Forall (fun x => has_byte sep x = false) l -> Split (Join l sep) sep = l.
Proof.
  intros Hne H. induction H as [|x l Hx Hl IH]; [done|].
  destruct l as [|y l]; [by apply Split_none|].
  change (Join (x :: y :: l) sep) with (x +:+ String sep (Join (y :: l) sep)).
  rewrite Split_app by done. by rewrite IH.
Qed.

Lemma SplitN2_none s sep : has_byte sep s = false -> SplitN2 s sep = [s].
Proof.
  induction s as [|c s IH]; simpl; [done|]. intros [E ?]%orb_false_iff.
  by rewrite byte_eqb_sym, E, IH.
Qed.
Lemma SplitN2_app s sep t :
  has_byte sep s = false -> SplitN2 (s +:+ String sep t) sep = [s; t].
Proof.
  induction s as [|c s IH]; simpl; [by rewrite byte_eqb_refl|].
  intros [E ?]%orb_false_iff. by rewrite byte_eqb_sym, E, IH.
Qed.
Lemma SplitN2_cases s sep :
  (has_byte sep s = false /\ SplitN2 s sep = [s]) \/
  (exists a t, s = a +:+ String sep t /\ has_byte sep a = false /\ SplitN2 s sep = [a; t]).
Proof.
  induction s as [|c s [[H1 H2]|(a & t & -> & H1 & H2)]]; simpl; [by left|..].
  - rewrite (byte_eqb_sym sep c). destruct (byte_eqb c sep) eqn:E; simpl.
    + apply byte_eqb_eq in E as ->. right. by exists "", s.
    + left. by rewrite H2.
  - destruct (byte_eqb c sep) eqn:E; simpl.
    + apply byte_eqb_eq in E as ->. right. by exists "", (a +:+ String sep t).
    + right. exists (String c a), t. simpl. by rewrite H2, byte_eqb_sym, E.
Qed.

(** Decimal printing and parsing are inverse. *)
Lemma digit_val_byte d : (d < 10)%N -> digit_val (digit_byte d) = Some (Z.of_N d).
Proof.
  intros H. unfold digit_val, digit_byte, N_of_byte.
  rewrite N_ascii_embedding by lia.
  replace (_ && _) with true by (symmetry; apply andb_true_iff; split; apply N.leb_le; lia).
  f_equal. lia.
Qed.
Lemma utoa_go_parse fuel n acc :
  (n < 2 ^ N.of_nat fuel)%N -> fuel <> 0 ->
  parse_digits (utoa_go fuel n acc) 0 = parse_digits acc (Z.of_N n).
Proof.
  revert n acc; induction fuel as [|f IH]; intros n acc Hn Hf; [done|]. cbn [utoa_go].
  pose proof (N.mod_lt n 10 ltac:(lia)) as Hm.
  destruct (N.ltb_spec n 10) as [Hlt|Hge].
  - cbn [parse_digits]. rewrite digit_val_byte by done. simpl.
    by rewrite N.mod_small.
  - assert (f <> 0) as Hf'. { intros ->. simpl in Hn. lia. }
    assert (n / 10 < 2 ^ N.of_nat f)%N as Hd.
    { apply N.Div0.div_lt_upper_bound. rewrite Nat2N.inj_succ, N.pow_succ_r' in Hn. lia. }
    rewrite IH by done.
    cbn [parse_digits]. rewrite digit_val_byte by done. simpl. f_equal.
    rewrite (N.div_mod' n 10) at 3. lia.
Qed.
Lemma parse_utoa n : parse_digits (utoa n) 0 = Some (Z.of_N n).
Proof.
  unfold utoa. rewrite utoa_go_parse; [done| |done].
  rewrite Nat2N.inj_succ, N2Nat.id. destruct (decide (n = 0)%N) as [->|]; [done|].
  apply N.log2_spec. lia.
Qed.

Lemma str_forall_app f s t : str_forall f (s +:+ t) = str_forall f s && str_forall f t.
Proof. induction s; simpl; [done|]. by rewrite IHs, andb_assoc. Qed.
Lemma str_forall_has_byte f c s :
  str_forall f s = true -> f c = false -> has_byte c s = false.
Proof.
  intros H Hc. induction s as [|d s IH]; simpl in *; [done|].
  apply andb_true_iff in H as [Hd ?]. rewrite IH by done. rewrite orb_false_r.
  apply byte_eqb_neq. intros ->. congruence.
Qed.

Definition is_digit (c : ascii) : bool := (48 <=? N_of_byte c)%N && (N_of_byte c <=? 57)%N.

Lemma digit_byte_is_digit d : (d < 10)%N -> is_digit (digit_byte d) = true.
Proof.
  intros H. unfold is_digit, digit_byte, N_of_byte. rewrite N_ascii_embedding by lia.
  apply andb_true_iff; split; apply N.leb_le; lia.
Qed.
Lemma utoa_go_digits fuel n acc :
  str_forall is_digit acc = true -> str_forall is_digit (utoa_go fuel n acc) = true.
Proof.
  revert n acc; induction fuel as [|f IH]; intros n acc H; simpl; [done|].
  pose proof (digit_byte_is_digit (n mod 10) ltac:(apply N.mod_lt; lia)) as Hd.
  destruct (n <? 10)%N; [|apply IH]; simpl; by rewrite Hd, H.
Qed.
Lemma utoa_digits n : str_forall is_digit (utoa n) = true.
Proof. by apply utoa_go_digits. Qed.
Lemma utoa_go_nonempty fuel n acc : acc <> "" -> utoa_go fuel n acc <> "".
Proof.
  revert n acc; induction fuel as [|f IH]; intros n acc H; simpl; [done|].
  destruct (n <? 10)%N; [done|]. by apply IH.
Qed.
Lemma utoa_nonempty n : utoa n <> "".
Proof.
  unfold utoa. cbn [utoa_go]. destruct (n <? 10)%N; [done|]. by apply utoa_go_nonempty.
Qed.

(** A decimal numeral does not start with a sign. *)
Lemma digits_no_sign s :
  str_forall is_digit s = true ->
  match s with
  | String "-" s' => (fun v => - v)%Z <$> parse_uint s'
  | String "+" s' => parse_uint s'
  | _ => parse_uint s
  end = parse_uint s.
Proof.
  destruct s as [|c s]; [done|]. simpl. intros [H _]%andb_true_iff. by go_cases.
Qed.

Lemma parse_uint_utoa n : parse_uint (utoa n) = Some (Z.of_N n).
Proof.
  unfold parse_uint. rewrite bool_decide_eq_false_2 by apply utoa_nonempty. apply parse_utoa.
Qed.

Lemma Atoi_Itoa z : (-2^63 <= z < 2^63)%Z -> Atoi (Itoa z) = Ok z.
Proof.
  intros Hz. unfold Atoi, Itoa. destruct (Z.ltb_spec z 0).
  - simpl. rewrite parse_uint_utoa. simpl. rewrite bool_decide_eq_true_2; [f_equal|]; lia.
  - rewrite digits_no_sign by apply utoa_digits. rewrite parse_uint_utoa.
    rewrite bool_decide_eq_true_2; [f_equal|]; lia.
Qed.

Lemma Itoa_inj z1 z2 :
  (-2^63 <= z1 < 2^63)%Z -> (-2^63 <= z2 < 2^63)%Z -> Itoa z1 = Itoa z2 -> z1 = z2.
Proof. intros H1%Atoi_Itoa H2%Atoi_Itoa E. rewrite E in H1. congruence. Qed.

Lemma Itoa_no_byte c z :
  is_digit c = false -> c <> "-"%char -> has_byte c (Itoa z) = false.
Proof.
  intros H1 H2. unfold Itoa. destruct (z <? 0)%Z; simpl; rewrite ?orb_false_iff;
    [split; [by apply byte_eqb_neq|]|]; (eapply str_forall_has_byte; [apply utoa_digits|done]).
Qed.

Lemma Atoi_range s v : Atoi s = Ok v -> (-2^63 <= v < 2^63)%Z.
Proof. unfold Atoi. intros H. case_match; [|done]. case_bool_decide; by simplify_eq. Qed.

(** Lower-casing ASCII. *)
Lemma lower_byte_idem c : lower_byte (lower_byte c) = lower_byte c.
Proof. destruct c as [[] [] [] [] [] [] [] []]; reflexivity. Qed.
Lemma lower_ascii_idem s : lower_ascii (lower_ascii s) = lower_ascii s.
Proof. induction s as [|c s IH]; simpl; [done|]. by rewrite lower_byte_idem, IH. Qed.
Lemma lower_byte_dot c : lower_byte c = "."%char <-> c = "."%char.
Proof. destruct c as [[] [] [] [] [] [] [] []]; vm_compute; split; congruence. Qed.
Lemma lower_ascii_length s : String.length (lower_ascii s) = String.length s.
Proof. induction s; simpl; congruence. Qed.
Lemma lower_ascii_take n s : lower_ascii (str_take n s) = str_take n (lower_ascii s).
Proof. revert n; induction s; intros [|n]; simpl; [done..|]. by rewrite IHs. Qed.
Lemma lower_ascii_app s t : lower_ascii (s +:+ t) = lower_ascii s +:+ lower_ascii t.
Proof. induction s; simpl; congruence. Qed.
Lemma lower_ascii_is_dot s : lower_ascii s = "." <-> s = ".".
Proof.
  destruct s as [|c [|d s]]; simpl; split; intros [= Hc]; try done.
  - apply lower_byte_dot in Hc as ->. done.
  - by subst.
Qed.
Lemma HasSuffix_dot_lower s : HasSuffix (lower_ascii s) "." = HasSuffix s ".".
Proof.
  induction s as [|c s IH]; [done|]. cbn [lower_ascii HasSuffix]. rewrite IH. f_equal.
  apply bool_decide_ext. apply (lower_ascii_is_dot (String c s)).
Qed.
Lemma lower_TrimSuffix_dot s : lower_ascii (TrimSuffix s ".") = TrimSuffix (lower_ascii s) ".".
Proof.
  unfold TrimSuffix. rewrite HasSuffix_dot_lower, lower_ascii_length.
  destruct (HasSuffix s "."); [apply lower_ascii_take|done].
Qed.
Lemma HasSuffix_app s p : HasSuffix (s +:+ p) p = true.
Proof.
  induction s as [|c s IH]; cbn [String.append].
  - destruct p; cbn [HasSuffix]; by rewrite bool_decide_eq_true_2.
  - cbn [HasSuffix]. by rewrite IH, orb_true_r.
Qed.
Lemma TrimSuffix_app s p : TrimSuffix (s +:+ p) p = s.
Proof.
  unfold TrimSuffix. rewrite HasSuffix_app, str_length_app.
  replace (_ + _ - _) with (String.length s) by lia. apply str_take_app.
Qed.
Lemma str_forall_take f n s : str_forall f s = true -> str_forall f (str_take n s) = true.
Proof.
  revert n; induction s; intros [|n]; simpl; try done.
  intros [-> ?]%andb_true_iff. by apply IHs.
Qed.
Lemma all_ascii_TrimSuffix s p : all_ascii s = true -> all_ascii (TrimSuffix s p) = true.
Proof. unfold TrimSuffix. destruct (HasSuffix s p); [apply str_forall_take|done]. Qed.

#[export] Hint Rewrite str_app_nil_r str_length_app str_take_app str_drop_app
  str_drop_app_S has_byte_app str_forall_app : gostr.
