(* ===== verification/GoNet.v ===== *)
(** * GoNet: host and port strings

    [net.SplitHostPort] and [net.JoinHostPort] at the byte level, and the round
    trip between them that the address parsing of the program relies on. *)

From S2P Require Import Prelude GoStr.

Definition addrError (addr why : string) : error :=
  errorString ("address " +:+ addr +:+ ": " +:+ why).

(** [net.SplitHostPort].  The port starts after the last colon; a host in
    brackets may hold colons, any other host may not. *)
Definition SplitHostPort (hostport : string) : result (string * string) :=
  match last_index_byte ":" hostport with
  | None => Err (addrError hostport "missing port in address")
  | Some i =>
      (* the host, and the offsets after which no bracket may follow *)
      let host_jk : result (string * nat * nat) :=
        if HasPrefix hostport "[" then
          match index_byte "]" hostport with
          | None => Err (addrError hostport "missing ']' in address")
          | Some e =>
              if bool_decide (S e = String.length hostport)
              then Err (addrError hostport "missing port in address")
              else if bool_decide (S e = i)
              then Ok (str_take (e - 1) (str_drop 1 hostport), 1%nat, S e)
              else if HasPrefix (str_drop (S e) hostport) ":"
              then Err (addrError hostport "too many colons in address")
              else Err (addrError hostport "missing port in address")
          end
        else
          let host := str_take i hostport in
          if has_byte ":" host
          then Err (addrError hostport "too many colons in address")
          else Ok (host, 0%nat, 0%nat) in
      try (host, j, k) := host_jk in
      if has_byte "[" (str_drop j hostport)
      then Err (addrError hostport "unexpected '[' in address")
      else if has_byte "]" (str_drop k hostport)
      then Err (addrError hostport "unexpected ']' in address")
      else Ok (host, str_drop (S i) hostport)
  end.

(** [net.JoinHostPort]. *)
Definition JoinHostPort (host port : string) : string :=
  if has_byte ":" host then "[" +:+ host +:+ "]:" +:+ port
  else host +:+ ":" +:+ port.

(** A host or a port that can be put back together: no bracket in either, no
    colon in the port. *)
Definition no_brackets (s : string) : bool := negb (has_byte "[" s) && negb (has_byte "]" s).
Definition plain_port (s : string) : bool := negb (has_byte ":" s) && no_brackets s.

Lemma no_brackets_spec s :
  no_brackets s = true <-> has_byte "[" s = false /\ has_byte "]" s = false.
Proof. unfold no_brackets. by rewrite andb_true_iff, !negb_true_iff. Qed.

Lemma str_drop_drop n m s : str_drop n (str_drop m s) = str_drop (m + n) s.
Proof. revert s; induction m as [|m IH]; intros [|c s]; simpl; [done..| |apply IH]. by destruct n. Qed.

Lemma HasPrefix_has_byte c s : has_byte c s = false -> HasPrefix s (String c "") = false.
Proof.
  destruct s as [|d s]; simpl; [done|]. intros [E _]%orb_false_iff.
  unfold HasPrefix. simpl. rewrite E. by apply bool_decide_eq_false_2; intros [? ?].
Qed.

Lemma HasPrefix_app_hd c s t :
  has_byte c s = false -> c <> ":"%char -> HasPrefix (s +:+ String ":" t) (String c "") = false.
Proof.
  destruct s as [|d s]; simpl; intros H Hc; unfold HasPrefix; simpl.
  - rewrite (proj2 (byte_eqb_neq c ":") Hc). by apply bool_decide_eq_false_2; intros [? ?].
  - apply orb_false_iff in H as [E _]. rewrite E. by apply bool_decide_eq_false_2; intros [? ?].
Qed.

Lemma SplitHostPort_plain host port :
  has_byte ":" host = false -> no_brackets host = true -> plain_port port = true ->
  SplitHostPort (host +:+ ":" +:+ port) = Ok (host, port).
Proof.
  intros Hc [Hl Hr]%no_brackets_spec Hp. simpl.
  apply andb_true_iff in Hp as [Hpc%negb_true_iff [Hpl Hpr]%no_brackets_spec].
  unfold SplitHostPort. rewrite last_index_byte_app by done.
  rewrite HasPrefix_app_hd by done. rewrite str_take_app, Hc.
  rewrite str_drop_0, !has_byte_app. cbn [has_byte]. rewrite Hl, Hr, Hpl, Hpr. simpl.
  by rewrite str_drop_app_S.
Qed.

Lemma SplitHostPort_bracket host port :
  no_brackets host = true -> plain_port port = true ->
  SplitHostPort ("[" +:+ host +:+ "]:" +:+ port) = Ok (host, port).
Proof.
  intros [Hl Hr]%no_brackets_spec Hp. simpl.
  apply andb_true_iff in Hp as [Hpc%negb_true_iff [Hpl Hpr]%no_brackets_spec].
  set (s := String "[" (host +:+ String "]" (String ":" port))).
  assert (s = (String "[" (host +:+ "]")) +:+ String ":" port) as Es.
  { unfold s. simpl. by rewrite <- str_app_assoc. }
  assert (last_index_byte ":" s = Some (S (S (String.length host)))) as Ei.
  { rewrite Es, last_index_byte_app by done. simpl. rewrite str_length_app. simpl.
    f_equal. lia. }
  assert (index_byte "]" s = Some (S (String.length host))) as Ee.
  { unfold s. cbn [index_byte]. simpl. by rewrite index_byte_app. }
  unfold SplitHostPort. rewrite Ei, Ee.
  assert (HasPrefix s "[" = true) as -> by (apply HasPrefix_spec; by eexists).
  rewrite bool_decide_eq_false_2.
  2:{ unfold s. simpl. rewrite str_length_app. simpl. lia. }
  rewrite bool_decide_eq_true_2 by done.
  unfold s. cbn [str_drop]. rewrite Nat.sub_succ, Nat.sub_0_r, str_take_app.
  rewrite str_drop_app_S. rewrite !has_byte_app. simpl. rewrite Hl, Hpl, Hpr.
  by rewrite <- (Nat.add_1_r (S _)), <- str_drop_drop, str_drop_app_S.
Qed.

Lemma SplitHostPort_Join host port :
  no_brackets host = true -> plain_port port = true ->
  SplitHostPort (JoinHostPort host port) = Ok (host, port).
Proof.
  intros. unfold JoinHostPort. destruct (has_byte ":" host) eqn:?;
    [by apply SplitHostPort_bracket|by apply SplitHostPort_plain].
Qed.

(** The pieces of a successful split never hold a bracket, and the port never
    a colon: joining them again is always possible. *)
Lemma has_byte_drop c n s : has_byte c s = false -> has_byte c (str_drop n s) = false.
Proof.
  rewrite <- (str_take_drop n s) at 1. rewrite has_byte_app. by intros [_ ?]%orb_false_iff.
Qed.
Lemma has_byte_take c n s : has_byte c s = false -> has_byte c (str_take n s) = false.
Proof.
  rewrite <- (str_take_drop n s) at 1. rewrite has_byte_app. by intros [? _]%orb_false_iff.
Qed.
Lemma index_byte_take c s i : index_byte c s = Some i -> has_byte c (str_take i s) = false.
Proof.
  revert i; induction s as [|d s IH]; simpl; [done|]. intros i.
  destruct (byte_eqb c d) eqn:E; simpl; [by intros [= <-]|].
  destruct (index_byte c s) eqn:E2; simpl; [|done]. intros [= <-]. simpl.
  by rewrite E, IH.
Qed.
Lemma str_take_drop_comm a s : str_take a (str_drop 1 s) = str_drop 1 (str_take (S a) s).
Proof. destruct s; simpl; [by destruct a|done]. Qed.

Lemma SplitHostPort_pieces s host port :
  SplitHostPort s = Ok (host, port) -> no_brackets host = true /\ plain_port port = true.
Proof.
  unfold SplitHostPort. destruct (last_index_byte ":" s) as [i|] eqn:Ei; [|done].
  apply last_index_byte_Some in Ei as [_ Hcolon].
  rewrite !no_brackets_spec. unfold plain_port. rewrite andb_true_iff, negb_true_iff.
  rewrite no_brackets_spec.
  destruct (HasPrefix s "[") eqn:Epre.
  - destruct (index_byte "]" s) as [e|] eqn:Ee; [|done].
    case_bool_decide; [done|]. case_bool_decide as Hei; [|by destruct (HasPrefix (str_drop _ _) _); simpl].
    destruct (has_byte "[" (str_drop 1 s)) eqn:E1; [done|].
    destruct (has_byte "]" (str_drop (S e) s)) eqn:E2; [done|]. intros [= <- <-].
    rewrite <- Hei in *.
    replace (S (S e)) with (S e + 1)%nat in * by lia.
    rewrite <- (str_drop_drop 1 (S e)) in *.
    repeat split; try done; try by apply has_byte_drop.
    + by apply has_byte_take.
    + destruct e as [|e]; [done|].
      rewrite Nat.sub_succ, Nat.sub_0_r, str_take_drop_comm.
      by apply has_byte_drop, index_byte_take.
    + replace (S e) with (1 + e)%nat by lia. rewrite <- (str_drop_drop e 1).
      by apply has_byte_drop, has_byte_drop.
  - destruct (has_byte ":" (str_take i s)); [done|]. rewrite str_drop_0.
    destruct (has_byte "[" s) eqn:E1; [done|]. destruct (has_byte "]" s) eqn:E2; [done|].
    intros [= <- <-].
    repeat split; try done; try (by apply has_byte_take); by apply (has_byte_drop _ (S i)).
Qed.
