(* ===== verification/GoCodec.v ===== *)
(** * GoCodec: [encoding/base64] (standard alphabet, padded) and [encoding/hex]

    Byte slices are [string]s.  The decoder is Go's: carriage returns and line
    feeds are skipped anywhere, padding ends the input, and the unused bits of
    the last group are not checked.  The encoder and the hexadecimal decoder
    are the reference functions the round-trip theorems are stated with. *)

From S2P Require Import Prelude GoStr.

Local Open Scope N_scope.

(** ** Base64 *)
Definition b64_val (c : ascii) : option N :=
  let n := N_of_byte c in
  if (65 <=? n) && (n <=? 90) then Some (n - 65)
  else if (97 <=? n) && (n <=? 122) then Some (n - 97 + 26)
  else if (48 <=? n) && (n <=? 57) then Some (n - 48 + 52)
  else if n =? 43 then Some 62
  else if n =? 47 then Some 63
  else None.

Definition b64_char (v : N) : ascii :=
  ascii_of_N (if v <? 26 then 65 + v
              else if v <? 52 then 97 + (v - 26)
              else if v <? 62 then 48 + (v - 52)
              else if v =? 62 then 43 else 47).

Definition is_newline (c : ascii) : bool := byte_eqb c "010" || byte_eqb c "013".
Fixpoint skip_newlines (s : string) : string :=
  match s with
  | "" => ""
  | String c s' => if is_newline c then skip_newlines s' else String c (skip_newlines s')
  end.

(** One group of four characters at a time ([decodeQuantum]). *)
Fixpoint b64_groups (s : string) : option string :=
  match s with
  | "" => Some ""
  | String c0 (String c1 (String c2 (String c3 rest))) =>
      v0 ← b64_val c0; v1 ← b64_val c1;
      if byte_eqb c2 "=" then
        if byte_eqb c3 "=" && bool_decide (rest = "")
        then Some (String (ascii_of_N (v0 * 4 + v1 / 16)) "")
        else None
      else
        v2 ← b64_val c2;
        let byte0 := ascii_of_N (v0 * 4 + v1 / 16) in
        let byte1 := ascii_of_N (v1 mod 16 * 16 + v2 / 4) in
        if byte_eqb c3 "=" then
          if bool_decide (rest = "") then Some (String byte0 (String byte1 "")) else None
        else
          v3 ← b64_val c3;
          let byte2 := ascii_of_N (v2 mod 4 * 64 + v3) in
          tail ← b64_groups rest;
          Some (String byte0 (String byte1 (String byte2 tail)))
  | _ => None
  end.

(** [base64.StdEncoding.DecodeString]. *)
Definition b64_DecodeString (s : string) : result string :=
  match b64_groups (skip_newlines s) with
  | Some bytes => Ok bytes
  | None => Err (errorString "illegal base64 data")
  end.

(** [base64.StdEncoding.EncodeToString]. *)
Fixpoint b64_EncodeToString (s : string) : string :=
  match s with
  | "" => ""
  | String a "" =>
      let x := N_of_byte a in
      String (b64_char (x / 4)) (String (b64_char (x mod 4 * 16)) "==")
  | String a (String b "") =>
      let x := N_of_byte a in let y := N_of_byte b in
      String (b64_char (x / 4)) (String (b64_char (x mod 4 * 16 + y / 16))
        (String (b64_char (y mod 16 * 4)) "="))
  | String a (String b (String c rest)) =>
      let x := N_of_byte a in let y := N_of_byte b in let z := N_of_byte c in
      String (b64_char (x / 4)) (String (b64_char (x mod 4 * 16 + y / 16))
        (String (b64_char (y mod 16 * 4 + z / 64)) (String (b64_char (z mod 64))
          (b64_EncodeToString rest))))
  end.

(** ** Hexadecimal *)
Definition hex_digit (n : N) : ascii :=
  ascii_of_N (if n <? 10 then 48 + n else 97 + (n - 10)).
Definition hex_val (c : ascii) : option N :=
  let n := N_of_byte c in
  if (48 <=? n) && (n <=? 57) then Some (n - 48)
  else if (97 <=? n) && (n <=? 102) then Some (n - 97 + 10)
  else None.

(** [hex.EncodeToString]: lower case. *)
Fixpoint hex_EncodeToString (s : string) : string :=
  match s with
  | "" => ""
  | String c s' =>
      String (hex_digit (N_of_byte c / 16))
        (String (hex_digit (N_of_byte c mod 16)) (hex_EncodeToString s'))
  end.

Fixpoint hex_decode (s : string) : option string :=
  match s with
  | "" => Some ""
  | String h (String l s') =>
      x ← hex_val h; y ← hex_val l; t ← hex_decode s';
      Some (String (ascii_of_N (x * 16 + y)) t)
  | _ => None
  end.

Definition is_hex_digit (c : ascii) : bool := bool_decide (is_Some (hex_val c)).

(** ** Lemmas *)
Lemma N_of_byte_bound c : N_of_byte c < 256.
Proof. apply N_ascii_bounded. Qed.
Lemma ascii_of_N_of_byte c : ascii_of_N (N_of_byte c) = c.
Proof. apply ascii_N_embedding. Qed.

(** A statement about the numbers below a literal bound, decided by evaluation. *)
Lemma below_forall (P : N -> bool) (bound : nat) :
  forallb (fun k => P (N.of_nat k)) (seq 0 bound) = true ->
  forall v, v < N.of_nat bound -> P v = true.
Proof.
  rewrite forallb_forall. intros H v Hv. rewrite <- (N2Nat.id v). apply H, in_seq. lia.
Qed.

Ltac by_evaluation bound :=
  match goal with
  | |- forall v, v < _ -> @?P v => 
      let H := fresh in
      assert (forall v, v < N.of_nat bound -> bool_decide (P v) = true) as H
        by (apply (below_forall (fun v => bool_decide (P v))); vm_compute; reflexivity);
      let v := fresh "v" in let Hv := fresh in
      intros v Hv; apply (bool_decide_eq_true_1 _ (H v Hv))
  end.

Lemma b64_val_char : forall v, v < 64 -> b64_val (b64_char v) = Some v.
Proof. by_evaluation 64%nat. Qed.
Lemma b64_char_plain : forall v, v < 64 ->
  byte_eqb (b64_char v) "=" = false /\ is_newline (b64_char v) = false.
Proof. by_evaluation 64%nat. Qed.
Lemma hex_val_digit : forall v, v < 16 -> hex_val (hex_digit v) = Some v.
Proof. by_evaluation 16%nat. Qed.

Lemma b64_char_pad v : v < 64 -> byte_eqb (b64_char v) "=" = false.
Proof. intros H. by apply b64_char_plain. Qed.
Lemma b64_char_newline v : v < 64 -> is_newline (b64_char v) = false.
Proof. intros H. by apply b64_char_plain. Qed.

(** Three bytes at a time. *)
Lemma string_ind3 (P : string -> Prop) :
  P "" -> (forall a, P (String a "")) -> (forall a b, P (String a (String b ""))) ->
  (forall a b c s, P s -> P (String a (String b (String c s)))) -> forall s, P s.
Proof.
  intros H0 H1 H2 H3.
  refine (fix go s := match s with
          | "" => H0 | String a "" => H1 a | String a (String b "") => H2 a b
          | String a (String b (String c s')) => H3 a b c s' (go s') end).
Qed.

Ltac byte_bounds :=
  repeat match goal with
  | c : ascii |- _ =>
      lazymatch goal with
      | _ : N_of_byte c < 256 |- _ => fail
      | _ => pose proof (N_of_byte_bound c)
      end
  end.

(** The sextets of two adjacent bytes, and the bytes put back together. *)
Lemma sextet_bounds x y :
  x < 256 -> y < 256 ->
  x / 4 < 64 /\ x mod 4 * 16 < 64 /\ x mod 4 * 16 + y / 16 < 64 /\
  x mod 16 * 4 < 64 /\ x mod 16 * 4 + y / 64 < 64 /\ x mod 64 < 64.
Proof. intros. repeat split; dlia. Qed.

Lemma byte0_eq x y : x < 256 -> y < 256 ->
  x / 4 * 4 + (x mod 4 * 16 + y / 16) / 16 = x.
Proof. dlia. Qed.
Lemma byte0_eq' x : x < 256 -> x / 4 * 4 + (x mod 4 * 16) / 16 = x.
Proof. dlia. Qed.
Lemma byte1_eq x y z : y < 256 -> z < 256 ->
  (x mod 4 * 16 + y / 16) mod 16 * 16 + (y mod 16 * 4 + z / 64) / 4 = y.
Proof. dlia. Qed.
Lemma byte1_eq' x y : y < 256 ->
  (x mod 4 * 16 + y / 16) mod 16 * 16 + (y mod 16 * 4) / 4 = y.
Proof. dlia. Qed.
Lemma byte2_eq y z : z < 256 -> (y mod 16 * 4 + z / 64) mod 4 * 64 + z mod 64 = z.
Proof. dlia. Qed.

Lemma b64_groups_encode s : b64_groups (b64_EncodeToString s) = Some s.
Proof.
  induction s as [|a|a b|a b c s IH] using string_ind3; [done|..]; byte_bounds.
  - destruct (sextet_bounds (N_of_byte a) 0) as (?&?&_); [lia..|].
    cbn [b64_EncodeToString b64_groups]. rewrite !b64_val_char by lia. simpl.
    by rewrite byte0_eq', ascii_of_N_of_byte.
  - destruct (sextet_bounds (N_of_byte a) (N_of_byte b)) as (?&?&?&_); [lia..|].
    destruct (sextet_bounds (N_of_byte b) 0) as (_&_&_&?&_); [lia..|].
    cbn [b64_EncodeToString b64_groups]. rewrite !b64_val_char by lia. cbn [mbind option_bind].
    rewrite b64_char_pad by lia. simpl.
    by rewrite byte0_eq, byte1_eq', !ascii_of_N_of_byte.
  - destruct (sextet_bounds (N_of_byte a) (N_of_byte b)) as (?&?&?&_); [lia..|].
    destruct (sextet_bounds (N_of_byte b) (N_of_byte c)) as (_&_&_&_&?&_); [lia..|].
    destruct (sextet_bounds (N_of_byte c) 0) as (_&_&_&_&_&?); [lia..|].
    cbn [b64_EncodeToString b64_groups]. rewrite !b64_val_char by lia. cbn [mbind option_bind].
    rewrite !b64_char_pad by lia. rewrite IH. simpl.
    by rewrite byte0_eq, byte1_eq, byte2_eq, !ascii_of_N_of_byte.
Qed.

Lemma skip_newlines_encode s : skip_newlines (b64_EncodeToString s) = b64_EncodeToString s.
Proof.
  induction s as [|a|a b|a b c s IH] using string_ind3; [done|..]; byte_bounds.
  - destruct (sextet_bounds (N_of_byte a) 0) as (?&?&_); [lia..|].
    cbn [b64_EncodeToString skip_newlines]. by rewrite !b64_char_newline by lia.
  - destruct (sextet_bounds (N_of_byte a) (N_of_byte b)) as (?&?&?&_); [lia..|].
    destruct (sextet_bounds (N_of_byte b) 0) as (_&_&_&?&_); [lia..|].
    cbn [b64_EncodeToString skip_newlines]. by rewrite !b64_char_newline by lia.
  - destruct (sextet_bounds (N_of_byte a) (N_of_byte b)) as (?&?&?&_); [lia..|].
    destruct (sextet_bounds (N_of_byte b) (N_of_byte c)) as (_&_&_&_&?&_); [lia..|].
    destruct (sextet_bounds (N_of_byte c) 0) as (_&_&_&_&_&?); [lia..|].
    cbn [b64_EncodeToString skip_newlines]. by rewrite !b64_char_newline, IH by lia.
Qed.

Lemma b64_decode_encode s : b64_DecodeString (b64_EncodeToString s) = Ok s.
Proof. unfold b64_DecodeString. by rewrite skip_newlines_encode, b64_groups_encode. Qed.

Lemma hex_decode_encode s : hex_decode (hex_EncodeToString s) = Some s.
Proof.
  induction s as [|c s IH]; [done|]. byte_bounds. cbn [hex_EncodeToString hex_decode].
  rewrite !hex_val_digit by dlia. cbn [mbind option_bind]. rewrite IH. simpl.
  replace (N_of_byte c / 16 * 16 + N_of_byte c mod 16) with (N_of_byte c) by dlia.
  by rewrite ascii_of_N_of_byte.
Qed.

Lemma hex_encode_length s :
  String.length (hex_EncodeToString s) = (2 * String.length s)%nat.
Proof. induction s; simpl; [done|]. lia. Qed.

Lemma hex_encode_digits s : str_forall is_hex_digit (hex_EncodeToString s) = true.
Proof.
  induction s as [|c s IH]; [done|]. byte_bounds. cbn [hex_EncodeToString str_forall].
  unfold is_hex_digit at 1 2. rewrite !hex_val_digit by dlia. by rewrite IH.
Qed.
