(* ===== verification/GoNetip.v ===== *)
(** * GoNetip: [net/netip] addresses, prefixes and address-port pairs

    The textual formats the configuration uses: [ParseAddr], [ParsePrefix],
    [ParseAddrPort] and the [String] methods, over the 4 or 16 address bytes. *)

From S2P Require Import Prelude GoStr GoNet GoCodec.

Local Open Scope N_scope.

(** [netip.Addr]: the zero value, an IPv4 address, or 16 bytes with a zone. *)
Inductive Addr : Type :=
  | AddrZero
  | Addr4 (a b c d : N)
  | Addr6 (bytes : list N) (zone : string).

#[export] Instance Addr_eq_dec : EqDecision Addr.
Proof. solve_decision. Defined.

Definition Is4 (a : Addr) : bool := match a with Addr4 _ _ _ _ => true | _ => false end.
Definition Is6 (a : Addr) : bool := match a with Addr6 _ _ => true | _ => false end.
Definition Is4In6 (a : Addr) : bool :=
  match a with
  | Addr6 bs _ => bool_decide (take 12 bs = [0;0;0;0;0;0;0;0;0;0;255;255])
  | _ => false
  end.

Definition parseAddrError (msg : string) : error := errorString ("ParseAddr: " +:+ msg).

(** ** IPv4: [parseIPv4Fields] *)
Fixpoint parseIPv4Fields_go (s : string) (first prev_dot : bool) (val : N) (digLen : nat)
    (fields : list N) : result (list N) :=
  match s with
  | "" =>
      if (Nat.ltb (length fields) 3) then Err (parseAddrError "IPv4 address too short")
      else Ok (fields ++ [val])
  | String c s' =>
      if is_digit c then
        if (Nat.eqb digLen 1) && (val =? 0)
        then Err (parseAddrError "IPv4 field has octet with leading zero")
        else
          let val' := val * 10 + (N_of_byte c - 48) in
          if 255 <? val' then Err (parseAddrError "IPv4 field has value >255")
          else parseIPv4Fields_go s' false false val' (S digLen) fields
      else if byte_eqb c "." then
        if first || bool_decide (s' = "") || prev_dot
        then Err (parseAddrError "IPv4 field must have at least one digit")
        else if (Nat.eqb (length fields) 3) then Err (parseAddrError "IPv4 address too long")
        else parseIPv4Fields_go s' false true 0 0 (fields ++ [val])
      else Err (parseAddrError "unexpected character")
  end.

Definition parseIPv4Fields (s : string) : result (list N) :=
  parseIPv4Fields_go s true false 0 0 [].

Definition parseIPv4 (s : string) : result Addr :=
  try fields := parseIPv4Fields s in
  match fields with
  | [a; b; c; d] => Ok (Addr4 a b c d)
  | _ => Err (parseAddrError "IPv4 address too short")
  end.

(** ** IPv6 *)
Definition hex_val_any (c : ascii) : option N :=
  let n := N_of_byte c in
  if (48 <=? n) && (n <=? 57) then Some (n - 48)
  else if (97 <=? n) && (n <=? 102) then Some (n - 97 + 10)
  else if (65 <=? n) && (n <=? 70) then Some (n - 65 + 10)
  else None.

(** The hex number of one group: its digit count, value, and the rest. *)
Fixpoint parseHexGroup (s : string) (off : nat) (acc : N) : result (nat * N * string) :=
  match s with
  | "" => Ok (off, acc, s)
  | String c s' =>
      match hex_val_any c with
      | None => Ok (off, acc, s)
      | Some v =>
          if Nat.ltb 3 off
          then Err (parseAddrError "each group must have 4 or fewer digits")
          else parseHexGroup s' (S off) (acc * 16 + v)
      end
  end.

(** The loop [for i < 16]: every round stores at least two bytes, so eight
    rounds of fuel are the loop's own bound. *)
Fixpoint parseIPv6_loop (fuel : nat) (ip : list N) (ellipsis : option nat) (s : string)
    : result (list N * option nat * string) :=
  match fuel with
  | O => Ok (ip, ellipsis, s)
  | S f =>
      if Nat.leb 16 (length ip) then Ok (ip, ellipsis, s) else
      try (off, acc, rest) := parseHexGroup s 0 0 in
      if Nat.eqb off 0
      then Err (parseAddrError "each colon-separated field must have at least one digit")
      else if HasPrefix rest "." then
        if bool_decide (ellipsis = None) && negb (Nat.eqb (length ip) 12)
        then Err (parseAddrError "embedded IPv4 address must replace the final 2 fields of the address")
        else if Nat.ltb 16 (length ip + 4)
        then Err (parseAddrError "too many hex fields to fit an embedded IPv4 at the end of the address")
        else try v4 := parseIPv4Fields s in Ok (ip ++ v4, ellipsis, "")
      else
        let ip' := ip ++ [acc / 256; acc mod 256] in
        match rest with
        | "" => Ok (ip', ellipsis, "")
        | String c rest' =>
            if negb (byte_eqb c ":")
            then Err (parseAddrError "unexpected character, want colon")
            else match rest' with
            | "" => Err (parseAddrError "colon must be followed by more characters")
            | String c' rest'' =>
                if byte_eqb c' ":" then
                  match ellipsis with
                  | Some _ => Err (parseAddrError "multiple :: in address")
                  | None =>
                      if bool_decide (rest'' = "") then Ok (ip', Some (length ip'), "")
                      else parseIPv6_loop f ip' (Some (length ip')) rest''
                  end
                else parseIPv6_loop f ip' ellipsis rest'
            end
        end
  end.

Definition parseIPv6 (input : string) : result Addr :=
  try (s, zone) :=
    (match index_byte "%" input with
     | None => Ok (input, "")
     | Some i =>
         if bool_decide (str_drop (S i) input = "")
         then Err (parseAddrError "zone must be a non-empty string")
         else Ok (str_take i input, str_drop (S i) input)
     end) in
  let '(s, ellipsis) :=
    match strip_prefix "::" s with Some r => (r, Some 0%nat) | None => (s, None) end in
  if bool_decide (ellipsis = Some 0%nat) && bool_decide (s = "")
  then Ok (Addr6 (replicate 16 0) zone)
  else
    try (ip, ellipsis, rest) := parseIPv6_loop 8 [] ellipsis s in
    if negb (bool_decide (rest = "")) then Err (parseAddrError "trailing garbage after address")
    else if Nat.ltb (length ip) 16 then
      match ellipsis with
      | None => Err (parseAddrError "address string too short")
      | Some e => Ok (Addr6 (take e ip ++ replicate (16 - length ip) 0 ++ drop e ip) zone)
      end
    else match ellipsis with
      | Some _ => Err (parseAddrError "the :: must expand to at least one field of zeros")
      | None => Ok (Addr6 ip zone)
      end.

(** [netip.ParseAddr]: the first of [.], [:], [%] decides the family. *)
Fixpoint ParseAddr_family (s : string) : option ascii :=
  match s with
  | "" => None
  | String c s' =>
      if byte_eqb c "." || byte_eqb c ":" || byte_eqb c "%" then Some c
      else ParseAddr_family s'
  end.

Definition ParseAddr (s : string) : result Addr :=
  match ParseAddr_family s with
  | Some "."%char => parseIPv4 s
  | Some ":"%char => parseIPv6 s
  | Some _ => Err (parseAddrError "missing IPv6 address")
  | None => Err (parseAddrError "unable to parse IP")
  end.

(** ** Printing *)
Fixpoint hex_of_N_go (fuel : nat) (n : N) (acc : string) : string :=
  match fuel with
  | O => acc
  | S f =>
      let acc' := String (hex_digit (n mod 16)) acc in
      if n <? 16 then acc' else hex_of_N_go f (n / 16) acc'
  end.
(** [appendHex] of a 16-bit group: one to four lower-case digits. *)
Definition appendHex (n : N) : string := hex_of_N_go 4 n "".

Definition string4 (a b c d : N) : string :=
  utoa a +:+ "." +:+ utoa b +:+ "." +:+ utoa c +:+ "." +:+ utoa d.

Fixpoint groups_of (bs : list N) : list N :=
  match bs with
  | h :: l :: bs' => h * 256 + l :: groups_of bs'
  | _ => []
  end.

Fixpoint zero_run (gs : list N) : nat :=
  match gs with 0 :: gs' => S (zero_run gs') | _ => O end.

(** The first longest run of at least two zero groups, as in [appendTo6]. *)
Fixpoint longest_zeros (gs : list N) (i : nat) (best : option (nat * nat)) : option (nat * nat) :=
  match gs with
  | [] => best
  | _ :: gs' =>
      let l := zero_run gs in
      let bestlen := match best with Some (s, e) => (e - s)%nat | None => O end in
      longest_zeros gs' (S i)
        (if Nat.leb 2 l && Nat.ltb bestlen l then Some (i, (i + l)%nat) else best)
  end.

Fixpoint join_groups (gs : list N) : string :=
  match gs with
  | [] => ""
  | [g] => appendHex g
  | g :: gs' => appendHex g +:+ ":" +:+ join_groups gs'
  end.

Definition string6 (bs : list N) (zone : string) : string :=
  let gs := groups_of bs in
  let body :=
    match longest_zeros gs 0 None with
    | None => join_groups gs
    | Some (s, e) => join_groups (take s gs) +:+ "::" +:+ join_groups (drop e gs)
    end in
  if bool_decide (zone = "") then body else body +:+ "%" +:+ zone.

Definition Addr_String (a : Addr) : string :=
  match a with
  | AddrZero => "invalid IP"
  | Addr4 a b c d => string4 a b c d
  | Addr6 bs zone =>
      if Is4In6 (Addr6 bs zone) then
        match drop 12 bs with
        | [a; b; c; d] =>
            "::ffff:" +:+ string4 a b c d +:+ (if bool_decide (zone = "") then "" else "%" +:+ zone)
        | _ => string6 bs zone
        end
      else string6 bs zone
  end.

(** ** Prefixes *)
Record Prefix := mkPrefix { Prefix_Addr : Addr; Prefix_Bits : Z }.

#[export] Instance Prefix_eq_dec : EqDecision Prefix.
Proof. solve_decision. Defined.

Definition parsePrefixError (msg : string) : error :=
  errorString ("netip.ParsePrefix: " +:+ msg).

Definition ParsePrefix (s : string) : result Prefix :=
  match last_index_byte "/" s with
  | None => Err (parsePrefixError "no '/'")
  | Some i =>
      match ParseAddr (str_take i s) with
      | Err e => Err (parsePrefixError (Error e))
      | Ok ip =>
          if match ip with Addr6 _ z => negb (bool_decide (z = "")) | _ => false end
          then Err (parsePrefixError "IPv6 zones cannot be present in a prefix")
          else
            let bitsStr := str_drop (S i) s in
            if Nat.ltb 1 (String.length bitsStr) &&
               match bitsStr with
               | String c _ => (N_of_byte c <? 49) || (57 <? N_of_byte c)
               | "" => false
               end
            then Err (parsePrefixError "bad bits after slash")
            else match Atoi bitsStr with
            | Err _ => Err (parsePrefixError "bad bits after slash")
            | Ok bits =>
                let maxBits := if Is6 ip then 128%Z else 32%Z in
                if bool_decide (bits < 0)%Z || bool_decide (maxBits < bits)%Z
                then Err (parsePrefixError "prefix length out of range")
                else Ok (mkPrefix ip bits)
            end
      end
  end.

Definition Prefix_String (p : Prefix) : string :=
  Addr_String (Prefix_Addr p) +:+ "/" +:+ Itoa (Prefix_Bits p).

(** ** Address and port *)
Record AddrPort := mkAddrPort { AddrPort_Addr : Addr; AddrPort_Port : Z }.

#[export] Instance AddrPort_eq_dec : EqDecision AddrPort.
Proof. solve_decision. Defined.

(** [AddrPort.IsValid]: the address is not the zero value. *)
Definition AddrPort_IsValid (p : AddrPort) : bool :=
  match AddrPort_Addr p with AddrZero => false | _ => true end.

(** [AddrPort.String], and [net.TCPAddr.String] of the same pair: a [net.IP]
    prints an IPv4-mapped address as IPv4. *)
Definition AddrPort_String (p : AddrPort) : string :=
  if AddrPort_IsValid p then JoinHostPort (Addr_String (AddrPort_Addr p)) (Itoa (AddrPort_Port p))
  else "invalid AddrPort".

(** The [String] method of [net.IPAddr]: no address prints as nothing. *)
Definition IPAddr_String (a : Addr) : string :=
  match a with
  | AddrZero => ""
  | Addr6 bs zone =>
      if Is4In6 (Addr6 bs zone) then
        match drop 12 bs with
        | [a; b; c; d] =>
            string4 a b c d +:+ (if bool_decide (zone = "") then "" else "%" +:+ zone)
        | _ => string6 bs zone
        end
      else string6 bs zone
  | Addr4 a b c d => string4 a b c d
  end.
Definition TCPAddr_String (p : AddrPort) : string :=
  JoinHostPort (IPAddr_String (AddrPort_Addr p)) (Itoa (AddrPort_Port p)).

(** [netip.ParseAddrPort], with the splitting of [splitAddrPort]. *)
Definition ParseAddrPort (s : string) : result AddrPort :=
  match last_index_byte ":" s with
  | None => Err (errorString "not an ip:port")
  | Some i =>
      let ip := str_take i s in
      let port := str_drop (S i) s in
      if bool_decide (ip = "") then Err (errorString "no IP")
      else if bool_decide (port = "") then Err (errorString "no port")
      else
        try (ip, v6) :=
          (if HasPrefix ip "[" then
             if Nat.ltb (String.length ip) 2 || negb (HasSuffix ip "]")
             then Err (errorString "missing ]")
             else Ok (str_take (String.length ip - 2) (str_drop 1 ip), true)
           else Ok (ip, false)) in
        match parse_uint port with
        | None => Err (errorString "invalid port")
        | Some p =>
            if bool_decide (65535 < p)%Z then Err (errorString "invalid port") else
            try a := ParseAddr ip in
            if v6 && Is4 a
            then Err (errorString "square brackets can only be used with IPv6 addresses")
            else if negb v6 && Is6 a
            then Err (errorString "IPv6 addresses must be surrounded by square brackets")
            else Ok (mkAddrPort a p)
        end
  end.

(** ** Well-formed results *)
Definition is_byte (n : N) : Prop := n < 256.

Definition wf_Addr (a : Addr) : Prop :=
  match a with
  | AddrZero => False
  | Addr4 a b c d => is_byte a /\ is_byte b /\ is_byte c /\ is_byte d
  | Addr6 bs _ => length bs = 16%nat /\ Forall is_byte bs
  end.

Definition wf_Prefix (p : Prefix) : Prop :=
  wf_Addr (Prefix_Addr p) /\
  match Prefix_Addr p with
  | Addr6 _ zone => zone = "" /\ (0 <= Prefix_Bits p <= 128)%Z
  | _ => (0 <= Prefix_Bits p <= 32)%Z
  end.

Lemma parseIPv4Fields_go_wf s first dot val dl fields fs :
  (length fields <= 3)%nat -> Forall is_byte fields -> is_byte val ->
  parseIPv4Fields_go s first dot val dl fields = Ok fs ->
  length fs = 4%nat /\ Forall is_byte fs.
Proof.
  revert first dot val dl fields.
  induction s as [|c s IH]; intros first dot val dl fields Hlen Hall Hval; simpl.
  - destruct (Nat.ltb_spec (length fields) 3); [done|]. intros [= <-].
    rewrite length_app. simpl. split; [lia|]. by apply Forall_app_2; [|constructor].
  - destruct (is_digit c).
    + destruct (_ && _); [done|]. destruct (N.ltb_spec 255 (val * 10 + (N_of_byte c - 48))); [done|].
      apply IH; [done..|]. unfold is_byte. lia.
    + destruct (byte_eqb c "."); [|done]. destruct (_ || _); [done|].
      destruct (Nat.eqb_spec (length fields) 3); [done|]. apply IH.
      * rewrite length_app. simpl. lia.
      * by apply Forall_app_2; [|constructor].
      * by unfold is_byte.
Qed.

Lemma parseIPv4Fields_wf s fs :
  parseIPv4Fields s = Ok fs -> length fs = 4%nat /\ Forall is_byte fs.
Proof. apply parseIPv4Fields_go_wf; [simpl; lia|constructor|by unfold is_byte]. Qed.

Lemma parseIPv4_wf s a : parseIPv4 s = Ok a -> wf_Addr a.
Proof.
  unfold parseIPv4. destruct (parseIPv4Fields s) as [fs|] eqn:E; [|done].
  apply parseIPv4Fields_wf in E as [_ H].
  destruct fs as [|? [|? [|? [|? [|]]]]]; try done. intros [= <-].
  by repeat (apply Forall_cons in H as [? H]).
Qed.

Lemma hex_val_any_bound c v : hex_val_any c = Some v -> v < 16.
Proof.
  unfold hex_val_any. intros H.
  repeat (case_match; [apply andb_true_iff in H0 as [?%N.leb_le ?%N.leb_le];
    simplify_eq; lia|clear H0]). done.
Qed.

Lemma parseHexGroup_bound s off acc off' acc' rest :
  acc < 16 ^ N.of_nat off -> (off <= 4)%nat ->
  parseHexGroup s off acc = Ok (off', acc', rest) -> acc' < 65536.
Proof.
  revert off acc; induction s as [|c s IH]; intros off acc Hacc Hoff; simpl.
  - intros [= <- <- <-]. eapply N.lt_le_trans; [exact Hacc|].
    change 65536 with (16 ^ 4). apply N.pow_le_mono_r; lia.
  - destruct (hex_val_any c) as [v|] eqn:Ev.
    + destruct (Nat.ltb_spec 3 off); [done|]. apply IH; [|lia].
      apply hex_val_any_bound in Ev. rewrite Nat2N.inj_succ, N.pow_succ_r'. lia.
    + intros [= <- <- <-]. eapply N.lt_le_trans; [exact Hacc|].
      change 65536 with (16 ^ 4). apply N.pow_le_mono_r; lia.
Qed.

Lemma group_bytes acc : acc < 65536 -> Forall is_byte [acc / 256; acc mod 256].
Proof.
  intros. unfold is_byte. repeat constructor; [apply N.Div0.div_lt_upper_bound; lia|].
  by apply N.mod_lt.
Qed.

Lemma parseIPv6_loop_wf fuel ip ell s ip' ell' rest :
  (length ip <= 16)%nat -> Nat.Even (length ip) -> Forall is_byte ip ->
  parseIPv6_loop fuel ip ell s = Ok (ip', ell', rest) ->
  (length ip' <= 16)%nat /\ Forall is_byte ip'.
Proof.
  revert ip ell s; induction fuel as [|f IH]; intros ip ell s Hlen Hev Hall;
    cbn [parseIPv6_loop]; [by intros [= <- <- <-]|].
  destruct (Nat.leb_spec 16 (length ip)); [by intros [= <- <- <-]|].
  destruct (parseHexGroup s 0 0) as [[[off acc] r]|] eqn:Eh; [|done].
  apply parseHexGroup_bound in Eh; [|simpl; lia..].
  destruct (Nat.eqb off 0); [done|].
  destruct (HasPrefix r ".").
  { destruct (_ && _); [done|]. destruct (Nat.ltb_spec 16 (length ip + 4)); [done|].
    destruct (parseIPv4Fields s) as [v4|] eqn:E4; [|done].
    apply parseIPv4Fields_wf in E4 as [? ?]. intros [= <- <- <-].
    rewrite length_app. split; [lia|]. by apply Forall_app_2. }
  assert (length (ip ++ [acc / 256; acc mod 256]) = S (S (length ip))) as El
    by (rewrite length_app; simpl; lia).
  assert (S (S (length ip)) <= 16)%nat as Hle by (destruct Hev as [m ?]; lia).
  assert (Nat.Even (S (S (length ip)))) as Hev' by (destruct Hev as [m ?]; exists (S m); lia).
  assert (Forall is_byte (ip ++ [acc / 256; acc mod 256])) as Hall'
    by (by apply Forall_app_2, group_bytes).
  rewrite <- El in Hle, Hev'.
  intros Hres. repeat (case_match; simplify_eq/=); eauto.
Qed.

Lemma parseIPv6_wf s a : parseIPv6 s = Ok a -> wf_Addr a.
Proof.
  unfold parseIPv6. destruct (match index_byte "%" s with Some _ => _ | None => _ end)
    as [[s' zone]|]; [|done].
  destruct (match strip_prefix "::" s' with Some _ => _ | None => _ end) as [s'' ell].
  case_match; [intros [= <-]; by repeat constructor|].
  destruct (parseIPv6_loop 8 [] ell s'') as [[[ip ell'] rest]|] eqn:E; [|done].
  apply parseIPv6_loop_wf in E as [Hlen Hall]; [|simpl; lia|by exists 0%nat|constructor].
  case_match; [done|]. destruct (Nat.ltb_spec (length ip) 16).
  - destruct ell' as [e|]; [|done]. intros [= <-]. split.
    + rewrite !length_app, length_take, length_replicate, length_drop. lia.
    + repeat apply Forall_app_2; [by apply Forall_take| |by apply Forall_drop].
      apply Forall_replicate. by unfold is_byte.
  - destruct ell'; [done|]. intros [= <-]. split; [lia|done].
Qed.

Lemma ParseAddr_wf s a : ParseAddr s = Ok a -> wf_Addr a.
Proof.
  unfold ParseAddr. intros H. repeat (case_match; try done);
    eauto using parseIPv4_wf, parseIPv6_wf.
Qed.

Lemma ParsePrefix_wf s p : ParsePrefix s = Ok p -> wf_Prefix p.
Proof.
  unfold ParsePrefix. destruct (last_index_byte "/" s) as [i|]; [|done].
  destruct (ParseAddr (str_take i s)) as [ip|] eqn:E; [|done]. apply ParseAddr_wf in E.
  destruct (match ip with Addr6 _ _ => _ | _ => _ end) eqn:Ez; [done|].
  destruct (_ && _); [done|]. destruct (Atoi _) as [bits|]; [|done].
  destruct (bool_decide (bits < 0)%Z) eqn:E1; [done|].
  apply bool_decide_eq_false in E1. simpl.
  case_bool_decide; [done|]. intros [= <-]. unfold wf_Prefix. simpl. split; [done|].
  destruct ip as [|? ? ? ?|bs zone]; simpl in *; [done|lia|].
  apply negb_false_iff, bool_decide_eq_true in Ez. split; [done|lia].
Qed.

#[export] Hint Resolve ParseAddr_wf ParsePrefix_wf : go.
