(* ===== verification/GoPath.v ===== *)
(** * GoPath: [path.Clean] and the Unix [path/filepath] functions *)

From S2P Require Import Prelude GoStr.

(** The elements of the cleaned path, innermost first.  [..] removes the
    previous element unless there is none to remove (then a rooted path drops
    it and a relative one keeps it). *)
Fixpoint clean_elems (rooted : bool) (comps stack : list string) : list string :=
  match comps with
  | [] => stack
  | c :: comps' =>
      if bool_decide (c = "") || bool_decide (c = ".") then clean_elems rooted comps' stack
      else if bool_decide (c = "..") then
        match stack with
        | top :: stack' =>
            if bool_decide (top = "..") then clean_elems rooted comps' (c :: stack)
            else clean_elems rooted comps' stack'
        | [] => clean_elems rooted comps' (if rooted then [] else [c])
        end
      else clean_elems rooted comps' (c :: stack)
  end.

(** [path.Clean]; [filepath.Clean] is the same function on Unix. *)
Definition Clean (p : string) : string :=
  if bool_decide (p = "") then "." else
  let rooted := HasPrefix p "/" in
  let body := Join (reverse (clean_elems rooted (Split p "/") [])) "/" in
  if rooted then "/" +:+ body
  else if bool_decide (body = "") then "." else body.

Fixpoint strip_trailing_slashes_go (rev_s : string) : string :=
  match rev_s with
  | String "/" s' => strip_trailing_slashes_go s'
  | _ => rev_s
  end.
Definition strip_trailing_slashes (s : string) : string :=
  str_rev (strip_trailing_slashes_go (str_rev s)).

(** [filepath.Base]. *)
Definition Base (p : string) : string :=
  if bool_decide (p = "") then "." else
  let p := strip_trailing_slashes p in
  let p := match last_index_byte "/" p with Some i => str_drop (S i) p | None => p end in
  if bool_decide (p = "") then "/" else p.

(** [filepath.Dir]. *)
Definition Dir (p : string) : string :=
  Clean (match last_index_byte "/" p with Some i => str_take (S i) p | None => "" end).

(** [filepath.Join] of two elements: empty ones are ignored. *)
Definition filepath_Join (a c : string) : string :=
  if bool_decide (a = "") then (if bool_decide (c = "") then "" else Clean c)
  else if bool_decide (c = "") then Clean a
  else Clean (a +:+ "/" +:+ c).

(** ** Lemmas *)

(** A path element as the cleaned path lists it. *)
Definition plain_elem (c : string) : Prop :=
  c <> "" /\ c <> "." /\ c <> ".." /\ has_byte "/" c = false.

Lemma Split_pieces s sep : Forall (fun x => has_byte sep x = false) (Split s sep).
Proof.
  induction s as [|c s IH]; simpl; [by constructor|].
  destruct (byte_eqb c sep) eqn:E; [by constructor|].
  destruct (Split s sep) as [|p ps]; inversion IH; subst.
  - constructor; [|done]. simpl. by rewrite byte_eqb_sym, E.
  - constructor; [|done]. simpl. by rewrite byte_eqb_sym, E.
Qed.

Lemma clean_elems_rooted comps stack :
  Forall (fun x => has_byte "/" x = false) comps ->
  Forall plain_elem stack -> Forall plain_elem (clean_elems true comps stack).
Proof.
  intros Hc; revert stack; induction Hc as [|c comps Hc _ IH]; intros stack Hs; simpl; [done|].
  repeat case_bool_decide; simpl; auto.
  - destruct stack as [|top stack']; [by auto|].
    apply Forall_cons in Hs as [(_ & _ & Htop & _) Hs].
    by rewrite bool_decide_eq_false_2 by done; auto.
  - apply IH. constructor; [|done]. by repeat split.
Qed.

(** A rooted path is cleaned to a rooted path with no empty, [.] or [..]
    element: it never climbs above the root. *)
Lemma Clean_rooted p :
  HasPrefix p "/" = true ->
  exists elems, Clean p = "/" +:+ Join elems "/" /\ Forall plain_elem elems.
Proof.
  intros Hp. unfold Clean. rewrite bool_decide_eq_false_2 by (by intros ->). rewrite Hp.
  eexists. split; [reflexivity|]. apply Forall_reverse.
  apply clean_elems_rooted; [apply Split_pieces|constructor].
Qed.

Lemma clean_elems_plain rooted comps stack :
  Forall plain_elem comps -> clean_elems rooted comps stack = reverse comps ++ stack.
Proof.
  intros H; revert stack; induction H as [|c comps (?&?&?&?) _ IH]; intros stack; simpl; [done|].
  rewrite !bool_decide_eq_false_2 by done. simpl. rewrite IH.
  by rewrite reverse_cons, <- (assoc_L (++)).
Qed.

Lemma Join_Split s sep : Join (Split s sep) sep = s.
Proof.
  induction s as [|c s IH]; [done|]. cbn [Split].
  destruct (Split_cons s sep) as (p & ps & E). rewrite E in *.
  destruct (byte_eqb c sep) eqn:Ec.
  - apply byte_eqb_eq in Ec as ->. change (Join ("" :: p :: ps) sep) with (String sep (Join (p :: ps) sep)).
    by rewrite IH.
  - rewrite <- IH. by destruct ps.
Qed.

(** A cleaned rooted path is a fixed point. *)
Lemma Clean_rooted_plain elems :
  Forall plain_elem elems -> Clean ("/" +:+ Join elems "/") = "/" +:+ Join elems "/".
Proof.
  intros H. unfold Clean. rewrite bool_decide_eq_false_2 by done.
  assert (HasPrefix ("/" +:+ Join elems "/") "/" = true) as ->.
  { apply HasPrefix_spec. by eexists. }
  assert (Forall (fun x => has_byte "/" x = false) elems) as Hs.
  { eapply Forall_impl; [exact H|]. by intros ? (?&?&?&?). }
  destruct elems as [|e elems]; [done|].
  change ("/" +:+ Join (e :: elems) "/") with ("" +:+ String "/" (Join (e :: elems) "/")).
  rewrite Split_app, Split_Join by done.
  change (clean_elems true ("" :: e :: elems) []) with (clean_elems true (e :: elems) []).
  rewrite (clean_elems_plain _ _ _ H).
  by rewrite app_nil_r, reverse_involutive.
Qed.
