(* ===== verification/Ini.v ===== *)
(** * Ini: the third-party and environment interfaces of the configuration parser

    [github.com/go-ini/ini], the [regexp] engine and the process environment
    are not code of the repository.  They are type classes
    whose operations are arguments of the model; [IniLaws] states what go-ini
    documents about missing keys and about case-insensitive loading. *)

From S2P Require Import Prelude GoStr.

(** What [ini.LoadSources] is given: a path ([string]) or raw content ([[]byte]). *)
Inductive ini_source : Type :=
  | SourcePath (path : string)
  | SourceBytes (text : string).

Class IniLib := {
  ini_File : Type;
  ini_Section : Type;
  ini_Key : Type;
  LoadBytes : string -> result ini_File;       (* [ini.LoadSources] of raw content *)
  SectionsByName : ini_File -> string -> result (list ini_Section);
  GetSection : ini_File -> string -> result ini_Section;
  File_Section : ini_File -> string -> ini_Section;
  (** [section.Key(name)], [None] for a nil pointer *)
  Section_Key : ini_Section -> string -> option ini_Key;
  GetKey : ini_Section -> string -> result ini_Key;
  Key_String : ini_Key -> string;
  Key_Int : ini_Key -> result Z;
  Key_Bool : ini_Key -> result bool;
  Key_ValueWithShadows : ini_Key -> list string
}.

(** go-ini: [Key] "returns a zero-value" when the named key does not exist, so
    it is never nil; names are lower-cased on load and on look-up. *)
Class IniLaws `{UnicodeTables, IniLib} : Prop := {
  Key_absent section name e :
    GetKey section name = Err e ->
    exists k, Section_Key section name = Some k /\ Key_String k = "";
  Key_present section name k :
    GetKey section name = Ok k -> Section_Key section name = Some k;
  GetKey_insensitive section name : GetKey section (ToLower name) = GetKey section name
}.

Class RegexpLib := {
  Regexp : Type;
  Regexp_Compile : string -> result Regexp;
  MatchString : Regexp -> string -> bool
}.

(** [*net.TCPAddr] *)
Record TCPAddr := mkTCPAddr { TCPAddr_IP : string; TCPAddr_Port : Z }.

(** The environment variables. *)
Class ConfigEnv := { LookupEnv : string -> option string }.

(** ** An in-memory go-ini

    Used by the concrete examples: a file is a list of sections in order of
    appearance, a section a list of keys with their values, names in lower
    case; [load] gives the meaning of a text. *)
Module MemIni.
Definition section : Type := list (string * list string).
Definition file : Type := list (string * section).

Fixpoint assoc {A} (k : string) (l : list (string * A)) : option A :=
  match l with
  | [] => None
  | (k', v) :: l' => if bool_decide (k = k') then Some v else assoc k l'
  end.

Definition get_key (s : section) (name : string) : result (list string) :=
  match assoc (lower_ascii name) s with
  | Some vs => Ok vs
  | None => Err (errorString "error when getting key of section: key not exists")
  end.

Definition sections (f : file) (name : string) : list section :=
  omap (fun '(n, s) => if bool_decide (n = lower_ascii name) then Some s else None) f.

Definition first (vs : list string) : string := default "" (head vs).

Definition parse_bool (s : string) : result bool :=
  if bool_decide (s = "true") then Ok true
  else if bool_decide (s = "false") then Ok false
  else Err (errorString "parsing bool: invalid syntax").

Definition lib (load : string -> result file) : IniLib := {|
  ini_File := file;
  ini_Section := section;
  ini_Key := list string;
  LoadBytes := load;
  SectionsByName f n :=
    match sections f n with
    | [] => Err (errorString "section does not exist")
    | ss => Ok ss
    end;
  GetSection f n :=
    match sections f n with
    | [] => Err (errorString "section does not exist")
    | s :: _ => Ok s
    end;
  File_Section f n := match sections f n with [] => [] | s :: _ => s end;
  Section_Key s n := match get_key s n with Ok vs => Some vs | Err _ => Some [] end;
  GetKey := get_key;
  Key_String := first;
  Key_Int vs := Atoi (first vs);
  Key_Bool vs := parse_bool (first vs);
  Key_ValueWithShadows vs := vs
|}.

Definition tables : UnicodeTables := {| unicode_ToLower := lower_ascii |}.

Lemma laws load : @IniLaws tables (lib load).
Proof.
  split; simpl.
  - intros s n e H. rewrite H. by eexists.
  - intros s n k H. by rewrite H.
  - intros s n. unfold ToLower, get_key, tables. cbn [unicode_ToLower].
    by destruct (all_ascii n); rewrite lower_ascii_idem.
Qed.
End MemIni.
