(* ===== verification/ConfigTypes.v ===== *)
(** * ConfigTypes: the data of [config.go] and the routine values of [routine.go]

    One Module per configuration struct, its record with the source's fields.
    The unexported run-time fields are part of the record: [listener] and
    [done] hold what [Bind] acquired ([None] is nil), [closed] is the
    [shutdown] mix-in. *)

From S2P Require Import Prelude GoStr GoNetip Ini.

(** An open file or socket of the process. *)
Definition handle := nat.

(** [done chan struct{}]: nil, or a channel that is open or closed. *)
Inductive chan_state := ChanOpen | ChanClosed.
#[export] Instance chan_state_eq_dec : EqDecision chan_state.
Proof. solve_decision. Defined.

Record addressPort := mkAddressPort { address : string; port : Z }.
#[export] Instance addressPort_eq_dec : EqDecision addressPort.
Proof. solve_decision. Defined.

Module PeerConfig.
Record t := mk {
  PublicKey : string;
  PreSharedKey : string;
  Endpoint : option string;
  KeepAlive : Z;
  AllowedIPs : list Prefix
}.
End PeerConfig.

Module DeviceConfig.
Record t := mk {
  SecretKey : string;
  Endpoint : list Addr;
  Peers : list PeerConfig.t;
  DNS : list Addr;
  MTU : Z;
  ListenPort : option Z;
  CheckAlive : list Addr;
  CheckAliveInterval : Z
}.
(** The zero value of the struct. *)
Definition zero : t := mk "" [] [] [] 0 None [] 0.

Definition set_SecretKey v d := mk v (Endpoint d) (Peers d) (DNS d) (MTU d) (ListenPort d) (CheckAlive d) (CheckAliveInterval d).
Definition set_Endpoint v d := mk (SecretKey d) v (Peers d) (DNS d) (MTU d) (ListenPort d) (CheckAlive d) (CheckAliveInterval d).
Definition set_Peers v d := mk (SecretKey d) (Endpoint d) v (DNS d) (MTU d) (ListenPort d) (CheckAlive d) (CheckAliveInterval d).
Definition set_DNS v d := mk (SecretKey d) (Endpoint d) (Peers d) v (MTU d) (ListenPort d) (CheckAlive d) (CheckAliveInterval d).
Definition set_MTU v d := mk (SecretKey d) (Endpoint d) (Peers d) (DNS d) v (ListenPort d) (CheckAlive d) (CheckAliveInterval d).
Definition set_ListenPort v d := mk (SecretKey d) (Endpoint d) (Peers d) (DNS d) (MTU d) v (CheckAlive d) (CheckAliveInterval d).
Definition set_CheckAlive v d := mk (SecretKey d) (Endpoint d) (Peers d) (DNS d) (MTU d) (ListenPort d) v (CheckAliveInterval d).
Definition set_CheckAliveInterval v d := mk (SecretKey d) (Endpoint d) (Peers d) (DNS d) (MTU d) (ListenPort d) (CheckAlive d) v.
End DeviceConfig.

Module UDPProxyTunnelConfig.
Record t := mk {
  BindAddress : string;
  Target : string;
  InactivityTimeout : Z;
  listener : option handle;
  done : option chan_state;
  closed : bool
}.
Definition zero : t := mk "" "" 0 None None false.
End UDPProxyTunnelConfig.

Module TCPClientTunnelConfig.
Record t := mk {
  BindAddress : TCPAddr;
  Target : string;
  listener : option handle;
  raddr : option addressPort;
  closed : bool
}.
End TCPClientTunnelConfig.

Module STDIOTunnelConfig.
Record t := mk {
  Target : string;
  Input : handle;
  Output : handle;
  raddr : option addressPort
}.
End STDIOTunnelConfig.

(** [os.Stdin] and [os.Stdout] *)
Definition os_Stdin : handle := 0.
Definition os_Stdout : handle := 1.

Module TCPServerTunnelConfig.
Record t := mk {
  ListenPort : Z;
  Target : string;
  listener : option handle;
  raddr : option addressPort;
  closed : bool
}.
End TCPServerTunnelConfig.

Module UDPServerTunnelConfig.
Record t := mk {
  ListenPort : Z;
  Target : string;
  InactivityTimeout : Z;
  listener : option handle;
  targetAddr : option string;
  done : option chan_state;
  closed : bool
}.
End UDPServerTunnelConfig.

Module Socks5Config.
Record t `{RegexpLib} := mk {
  BindAddress : string;
  Username : string;
  Password : string;
  TunnelDomains : list Regexp;
  LogDomains : bool;
  listener : option handle;
  closed : bool
}.
Arguments mk {_} _ _ _ _ _ _ _.
End Socks5Config.

Module SNIConfig.
Record t `{RegexpLib} := mk {
  BindAddress : string;
  TunnelDomains : list Regexp;
  LogDomains : bool;
  listener : option handle;
  closed : bool
}.
Arguments mk {_} _ _ _ _ _.
End SNIConfig.

Module HTTPConfig.
Record t `{RegexpLib} := mk {
  BindAddress : string;
  Username : string;
  Password : string;
  CertFile : string;
  KeyFile : string;
  TunnelDomains : list Regexp;
  LogDomains : bool;
  listener : option handle;
  closed : bool
}.
Arguments mk {_} _ _ _ _ _ _ _ _ _.
End HTTPConfig.

Module ResolveConfig.
Record t := mk { ResolveStrategy : string }.
End ResolveConfig.

(** A value of the interface [RoutineSpawner]: its dynamic type and the struct
    it points to. *)
Inductive RoutineSpawner `{RegexpLib} : Type :=
  | TCPClientTunnel (c : TCPClientTunnelConfig.t)
  | STDIOTunnel (c : STDIOTunnelConfig.t)
  | TCPServerTunnel (c : TCPServerTunnelConfig.t)
  | Socks5 (c : Socks5Config.t)
  | HTTP (c : HTTPConfig.t)
  | SNI (c : SNIConfig.t)
  | UDPServerTunnel (c : UDPServerTunnelConfig.t)
  | UDPProxyTunnel (c : UDPProxyTunnelConfig.t).

Module Configuration.
Record t `{RegexpLib} := mk {
  Device : DeviceConfig.t;
  Routines : list RoutineSpawner;
  Resolve : ResolveConfig.t
}.
Arguments mk {_} _ _ _.
End Configuration.

(** [VirtualTun] without its references to the running device: the fields the
    program itself reads and writes.  [PingRecord] maps an address to the Unix
    time of its last answered ping. *)
Module VirtualTun.
Record t := mk {
  SystemDNS : bool;
  Conf : DeviceConfig.t;
  ResolveConfig : ResolveConfig.t;
  PingRecord : gmap string Z
}.
End VirtualTun.
