(* ===== verification/World.v ===== *)
(** * World: the effects of the program

    What a handler asks of the operating system, of the WireGuard network stack
    or of a third-party package is an [op]; the environment answers it with a
    value of type [ans op], which may depend on everything that happened
    before.  A handler is a computation [M A]: it maps the trace so far to its
    result and the longer trace.  Theorems quantify over the environment. *)

From S2P Require Import Prelude GoStr GoNetip Ini ConfigTypes.

(** The two networks: the tunnel's netstack ([vt.Tnet]) and the host's [net]. *)
Inductive side := Tunnel | Direct.
#[export] Instance side_eq_dec : EqDecision side.
Proof. solve_decision. Defined.

(** What a goroutine copies between: a connection, or a connection whose
    already consumed bytes are read again first ([io.MultiReader]). *)
Inductive stream :=
  | Conn (h : handle)
  | Replay (peeked : string) (h : handle).
#[export] Instance stream_eq_dec : EqDecision stream.
Proof. solve_decision. Defined.

(** The goroutines the handlers start. *)
Inductive thread :=
  | ConnForward (from to : stream)                                  (* connForward(from, to) *)
  | CopyThenClose (dst src : handle) (first_closed second_closed : handle)  (* the two of serve *)
  | HandleConn (conn : handle)                       (* the handler of an accepted connection *)
  | StdioForward                                     (* STDIOTcpForward *)
  | PingReply (socket : handle) (addr : Addr) (seq : nat) (data : string)
  | PingLoop
  | ServeRoutine (index : nat)                       (* Serve, fatal if it fails *)
  | HealthServer (addr : string).
#[export] Instance thread_eq_dec : EqDecision thread.
Proof. solve_decision. Defined.

(** An HTTP request as [http.ReadRequest] returns it. *)
Record Request := mkRequest {
  Method : string;
  Host : string;
  Proto : string;
  ProtoMajor : Z;
  ProtoMinor : Z;
  Header_Get : string -> string
}.

(** An HTTP response the proxy itself sends. *)
Record Response := mkResponse {
  StatusCode : Z;
  Status : string;
  Response_Proto : string;
  Response_ProtoMajor : Z;
  Response_ProtoMinor : Z;
  Response_Header : list (string * string);
  Body : string
}.

(** The body of an ICMP message, as [icmp.ParseMessage] returns it. *)
Inductive icmp_body :=
  | Echo (id seq : Z) (data : string)
  | RawBody (data : string)
  | OtherBody.

(** The rules of the Landlock sandbox. *)
Inductive rule :=
  | RODirs (path : string)
  | ROFiles (path : string)
  | RWFiles (path : string)
  | BindTCP (port : Z)
  | ConnectTCP (port : Z).
#[export] Instance rule_eq_dec : EqDecision rule.
Proof. solve_decision. Defined.

Inductive op : Type :=
  | OLog (msg : string)
  | OLookupHost (on : side) (name : string)
  | OIntn (n : nat)
  | ODial (on : side) (network addr : string)
  | ODialTCP (on : side) (addr : AddrPort)
  | OListen (on : side) (network addr : string)
  | OListenTCP (addr : TCPAddr)                       (* net.ListenTCP *)
  | OListenPort (network : string) (port : Z)         (* on the WireGuard interface *)
  | OListenTLS (network addr certFile keyFile : string)
  | OLoadX509KeyPair (certFile keyFile : string)
  | OResolveUDPAddr (network addr : string)
  | OReadRequest (conn : handle)
  | OWrite (conn : handle) (data : string)
  | OWriteRequest (conn : handle)
  | OWriteResponse (conn : handle) (resp : Response)
  | OSetReadDeadline (conn : handle) (after : option Z)
  | OCopy (dst src : stream)
  | OClose (conn : handle)
  | ORead (conn : handle)
  | ORandRead (n : nat)                               (* crypto/rand *)
  | ONow
  | OMarshalEcho (v6 : bool) (seq : nat) (data : string)
  | OParseICMP (packet : string)
  | ODialUDP (network : string) (peer : AddrPort)
  | OCreateNetTUN (addrs dns : list Addr) (mtu : Z)
  | ONewDevice (client_only : option AddrPort)
  | OIpcSet (request : string)
  | OIpcGet
  | ODeviceUp
  | OReadFile (path : string)                         (* the whole file *)
  | OResolveTCPAddr (network addr : string)           (* net.ResolveTCPAddr *)
  | OResolveIPAddr (network host : string)            (* net.ResolveIPAddr *)
  | OPreferGo                                         (* net.DefaultResolver.PreferGo = true *)
  | OOpen (path : string)                             (* os.Open *)
  | OPledge (promises : string)
  | OUnveil (path flags : string)
  | ORestrictPaths (rules : list rule)
  | ORestrictNet (rules : list rule)
  | OStat (path : string)
  | OExecutable                                       (* os.Executable *)
  | OPrint (msg : string)
  | OSpawn (path : string) (args : list string)       (* exec.Command(..).Start() *)
  | OSleep (ns : Z)                                   (* time.Sleep *)
  | OGo (t : thread).

Definition ans (o : op) : Type :=
  match o with
  | OLog _ => unit
  | OLookupHost _ _ => result (list string)
  | OIntn _ => nat
  | ODial _ _ _ | ODialTCP _ _ | OListen _ _ _ | OListenTCP _ | OListenPort _ _
  | OListenTLS _ _ _ _ => result handle
  | OLoadX509KeyPair _ _ => option error
  | OResolveUDPAddr _ _ => result string
  | OReadRequest _ => result Request
  | OWrite _ _ | OWriteRequest _ | OWriteResponse _ _ => option error
  | OSetReadDeadline _ _ | OCopy _ _ | OClose _ => option error
  | ORead _ => result string
  | ORandRead _ => string
  | ONow => Z
  | OMarshalEcho _ _ _ => string
  | OParseICMP _ => result icmp_body
  | ODialUDP _ _ => result (handle * Z)
  | OCreateNetTUN _ _ _ => option error
  | ONewDevice _ => unit
  | OIpcSet _ | ODeviceUp => option error
  | OPledge _ | OUnveil _ _ | ORestrictPaths _ | ORestrictNet _ | OStat _ => option error
  | OIpcGet | OExecutable | OReadFile _ => result string
  | OResolveTCPAddr _ _ => result TCPAddr
  | OResolveIPAddr _ _ => result Addr
  | OOpen _ => option error
  | OPrint _ | OPreferGo => unit
  | OSpawn _ _ => option error
  | OSleep _ | OGo _ => unit
  end.

(** An environment in which everything succeeds, for the examples to vary. *)
Definition default_answer (o : op) : ans o :=
  match o return ans o with
  | OLog _ | OGo _ | ONewDevice _ | OPrint _ | OSleep _ | OPreferGo => tt
  | OLookupHost _ _ => Ok ["10.0.0.7"]
  | OIntn _ => 1
  | ODial _ _ _ | ODialTCP _ _ | OListen _ _ _ | OListenTCP _ | OListenPort _ _
  | OListenTLS _ _ _ _ => Ok 7
  | OResolveUDPAddr _ a => Ok a
  | OReadRequest _ => Ok (mkRequest "GET" "example.com" "HTTP/1.1" 1 1 (fun _ => ""))
  | ORead _ => Ok ""
  | ORandRead _ => "0123456789abcdef"
  | ONow => 1700000000000000000%Z
  | OMarshalEcho _ _ d => d
  | OParseICMP _ => Ok OtherBody
  | ODialUDP _ _ => Ok (7, 40000%Z)
  | OIpcGet | OReadFile _ => Ok ""
  | OResolveTCPAddr _ _ => Ok (mkTCPAddr "127.0.0.1" 8080)
  | OResolveIPAddr _ host => ParseAddr host
  | OOpen _ => None
  | OExecutable => Ok "/usr/bin/wireproxy"
  | OSpawn _ _ => None
  | OWrite _ _ | OWriteRequest _ | OWriteResponse _ _ | OSetReadDeadline _ _ | OCopy _ _ | OClose _
  | OLoadX509KeyPair _ _ | OCreateNetTUN _ _ _ | OIpcSet _ | ODeviceUp
  | OPledge _ | OUnveil _ _ | ORestrictPaths _ | ORestrictNet _ | OStat _ => None
  end.

(** The trace records the operations in order. *)
Definition trace := list op.

Class Environment := answer : trace -> forall o : op, ans o.

Definition M (A : Type) : Type := trace -> A * trace.

Definition ret {A} (a : A) : M A := fun tr => (a, tr).
Definition bind {A B} (m : M A) (k : A -> M B) : M B :=
  fun tr => let '(a, tr') := m tr in k a tr'.
Definition perform `{Environment} (o : op) : M (ans o) :=
  fun tr => (answer tr o, tr ++ [o]).

Notation "'let!' x ':=' m 'in' k" := (bind m (fun x => k))
  (at level 10, x pattern, m at level 100, k at level 200) : go_scope.

(** A computation that may fail: [x, err := m; if err != nil { return err }; k]. *)
Definition R (A : Type) : Type := M (result A).
Definition rbind {A B} (m : R A) (k : A -> R B) : R B :=
  bind m (fun r => match r with Ok a => k a | Err e => ret (Err e) end).
Notation "'try!' x ':=' m 'in' k" := (rbind m (fun x => k))
  (at level 10, x pattern, m at level 100, k at level 200) : go_scope.

(** One that also fills a structure: what was written before an early return
    stays written. *)
Definition mproc (S A : Type) : Type := S -> M (S * result A).
Definition mpret {S A} (a : A) : mproc S A := fun s => ret (s, Ok a).
Definition mpfail {S A} (e : error) : mproc S A := fun s => ret (s, Err e).
Definition mplift {S A} (m : R A) : mproc S A := fun s => let! r := m in ret (s, r).
Definition mpmodify {S} (f : S -> S) : mproc S unit := fun s => ret (f s, Ok tt).
Definition mpbind {S A B} (m : mproc S A) (k : A -> mproc S B) : mproc S B :=
  fun s => let! (s', r) := m s in
           match r with Ok a => k a s' | Err e => ret (s', Err e) end.
Notation "'do!' x <- m ; k" := (mpbind m (fun x => k))
  (at level 10, x pattern, m at level 100, k at level 200) : go_scope.

(** The loop [for _, x := range xs] that appends and returns at the first error. *)
Fixpoint mtraverse {A B} (f : A -> R B) (l : list A) : R (list B) :=
  match l with
  | [] => ret (Ok [])
  | x :: l' => try! y := f x in try! ys := mtraverse f l' in ret (Ok (y :: ys))
  end.

(** The operations a computation adds to the trace, and its result. *)
Definition outcome {A} (m : M A) : A := fst (m []).
Definition effects {A} (m : M A) : trace := snd (m []).

(** Symbolic execution of a handler: every environment answer becomes a
    variable, every [match] on one a case. *)
Ltac run_M := unfold rbind, bind, ret, perform in *; cbn [fst snd app] in *.

(** What a routine's [Serve] amounts to: it has returned, or it accepts on a
    listener, runs [handler] in a goroutine per connection, and turns an error
    of [Accept] into its result, given whether [Close] has been called. *)
Inductive serving :=
  | Returned (err : option error)
  | Accepting (listener : handle) (on_error : bool -> error -> option error)
      (handler : handle -> M unit)
  | ReadLoop (listener : handle).     (* the UDP loops: [UdpProxy], [UdpServer] *)

(** ** Questions about traces *)
Definition is_log (o : op) : bool := match o with OLog _ => true | _ => false end.
Definition is_dial (o : op) : bool :=
  match o with ODial _ _ _ | ODialTCP _ _ => true | _ => false end.
Definition is_lookup (o : op) : bool :=
  match o with OLookupHost _ _ => true | _ => false end.
Definition closes (h : handle) (o : op) : bool :=
  match o with OClose h' => bool_decide (h = h') | _ => false end.
Definition is_sleep (o : op) : bool := match o with OSleep _ => true | _ => false end.
Definition spawns (o : op) : bool := match o with OGo _ => true | _ => false end.

(** The goroutines a trace starts. *)
Definition threads (tr : trace) : list thread :=
  omap (fun o => match o with OGo t => Some t | _ => None end) tr.

Definition ops_of (f : op -> bool) (tr : trace) : trace := List.filter f tr.

(** Everything but the log. *)
Definition nolog (tr : trace) : trace := List.filter (negb ∘ is_log) tr.
Lemma nolog_app t1 t2 : nolog (t1 ++ t2) = nolog t1 ++ nolog t2.
Proof. apply List.filter_app. Qed.
Lemma nolog_logs tr : Forall is_log tr -> nolog tr = [].
Proof. induction 1 as [|o tr Ho _ IH]; simpl; [done|]. by destruct o. Qed.

Lemma ops_of_app f t1 t2 : ops_of f (t1 ++ t2) = ops_of f t1 ++ ops_of f t2.
Proof. apply List.filter_app. Qed.

(** ** What a computation may do: it extends the trace by operations in [f] *)
Definition does {A} (f : op -> bool) (m : M A) : Prop :=
  forall tr, exists new, snd (m tr) = tr ++ new /\ Forall f new.

Section does.
Context `{E : Environment} (f : op -> bool).

Lemma does_ret {A} (a : A) : does f (ret a).
Proof. intros tr. exists []. by rewrite app_nil_r. Qed.
Lemma does_perform o : f o = true -> does f (perform o).
Proof. intros Ho tr. exists [o]. split; [done|]. constructor; [by rewrite Ho|done]. Qed.
Lemma does_bind {A B} (m : M A) (k : A -> M B) :
  does f m -> (forall a, does f (k a)) -> does f (bind m k).
Proof.
  intros Hm Hk tr. unfold bind. destruct (Hm tr) as (n1 & H1 & F1).
  destruct (m tr) as [a tr']. simpl in H1. subst. destruct (Hk a (tr ++ n1)) as (n2 & -> & F2).
  exists (n1 ++ n2). split; [by rewrite (assoc_L (++))|by apply Forall_app].
Qed.
Lemma does_weaken {A} (m : M A) (g : op -> bool) :
  does f m -> (forall o, f o = true -> g o = true) -> does g m.
Proof.
  intros Hm Hfg tr. destruct (Hm tr) as (new & Hn & HF). exists new. split; [done|].
  eapply Forall_impl; [exact HF|]. intros o Ho. apply Is_true_true, Hfg. by apply Is_true_true.
Qed.
Lemma does_none {A} (m : M A) (g : op -> bool) tr :
  does f m -> (forall o, f o = true -> g o = false) -> ops_of g (snd (m tr)) = ops_of g tr.
Proof.
  intros Hm Hfg. destruct (Hm tr) as (new & -> & HF). rewrite ops_of_app.
  assert (ops_of g new = []) as ->; [|apply app_nil_r].
  induction HF as [|o new Ho _ IH]; simpl; [done|].
  by rewrite Hfg by (by apply Is_true_true).
Qed.
End does.
#[export] Hint Resolve does_ret does_perform does_bind : go.

(** Follow the shape of a computation. *)
Ltac does_auto :=
  repeat first
    [ apply does_ret | apply does_perform; reflexivity | apply does_bind; [|intros]
    | case_match | solve [eauto with go] ].
