(* ===== verification/Config.v ===== *)
(** * Config: [config.go]

    The configuration parser: one definition per function of the file, over the
    interfaces of [Ini].  What reads files or resolves names is a computation of
    [World] with these as its operations.  [ParseInterface], [ParsePeers] and
    [parseRoutinesConfig] fill a structure through a pointer and are [proc]s or
    [mproc]s: what was written before an early return stays written. *)

From S2P Require Import Prelude GoStr GoNet GoNetip GoCodec GoPath Ini ConfigTypes World.

Section config.
Context `{UT : UnicodeTables, IL : IniLib, RL : RegexpLib, CE : ConfigEnv, E : Environment}.

(** ** Keys of a section *)

Definition parseString (section : ini_Section) (keyName : string) : result string :=
  match Section_Key section (ToLower keyName) with
  | None => Err (errorString (keyName +:+ " should not be empty"))
  | Some key =>
      let value := Key_String key in
      if HasPrefix value "$" then
        if HasPrefix value "$$" then Ok (Replace1 value "$$" "$")
        else match LookupEnv (TrimPrefix value "$") with
             | None => Err (errorString
                 (keyName +:+ " references unset environment variable " +:+ Key_String key))
             | Some v => Ok v
             end
      else Ok (Key_String key)
  end.

Definition parsePort (section : ini_Section) (keyName : string) : result Z :=
  match Section_Key section keyName with
  | None => Err (errorString (keyName +:+ " should not be empty"))
  | Some key =>
      try port := Key_Int key in
      if bool_decide (port < 0)%Z || bool_decide (65536 <= port)%Z
      then Err (errorString "port should be >= 0 and < 65536")
      else Ok port
  end.

Definition parseTCPAddr (section : ini_Section) (keyName : string) : R TCPAddr :=
  try! addrStr := ret (parseString section keyName) in
  perform (OResolveTCPAddr "tcp" addrStr).

Definition encodeBase64ToHex (key : string) : result string :=
  match b64_DecodeString key with
  | Err _ => Err (errorString ("invalid base64 string: " +:+ key))
  | Ok decoded =>
      if negb (bool_decide (String.length decoded = 32))
      then Err (errorString ("key should be 32 bytes: " +:+ key))
      else Ok (hex_EncodeToString decoded)
  end.

Definition parseBase64KeyToHex (section : ini_Section) (keyName : string) : result string :=
  try key := parseString section keyName in
  encodeBase64ToHex key.

(** The loops over the comma-separated pieces of a value: trimmed, the empty
    ones skipped, the first failing one aborting. *)
Fixpoint parse_items {A} (parse : string -> result A) (keys : list string) : result (list A) :=
  match keys with
  | [] => Ok []
  | str :: keys' =>
      let str := TrimSpace str in
      if bool_decide (str = "") then parse_items parse keys'
      else try ip := parse str in
           try ips := parse_items parse keys' in
           Ok (ip :: ips)
  end.

(** A value whose error says the key "should not be empty" is an empty list. *)
Definition parse_list {A} (section : ini_Section) (keyName : string)
    (parse : string -> result A) : result (list A) :=
  match parseString section keyName with
  | Err err => if Contains (Error err) "should not be empty" then Ok [] else Err err
  | Ok key => parse_items parse (Split key ",")
  end.

Definition parseNetIP (section : ini_Section) (keyName : string) : result (list Addr) :=
  parse_list section keyName ParseAddr.

(** One item of [parseCIDRNetIP]: an address, or the address of a prefix. *)
Definition parse_addr_or_prefix (str : string) : result Addr :=
  match ParseAddr str with
  | Ok addr => Ok addr
  | Err _ => try prefix := ParsePrefix str in Ok (Prefix_Addr prefix)
  end.

Definition parseCIDRNetIP (section : ini_Section) (keyName : string) : result (list Addr) :=
  parse_list section keyName parse_addr_or_prefix.

Definition parseAllowedIPs (section : ini_Section) : result (list Prefix) :=
  parse_list section "AllowedIPs" ParsePrefix.

Definition resolveIP (ip : string) : R Addr := perform (OResolveIPAddr "ip" ip).

Definition resolveIPPAndPort (addr : string) : R string :=
  try! (host, port) := ret (SplitHostPort addr) in
  try! ip := resolveIP host in
  ret (Ok (JoinHostPort (IPAddr_String ip) port)).

(** ** [Interface] and [Peer] *)

Definition ParseInterface (cfg : ini_File) : proc DeviceConfig.t unit :=
  match SectionsByName cfg "Interface" with
  | Ok [section] =>
      do address <- plift (parseCIDRNetIP section "Address");
      do _ <- pmodify (DeviceConfig.set_Endpoint address);
      do privKey <- plift (parseBase64KeyToHex section "PrivateKey");
      do _ <- pmodify (DeviceConfig.set_SecretKey privKey);
      do dns <- plift (parseNetIP section "DNS");
      do _ <- pmodify (DeviceConfig.set_DNS dns);
      do _ <- match GetKey section "MTU" with
              | Ok sectionKey =>
                  do value <- plift (Key_Int sectionKey);
                  pmodify (DeviceConfig.set_MTU value)
              | Err _ => pret tt
              end;
      do _ <- match GetKey section "ListenPort" with
              | Ok sectionKey =>
                  do value <- plift (Key_Int sectionKey);
                  pmodify (DeviceConfig.set_ListenPort (Some value))
              | Err _ => pret tt
              end;
      do checkAlive <- plift (parseNetIP section "CheckAlive");
      do _ <- pmodify (DeviceConfig.set_CheckAlive checkAlive);
      do _ <- pmodify (DeviceConfig.set_CheckAliveInterval 5);
      match GetKey section "CheckAliveInterval" with
      | Ok sectionKey =>
          do value <- plift (Key_Int sectionKey);
          if bool_decide (checkAlive = [])
          then pfail (errorString "CheckAliveInterval is only valid when CheckAlive is set")
          else pmodify (DeviceConfig.set_CheckAliveInterval value)
      | Err _ => pret tt
      end
  | _ => pfail (errorString "one and only one [Interface] is expected")
  end.

Definition default_PreSharedKey : string :=
  "0000000000000000000000000000000000000000000000000000000000000000".

(** The body of the loop of [ParsePeers]. *)
Definition parsePeer (section : ini_Section) : R PeerConfig.t :=
  try! publicKey := ret (parseBase64KeyToHex section "PublicKey") in
  try! preSharedKey :=
    ret (match GetKey section "PreSharedKey" with
         | Ok sectionKey => encodeBase64ToHex (Key_String sectionKey)
         | Err _ => Ok default_PreSharedKey
         end) in
  try! endpoint :=
    (match GetKey section "Endpoint" with
     | Ok sectionKey =>
         try! decoded := resolveIPPAndPort (ToLower (Key_String sectionKey)) in
         ret (Ok (Some decoded))
     | Err _ => ret (Ok None)
     end) in
  try! keepAlive :=
    ret (match GetKey section "PersistentKeepalive" with
         | Ok sectionKey => Key_Int sectionKey
         | Err _ => Ok 0%Z
         end) in
  try! allowedIPs := ret (parseAllowedIPs section) in
  ret (Ok (PeerConfig.mk publicKey preSharedKey endpoint keepAlive allowedIPs)).

(** [for _, section := range sections { x, err := f(section); ...; append }] *)
Fixpoint append_all {A} (f : ini_Section -> R A) (sections : list ini_Section)
    : mproc (list A) unit :=
  match sections with
  | [] => mpret tt
  | section :: sections' =>
      do! x <- mplift (f section);
      do! _ <- mpmodify (fun xs => xs ++ [x]);
      append_all f sections'
  end.

Definition ParsePeers (cfg : ini_File) : mproc (list PeerConfig.t) unit :=
  match SectionsByName cfg "Peer" with
  | Ok (section :: sections) => append_all parsePeer (section :: sections)
  | _ => mpfail (errorString "at least one [Peer] is expected")
  end.

(** ** Routines *)

Definition parseTCPClientTunnelConfig (section : ini_Section) : R RoutineSpawner :=
  try! tcpAddr := parseTCPAddr section "BindAddress" in
  try! targetSection := ret (parseString section "Target") in
  ret (Ok (TCPClientTunnel (TCPClientTunnelConfig.mk tcpAddr targetSection None None false))).

Definition parseSTDIOTunnelConfig (section : ini_Section) : result RoutineSpawner :=
  try targetSection := parseString section "Target" in
  Ok (STDIOTunnel (STDIOTunnelConfig.mk targetSection os_Stdin os_Stdout None)).

Definition parseTCPServerTunnelConfig (section : ini_Section) : result RoutineSpawner :=
  try listenPort := parsePort section "ListenPort" in
  try target := parseString section "Target" in
  Ok (TCPServerTunnel (TCPServerTunnelConfig.mk listenPort target None None false)).

Fixpoint compile_patterns (keyName : string) (raws : list string) : result (list Regexp) :=
  match raws with
  | [] => Ok []
  | raw :: raws' =>
      let raw := TrimSpace raw in
      if bool_decide (raw = "") then compile_patterns keyName raws'
      else match Regexp_Compile raw with
           | Err cerr => Err (errorString
               ("invalid " +:+ keyName +:+ " regex `" +:+ raw +:+ "`: " +:+ Error cerr))
           | Ok re => try patterns := compile_patterns keyName raws' in Ok (re :: patterns)
           end
  end.

Definition parseRegexList (section : ini_Section) (keyName : string) : result (list Regexp) :=
  match GetKey section keyName with
  | Err _ => Ok []
  | Ok key => compile_patterns keyName (Key_ValueWithShadows key)
  end.

Definition parseBoolKey (section : ini_Section) (keyName : string) : result bool :=
  match GetKey section keyName with
  | Err _ => Ok false
  | Ok key => Key_Bool key
  end.

(** [x, _ := parseString(...)]: the error is dropped, the value is then "". *)
Definition parseString_or_empty (section : ini_Section) (keyName : string) : string :=
  match parseString section keyName with Ok v => v | Err _ => "" end.

Definition parseSocks5Config (section : ini_Section) : result RoutineSpawner :=
  try bindAddress := parseString section "BindAddress" in
  let username := parseString_or_empty section "Username" in
  let password := parseString_or_empty section "Password" in
  try tunnelDomains := parseRegexList section "TunnelDomains" in
  try logDomains := parseBoolKey section "LogDomains" in
  Ok (Socks5 (Socks5Config.mk bindAddress username password tunnelDomains logDomains None false)).

Definition parseSNIConfig (section : ini_Section) : result RoutineSpawner :=
  try bindAddress := parseString section "BindAddress" in
  try tunnelDomains := parseRegexList section "TunnelDomains" in
  try logDomains := parseBoolKey section "LogDomains" in
  Ok (SNI (SNIConfig.mk bindAddress tunnelDomains logDomains None false)).

Definition parseHTTPConfig (section : ini_Section) : result RoutineSpawner :=
  try bindAddress := parseString section "BindAddress" in
  let username := parseString_or_empty section "Username" in
  let password := parseString_or_empty section "Password" in
  let certFile := parseString_or_empty section "CertFile" in
  let keyFile := parseString_or_empty section "KeyFile" in
  try tunnelDomains := parseRegexList section "TunnelDomains" in
  try logDomains := parseBoolKey section "LogDomains" in
  Ok (HTTP (HTTPConfig.mk bindAddress username password certFile keyFile
              tunnelDomains logDomains None false)).

Definition parseResolveConfig (section : ini_Section) : result ResolveConfig.t :=
  Ok (ResolveConfig.mk (parseString_or_empty section "ResolveStrategy")).

Definition parseUDPServerTunnelConfig (section : ini_Section) : result RoutineSpawner :=
  try listenPort := parsePort section "ListenPort" in
  try target := parseString section "Target" in
  try inactivityTimeout :=
    (match GetKey section "InactivityTimeout" with
     | Ok key => Key_Int key
     | Err _ => Ok 0%Z
     end) in
  Ok (UDPServerTunnel
        (UDPServerTunnelConfig.mk listenPort target inactivityTimeout None None None false)).

Definition parseUDPProxyTunnelConfig (section : ini_Section) : result RoutineSpawner :=
  try bindAddress := parseString section "BindAddress" in
  try target := parseString section "Target" in
  try inactivityTimeout :=
    (match GetKey section "InactivityTimeout" with
     | Ok key => Key_Int key
     | Err _ => Ok 0%Z
     end) in
  Ok (UDPProxyTunnel
        (UDPProxyTunnelConfig.mk bindAddress target inactivityTimeout None None false)).

(** The parsers that only read their section. *)
Definition pure {A} (f : ini_Section -> result A) (section : ini_Section) : R A := ret (f section).

Definition parseRoutinesConfig (cfg : ini_File) (sectionName : string)
    (f : ini_Section -> R RoutineSpawner) : mproc (list RoutineSpawner) unit :=
  match SectionsByName cfg sectionName with
  | Err _ => mpret tt
  | Ok sections => append_all f sections
  end.

(** ** The whole file *)

(** The routine sections in the order the parser visits them, before and
    after [Resolve]. *)
Definition parse_all_routines (cfg : ini_File) : mproc (list RoutineSpawner) unit :=
  do! _ <- parseRoutinesConfig cfg "TCPClientTunnel" parseTCPClientTunnelConfig;
  do! _ <- parseRoutinesConfig cfg "STDIOTunnel" (pure parseSTDIOTunnelConfig);
  do! _ <- parseRoutinesConfig cfg "TCPServerTunnel" (pure parseTCPServerTunnelConfig);
  do! _ <- parseRoutinesConfig cfg "Socks5" (pure parseSocks5Config);
  do! _ <- parseRoutinesConfig cfg "http" (pure parseHTTPConfig);
  parseRoutinesConfig cfg "SNI" (pure parseSNIConfig).

Definition parse_udp_routines (cfg : ini_File) : mproc (list RoutineSpawner) unit :=
  do! _ <- parseRoutinesConfig cfg "UDPServerTunnel" (pure parseUDPServerTunnelConfig);
  parseRoutinesConfig cfg "UDPProxyTunnel" (pure parseUDPProxyTunnelConfig).

(** [ini.LoadSources] takes a [string] as the name of a file to read, a
    [[]byte] as the text itself. *)
Definition LoadSources (source : ini_source) : R ini_File :=
  match source with
  | SourcePath path => try! text := perform (OReadFile path) in ret (LoadBytes text)
  | SourceBytes text => ret (LoadBytes text)
  end.

(** Where the WireGuard half is read from: the [WGConfig] file if the root
    section names one (a bare file name relative to [baseDir]), else the
    configuration itself. *)
Definition wg_config (cfg : ini_File) (baseDir : string) : R ini_File :=
  match GetKey (File_Section cfg "") "WGConfig" with
  | Err _ => ret (Ok cfg)
  | Ok wgConf =>
      let wgPath := Key_String wgConf in
      let wgPath :=
        if negb (bool_decide (baseDir = "")) && bool_decide (Base wgPath = wgPath)
        then filepath_Join baseDir wgPath else wgPath in
      LoadSources (SourcePath wgPath)
  end.

Definition parseConfigSource (source : ini_source) (baseDir : string) : R Configuration.t :=
  try! cfg := LoadSources source in
  let device := DeviceConfig.set_MTU 1420 DeviceConfig.zero in
  let resolve := ResolveConfig.mk "auto" in
  try! wgCfg := wg_config cfg baseDir in
  let '(device, err) := ParseInterface wgCfg device in
  try! _ := ret err in
  let! (peers, err) := ParsePeers wgCfg (DeviceConfig.Peers device) in
  let device := DeviceConfig.set_Peers peers device in
  try! _ := ret err in
  let! (routinesSpawners, err) := parse_all_routines cfg [] in
  try! _ := ret err in
  try! resolve :=
    ret (match GetSection cfg "Resolve" with
         | Ok resolveSection => parseResolveConfig resolveSection
         | Err _ => Ok resolve
         end) in
  let! (routinesSpawners, err) := parse_udp_routines cfg routinesSpawners in
  try! _ := ret err in
  ret (Ok (Configuration.mk device routinesSpawners resolve)).

Definition ParseConfig (path : string) : R Configuration.t :=
  parseConfigSource (SourcePath path) (Dir path).

Definition ParseConfigString (text : string) : R Configuration.t :=
  if bool_decide (TrimSpace text = "")
  then ret (Err (errorString "configuration is empty"))
  else parseConfigSource (SourceBytes text) "".
End config.

(** ** The parser against its table *)
Section refinement.
Context `{UT : UnicodeTables, IL : IniLib, RL : RegexpLib, CE : ConfigEnv, E : Environment}.

Definition sections_of (cfg : ini_File) (name : string) : list ini_Section :=
  match SectionsByName cfg name with Ok ss => ss | Err _ => [] end.

(** Abstract specification: which section is read by which parser, and in
    what order the routines come out. *)
Definition routine_table : list (string * (ini_Section -> R RoutineSpawner)) :=
  [("TCPClientTunnel", parseTCPClientTunnelConfig);
   ("STDIOTunnel", pure parseSTDIOTunnelConfig);
   ("TCPServerTunnel", pure parseTCPServerTunnelConfig);
   ("Socks5", pure parseSocks5Config);
   ("http", pure parseHTTPConfig);
   ("SNI", pure parseSNIConfig);
   ("UDPServerTunnel", pure parseUDPServerTunnelConfig);
   ("UDPProxyTunnel", pure parseUDPProxyTunnelConfig)].

Definition routines_spec (cfg : ini_File) : R (list RoutineSpawner) :=
  try! rss := mtraverse (fun '(name, f) => mtraverse f (sections_of cfg name)) routine_table in
  ret (Ok (concat rss)).

Definition peers_spec (cfg : ini_File) : R (list PeerConfig.t) :=
  match sections_of cfg "Peer" with
  | [] => ret (Err (errorString "at least one [Peer] is expected"))
  | ss => mtraverse parsePeer ss
  end.

Definition resolve_spec (cfg : ini_File) : ResolveConfig.t :=
  match GetSection cfg "Resolve" with
  | Ok s => ResolveConfig.mk (parseString_or_empty s "ResolveStrategy")
  | Err _ => ResolveConfig.mk "auto"
  end.

Definition parseConfig_spec (source : ini_source) (baseDir : string) : R Configuration.t :=
  try! cfg := LoadSources source in
  try! wgCfg := wg_config cfg baseDir in
  let '(device, err) := ParseInterface wgCfg (DeviceConfig.set_MTU 1420 DeviceConfig.zero) in
  try! _ := ret err in
  try! peers := peers_spec wgCfg in
  try! routines := routines_spec cfg in
  ret (Ok (Configuration.mk (DeviceConfig.set_Peers peers device) routines (resolve_spec cfg))).

(** On an error the elements before the failing one have been appended. *)
Lemma append_all_spec {A} (f : ini_Section -> R A) l xs tr :
  match mtraverse f l tr with
  | (Ok ys, tr') => append_all f l xs tr = ((xs ++ ys, Ok tt), tr')
  | (Err e, tr') => exists ys, append_all f l xs tr = ((xs ++ ys, Err e), tr')
  end.
Proof.
  revert xs tr; induction l as [|s l IH]; intros xs tr; cbn [mtraverse append_all].
  - unfold ret, mpret. by rewrite app_nil_r.
  - unfold rbind, mpbind, mplift, mpmodify, bind, ret.
    destruct (f s tr) as [[y|e] tr1]; cbn; [|exists []; by rewrite app_nil_r].
    specialize (IH (xs ++ [y]) tr1). destruct (mtraverse f l tr1) as [[ys|e] tr2]; cbn.
    + rewrite IH. by rewrite <- (assoc_L (++)).
    + destruct IH as [ys ->]. exists (y :: ys). by rewrite <- (assoc_L (++)).
Qed.

Lemma parseRoutinesConfig_eq cfg name f :
  parseRoutinesConfig cfg name f = append_all f (sections_of cfg name).
Proof. unfold parseRoutinesConfig, sections_of. by destruct (SectionsByName cfg name). Qed.

Lemma ParsePeers_eq cfg peers tr :
  match peers_spec cfg tr with
  | (Ok ps, tr') => ParsePeers cfg peers tr = ((peers ++ ps, Ok tt), tr')
  | (Err e, tr') => exists ps, ParsePeers cfg peers tr = ((ps, Err e), tr')
  end.
Proof.
  unfold peers_spec, ParsePeers, sections_of.
  destruct (SectionsByName cfg "Peer") as [[|s ss]|]; [by eexists| |by eexists].
  pose proof (append_all_spec parsePeer (s :: ss) peers tr) as H.
  destruct (mtraverse _ _ _) as [[ps|e] tr']; [done|]. destruct H as [ys ->]. by eexists.
Qed.

Lemma ParseInterface_Peers cfg d d' r :
  ParseInterface cfg d = (d', r) -> DeviceConfig.Peers d' = DeviceConfig.Peers d.
Proof.
  unfold ParseInterface, pbind, plift, pmodify, pret, pfail.
  intros Hrun. repeat (case_match; simplify_eq/=); done.
Qed.

(** The table executed in order. *)
Fixpoint run_table (cfg : ini_File)
    (table : list (string * (ini_Section -> R RoutineSpawner)))
    : mproc (list RoutineSpawner) unit :=
  match table with
  | [] => mpret tt
  | (name, f) :: table' => do! _ <- parseRoutinesConfig cfg name f; run_table cfg table'
  end.

Lemma run_table_spec cfg table xs tr :
  match mtraverse (fun '(name, f) => mtraverse f (sections_of cfg name)) table tr with
  | (Ok rss, tr') => run_table cfg table xs tr = ((xs ++ concat rss, Ok tt), tr')
  | (Err e, tr') => exists ys, run_table cfg table xs tr = ((ys, Err e), tr')
  end.
Proof.
  revert xs tr; induction table as [|[name f] table IH]; intros xs tr; cbn [mtraverse run_table].
  - unfold ret, mpret. by rewrite app_nil_r.
  - unfold rbind, mpbind, bind, ret. rewrite parseRoutinesConfig_eq.
    pose proof (append_all_spec f (sections_of cfg name) xs tr) as H.
    destruct (mtraverse f _ tr) as [[rs|e] tr1]; cbn in *.
    + rewrite H. specialize (IH (xs ++ rs) tr1).
      destruct (mtraverse _ table tr1) as [[rss|e] tr2]; cbn; [|done].
      by rewrite (assoc_L (++)).
    + destruct H as [ys ->]. by eexists.
Qed.

Ltac run_routines :=
  unfold mpbind, mpret, bind, ret;
  repeat match goal with
  | |- context [parseRoutinesConfig ?cfg ?n ?f ?xs ?tr] =>
      destruct (parseRoutinesConfig cfg n f xs tr) as [[? [[]|?]] ?]
  end.

(** The two runs of the source are the two parts of the table. *)
Lemma parse_all_routines_table cfg xs tr :
  parse_all_routines cfg xs tr = run_table cfg (take 6 routine_table) xs tr.
Proof. unfold parse_all_routines. cbn [take run_table routine_table]. by run_routines. Qed.
Lemma parse_udp_routines_table cfg xs tr :
  parse_udp_routines cfg xs tr = run_table cfg (drop 6 routine_table) xs tr.
Proof. unfold parse_udp_routines. cbn [drop run_table routine_table]. by run_routines. Qed.

Lemma mtraverse_split {A B} (f : A -> R B) n l tr :
  mtraverse f l tr =
  (try! ys := mtraverse f (take n l) in try! zs := mtraverse f (drop n l) in ret (Ok (ys ++ zs))) tr.
Proof.
  revert n tr; induction l as [|x l IH]; intros [|n] tr; cbn [mtraverse take drop]; try done;
    unfold rbind, bind, ret.
  - destruct (f x tr) as [[y|e] tr1]; [|done]. by destruct (mtraverse f l tr1) as [[ys|e] tr2].
  - destruct (f x tr) as [[y|e] tr1]; [|done]. rewrite (IH n). unfold rbind, bind, ret.
    destruct (mtraverse f (take n l) tr1) as [[ys|e] tr2]; [|done].
    by destruct (mtraverse f (drop n l) tr2) as [[zs|e] tr3].
Qed.

Lemma parse_routines_eq cfg tr :
  match routines_spec cfg tr with
  | (Ok rs, tr') => exists rs1 tr1, parse_all_routines cfg [] tr = ((rs1, Ok tt), tr1) /\
                         parse_udp_routines cfg rs1 tr1 = ((rs, Ok tt), tr')
  | (Err e, tr') => exists rs1, parse_all_routines cfg [] tr = ((rs1, Err e), tr') \/
               exists tr1, parse_all_routines cfg [] tr = ((rs1, Ok tt), tr1) /\
                exists rs2, parse_udp_routines cfg rs1 tr1 = ((rs2, Err e), tr')
  end.
Proof.
  unfold routines_spec. unfold rbind at 1. unfold bind. rewrite (mtraverse_split _ 6 routine_table).
  unfold rbind at 1. unfold bind.
  pose proof (run_table_spec cfg (take 6 routine_table) [] tr) as R1.
  rewrite <- parse_all_routines_table in R1.
  destruct (mtraverse _ (take 6 routine_table) tr) as [[rss1|e] tr1].
  - pose proof (run_table_spec cfg (drop 6 routine_table) (concat rss1) tr1) as R2.
    rewrite <- parse_udp_routines_table in R2. unfold rbind, bind.
    destruct (mtraverse _ (drop 6 routine_table) tr1) as [[rss2|e] tr2]; cbn.
    + exists (concat rss1), tr1. by rewrite concat_app.
    + destruct R2 as [ys R2]. exists (concat rss1). right. eauto.
  - destruct R1 as [ys R1]. cbn. eauto.
Qed.

Lemma parseConfigSource_eq source baseDir tr :
  parseConfigSource source baseDir tr = parseConfig_spec source baseDir tr.
Proof.
  unfold parseConfigSource, parseConfig_spec, resolve_spec, parseResolveConfig.
  unfold rbind, bind, ret.
  destruct (LoadSources source tr) as [[cfg|] tr1]; [|done].
  destruct (wg_config cfg baseDir tr1) as [[wg|] tr2]; [|done].
  destruct (ParseInterface wg _) as [d [[]|e]] eqn:Ei; [|done].
  apply ParseInterface_Peers in Ei as ->. cbn [DeviceConfig.Peers DeviceConfig.set_MTU DeviceConfig.zero].
  pose proof (ParsePeers_eq wg [] tr2) as Hp.
  destruct (peers_spec wg tr2) as [[ps|e] tr3].
  - rewrite Hp. cbn [app]. pose proof (parse_routines_eq cfg tr3) as Hr.
    destruct (routines_spec cfg tr3) as [[rs|e] tr4].
    + destruct Hr as (rs1 & tr5 & -> & Hr). by destruct (GetSection cfg "Resolve"); rewrite Hr.
    + destruct Hr as [rs1 [-> |(tr5 & -> & rs2 & Hr)]]; [done|].
      by destruct (GetSection cfg "Resolve"); rewrite Hr.
  - by destruct Hp as [ps ->].
Qed.
End refinement.
