(* ===== verification/ConfigProps.v ===== *)
(** * ConfigProps: what a successful parse guarantees

    The well-formedness of a parsed configuration, and the properties of the
    parser of [Config]. *)

From S2P Require Import Prelude GoStr GoNet GoNetip GoCodec GoPath Ini ConfigTypes World Config.

(** ** Well-formed configurations *)

(** A WireGuard key as the device's text protocol wants it: 32 bytes in
    lower-case hexadecimal. *)
Definition hex_key (k : string) : Prop :=
  String.length k = 64 /\ str_forall is_hex_digit k = true.

Definition valid_port (p : Z) : Prop := (0 <= p < 65536)%Z.

(** The form of an endpoint: host and port joined by [net.JoinHostPort], with a
    port that splits off again. *)
Definition joined_endpoint (s : string) : Prop :=
  exists ip port, s = JoinHostPort ip port /\ plain_port port = true.

(** Where an endpoint comes from: among the operations [new] performed after
    [tr] a look-up has answered its address. *)
Definition looked_up `{Environment} (tr new : trace) (s : string) : Prop :=
  exists before after host ip port,
    new = before ++ OResolveIPAddr "ip" host :: after /\
    answer (tr ++ before) (OResolveIPAddr "ip" host) = Ok ip /\
    s = JoinHostPort (IPAddr_String ip) port /\ plain_port port = true.
Definition endpoint_looked_up `{Environment} (tr new : trace) (p : PeerConfig.t) : Prop :=
  from_option (looked_up tr new) True (PeerConfig.Endpoint p).

Record wf_peer (p : PeerConfig.t) : Prop := {
  wf_PublicKey : hex_key (PeerConfig.PublicKey p);
  wf_PreSharedKey : hex_key (PeerConfig.PreSharedKey p);
  wf_peer_Endpoint : from_option joined_endpoint True (PeerConfig.Endpoint p);
  wf_AllowedIPs : Forall wf_Prefix (PeerConfig.AllowedIPs p)
}.

Record wf_device (d : DeviceConfig.t) : Prop := {
  wf_SecretKey : hex_key (DeviceConfig.SecretKey d);
  wf_device_Endpoint : Forall wf_Addr (DeviceConfig.Endpoint d);
  wf_DNS : Forall wf_Addr (DeviceConfig.DNS d);
  wf_CheckAlive : Forall wf_Addr (DeviceConfig.CheckAlive d);
  wf_CheckAliveInterval :
    DeviceConfig.CheckAlive d = [] -> DeviceConfig.CheckAliveInterval d = 5%Z
}.

(** A routine as the parser leaves it: ports in range, nothing bound, not closed. *)
Definition wf_routine `{RegexpLib} (r : RoutineSpawner) : Prop :=
  match r with
  | TCPClientTunnel c =>
      TCPClientTunnelConfig.listener c = None /\ TCPClientTunnelConfig.raddr c = None /\
      TCPClientTunnelConfig.closed c = false
  | STDIOTunnel c =>
      STDIOTunnelConfig.Input c = os_Stdin /\ STDIOTunnelConfig.Output c = os_Stdout /\
      STDIOTunnelConfig.raddr c = None
  | TCPServerTunnel c =>
      valid_port (TCPServerTunnelConfig.ListenPort c) /\
      TCPServerTunnelConfig.listener c = None /\ TCPServerTunnelConfig.raddr c = None /\
      TCPServerTunnelConfig.closed c = false
  | Socks5 c => Socks5Config.listener c = None /\ Socks5Config.closed c = false
  | HTTP c => HTTPConfig.listener c = None /\ HTTPConfig.closed c = false
  | SNI c => SNIConfig.listener c = None /\ SNIConfig.closed c = false
  | UDPServerTunnel c =>
      valid_port (UDPServerTunnelConfig.ListenPort c) /\
      UDPServerTunnelConfig.listener c = None /\ UDPServerTunnelConfig.done c = None /\
      UDPServerTunnelConfig.closed c = false
  | UDPProxyTunnel c =>
      UDPProxyTunnelConfig.listener c = None /\ UDPProxyTunnelConfig.done c = None /\
      UDPProxyTunnelConfig.closed c = false
  end.

Record wf_configuration `{RegexpLib} (c : Configuration.t) : Prop := {
  wf_Device : wf_device (Configuration.Device c);
  wf_Peers_nonempty : DeviceConfig.Peers (Configuration.Device c) <> [];
  wf_Peers : Forall wf_peer (DeviceConfig.Peers (Configuration.Device c));
  wf_Routines : Forall wf_routine (Configuration.Routines c)
}.

Section lemmas.
Context `{UT : UnicodeTables, IL : IniLib, RL : RegexpLib, CE : ConfigEnv, EV : Environment}.

Lemma encodeBase64ToHex_hex_key key h : encodeBase64ToHex key = Ok h -> hex_key h.
Proof.
  unfold encodeBase64ToHex. destruct (b64_DecodeString key) as [bs|]; [|done].
  case_bool_decide as Hl; simpl; [|done]. intros [= <-]. split.
  - rewrite hex_encode_length. lia.
  - apply hex_encode_digits.
Qed.

Lemma parseBase64KeyToHex_hex_key s n h : parseBase64KeyToHex s n = Ok h -> hex_key h.
Proof.
  unfold parseBase64KeyToHex. destruct (parseString s n); [|done].
  apply encodeBase64ToHex_hex_key.
Qed.

Lemma parse_items_Forall {A} (P : A -> Prop) (parse : string -> result A) keys xs :
  (forall s x, parse s = Ok x -> P x) -> parse_items parse keys = Ok xs -> Forall P xs.
Proof.
  intros HP. revert xs; induction keys as [|k keys IH]; intros xs; simpl; [by intros [= <-]|].
  case_bool_decide; [apply IH|].
  destruct (parse (TrimSpace k)) eqn:E; [|done].
  destruct (parse_items parse keys); [|done]. intros [= <-]. constructor; eauto.
Qed.

Lemma parse_list_Forall {A} (P : A -> Prop) s n (parse : string -> result A) xs :
  (forall s x, parse s = Ok x -> P x) -> parse_list s n parse = Ok xs -> Forall P xs.
Proof.
  intros HP. unfold parse_list. destruct (parseString s n).
  - by apply parse_items_Forall.
  - case_match; [by intros [= <-]|done].
Qed.

Lemma parse_addr_or_prefix_wf s a : parse_addr_or_prefix s = Ok a -> wf_Addr a.
Proof.
  unfold parse_addr_or_prefix. destruct (ParseAddr s) eqn:E.
  - intros [= <-]. eauto with go.
  - destruct (ParsePrefix s) as [p|] eqn:Ep; [|done]. intros [= <-].
    by apply ParsePrefix_wf in Ep as [? _].
Qed.

Lemma parseCIDRNetIP_wf s n xs : parseCIDRNetIP s n = Ok xs -> Forall wf_Addr xs.
Proof. apply parse_list_Forall, parse_addr_or_prefix_wf. Qed.
Lemma parseNetIP_wf s n xs : parseNetIP s n = Ok xs -> Forall wf_Addr xs.
Proof. apply parse_list_Forall, ParseAddr_wf. Qed.
Lemma parseAllowedIPs_wf s xs : parseAllowedIPs s = Ok xs -> Forall wf_Prefix xs.
Proof. apply parse_list_Forall, ParsePrefix_wf. Qed.

Lemma parsePort_valid s n p : parsePort s n = Ok p -> valid_port p.
Proof.
  unfold parsePort, valid_port. destruct (Section_Key s n) as [k|]; [|done].
  destruct (Key_Int k) as [v|]; [|done].
  do 2 case_bool_decide; simpl; try done. intros [= <-]. lia.
Qed.

Hint Resolve encodeBase64ToHex_hex_key parseBase64KeyToHex_hex_key parseCIDRNetIP_wf
  parseNetIP_wf parseAllowedIPs_wf parsePort_valid : go.

Lemma default_PreSharedKey_hex : hex_key default_PreSharedKey.
Proof. by vm_compute. Qed.

(** ** What reading a configuration asks of the world *)
Definition reads_config (o : op) : bool :=
  match o with OReadFile _ | OResolveTCPAddr _ _ | OResolveIPAddr _ _ => true | _ => false end.

Lemma parsePeer_reads s : does reads_config (parsePeer s).
Proof. unfold parsePeer, resolveIPPAndPort, resolveIP, rbind. does_auto. Qed.
Lemma parseTCPClientTunnelConfig_reads s : does reads_config (parseTCPClientTunnelConfig s).
Proof. unfold parseTCPClientTunnelConfig, parseTCPAddr, rbind. does_auto. Qed.
Lemma mtraverse_does {A B} g (f : A -> R B) l : (forall x, does g (f x)) -> does g (mtraverse f l).
Proof. intros Hf. induction l as [|x l IH]; cbn [mtraverse]; unfold rbind; does_auto. Qed.
Lemma routine_table_reads : Forall (fun '(name, f) => forall s, does reads_config (f s)) routine_table.
Proof. repeat constructor; intros s; first [apply parseTCPClientTunnelConfig_reads|apply does_ret]. Qed.
Lemma routines_spec_reads cfg : does reads_config (routines_spec cfg).
Proof.
  unfold routines_spec, rbind. apply does_bind; [|intros [?|?]; apply does_ret].
  pose proof routine_table_reads as Ht. induction Ht as [|[name f] table Hf _ IH]; cbn [mtraverse].
  { apply does_ret. }
  apply does_bind; [by apply mtraverse_does|]. intros [?|?]; [|apply does_ret].
  apply does_bind; [done|]. intros [?|?]; apply does_ret.
Qed.
Lemma peers_spec_reads cfg : does reads_config (peers_spec cfg).
Proof.
  unfold peers_spec. destruct (sections_of cfg "Peer"); [apply does_ret|].
  apply mtraverse_does, parsePeer_reads.
Qed.
Lemma LoadSources_reads source : does reads_config (LoadSources source).
Proof. unfold LoadSources, rbind. does_auto. Qed.
Lemma wg_config_reads cfg baseDir : does reads_config (wg_config cfg baseDir).
Proof. unfold wg_config. case_match; [apply LoadSources_reads|apply does_ret]. Qed.
Lemma parseConfigSource_reads source baseDir : does reads_config (parseConfigSource source baseDir).
Proof.
  intros tr. rewrite parseConfigSource_eq. revert tr. change (does reads_config (parseConfig_spec source baseDir)).
  unfold parseConfig_spec. apply does_bind; [apply LoadSources_reads|intros [cfg|]; [|apply does_ret]].
  apply does_bind; [apply wg_config_reads|intros [wg|]; [|apply does_ret]].
  destruct (ParseInterface _ _) as [d r]. apply does_bind; [apply does_ret|intros [?|]; [|apply does_ret]].
  apply does_bind; [apply peers_spec_reads|intros [ps|]; [|apply does_ret]].
  apply does_bind; [apply routines_spec_reads|intros [rs|]; apply does_ret].
Qed.
Lemma ParseConfig_reads path : does reads_config (ParseConfig path).
Proof. apply parseConfigSource_reads. Qed.

(** ** What holds of everything a loop has parsed, and of how it was obtained *)
Lemma mtraverse_Ok {A B} (f : A -> R B) (Q : trace -> trace -> B -> Prop) l tr ys tr' :
  (forall tr m new n y, Q (tr ++ m) new y -> Q tr (m ++ new ++ n) y) ->
  (forall x tr y tr', f x tr = (Ok y, tr') -> exists new, tr' = tr ++ new /\ Q tr new y) ->
  mtraverse f l tr = (Ok ys, tr') ->
  length ys = length l /\ exists new, tr' = tr ++ new /\ Forall (Q tr new) ys.
Proof.
  intros Hmon Hf. revert tr ys tr'; induction l as [|x l IH]; intros tr ys tr'; cbn [mtraverse].
  { intros [= <- <-]. split; [done|]. exists []. by rewrite app_nil_r. }
  unfold rbind, bind, ret. destruct (f x tr) as [[y|e] tr1] eqn:Ex; [|done].
  destruct (mtraverse f l tr1) as [[ys'|e] tr2] eqn:El; [|done]. intros [= <- <-].
  apply Hf in Ex as (n1 & -> & HQ). apply IH in El as (Hlen & n2 & -> & HF).
  split; [by f_equal/=|]. exists (n1 ++ n2). split; [by rewrite (assoc_L (++))|]. constructor.
  - apply (Hmon tr [] n1 n2). by rewrite app_nil_r.
  - eapply Forall_impl; [exact HF|]. intros y' Hy. specialize (Hmon tr n1 n2 [] y' Hy).
    by rewrite app_nil_r in Hmon.
Qed.

Lemma looked_up_mono tr m new n s : looked_up (tr ++ m) new s -> looked_up tr (m ++ new ++ n) s.
Proof.
  intros (before & after & host & ip & port & -> & Ha & Hs).
  exists (m ++ before), (after ++ n), host, ip, port. split; [by rewrite <- !(assoc_L (++))|].
  by rewrite (assoc_L (++)).
Qed.
Lemma endpoint_mono tr m new n p :
  endpoint_looked_up (tr ++ m) new p -> endpoint_looked_up tr (m ++ new ++ n) p.
Proof. unfold endpoint_looked_up. destruct (PeerConfig.Endpoint p); [apply looked_up_mono|done]. Qed.

Lemma resolveIPPAndPort_looked_up s tr e tr' :
  resolveIPPAndPort s tr = (Ok e, tr') ->
  exists new, tr' = tr ++ new /\ looked_up tr new e /\ joined_endpoint e.
Proof.
  unfold resolveIPPAndPort, resolveIP. run_M.
  destruct (SplitHostPort s) as [[host port]|] eqn:Hs; [|done].
  destruct (answer tr _) as [ip|] eqn:Ha; [|done]. intros [= <- <-].
  apply SplitHostPort_pieces in Hs as [_ Hp]. exists [OResolveIPAddr "ip" host].
  split; [done|]. split; [|by eexists _, _]. exists [], [], host, ip, port. by rewrite app_nil_r.
Qed.

Lemma parsePeer_wf s tr p tr' :
  parsePeer s tr = (Ok p, tr') ->
  exists new, tr' = tr ++ new /\ wf_peer p /\ endpoint_looked_up tr new p.
Proof.
  pose proof default_PreSharedKey_hex. unfold parsePeer, endpoint_looked_up. unfold rbind, bind, ret.
  destruct (parseBase64KeyToHex s "PublicKey") as [pub|] eqn:Epub; [|done].
  destruct (match GetKey s "PreSharedKey" with Ok _ => _ | Err _ => _ end) as [psk|] eqn:Epsk; [|done].
  assert (hex_key psk) as Hpsk
    by (destruct (GetKey s "PreSharedKey"); [eauto with go|by injection Epsk as <-]).
  destruct (GetKey s "Endpoint") as [ek|].
  - destruct (resolveIPPAndPort _ tr) as [[e|] tr1] eqn:Ee; [|done].
    destruct (match GetKey s "PersistentKeepalive" with Ok _ => _ | Err _ => _ end); [|done].
    destruct (parseAllowedIPs s) eqn:Ei; [|done]. intros [= <- <-].
    apply resolveIPPAndPort_looked_up in Ee as (new & -> & Hl & Hj). exists new.
    split; [done|]. split; [|done]. split; simpl; eauto with go.
  - destruct (match GetKey s "PersistentKeepalive" with Ok _ => _ | Err _ => _ end); [|done].
    destruct (parseAllowedIPs s) eqn:Ei; [|done]. intros [= <- <-]. exists [].
    split; [by rewrite app_nil_r|]. split; [|done]. split; simpl; eauto with go.
Qed.

Lemma ParseInterface_wf cfg d d' :
  ParseInterface cfg d = (d', Ok tt) -> wf_device d'.
Proof.
  unfold ParseInterface, pbind, plift, pmodify, pret, pfail. intros Hrun.
  repeat (case_match; simplify_eq/=; try done); split; simpl; eauto with go; by case_bool_decide.
Qed.

(** Every parser of the table yields a well-formed routine. *)
Lemma routine_table_wf :
  Forall (fun '(name, f) => forall s tr r tr', f s tr = (Ok r, tr') -> wf_routine r) routine_table.
Proof.
  repeat constructor; intros s tr r tr' Hr;
    unfold pure, parseTCPClientTunnelConfig, parseTCPAddr, parseSTDIOTunnelConfig, parseTCPServerTunnelConfig,
      parseSocks5Config, parseHTTPConfig, parseSNIConfig, parseUDPServerTunnelConfig,
      parseUDPProxyTunnelConfig in Hr; run_M;
    repeat (case_match; simplify_eq/=; try done); simpl; eauto 6 with go.
Qed.

Lemma routines_spec_wf cfg tr rs tr' : routines_spec cfg tr = (Ok rs, tr') -> Forall wf_routine rs.
Proof.
  unfold routines_spec. unfold rbind, bind, ret.
  destruct (mtraverse _ routine_table tr) as [[rss|] tr1] eqn:Ht; [|done]. intros [= <- <-].
  apply Forall_concat. revert tr rss tr1 Ht. pose proof routine_table_wf as Hwf.
  pose proof routine_table_reads as Hrd. induction routine_table as [|[name f] table IH]; cbn [mtraverse].
  { by intros tr rss tr1 [= <- <-]. }
  apply Forall_cons in Hwf as [Hwf1 Hwf2]. apply Forall_cons in Hrd as [Hrd1 Hrd2].
  intros tr rss tr1. unfold rbind, bind, ret.
  destruct (mtraverse f _ tr) as [[rs|] tr2] eqn:Ef; [|done].
  destruct (mtraverse _ table tr2) as [[rss'|] tr3] eqn:Et; [|done]. intros [= <- <-].
  constructor; [|by eapply IH].
  apply (mtraverse_Ok f (fun _ _ => wf_routine)) in Ef as (_ & _ & _ & HF); [done|done|].
  intros x t y t' Hx. destruct (Hrd1 x t) as (new & Hn & _). rewrite Hx in Hn.
  exists new. split; [done|]. by eapply Hwf1.
Qed.

Lemma peers_spec_wf cfg tr ps tr' :
  peers_spec cfg tr = (Ok ps, tr') ->
  ps <> [] /\ exists new, tr' = tr ++ new /\
    Forall (fun p => wf_peer p /\ endpoint_looked_up tr new p) ps.
Proof.
  unfold peers_spec. destruct (sections_of cfg "Peer") as [|s ss]; [done|]. intros Hps.
  apply (mtraverse_Ok parsePeer (fun tr new p => wf_peer p /\ endpoint_looked_up tr new p)) in Hps
    as (Hlen & new & -> & HF).
  - split; [by intros ->|]. by exists new.
  - intros t m n n' p [? ?]. split; [done|]. by apply endpoint_mono.
  - apply parsePeer_wf.
Qed.

Lemma wf_device_set_Peers ps d : wf_device d -> wf_device (DeviceConfig.set_Peers ps d).
Proof. intros [? ? ? ? ?]. by split. Qed.

Lemma parseConfigSource_wf source baseDir tr c tr' :
  parseConfigSource source baseDir tr = (Ok c, tr') ->
  wf_configuration c /\ exists new, tr' = tr ++ new /\
    Forall (endpoint_looked_up tr new) (DeviceConfig.Peers (Configuration.Device c)).
Proof.
  rewrite parseConfigSource_eq. unfold parseConfig_spec. unfold rbind, bind, ret.
  destruct (LoadSources_reads source tr) as (n1 & H1 & _).
  destruct (LoadSources source tr) as [[cfg|] tr1]; [|done].
  destruct (wg_config_reads cfg baseDir tr1) as (n2 & H2 & _).
  destruct (wg_config cfg baseDir tr1) as [[wg|] tr2]; [|done].
  destruct (ParseInterface wg _) as [d [[]|]] eqn:Ei; [|done].
  destruct (peers_spec wg tr2) as [[ps|] tr3] eqn:Ep; [|done].
  destruct (routines_spec_reads cfg tr3) as (n4 & H4 & _).
  destruct (routines_spec cfg tr3) as [[rs|] tr4] eqn:Er; [|done]. intros [= <- <-].
  apply ParseInterface_wf in Ei. apply peers_spec_wf in Ep as (Hne & n3 & H3 & HF).
  apply routines_spec_wf in Er. simpl in H1, H2, H4. subst.
  apply Forall_and in HF as [Hwf Hl].
  split; [split; simpl; auto using wf_device_set_Peers|].
  exists ((n1 ++ n2) ++ n3 ++ n4). split; [by rewrite <- !(assoc_L (++))|]. simpl.
  eapply Forall_impl; [exact Hl|]. intros p Hp. apply endpoint_mono. by rewrite (assoc_L (++)).
Qed.
End lemmas.

(** ** A concrete environment, for the witnesses *)
Module Sample.
#[export] Instance tables : UnicodeTables := MemIni.tables.

Definition interface : MemIni.section :=
  [("privatekey", ["OMhFP0Xt3AKk7oNXFVpXsPqFPRhKa5PHSCiKX2h2XHo="]);
   ("address", ["10.0.0.2/24"]); ("mtu", ["1280"])].
Definition peer : MemIni.section :=
  [("publickey", ["7ZKMOxBmLLXCKCXeGgLLW1LtRYKPvNvhSTk0kPYWUXA="]);
   ("endpoint", ["192.0.2.1:51820"]); ("allowedips", ["10.0.0.1/32"]);
   ("persistentkeepalive", ["30"])].
Definition tcpserver : MemIni.section :=
  [("listenport", ["25565"]); ("target", ["127.0.0.1:25565"])].
Definition socks5 : MemIni.section :=
  [("bindaddress", ["127.0.0.1:25344"]); ("username", ["$PROXY_USER"]);
   ("password", ["$$ecret"]); ("tunneldomains", ["^a{2,4}$"; "^b$"])].
Definition file : MemIni.file :=
  [("interface", interface); ("peer", peer); ("socks5", socks5); ("tcpservertunnel", tcpserver)].

(** The text of that file is written "sample". *)
Definition load (text : string) : result MemIni.file :=
  if bool_decide (text = "sample") then Ok file else Err (errorString "key-value delimiter not found").

#[export] Instance lib : IniLib := MemIni.lib load.
#[export] Instance laws : IniLaws := MemIni.laws load.
#[export] Instance regexps : RegexpLib := {|
  Regexp := string;
  Regexp_Compile s := if bool_decide (s = "(") then Err (errorString "missing )") else Ok s;
  MatchString p s := Contains s p
|}.
#[export] Instance env : ConfigEnv :=
  {| LookupEnv name := if bool_decide (name = "HOME") then Some "/root" else None |}.
(** The file system holds one file with that text. *)
Definition disk (path : string) : result string :=
  if bool_decide (path = "/etc/wireproxy.conf") then Ok "sample"
  else Err (errorString "open: no such file or directory").
#[export] Instance world : Environment := fun _ o =>
  match o return ans o with OReadFile path => disk path | o => default_answer o end.
End Sample.

Section properties.
Context `{UT : UnicodeTables, IL : IniLib, RL : RegexpLib, CE : ConfigEnv, EV : Environment}.

(** C1: [parseConfigSource], with its early returns and its slices filled in
    through pointers, computes exactly the table-driven specification
    [parseConfig_spec]: it reads the device and the peers from the WireGuard
    file, runs the parser of [routine_table] on every section of every kind,
    puts the routines in table order, and fails with the first error in that
    order; and it reads the same files and resolves the same names, in the same
    order. *)
Theorem parseConfigSource_refines_spec source baseDir tr :
  parseConfigSource source baseDir tr = parseConfig_spec source baseDir tr.
Proof. apply parseConfigSource_eq. Qed.

(** C20: a configuration that either entry point accepts is well formed: the
    private key and every peer key are 32 bytes in hexadecimal, there is a
    peer, addresses and prefixes are in range, the port of every TCP and UDP
    server tunnel fits in 16 bits (the [ListenPort] of [Interface], the MTU and
    the intervals are not checked), [CheckAliveInterval]
    differs from its default only with [CheckAlive] set, and no routine is
    bound or closed yet.  Every endpoint is resolved: it is the address some
    look-up of this parse has answered, joined with a port. *)
Theorem parse_yields_wf_configuration tr c tr' :
  (exists path, ParseConfig path tr = (Ok c, tr')) \/
  (exists text, ParseConfigString text tr = (Ok c, tr')) ->
  wf_configuration c /\ exists new, tr' = tr ++ new /\
    Forall (endpoint_looked_up tr new) (DeviceConfig.Peers (Configuration.Device c)).
Proof.
  intros [[path Hc]|[text Hc]]; [by eapply parseConfigSource_wf|].
  unfold ParseConfigString in Hc. case_bool_decide; [done|]. by eapply parseConfigSource_wf.
Qed.

(** A configuration held in memory and the same text in a file parse to
    the same result, error or not, once the file has been read, unless the text
    names a bare [WGConfig] file (the one case where the directory of the file
    matters). *)
Theorem ParseConfigString_agrees_with_ParseConfig path text tr
    (Hsame : answer tr (OReadFile path) = Ok text)
    (Hne : TrimSpace text <> "")
    (Hwg : forall cfg wgConf, LoadBytes text = Ok cfg ->
           GetKey (File_Section cfg "") "WGConfig" = Ok wgConf ->
           Base (Key_String wgConf) <> Key_String wgConf) :
  ParseConfig path tr = ParseConfigString text (tr ++ [OReadFile path]).
Proof.
  unfold ParseConfigString, ParseConfig. rewrite bool_decide_eq_false_2 by done.
  rewrite !parseConfigSource_eq. unfold parseConfig_spec, LoadSources. run_M. rewrite Hsame.
  destruct (LoadBytes text) as [cfg|] eqn:El; [|done].
  assert (wg_config cfg (Dir path) = wg_config cfg "") as ->; [|done].
  unfold wg_config. destruct (GetKey (File_Section cfg "") "WGConfig") as [k|] eqn:Ek; [|done].
  by rewrite (bool_decide_eq_false_2 _ (Hwg cfg k eq_refl Ek)), !andb_false_r.
Qed.

(** A key survives the conversion: whatever 32 bytes a configuration
    gives in base64, the hexadecimal key of the device decodes to the same
    bytes; the base64 of any other number of bytes is refused. *)
Theorem encodeBase64ToHex_roundtrip bytes :
  if decide (String.length bytes = 32)
  then exists h, encodeBase64ToHex (b64_EncodeToString bytes) = Ok h /\ hex_decode h = Some bytes
  else exists e, encodeBase64ToHex (b64_EncodeToString bytes) = Err e.
Proof.
  unfold encodeBase64ToHex. rewrite b64_decode_encode. case_decide as Hl.
  - rewrite bool_decide_eq_true_2 by done. eexists. split; [done|]. apply hex_decode_encode.
  - rewrite bool_decide_eq_false_2 by done. by eexists.
Qed.

(** How a literal value is written in a configuration: a leading dollar sign
    is doubled. *)
Definition escape_dollar (v : string) : string :=
  if HasPrefix v "$" then "$" +:+ v else v.

(** Every string can be written in the configuration: [parseString] reads
    back any value whose leading dollar sign was doubled, and reads a value
    of the form [$NAME] as the environment variable of that name, verbatim,
    or fails when it is unset. *)
Theorem parseString_reads section keyName key
    (Hkey : Section_Key section (ToLower keyName) = Some key) :
  (forall v, Key_String key = escape_dollar v -> parseString section keyName = Ok v) /\
  (forall name, Key_String key = "$" +:+ name -> HasPrefix name "$" = false ->
     match LookupEnv name with
     | Some v => parseString section keyName = Ok v
     | None => exists e, parseString section keyName = Err e
     end).
Proof.
  unfold parseString. rewrite Hkey. split.
  - intros v. unfold escape_dollar. destruct (HasPrefix v "$") eqn:Ev; intros ->.
    + apply HasPrefix_spec in Ev as [r ->]. rewrite !(proj2 (HasPrefix_spec _ _)) by (by eexists).
      exact (f_equal Ok (Replace1_prefix "$$" "$" r)).
    + by rewrite Ev.
  - intros name -> Hname. rewrite (proj2 (HasPrefix_spec _ _)) by (by eexists).
    assert (HasPrefix ("$" +:+ name) "$$" = false) as ->.
    { apply not_true_iff_false. intros [r Hr]%HasPrefix_spec. simpl in Hr.
      injection Hr as ->. apply not_true_iff_false in Hname. apply Hname, HasPrefix_spec.
      by exists r. }
    rewrite TrimPrefix_app. destruct (LookupEnv name); [done|by eexists].
Qed.

(** An absent key is the empty string, never the error "should not be
    empty" that [parseString] has a branch for: go-ini's [Key] is not nil.
    A missing list is therefore empty and a missing WireGuard key is refused
    by its length. *)
Theorem absent_key_reads_empty `{!IniLaws} section keyName e
    (Habsent : GetKey section keyName = Err e) :
  parseString section keyName = Ok "" /\
  parseNetIP section keyName = Ok [] /\ parseCIDRNetIP section keyName = Ok [] /\
  parseBase64KeyToHex section keyName = Err (errorString "key should be 32 bytes: ").
Proof.
  assert (parseString section keyName = Ok "") as Hs.
  { rewrite <- (GetKey_insensitive section keyName) in Habsent.
    apply Key_absent in Habsent as (k & Hk & Hv). unfold parseString. by rewrite Hk, Hv. }
  unfold parseNetIP, parseCIDRNetIP, parse_list, parseBase64KeyToHex. by rewrite Hs.
Qed.

Lemma compile_patterns_Ok keyName raws patterns :
  compile_patterns keyName raws = Ok patterns <->
  Forall2 (fun raw re => Regexp_Compile raw = Ok re)
    (filter (fun raw => raw <> "") (TrimSpace <$> raws)) patterns.
Proof.
  revert patterns; induction raws as [|raw raws IH]; intros patterns.
  - simpl. split; [by intros [= <-]|]. by inversion 1.
  - rewrite fmap_cons, filter_cons. simpl. case_bool_decide as He; case_decide; try done.
    destruct (Regexp_Compile (TrimSpace raw)) as [re|] eqn:Ere.
    + split.
      * destruct (compile_patterns keyName raws) as [ps|]; [|done]. intros [= <-].
        constructor; [done|]. by apply IH.
      * inversion 1 as [|? re' ? ps Hre Hps]; subst. apply IH in Hps as ->. congruence.
    + split; [done|]. inversion 1; congruence.
Qed.

(** A domain whitelist is one regular expression per occurrence of the
    key, whole (commas included), in order, blank ones left out; it is
    accepted only if every one of them compiles. *)
Theorem parseRegexList_one_per_line section keyName key patterns
    (Hkey : GetKey section keyName = Ok key) :
  parseRegexList section keyName = Ok patterns <->
  Forall2 (fun raw re => Regexp_Compile raw = Ok re)
    (filter (fun raw => raw <> "") (TrimSpace <$> Key_ValueWithShadows key)) patterns.
Proof. unfold parseRegexList. rewrite Hkey. apply compile_patterns_Ok. Qed.
End properties.

(** ** Witnesses *)
Import Sample.

Lemma parse_yields_wf_configuration_witness :
  exists c tr', ParseConfig "/etc/wireproxy.conf" [] = (Ok c, tr') /\
    tr' = [OReadFile "/etc/wireproxy.conf"; OResolveIPAddr "ip" "192.0.2.1"] /\
    length (Configuration.Routines c) = 2 /\ wf_configuration c.
Proof.
  eexists _, _. split; [vm_compute; reflexivity|]. split; [reflexivity|]. split; [vm_compute; reflexivity|].
  apply (parse_yields_wf_configuration []
    _ [OReadFile "/etc/wireproxy.conf"; OResolveIPAddr "ip" "192.0.2.1"]).
  left. exists "/etc/wireproxy.conf". vm_compute. reflexivity.
Defined.

Lemma ParseConfigString_agrees_witness :
  ParseConfig "/etc/wireproxy.conf" [] = ParseConfigString "sample" [OReadFile "/etc/wireproxy.conf"].
Proof.
  apply ParseConfigString_agrees_with_ParseConfig.
  - reflexivity.
  - vm_compute. discriminate.
  - intros cfg wgConf Hl. vm_compute in Hl. injection Hl as <-. vm_compute. discriminate.
Defined.

Lemma parseString_reads_witness :
  parseString (IL := lib) socks5 "Password" = Ok "$ecret".
Proof.
  apply (parseString_reads (IL := lib) socks5 "Password" ["$$ecret"]); vm_compute; reflexivity.
Defined.

Lemma absent_key_reads_empty_witness :
  parseBase64KeyToHex (IL := lib) [] "PrivateKey" =
    Err (errorString "key should be 32 bytes: ").
Proof.
  eapply (absent_key_reads_empty (IL := lib) [] "PrivateKey"). vm_compute. reflexivity.
Defined.

Lemma parseRegexList_one_per_line_witness :
  parseRegexList (IL := lib) socks5 "TunnelDomains" = Ok ["^a{2,4}$"; "^b$"].
Proof.
  apply (proj2 (parseRegexList_one_per_line (IL := lib) (RL := regexps) socks5 "TunnelDomains"
    ["^a{2,4}$"; "^b$"] ["^a{2,4}$"; "^b$"] ltac:(vm_compute; reflexivity))).
  vm_compute. repeat constructor.
Defined.
