(* ===== verification/Router.v ===== *)
(** * Router: [router.go], and the routed dialers of [routine.go]

    The decision whether a host is reached through the tunnel, and the dial
    callbacks that apply it. *)

From S2P Require Import Prelude GoStr GoNet GoNetip Ini ConfigTypes World.

Section router.
Context `{UT : UnicodeTables, RL : RegexpLib}.

Record DomainRouter := mkRouter { patterns : list Regexp; logNames : bool }.

(** The router is held by pointer: [None] is nil. *)
Definition NewDomainRouter (patterns : list Regexp) (logNames : bool) : option DomainRouter :=
  Some (mkRouter patterns logNames).

Definition shouldTunnel (r : option DomainRouter) (host : string) : bool :=
  match r with
  | None => true
  | Some r =>
      if bool_decide (length (patterns r) = 0) then true
      else let host := ToLower (TrimSuffix host ".") in
           existsb (fun p => MatchString p host) (patterns r)
  end.

Context `{E : Environment}.

Definition route (r : option DomainRouter) (host : string) : M bool :=
  let tunnel := shouldTunnel r host in
  let! _ :=
    (match r with
     | Some r' =>
         if logNames r'
         then perform (OLog ("route: " +:+ host +:+ " -> " +:+
                             (if tunnel then "TUNNEL" else "DIRECT")))
         else ret tt
     | None => ret tt
     end) in
  ret tunnel.

Definition hostFromAddr (address : string) : string :=
  match SplitHostPort address with
  | Err _ => address
  | Ok (host, _) => host
  end.

(** The callback [VirtualTun.RoutedDial] returns. *)
Definition RoutedDial (router : option DomainRouter) (network address : string)
    : M (result handle) :=
  let! tunnel := route router (hostFromAddr address) in
  if tunnel then perform (ODial Tunnel network address)
  else perform (ODial Direct network address).

(** The callback of [routedSocks5Dial]; [fqdn] is [request.DestAddr.FQDN]. *)
Definition routedSocks5Dial (router : option DomainRouter) (network address fqdn : string)
    : M (result handle) :=
  let host := if bool_decide (fqdn = "") then hostFromAddr address else fqdn in
  let! tunnel := route router host in
  if tunnel then perform (ODial Tunnel network address)
  else perform (ODial Direct network address).

(** [passthroughResolver.Resolve]: no address, so the name survives. *)
Definition passthroughResolver_Resolve (name : string) : M (result (option Addr)) :=
  ret (Ok None).

(** ** Lemmas *)

(** The side a host is reached on. *)
Definition side_of (router : option DomainRouter) (host : string) : side :=
  if shouldTunnel router host then Tunnel else Direct.

(** Dialling after a routing decision: at most a log line, then one dial on
    the decided side, whose answer is the result. *)
Lemma route_then_dial (router : option DomainRouter) host network address (tr : trace) :
  exists logs,
    Forall is_log logs /\
    (let! tunnel := route router host in
     if tunnel then perform (ODial Tunnel network address)
     else perform (ODial Direct network address)) tr =
    (answer (tr ++ logs) (ODial (side_of router host) network address),
     tr ++ logs ++ [ODial (side_of router host) network address]).
Proof.
  unfold side_of, route. run_M. destruct router as [[ps []]|]; cbn [logNames].
  - destruct (shouldTunnel _ host); eexists [OLog _];
      (split; [by repeat constructor|by rewrite <- (assoc_L (++))]).
  - exists []. split; [constructor|]. destruct (shouldTunnel _ host); by rewrite app_nil_r.
  - exists []. split; [constructor|]. destruct (shouldTunnel _ host); by rewrite app_nil_r.
Qed.

Lemma hostFromAddr_Join host port :
  no_brackets host = true -> plain_port port = true ->
  hostFromAddr (JoinHostPort host port) = host.
Proof. intros. unfold hostFromAddr. by rewrite SplitHostPort_Join. Qed.
End router.

Section properties.
Context `{UT : UnicodeTables, RL : RegexpLib, E : Environment}.

(** C9: the dialers of the HTTP, SNI and SOCKS5 proxies open exactly one
    connection, to the address they were given, through the tunnel if the
    host is whitelisted and directly otherwise; the SOCKS5 dialer decides on
    the original name when there is one. A whitelisted host never leaks
    outside the tunnel. *)
Theorem routed_dials_follow_whitelist router network host port fqdn
    (Hhost : no_brackets host = true) (Hport : plain_port port = true) :
  let addr := JoinHostPort host port in
  ops_of is_dial (effects (RoutedDial router network addr)) =
    [ODial (side_of router host) network addr] /\
  ops_of is_dial (effects (routedSocks5Dial router network addr fqdn)) =
    [ODial (side_of router (if decide (fqdn = "") then host else fqdn)) network addr].
Proof.
  intros addr. unfold effects, RoutedDial, routedSocks5Dial.
  assert (forall logs o, Forall is_log logs -> is_dial o = true ->
    ops_of is_dial ([] ++ logs ++ [o]) = [o]) as Hops.
  { intros logs o Hlogs Ho. simpl. rewrite ops_of_app. simpl. rewrite Ho.
    induction Hlogs as [|[] logs Hl _ IH]; try done. }
  subst addr. rewrite hostFromAddr_Join by done. set (addr := JoinHostPort host port).
  assert (forall h, ops_of is_dial (snd ((let! tunnel := route router h in
    if tunnel then perform (ODial Tunnel network addr)
    else perform (ODial Direct network addr)) [])) = [ODial (side_of router h) network addr])
    as Hdial.
  { intros h. destruct (route_then_dial router h network addr []) as (logs & Hl & ->).
    by apply Hops. }
  split; [apply Hdial|]. by case_decide; case_bool_decide; try done; apply Hdial.
Qed.

(** The whitelist test on an ASCII host name ignores letter case and one
    trailing dot; an empty or nil whitelist tunnels everything; otherwise the
    host is tunnelled exactly when some pattern matches its normal form. *)
Theorem shouldTunnel_normalises (ps : list Regexp) (log : bool) (host host' : string)
    (Hascii : all_ascii host = true) (Hascii' : all_ascii host' = true)
    (Hsame : lower_ascii (TrimSuffix host ".") = lower_ascii (TrimSuffix host' ".")) :
  shouldTunnel (NewDomainRouter ps log) host = shouldTunnel (NewDomainRouter ps log) host' /\
  shouldTunnel None host = true /\
  (shouldTunnel (NewDomainRouter ps log) host = true <->
   ps = [] \/ exists p, p ∈ ps /\ MatchString p (lower_ascii (TrimSuffix host ".")) = true).
Proof.
  assert (forall h, all_ascii h = true ->
    ToLower (TrimSuffix h ".") = lower_ascii (TrimSuffix h ".")) as Hlow.
  { intros h Hh. unfold ToLower. by rewrite all_ascii_TrimSuffix. }
  unfold NewDomainRouter, shouldTunnel. cbn [patterns]. rewrite !Hlow, Hsame by done.
  split; [done|]. split; [done|]. destruct ps as [|p ps]; simpl; [naive_solver|].
  change (MatchString p ?h || existsb ?f ps) with (existsb f (p :: ps)).
  rewrite existsb_exists. setoid_rewrite <- list_elem_of_In.
  split; [by right|by intros [?|?]].
Qed.
End properties.

(** ** Witnesses *)
Module Sample.
#[export] Instance tables : UnicodeTables := MemIni.tables.
#[export] Instance regexps : RegexpLib :=
  {| Regexp := string; Regexp_Compile := Ok; MatchString p s := Contains s p |}.
#[export] Instance env : Environment := fun _ o => default_answer o.
End Sample.
Import Sample.

Lemma routed_dials_follow_whitelist_witness :
  ops_of is_dial (effects (RoutedDial (NewDomainRouter (RL := regexps) ["example.com"] true) "tcp" "www.Example.com:443")) =
    [ODial Tunnel "tcp" "www.Example.com:443"] /\
  ops_of is_dial (effects (RoutedDial (NewDomainRouter (RL := regexps) ["example.com"] true) "tcp" "other.net:443")) =
    [ODial Direct "tcp" "other.net:443"].
Proof.
  split.
  - apply (routed_dials_follow_whitelist (NewDomainRouter (RL := regexps) ["example.com"] true) "tcp"
      "www.Example.com" "443" ""); vm_compute; reflexivity.
  - apply (routed_dials_follow_whitelist (NewDomainRouter (RL := regexps) ["example.com"] true) "tcp"
      "other.net" "443" ""); vm_compute; reflexivity.
Defined.

Lemma shouldTunnel_normalises_witness :
  shouldTunnel (NewDomainRouter (RL := regexps) ["example.com"] false) "WWW.EXAMPLE.COM." =
  shouldTunnel (NewDomainRouter (RL := regexps) ["example.com"] false) "www.example.com".
Proof. apply shouldTunnel_normalises; vm_compute; reflexivity. Defined.
