(* ===== verification/Resolver.v ===== *)
(** * Resolver: name resolution and address parsing of [routine.go]

    [LookupAddr], [ResolveAddrWithContext], [Resolve], [parseAddressPort] and
    [resolveToAddrPort]. *)

From S2P Require Import Prelude GoStr GoNet GoNetip Ini ConfigTypes World.

Section resolver.
Context `{E : Environment}.

Definition LookupAddr (d : VirtualTun.t) (name : string) : M (result (list string)) :=
  if VirtualTun.SystemDNS d then perform (OLookupHost Direct name)
  else perform (OLookupHost Tunnel name).

(** The loop that sorts the parsed addresses by family, in order. *)
Fixpoint by_family (addrs : list string) (addrs_v4 addrs_v6 : list Addr)
    : list Addr * list Addr :=
  match addrs with
  | [] => (addrs_v4, addrs_v6)
  | saddr :: addrs' =>
      match ParseAddr saddr with
      | Ok addr =>
          if Is4 addr then by_family addrs' (addrs_v4 ++ [addr]) addrs_v6
          else if Is6 addr then by_family addrs' addrs_v4 (addrs_v6 ++ [addr])
          else by_family addrs' addrs_v4 addrs_v6
      | Err _ => by_family addrs' addrs_v4 addrs_v6
      end
  end.

Definition swap {A} (i j : nat) (l : list A) : list A :=
  match l !! i, l !! j with
  | Some x, Some y => <[i:=y]> (<[j:=x]> l)
  | _, _ => l
  end.

(** [rand.Shuffle]: for [i] from [n-1] down to 1, swap with [rand.Intn(i+1)].
    The random source answers; reducing its answer is [Intn]'s contract. *)
Fixpoint Shuffle_go {A} (i : nat) (l : list A) : M (list A) :=
  match i with
  | O => ret l
  | S i' =>
      let! j := perform (OIntn (S i)) in
      Shuffle_go i' (swap i (j mod S i) l)
  end.
Definition Shuffle {A} (l : list A) : M (list A) := Shuffle_go (length l - 1) l.

Definition ResolveAddrWithContext (d : VirtualTun.t) (name : string) : M (result Addr) :=
  let! looked := LookupAddr d name in
  match looked with
  | Err err => ret (Err err)
  | Ok addrs =>
      let '(addrs_v4, addrs_v6) := by_family addrs [] [] in
      let! addrs_v4 := Shuffle addrs_v4 in
      let! addrs_v6 := Shuffle addrs_v6 in
      let strategy := ResolveConfig.ResolveStrategy (VirtualTun.ResolveConfig d) in
      let addrs_all :=
        if bool_decide (strategy = "ipv4") then addrs_v4 ++ addrs_v6
        else if bool_decide (strategy = "ipv6") then addrs_v6 ++ addrs_v4
        else [] in
      match addrs_all with
      | [] => ret (Err (errorString ("no address found for: " +:+ name)))
      | addr :: _ => ret (Ok addr)
      end
  end.

(** The socks5 [NameResolver] of the tunnel. *)
Definition Resolve (d : VirtualTun.t) (name : string) : M (result Addr) :=
  let! _ := perform (OLog ("Resolving address for " +:+ name)) in
  ResolveAddrWithContext d name.

Definition parseAddressPort (endpoint : string) : result addressPort :=
  try (name, sport) := SplitHostPort endpoint in
  match Atoi sport with
  | Ok port =>
      if bool_decide (port < 0)%Z || bool_decide (65535 < port)%Z
      then Err (opError "dial" (errorString "port must be numeric"))
      else Ok (mkAddressPort name (wrapu16 port))
  | Err _ => Err (opError "dial" (errorString "port must be numeric"))
  end.

Definition resolveToAddrPort (d : VirtualTun.t) (endpoint : addressPort) : M (result AddrPort) :=
  let! addr := ResolveAddrWithContext d (address endpoint) in
  match addr with
  | Err err => ret (Err err)
  | Ok addr => ret (Ok (mkAddrPort addr (port endpoint)))
  end.

(** ** Lemmas *)
Lemma swap_perm {A} i j (l : list A) : swap i j l ≡ₚ l.
Proof.
  unfold swap. destruct (l !! i) eqn:Ei; [|done]. destruct (l !! j) eqn:Ej; [|done].
  by apply Permutation_insert_swap.
Qed.

Definition looks_random (o : op) : bool := match o with OIntn _ => true | _ => false end.

Lemma Shuffle_spec {A} (l : list A) tr :
  exists l' draws, Shuffle l tr = (l', tr ++ draws) /\ l' ≡ₚ l /\ Forall looks_random draws.
Proof.
  unfold Shuffle. generalize (length l - 1)%nat. intros i. revert l tr.
  induction i as [|i IH]; intros l tr; cbn [Shuffle_go].
  - exists l, []. rewrite app_nil_r. by repeat constructor.
  - run_M. destruct (IH (swap (S i) (answer tr (OIntn (S (S i))) mod S (S i)) l)
      (tr ++ [OIntn (S (S i))])) as (l' & draws & -> & Hp & Hd).
    exists l', (OIntn (S (S i)) :: draws). split; [by rewrite <- (assoc_L (++))|].
    split; [by rewrite Hp, swap_perm|by constructor].
Qed.

Definition parsed (addrs : list string) : list Addr :=
  omap (fun s => match ParseAddr s with Ok a => Some a | Err _ => None end) addrs.

Lemma by_family_spec addrs v4 v6 :
  by_family addrs v4 v6 =
    (v4 ++ List.filter Is4 (parsed addrs), v6 ++ List.filter Is6 (parsed addrs)).
Proof.
  revert v4 v6; induction addrs as [|s addrs IH]; intros v4 v6; simpl.
  - by rewrite !app_nil_r.
  - unfold parsed; cbn [omap list_omap]. fold (parsed addrs).
    destruct (ParseAddr s) as [a|] eqn:Ea; [|apply IH].
    apply ParseAddr_wf in Ea. destruct a; simpl; [done|..];
      rewrite IH; by rewrite <- ?(assoc_L (++)).
Qed.

(** The candidates the strategy lets be chosen: the preferred family if the
    name has an address of it, else the other one; nothing for a strategy
    that is neither "ipv4" nor "ipv6". *)
Definition candidates (strategy : string) (addrs : list Addr) : list Addr :=
  let v4 := List.filter Is4 addrs in
  let v6 := List.filter Is6 addrs in
  if bool_decide (strategy = "ipv4") then (if bool_decide (v4 = []) then v6 else v4)
  else if bool_decide (strategy = "ipv6") then (if bool_decide (v6 = []) then v4 else v6)
  else [].

Lemma head_app_perm {A} `{EqDecision A} (l1 l2 k1 k2 : list A) :
  l1 ≡ₚ k1 -> l2 ≡ₚ k2 ->
  match l1 ++ l2 with
  | [] => (if bool_decide (k1 = []) then k2 else k1) = []
  | x :: _ => x ∈ (if bool_decide (k1 = []) then k2 else k1)
  end.
Proof.
  intros H1 H2. destruct l1 as [|x l1]; simpl.
  - apply Permutation_nil_l in H1. rewrite bool_decide_eq_true_2 by done.
    destruct l2 as [|y l2]; [by apply Permutation_nil_l in H2|].
    rewrite <- H2. constructor.
  - rewrite bool_decide_eq_false_2. { rewrite <- H1. constructor. }
    intros ->. by apply Permutation_nil_r in H1.
Qed.

Lemma ResolveAddr_spec d name tr :
  let on := if VirtualTun.SystemDNS d then Direct else Tunnel in
  let strategy := ResolveConfig.ResolveStrategy (VirtualTun.ResolveConfig d) in
  exists draws,
    snd (ResolveAddrWithContext d name tr) = tr ++ OLookupHost on name :: draws /\
    Forall looks_random draws /\
    match answer tr (OLookupHost on name) with
    | Err e => fst (ResolveAddrWithContext d name tr) = Err e
    | Ok addrs =>
        match fst (ResolveAddrWithContext d name tr) with
        | Ok a => a ∈ candidates strategy (parsed addrs)
        | Err _ => candidates strategy (parsed addrs) = []
        end
    end.
Proof.
  intros on strategy. unfold ResolveAddrWithContext.
  assert (LookupAddr d name tr =
    (answer tr (OLookupHost on name), tr ++ [OLookupHost on name])) as HL.
  { unfold LookupAddr, perform, on. by destruct (VirtualTun.SystemDNS d). }
  unfold bind. rewrite HL. destruct (answer tr (OLookupHost on name)) as [addrs|e].
  2:{ exists []. by repeat split. }
  rewrite by_family_spec. simpl.
  destruct (Shuffle_spec (List.filter Is4 (parsed addrs)) (tr ++ [OLookupHost on name]))
    as (l4 & d4 & -> & Hp4 & Hd4).
  destruct (Shuffle_spec (List.filter Is6 (parsed addrs)) ((tr ++ [OLookupHost on name]) ++ d4))
    as (l6 & d6 & -> & Hp6 & Hd6).
  exists (d4 ++ d6). fold strategy. unfold candidates.
  pose proof (head_app_perm _ _ _ _ Hp4 Hp6) as H46.
  pose proof (head_app_perm _ _ _ _ Hp6 Hp4) as H64.
  split; [|split; [by apply Forall_app_2|]].
  - match goal with |- context [match ?l with [] => _ | _ :: _ => _ end] => destruct l end;
      simpl; by rewrite <- !(assoc_L (++)).
  - destruct (bool_decide (strategy = "ipv4")); [by destruct (l4 ++ l6)|].
    destruct (bool_decide (strategy = "ipv6")); [by destruct (l6 ++ l4)|done].
Qed.
End resolver.

Section properties.
Context `{E : Environment}.

(** C10: resolving a name asks exactly one resolver, the tunnel's whenever the
    configuration has DNS servers and the host's otherwise, so tunnelled
    names do not leak to the host; the answer is an address the resolver
    returned, of the family the strategy prefers if there is one and of the
    other family otherwise, whatever the random shuffle does; resolution
    fails exactly when there is no candidate. *)
Theorem resolution_follows_strategy (d : VirtualTun.t) (name : string) :
  let on := if VirtualTun.SystemDNS d then Direct else Tunnel in
  let strategy := ResolveConfig.ResolveStrategy (VirtualTun.ResolveConfig d) in
  ops_of is_lookup (effects (ResolveAddrWithContext d name)) = [OLookupHost on name] /\
  match answer [] (OLookupHost on name) with
  | Err e => outcome (ResolveAddrWithContext d name) = Err e
  | Ok addrs =>
      match outcome (ResolveAddrWithContext d name) with
      | Ok a => a ∈ candidates strategy (parsed addrs)
      | Err _ => candidates strategy (parsed addrs) = []
      end
  end.
Proof.
  intros on strategy. destruct (ResolveAddr_spec d name []) as (draws & Heff & Hd & Hres).
  split; [|exact Hres]. unfold effects. rewrite Heff. simpl. f_equal.
  clear -Hd. induction Hd as [|[] draws Hx _ IH]; simpl in *; done.
Qed.

(** With a strategy other than "ipv4" and "ipv6" no name ever resolves,
    not even an address literal: the strategy string is not validated. *)
Theorem unknown_strategy_resolves_nothing (d : VirtualTun.t) (name : string)
    (H4 : ResolveConfig.ResolveStrategy (VirtualTun.ResolveConfig d) <> "ipv4")
    (H6 : ResolveConfig.ResolveStrategy (VirtualTun.ResolveConfig d) <> "ipv6") :
  exists e, outcome (ResolveAddrWithContext d name) = Err e.
Proof.
  destruct (ResolveAddr_spec d name []) as (draws & _ & _ & Hres). revert Hres.
  unfold candidates. rewrite !bool_decide_eq_false_2 by done.
  unfold outcome. destruct (answer [] _) as [addrs|e]; [|by eauto].
  destruct (fst _); [by intros ?%not_elem_of_nil|by eauto].
Qed.

(** A target "host:port" is parsed exactly: printing any host and 16-bit
    port and parsing it gives them back, and a successful parse is in range
    and never truncated. *)
Theorem parseAddressPort_exact :
  (forall host p, no_brackets host = true -> (0 <= p < 65536)%Z ->
     parseAddressPort (JoinHostPort host (Itoa p)) = Ok (mkAddressPort host p)) /\
  (forall s ap, parseAddressPort s = Ok ap ->
     (0 <= port ap < 65536)%Z /\
     exists sport, SplitHostPort s = Ok (address ap, sport) /\ Atoi sport = Ok (port ap)).
Proof.
  unfold parseAddressPort. split.
  - intros host p Hh Hp. assert (plain_port (Itoa p) = true) as Hport.
    { unfold plain_port, no_brackets. by rewrite !Itoa_no_byte. }
    rewrite SplitHostPort_Join, Atoi_Itoa by (done || lia).
    rewrite !bool_decide_eq_false_2 by lia. simpl. by rewrite wrapu16_small.
  - intros s ap. destruct (SplitHostPort s) as [[name sport]|]; [|done].
    destruct (Atoi sport) as [p|] eqn:Ep; [|done].
    do 2 case_bool_decide; simpl; try done. intros [= <-]. simpl.
    rewrite wrapu16_small by lia. split; [lia|]. by exists sport.
Qed.
End properties.

(** ** Witnesses *)
Module Sample.
(** A dual-stack host name, and a random source that always draws 1. *)
#[export] Instance env : Environment := fun _ o =>
  match o return ans o with
  | OLookupHost _ _ => Ok ["192.0.2.1"; "2001:db8::1"; "192.0.2.2"]
  | o' => default_answer o'
  end.
Definition tun (strategy : string) : VirtualTun.t :=
  VirtualTun.mk false DeviceConfig.zero (ResolveConfig.mk strategy) ∅.
End Sample.
Import Sample.

Example resolve_ipv6_first : outcome (ResolveAddrWithContext (tun "ipv6") "h") =
  Ok (Addr6 [32;1;13;184;0;0;0;0;0;0;0;0;0;0;0;1]%N "").
Proof. vm_compute. reflexivity. Qed.

Lemma unknown_strategy_witness :
  exists e, outcome (ResolveAddrWithContext (tun "IPv4") "192.0.2.1") = Err e.
Proof. apply unknown_strategy_resolves_nothing; vm_compute; discriminate. Defined.

Lemma parseAddressPort_exact_witness :
  parseAddressPort "[2001:db8::1]:443" = Ok (mkAddressPort "2001:db8::1" 443).
Proof.
  apply (proj1 parseAddressPort_exact "2001:db8::1" 443%Z); [vm_compute; reflexivity|lia].
Defined.
