(* ===== verification/Forward.v ===== *)
(** * Forward: the TCP forwarders of [routine.go]

    [connForward], [tcpClientForward], [tcpServerForward], [STDIOTcpForward]. *)

From S2P Require Import Prelude GoStr GoNet GoNetip Ini ConfigTypes World Router Resolver.

(** The connection a stream closes. *)
Definition stream_handle (s : stream) : handle :=
  match s with Conn h | Replay _ h => h end.

Section forward.
Context `{E : Environment}.

(** Copy from [from] to [to] until either fails; the deferred closes run in
    reverse order. *)
Definition connForward (from to : stream) : M unit :=
  let! err := perform (OCopy to from) in
  let! _ :=
    match err with
    | Some err => perform (OLog ("Cannot forward traffic: " +:+ Error err))
    | None => ret tt
    end in
  let! _ := perform (OClose (stream_handle to)) in
  let! _ := perform (OClose (stream_handle from)) in
  ret tt.

(** [target] is a nil pointer in the first message. *)
Definition tcpClientForward (vt : VirtualTun.t) (raddr : addressPort) (conn : handle) : M unit :=
  let! target := resolveToAddrPort vt raddr in
  match target with
  | Err err => perform (OLog ("TCP Server Tunnel to <nil>: " +:+ Error err))
  | Ok target =>
      let! sconn := perform (ODialTCP Tunnel target) in
      match sconn with
      | Err err =>
          perform (OLog ("TCP Client Tunnel to " +:+ AddrPort_String target +:+ ": " +:+ Error err))
      | Ok sconn =>
          let! _ := perform (OGo (ConnForward (Conn sconn) (Conn conn))) in
          perform (OGo (ConnForward (Conn conn) (Conn sconn)))
      end
  end.

Definition tcpServerForward (vt : VirtualTun.t) (raddr : addressPort) (conn : handle) : M unit :=
  let! target := resolveToAddrPort vt raddr in
  match target with
  | Err err => perform (OLog ("TCP Server Tunnel to <nil>: " +:+ Error err))
  | Ok target =>
      let! sconn := perform (ODialTCP Direct target) in
      match sconn with
      | Err err =>
          perform (OLog ("TCP Server Tunnel to " +:+ AddrPort_String target +:+ ": " +:+ Error err))
      | Ok sconn =>
          let! _ := perform (OGo (ConnForward (Conn sconn) (Conn conn))) in
          perform (OGo (ConnForward (Conn conn) (Conn sconn)))
      end
  end.

Definition STDIOTcpForward (vt : VirtualTun.t) (raddr : addressPort) (input output : handle)
    : M unit :=
  let! target := resolveToAddrPort vt raddr in
  match target with
  | Err err =>
      perform (OLog ("Name resolution error for " +:+ address raddr +:+ ": " +:+ Error err))
  | Ok target =>
      let! sconn := perform (ODialTCP Tunnel target) in
      match sconn with
      | Err err =>
          perform (OLog ("TCP Client Tunnel to " +:+ AddrPort_String target +:+ " (" +:+
            TCPAddr_String target +:+ "): " +:+ Error err))
      | Ok sconn =>
          let! _ := perform (OGo (ConnForward (Conn input) (Conn sconn))) in
          perform (OGo (ConnForward (Conn sconn) (Conn output)))
      end
  end.

(** ** Lemmas *)

(** Operations that neither dial, nor close, nor start a goroutine. *)
Definition passive (o : op) : bool :=
  match o with
  | OLog _ | OLookupHost _ _ | OIntn _ | OCopy _ _ | OWrite _ _ | OWriteRequest _
  | OWriteResponse _ _ | OReadRequest _ | ORead _ | OSetReadDeadline _ _ => true
  | _ => false
  end.
(** What a forwarder is judged by: its dials, its closes and its goroutines. *)
Definition acts (tr : trace) : trace := List.filter (negb ∘ passive) tr.

Lemma acts_app t1 t2 : acts (t1 ++ t2) = acts t1 ++ acts t2.
Proof. apply List.filter_app. Qed.
Lemma acts_passive tr : Forall passive tr -> acts tr = [].
Proof. induction 1 as [|o tr Ho _ IH]; simpl; [done|]. destruct o; done. Qed.

Lemma resolveToAddrPort_passive d raddr tr :
  exists new, snd (resolveToAddrPort d raddr tr) = tr ++ new /\ Forall passive new.
Proof.
  destruct (ResolveAddr_spec d (address raddr) tr) as (draws & Heff & Hd & _).
  unfold resolveToAddrPort, bind. destruct (ResolveAddrWithContext _ _ _) as [r tr'].
  simpl in Heff. subst tr'. eexists. split; [destruct r; reflexivity|].
  constructor; [done|]. eapply Forall_impl; [exact Hd|]. by intros [].
Qed.

(** A forwarder: resolve, dial once, then start two goroutines or log. *)
Lemma forward_acts d raddr (on : side) (fail1 : error -> M unit)
    (fail2 : AddrPort -> error -> M unit) (t1 t2 : handle -> thread) tr :
  (forall e tr, acts (snd (fail1 e tr)) = acts tr) ->
  (forall a e tr, acts (snd (fail2 a e tr)) = acts tr) ->
  let run :=
    let! target := resolveToAddrPort d raddr in
    match target with
    | Err err => fail1 err
    | Ok target =>
        let! sconn := perform (ODialTCP on target) in
        match sconn with
        | Err err => fail2 target err
        | Ok sconn =>
            let! _ := perform (OGo (t1 sconn)) in perform (OGo (t2 sconn))
        end
    end in
  let resolved := resolveToAddrPort d raddr tr in
  match fst resolved with
  | Err _ => acts (snd (run tr)) = acts tr
  | Ok target =>
      acts (snd (run tr)) = acts tr ++ ODialTCP on target ::
        match answer (snd resolved) (ODialTCP on target) with
        | Ok sconn => [OGo (t1 sconn); OGo (t2 sconn)]
        | Err _ => []
        end
  end.
Proof.
  intros Hf1 Hf2. destruct (resolveToAddrPort_passive d raddr tr) as (new & Hnew & Hp).
  cbv zeta. assert (forall (k : result AddrPort -> M unit),
    bind (resolveToAddrPort d raddr) k tr =
    k (fst (resolveToAddrPort d raddr tr)) (snd (resolveToAddrPort d raddr tr))) as ->.
  { intros k. unfold bind. by destruct (resolveToAddrPort d raddr tr). }
  destruct (resolveToAddrPort d raddr tr) as [r tr']. cbn [fst snd] in *. subst tr'. assert (acts (tr ++ new) = acts tr) as Ha.
  { rewrite acts_app, (acts_passive new) by done. apply app_nil_r. }
  destruct r as [target|e]; [|by rewrite Hf1].
  run_M. destruct (answer _ (ODialTCP on target)) as [sconn|e]; simpl.
  - rewrite !acts_app, (acts_passive new), app_nil_r by done. simpl.
    by rewrite <- !(assoc_L (++)).
  - by rewrite Hf2, !acts_app, (acts_passive new), app_nil_r by done.
Qed.

Lemma log_acts msg tr : acts (snd (perform (OLog msg) tr)) = acts tr.
Proof. simpl. rewrite acts_app. apply app_nil_r. Qed.
End forward.

Section properties.
Context `{E : Environment}.

(** C31: the forwarder of an accepted TCP connection acts all-or-nothing: it
    dials the resolved target exactly once, through the tunnel for a client
    tunnel and directly for a server tunnel, and only when that succeeds
    starts one goroutine per direction; whatever fails, it starts nothing, and
    it never closes the accepted connection itself. *)
Theorem tcp_forward_all_or_nothing (on : side) vt raddr conn :
  let fwd := match on with Tunnel => tcpClientForward | Direct => tcpServerForward end in
  let resolved := resolveToAddrPort vt raddr [] in
  match fst resolved with
  | Err _ => acts (effects (fwd vt raddr conn)) = []
  | Ok target =>
      acts (effects (fwd vt raddr conn)) = ODialTCP on target ::
        match answer (snd resolved) (ODialTCP on target) with
        | Ok sconn => [OGo (ConnForward (Conn sconn) (Conn conn));
                       OGo (ConnForward (Conn conn) (Conn sconn))]
        | Err _ => []
        end
  end.
Proof.
  unfold effects. destruct on.
  - apply (forward_acts vt raddr Tunnel _ _ (fun s => ConnForward (Conn s) (Conn conn))
      (fun s => ConnForward (Conn conn) (Conn s)) []); intros; apply log_acts.
  - apply (forward_acts vt raddr Direct _ _ (fun s => ConnForward (Conn s) (Conn conn))
      (fun s => ConnForward (Conn conn) (Conn s)) []); intros; apply log_acts.
Qed.

(** The STDIO tunnel pipes standard input to the dialled connection and
    the connection to standard output, through the tunnel, all or nothing. *)
Theorem stdio_forward_all_or_nothing vt raddr input output :
  let resolved := resolveToAddrPort vt raddr [] in
  match fst resolved with
  | Err _ => acts (effects (STDIOTcpForward vt raddr input output)) = []
  | Ok target =>
      acts (effects (STDIOTcpForward vt raddr input output)) = ODialTCP Tunnel target ::
        match answer (snd resolved) (ODialTCP Tunnel target) with
        | Ok sconn => [OGo (ConnForward (Conn input) (Conn sconn));
                       OGo (ConnForward (Conn sconn) (Conn output))]
        | Err _ => []
        end
  end.
Proof.
  unfold effects.
  apply (forward_acts vt raddr Tunnel _ _ (fun s => ConnForward (Conn input) (Conn s))
    (fun s => ConnForward (Conn s) (Conn output)) []); intros; apply log_acts.
Qed.

(** A forwarding goroutine closes both connections, the destination
    first, however its copy ends; so when either direction of a pair ends the
    other one is unblocked. *)
Theorem connForward_closes_both from to :
  acts (effects (connForward from to)) =
    [OClose (stream_handle to); OClose (stream_handle from)].
Proof. unfold effects, connForward. run_M. by destruct (answer _ (OCopy _ _)). Qed.
End properties.
