(* ===== verification/Sni.v ===== *)
(** * Sni: the SNI proxy of [sni.go]

    [peekClientHello] lets [crypto/tls] run a server handshake over a
    [readOnlyConn] that records what it reads, and makes a connection that
    reads the recorded bytes again.  The TLS library is a parameter: a strategy
    that calls the methods of the connection and the [GetConfigForClient]
    callback, and in the end returns an error or nil. *)

From S2P Require Import Prelude GoStr GoNet GoNetip Ini ConfigTypes World Router Resolver Forward.

(** The type of the dial callbacks. *)
Definition dialer := string -> string -> M (result handle).

Definition five_seconds : Z := 5000000000.

(** [tls.Server(conn, config).Handshake()], by its next call. *)
Inductive handshake :=
  | HRead (k : result string -> handshake)             (* conn.Read *)
  | HWrite (data : string) (k : result nat -> handshake)
  | HClose (k : option error -> handshake)
  | HSetDeadline (k : option error -> handshake)       (* all three setters *)
  | HClientHello (serverName : string) (k : handshake) (* the callback *)
  | HDone (err : option error).

Class TlsLib := Handshake : handshake.

(** [io.ErrClosedPipe] *)
Definition ErrClosedPipe : error := errorString "io: read/write on closed pipe".

Section sni.
Context `{E : Environment} {TL : TlsLib}.

(** The methods of [readOnlyConn] with effects or results: reading goes
    through [io.TeeReader], which appends what was read to [peekedBytes];
    writing fails; the rest does nothing. *)
Definition readOnlyConn_Read (conn : handle) (peekedBytes : string) : M (string * result string) :=
  let! r := perform (ORead conn) in
  ret (match r with Ok data => peekedBytes +:+ data | Err _ => peekedBytes end, r).
Definition readOnlyConn_Write (data : string) : result nat := Err ErrClosedPipe.
Definition readOnlyConn_Close : option error := None.
Definition readOnlyConn_SetDeadline : option error := None.

(** Run the handshake over a [readOnlyConn]; the result is [peekedBytes], the
    server name of the last [ClientHelloInfo] copied to [hello], and the
    error. *)
Fixpoint drive (h : handshake) (conn : handle) (peekedBytes : string) (hello : option string)
    : M (string * option string * option error) :=
  match h with
  | HRead k =>
      let! (peekedBytes, r) := readOnlyConn_Read conn peekedBytes in
      drive (k r) conn peekedBytes hello
  | HWrite data k => drive (k (readOnlyConn_Write data)) conn peekedBytes hello
  | HClose k => drive (k readOnlyConn_Close) conn peekedBytes hello
  | HSetDeadline k => drive (k readOnlyConn_SetDeadline) conn peekedBytes hello
  | HClientHello serverName k => drive k conn peekedBytes (Some serverName)
  | HDone err => ret (peekedBytes, hello, err)
  end.

(** The server name ("" if there is none), the replaying connection, and the
    handshake's error unless a ClientHello was seen. *)
Definition peekClientHello (conn : handle) : M (string * stream * option error) :=
  let! (peekedBytes, hello, err) := drive Handshake conn "" None in
  let wrappedConn := Replay peekedBytes conn in
  match hello with
  | Some serverName => ret (serverName, wrappedConn, None)
  | None => ret ("", wrappedConn, err)
  end.

Definition sniProxyForward (dial : dialer) (conn : handle) : M (option error) :=
  let! err := perform (OSetReadDeadline conn (Some five_seconds)) in
  match err with
  | Some err => ret (Some (Errorf_w "set read deadline failed: " err))
  | None =>
      let! (hostname, clientConn, err) := peekClientHello conn in
      match err with
      | Some err => ret (Some (Errorf_w "peek client hello failed: " err))
      | None =>
          let! err := perform (OSetReadDeadline conn None) in
          match err with
          | Some err => ret (Some (Errorf_w "clear read deadline failed: " err))
          | None =>
              if bool_decide (hostname = "")
              then ret (Some (errorString "no SNI hostname in ClientHello"))
              else
                let target := JoinHostPort hostname "443" in
                let! backendConn := dial "tcp" target in
                match backendConn with
                | Err err => ret (Some (Errorf_w "tun tcp dial failed: " err))
                | Ok backendConn =>
                    let! _ := perform (OGo (ConnForward clientConn (Conn backendConn))) in
                    let! _ := perform (OGo (ConnForward (Conn backendConn) clientConn)) in
                    ret None
                end
          end
      end
  end.

Definition sniServe (dial : dialer) (conn : handle) : M unit :=
  let! err := sniProxyForward dial conn in
  match err with
  | Some err =>
      let! _ := perform (OLog ("SNI proxy: " +:+ Error err)) in
      let! _ := perform (OClose conn) in
      ret tt
  | None => ret tt
  end.
End sni.

Section properties.
Context `{UT : UnicodeTables, RL : RegexpLib, E : Environment} {TL : TlsLib}.

Lemma RoutedDial_acts router network addr tr :
  acts (snd (RoutedDial router network addr tr)) =
  acts tr ++ [ODial (side_of router (hostFromAddr addr)) network addr].
Proof.
  unfold RoutedDial. destruct (route_then_dial router (hostFromAddr addr) network addr tr)
    as (logs & Hl & ->). cbn [snd].
  rewrite !acts_app, (acts_passive logs); [done|].
  eapply Forall_impl; [exact Hl|]. by intros [].
Qed.

(** What [n] reads of a connection return, from a given point on. *)
Fixpoint bytes_read (conn : handle) (tr : trace) (n : nat) : string :=
  match n with
  | 0 => ""
  | S n =>
      match answer tr (ORead conn) with Ok data => data | Err _ => "" end +:+
      bytes_read conn (tr ++ [ORead conn]) n
  end.

Lemma drive_reads h conn peeked hello tr :
  exists n, snd (drive h conn peeked hello tr) = tr ++ replicate n (ORead conn) /\
    (fst (drive h conn peeked hello tr)).1.1 = peeked +:+ bytes_read conn tr n.
Proof.
  revert peeked hello tr.
  induction h as [k IH|data k IH|k IH|k IH|name k IH|err]; intros peeked hello tr; cbn [drive]; try done.
  - unfold readOnlyConn_Read. run_M.
    destruct (IH (answer tr (ORead conn))
      match answer tr (ORead conn) with Ok data => peeked +:+ data | Err _ => peeked end
      hello (tr ++ [ORead conn])) as (n & Ht & Hp). exists (S n). rewrite Ht, Hp. split.
    + by rewrite <- (assoc_L (++)).
    + simpl. destruct (answer tr (ORead conn)); [by rewrite str_app_assoc|done].
  - exists 0. by rewrite app_nil_r, str_app_nil_r.
Qed.

(** C16: peeking at the ClientHello is transparent, whatever the TLS library
    does: the client is only read from, so nothing is sent to it and it is not
    closed, and the connection that is forwarded replays exactly the bytes
    that were taken off the wire, in order; an error is only reported when
    there is no server name. *)
Theorem peek_is_transparent conn tr :
  let '((name, client, err), tr') := peekClientHello conn tr in
  exists n, tr' = tr ++ replicate n (ORead conn) /\
    client = Replay (bytes_read conn tr n) conn /\
    (name <> "" -> err = None).
Proof.
  unfold peekClientHello, bind. destruct (drive_reads Handshake conn "" None tr) as (n & Ht & Hp).
  destruct (drive Handshake conn "" None tr) as [[[peeked hello] err] tr'].
  cbn [fst snd] in Ht, Hp. subst tr' peeked.
  destruct hello as [name|]; exists n; (split_and!; [done|done|]); [done|by intros []].
Qed.

(** C19: the SNI proxy, on every branch: it dials at most once, exactly after a
    ClientHello that names a server, to that name's port 443, through the
    tunnel exactly when the name is whitelisted; then the backend receives the
    bytes already consumed first, and both directions are forwarded; in every
    other case the client connection is closed, and nothing else happens. *)
Theorem sni_forwards_named_hosts_only router conn :
  let tr1 := [OSetReadDeadline conn (Some five_seconds)] in
  let '((name, client, err), tr2) := peekClientHello conn tr1 in
  let target := JoinHostPort name "443" in
  let tr3 := tr2 ++ [OSetReadDeadline conn None] in
  (no_brackets name = true -> hostFromAddr target = name) /\
  acts (effects (sniServe (RoutedDial router) conn)) =
    match answer [] (OSetReadDeadline conn (Some five_seconds)), err,
          answer tr2 (OSetReadDeadline conn None) with
    | None, None, None =>
        if decide (name = "") then [OClose conn]
        else ODial (side_of router (hostFromAddr target)) "tcp" target ::
          match fst (RoutedDial router "tcp" target tr3) with
          | Ok backend => [OGo (ConnForward client (Conn backend)); OGo (ConnForward (Conn backend) client)]
          | Err _ => [OClose conn]
          end
    | _, _, _ => [OClose conn]
    end.
Proof.
  intros tr1. pose proof (peek_is_transparent conn tr1) as Hpeek.
  unfold effects, sniServe, sniProxyForward. run_M. cbn [app]. fold tr1.
  destruct (peekClientHello conn tr1) as [[[name client] err] tr2] eqn:Hpk. cbn [fst snd].
  destruct Hpeek as (n & -> & _ & _).
  set (target := JoinHostPort name "443"). set (tr2 := tr1 ++ replicate n (ORead conn)).
  set (tr3 := tr2 ++ [OSetReadDeadline conn None]).
  assert (acts tr2 = []) as Hq2
    by (subst tr2; rewrite acts_app, (acts_passive (replicate _ _)) by (by apply Forall_replicate); done).
  assert (acts tr3 = []) as Hq3 by (subst tr3; by rewrite acts_app, Hq2).
  split; [intros; subst target; by apply hostFromAddr_Join|].
  destruct (answer [] _) as [e|]; [done|]. fold tr1 tr2 in Hpk. rewrite Hpk.
  destruct err as [e|]; [cbn [fst snd]; by rewrite !acts_app, Hq2|].
  fold tr3. destruct (answer tr2 _) as [e|]; [cbn [fst snd]; by rewrite !acts_app, Hq3|].
  case_bool_decide as Hn; [rewrite decide_True by done|rewrite decide_False by done].
  { cbn [fst snd]. by rewrite !acts_app, Hq3. }
  pose proof (RoutedDial_acts router "tcp" target tr3) as Ha. rewrite Hq3 in Ha.
  fold target. destruct (RoutedDial router "tcp" target tr3) as [[backend|e] tr']; cbn [fst snd] in *;
    rewrite !acts_app, Ha; done.
Qed.
End properties.

(** A handshake that reads a ClientHello and then aborts. *)
Module Sample.
#[export] Instance tls : TlsLib :=
  HRead (fun _ => HClientHello "example.com" (HWrite "alert" (fun _ => HDone None))).
End Sample.
