(* ===== verification/Http.v ===== *)
(** * Http: the HTTP proxy of [http.go], [util.go] and [CredentialValidator] of [routine.go] *)

From S2P Require Import Prelude GoStr GoNet GoCodec GoNetip Ini ConfigTypes World Router Resolver.
From S2P Require Import Forward Sni.

(** ** Credentials *)

(** [subtle.ConstantTimeByteEq] and [subtle.ConstantTimeCompare]. *)
Definition ConstantTimeByteEq (x y : Z) : Z := Z.shiftr ((Z.lxor x y - 1) mod 2^32) 31.

Fixpoint xor_or (x y : string) (v : Z) : Z :=
  match x, y with
  | String a x', String b y' =>
      xor_or x' y' (Z.lor v (Z.lxor (Z.of_N (N_of_byte a)) (Z.of_N (N_of_byte b))))
  | _, _ => v
  end.
Definition ConstantTimeCompare (x y : string) : Z :=
  if bool_decide (String.length x = String.length y)
  then ConstantTimeByteEq (xor_or x y 0) 0 else 0.

Record CredentialValidator := mkCred { username : string; password : string }.

Definition Valid (c : CredentialValidator) (user pass : string) : bool :=
  let u := ConstantTimeCompare (username c) user in
  let p := ConstantTimeCompare (password c) pass in
  bool_decide (Z.land u p = 1)%Z.

(** ** Responses: [util.go] *)

(** [http.StatusText]: "" for an unknown code. *)
Definition status_texts : list (Z * string) :=
  [
      (100, "Continue"); (101, "Switching Protocols"); (102, "Processing");
      (103, "Early Hints"); (200, "OK"); (201, "Created"); (202, "Accepted");
      (203, "Non-Authoritative Information"); (204, "No Content"); (205, "Reset Content");
      (206, "Partial Content"); (207, "Multi-Status"); (208, "Already Reported");
      (226, "IM Used"); (300, "Multiple Choices"); (301, "Moved Permanently"); (302, "Found");
      (303, "See Other"); (304, "Not Modified"); (305, "Use Proxy");
      (307, "Temporary Redirect"); (308, "Permanent Redirect"); (400, "Bad Request");
      (401, "Unauthorized"); (402, "Payment Required"); (403, "Forbidden"); (404, "Not Found");
      (405, "Method Not Allowed"); (406, "Not Acceptable");
      (407, "Proxy Authentication Required"); (408, "Request Timeout"); (409, "Conflict");
      (410, "Gone"); (411, "Length Required"); (412, "Precondition Failed");
      (413, "Request Entity Too Large"); (414, "Request URI Too Long");
      (415, "Unsupported Media Type"); (416, "Requested Range Not Satisfiable");
      (417, "Expectation Failed"); (418, "I'm a teapot"); (421, "Misdirected Request");
      (422, "Unprocessable Entity"); (423, "Locked"); (424, "Failed Dependency");
      (425, "Too Early"); (426, "Upgrade Required"); (428, "Precondition Required");
      (429, "Too Many Requests"); (431, "Request Header Fields Too Large");
      (451, "Unavailable For Legal Reasons"); (500, "Internal Server Error");
      (501, "Not Implemented"); (502, "Bad Gateway"); (503, "Service Unavailable");
      (504, "Gateway Timeout"); (505, "HTTP Version Not Supported");
      (506, "Variant Also Negotiates"); (507, "Insufficient Storage"); (508, "Loop Detected");
      (510, "Not Extended"); (511, "Network Authentication Required")
  ]%Z.
Definition StatusText (code : Z) : string :=
  from_option snd "" (find (fun '(c, _) => (c =? code)%Z) status_texts).

Definition quote : string := String "034" "".
Definition crlf : string := String "013" (String "010" "").

Definition responseWith (req : Request) (statusCode : Z) : Response :=
  let statusText := StatusText statusCode in
  let body := "wireproxy:" +:+ " " +:+ Proto req +:+ " " +:+ Itoa statusCode +:+ " " +:+
              statusText +:+ crlf in
  mkResponse statusCode statusText (Proto req) (ProtoMajor req) (ProtoMinor req) [] body.

(** [resp.Header.Set] on a response without headers. *)
Definition Header_Set (resp : Response) (key value : string) : Response :=
  mkResponse (StatusCode resp) (Status resp) (Response_Proto resp) (Response_ProtoMajor resp)
    (Response_ProtoMinor resp)
    ((key, value) :: List.filter (fun '(k, _) => negb (bool_decide (k = key))) (Response_Header resp))
    (Body resp).

(** ** The server *)
Section http.
Context `{RL : RegexpLib, E : Environment}.

Record HTTPServer := mkServer {
  config : HTTPConfig.t;
  auth : CredentialValidator;
  dial : dialer;
  authRequired : bool;
  tlsRequired : bool
}.

Definition authenticate (s : HTTPServer) (req : Request) : Z * option error :=
  if negb (authRequired s) then (0, None)%Z
  else
    let auth_ := Header_Get req "Proxy-Authorization" in
    if bool_decide (auth_ = "") then (407%Z, Some (errorString (StatusText 407)))
    else
      let enc := TrimPrefix auth_ "Basic " in
      match b64_DecodeString enc with
      | Err err => (406%Z, Some (Errorf_w "decode username and password failed: " err))
      | Ok str =>
          match SplitN2 str ":" with
          | [user; pass] =>
              if Valid (auth s) user pass then (0%Z, None)
              else (401%Z, Some (errorString "username and password not matching"))
          | _ => (411%Z, Some (errorString "username and password format invalid"))
          end
      end.

(** The address to dial: a default port if the host has no colon at all. *)
Definition with_port (host port : string) : string :=
  if negb (Contains host ":") then JoinHostPort host port else host.

(** The result is the connection ([None] is nil) and the error. *)
Definition handleConn (s : HTTPServer) (req : Request) (conn : handle)
    : M (option handle * option error) :=
  let addr := with_port (Host req) "443" in
  let! peer := dial s "tcp" addr in
  match peer with
  | Err err => ret (None, Some (Errorf_w "tun tcp dial failed: " err))
  | Ok peer =>
      let! err := perform (OWrite conn ("HTTP/1.1 200 Connection established" +:+ crlf +:+ crlf)) in
      match err with
      | Some err => let! _ := perform (OClose peer) in ret (None, Some err)
      | None => ret (Some peer, None)
      end
  end.

Definition handle_ (s : HTTPServer) (req : Request) : M (option handle * option error) :=
  let addr := with_port (Host req) "80" in
  let! peer := dial s "tcp" addr in
  match peer with
  | Err err => ret (None, Some (Errorf_w "tun tcp dial failed: " err))
  | Ok peer =>
      let! err := perform (OWriteRequest peer) in
      match err with
      | Some err =>
          let! _ := perform (OClose peer) in
          ret (None, Some (Errorf_w "conn write failed: " err))
      | None => ret (Some peer, None)
      end
  end.

(** The two goroutines at the end of [serve]. *)
Definition copyThenClose (dst src first_closed second_closed : handle) : M unit :=
  let! _ := perform (OCopy (Conn dst) (Conn src)) in
  let! _ := perform (OClose first_closed) in
  let! _ := perform (OClose second_closed) in
  ret tt.

Definition serve (s : HTTPServer) (conn : handle) : M unit :=
  let! req := perform (OReadRequest conn) in
  match req with
  | Err err => perform (OLog ("read request failed: " +:+ Error err))
  | Ok req =>
      match authenticate s req with
      | (code, Some err) =>
          let resp := responseWith req code in
          let resp :=
            if bool_decide (code = 407)%Z
            then Header_Set resp "Proxy-Authenticate" ("Basic realm=" +:+ quote +:+ "Proxy" +:+ quote)
            else resp in
          let! _ := perform (OWriteResponse conn resp) in
          perform (OLog (Error err))
      | (_, None) =>
          let forward (m : M (option handle * option error)) : M unit :=
            let! (peer, err) := m in
            match err with
            | Some err => perform (OLog ("dial proxy failed: " +:+ Error err))
            | None =>
                match peer with
                | None => perform (OLog "dial proxy failed: peer nil")
                | Some peer =>
                    let! _ := perform (OGo (CopyThenClose conn peer peer conn)) in
                    perform (OGo (CopyThenClose peer conn peer conn))
                end
            end in
          if bool_decide (Method req = "CONNECT") then forward (handleConn s req conn)
          else if bool_decide (Method req = "GET") then forward (handle_ s req)
          else
            let! _ := perform (OWriteResponse conn (responseWith req 405)) in
            perform (OLog ("unsupported protocol: " +:+ Method req))
      end
  end.

Definition listen (s : HTTPServer) (network addr : string) : M (result handle) :=
  if tlsRequired s then
    let cert := HTTPConfig.CertFile (config s) in
    let key := HTTPConfig.KeyFile (config s) in
    let! err := perform (OLoadX509KeyPair cert key) in
    match err with
    | Some err => ret (Err err)
    | None => perform (OListenTLS network addr cert key)
    end
  else perform (OListen Direct network addr).

(** [HTTPServer.Serve] on a bound listener: it has no shutdown intent to
    consult and judges an error of [Accept] by its value. *)
Definition HTTPServer_Serve (s : HTTPServer) (listener : handle) : serving :=
  Accepting listener
    (fun _ err =>
       if errors_Is_ErrClosed err then None else Some (Errorf_w "accept request failed: " err))
    (serve s).

(** [ListenAndServe]: what serving amounts to, and the listeners the deferred
    call closes when it is over. *)
Definition ListenAndServe (s : HTTPServer) (network addr : string) : M (serving * list handle) :=
  let! listener := listen s network addr in
  ret (match listener with
       | Err err => (Returned (Some (Errorf_w "listen tcp failed: " err)), [])
       | Ok listener => (HTTPServer_Serve s listener, [listener])
       end).

(** ** Lemmas *)
(** [ListenAndServe] serves on the listener it opened, and closes just that. *)
Lemma ListenAndServe_owns_its_listener s network addr :
  match outcome (listen s network addr), outcome (ListenAndServe s network addr) with
  | Ok l, (Accepting l' _ _, closed) => l' = l /\ closed = [l]
  | Err err, (Returned (Some err'), closed) => err' = Errorf_w "listen tcp failed: " err /\ closed = []
  | _, _ => False
  end.
Proof.
  unfold outcome, ListenAndServe, bind, ret. destruct (listen s network addr []) as [[l|err] tr]; by simpl.
Qed.

Lemma xor_or_0 x y v :
  String.length x = String.length y -> (0 <= v)%Z ->
  (0 <= xor_or x y v)%Z /\ (xor_or x y v = 0%Z <-> v = 0%Z /\ x = y).
Proof.
  revert y v; induction x as [|a x IH]; intros [|b y] v Hl Hv; simpl in *;
    [naive_solver|done..|]. injection Hl as Hl.
  assert (0 <= Z.lxor (Z.of_N (N_of_byte a)) (Z.of_N (N_of_byte b)))%Z as Hx
    by (apply Z.lxor_nonneg; lia).
  destruct (IH y (Z.lor v (Z.lxor (Z.of_N (N_of_byte a)) (Z.of_N (N_of_byte b)))) Hl)
    as [H1 H2]; [by apply Z.lor_nonneg|].
  split; [done|]. rewrite H2, Z.lor_eq_0_iff, Z.lxor_eq_0_iff, N2Z.inj_iff.
  unfold N_of_byte. split.
  - intros [[-> Hab] ->]. split; [done|]. f_equal.
    by rewrite <- (ascii_N_embedding a), <- (ascii_N_embedding b), Hab.
  - intros [-> [= -> ->]]. done.
Qed.

Definition byte_Z (p : Z) : Prop := (0 <= p < 256)%Z.
Lemma byte_Z_land p : byte_Z p <-> Z.land p 255 = p.
Proof.
  change 255%Z with (Z.ones 8). rewrite Z.land_ones by lia. unfold byte_Z. split.
  - intros. by apply Z.mod_small.
  - intros <-. pose proof (Z.mod_pos_bound p (2^8) ltac:(lia)). lia.
Qed.
Lemma byte_Z_lor p q : byte_Z p -> byte_Z q -> byte_Z (Z.lor p q).
Proof.
  rewrite !byte_Z_land. intros Hp Hq. by rewrite Z.land_lor_distr_l, Hp, Hq.
Qed.
Lemma byte_Z_lxor p q : byte_Z p -> byte_Z q -> byte_Z (Z.lxor p q).
Proof.
  rewrite !byte_Z_land. intros Hp Hq. apply Z.bits_inj'. intros n _.
  apply (f_equal (fun z => Z.testbit z n)) in Hp, Hq. revert Hp Hq.
  rewrite !Z.land_spec, !Z.lxor_spec.
  destruct (Z.testbit p n), (Z.testbit q n), (Z.testbit 255 n); simpl; congruence.
Qed.

Lemma byte_Z_byte c : byte_Z (Z.of_N (N_of_byte c)).
Proof. unfold byte_Z, N_of_byte. pose proof (N_ascii_bounded c). lia. Qed.

Lemma xor_or_byte x y v : byte_Z v -> byte_Z (xor_or x y v).
Proof.
  revert y v; induction x as [|a x IH]; intros [|b y] v Hv; simpl; try done.
  apply IH, byte_Z_lor, byte_Z_lxor; [done|apply byte_Z_byte..].
Qed.

Lemma ConstantTimeByteEq_0 v : byte_Z v -> ConstantTimeByteEq v 0 = if decide (v = 0)%Z then 1%Z else 0%Z.
Proof.
  unfold byte_Z, ConstantTimeByteEq. intros Hv. rewrite Z.lxor_0_r, Z.shiftr_div_pow2 by lia.
  case_decide; [by subst|]. rewrite Z.mod_small by lia. apply Z.div_small. lia.
Qed.

Lemma ConstantTimeCompare_spec x y :
  ConstantTimeCompare x y = if decide (x = y) then 1%Z else 0%Z.
Proof.
  unfold ConstantTimeCompare. case_bool_decide as Hl.
  - rewrite ConstantTimeByteEq_0 by (by apply xor_or_byte).
    destruct (xor_or_0 x y 0 Hl) as [_ Heq]; [done|]. repeat case_decide; naive_solver.
  - case_decide; [by subst|done].
Qed.

Lemma Valid_spec c user pass :
  Valid c user pass = true <-> username c = user /\ password c = pass.
Proof.
  unfold Valid. rewrite !ConstantTimeCompare_spec, bool_decide_eq_true.
  repeat case_decide; naive_solver.
Qed.
End http.

Section properties.
Context `{UT : UnicodeTables, RL : RegexpLib, E : Environment}.

(** The constant-time comparison of the credentials is equality of both
    the user name and the password, for strings of any lengths. *)
Theorem Valid_is_equality c user pass :
  Valid c user pass = bool_decide (username c = user /\ password c = pass).
Proof.
  destruct (Valid c user pass) eqn:E'; symmetry.
  - by apply bool_decide_eq_true, Valid_spec.
  - apply bool_decide_eq_false. by rewrite <- Valid_spec, E'.
Qed.

(** C4: a request that carries the header "Basic base64(user:password)" with
    a colon-free user name is let through exactly when both are the configured
    ones, and is otherwise answered 401; without the header it is answered
    407. When the configured user name itself has a colon, nobody is ever let
    through. *)
Theorem authenticate_decides (s : HTTPServer) req user pass
    (Hreq : authRequired s = true) (Huser : has_byte ":" user = false) :
  (Header_Get req "Proxy-Authorization" = "Basic " +:+ b64_EncodeToString (user +:+ ":" +:+ pass) ->
   if decide (username (auth s) = user /\ password (auth s) = pass)
   then authenticate s req = (0%Z, None)
   else exists e, authenticate s req = (401%Z, Some e)) /\
  (Header_Get req "Proxy-Authorization" = "" -> exists e, authenticate s req = (407%Z, Some e)) /\
  (has_byte ":" (username (auth s)) = true ->
   exists code e, authenticate s req = (code, Some e)).
Proof.
  unfold authenticate. rewrite Hreq. cbn [negb]. split_and!.
  - intros ->. rewrite bool_decide_eq_false_2 by (by destruct (b64_EncodeToString _)).
    rewrite TrimPrefix_app, b64_decode_encode.
    change (":" +:+ pass) with (String ":" pass). rewrite SplitN2_app by done.
    destruct (Valid (auth s) user pass) eqn:E'.
    + apply Valid_spec in E'. by rewrite decide_True.
    + rewrite decide_False; [by eexists|]. by rewrite <- Valid_spec, E'.
  - intros ->. rewrite bool_decide_eq_true_2 by done. by eexists.
  - intros Hcolon. case_bool_decide; [by eexists _, _|].
    destruct (b64_DecodeString _) as [str|e]; [|by eexists _, _].
    destruct (SplitN2_cases str ":") as [[_ ->]|(p & q & _ & Hp & ->)]; [by eexists _, _|].
    destruct (Valid _ _ _) eqn:E'; [|by eexists _, _].
    apply Valid_spec in E' as [E1 _]. congruence.
Qed.

Lemma RoutedDial_nolog router network addr tr :
  exists r tr', RoutedDial router network addr tr = (r, tr') /\
    nolog tr' = nolog tr ++ [ODial (side_of router (hostFromAddr addr)) network addr].
Proof.
  unfold RoutedDial. destruct (route_then_dial router (hostFromAddr addr) network addr tr)
    as (logs & Hl & ->). eexists _, _. split; [reflexivity|].
  by rewrite !nolog_app, (nolog_logs logs).
Qed.

(** Follow a dial, the write after it, and what comes last. *)
Ltac exchange router conn addr :=
  let r := fresh in let tr := fresh in let Hn := fresh in
  destruct (RoutedDial_nolog router "tcp" addr [OReadRequest conn]) as (r & tr & -> & Hn);
  destruct r; cbn [fst snd]; [go_cases|]; rewrite !nolog_app, Hn; done.

(** The answer to a request that is not forwarded. *)
Definition rejection (req : Request) (code : Z) : Response :=
  if bool_decide (code = 407)%Z
  then mkResponse 407 "Proxy Authentication Required" (Proto req) (ProtoMajor req) (ProtoMinor req)
         [("Proxy-Authenticate", "Basic realm=" +:+ quote +:+ "Proxy" +:+ quote)]
         ("wireproxy: " +:+ Proto req +:+ " 407 Proxy Authentication Required" +:+ crlf)
  else responseWith req code.

(** C3: the whole exchange of one proxied connection, up to log lines: an
    unauthenticated request is only answered, with its code; an authenticated
    one of a method other than CONNECT and GET is answered 405; for these two
    exactly one connection is dialled, to the request's host with the default
    port of the method, on the side the domain router decides, then the answer
    (CONNECT) or the request (GET) is written, and only then the two copying
    goroutines start; a failed write closes the dialled connection. *)
Theorem proxy_request_exchange cfg creds required tls router conn :
  let s := mkServer cfg creds (RoutedDial router) required tls in
  nolog (effects (serve s conn)) = OReadRequest conn ::
  match answer [] (OReadRequest conn) with
  | Err _ => []
  | Ok req =>
      match authenticate s req with
      | (code, Some _) => [OWriteResponse conn (rejection req code)]
      | (_, None) =>
          if decide (Method req = "CONNECT" \/ Method req = "GET") then
            let connect := bool_decide (Method req = "CONNECT") in
            let addr := with_port (Host req) (if connect then "443" else "80") in
            let dialled := ODial (side_of router (hostFromAddr addr)) "tcp" addr in
            let tr := snd (RoutedDial router "tcp" addr [OReadRequest conn]) in
            dialled ::
            match fst (RoutedDial router "tcp" addr [OReadRequest conn]) with
            | Err _ => []
            | Ok peer =>
                let write :=
                  if connect
                  then OWrite conn ("HTTP/1.1 200 Connection established" +:+ crlf +:+ crlf)
                  else OWriteRequest peer in
                write ::
                match (if connect
                       then answer tr (OWrite conn ("HTTP/1.1 200 Connection established" +:+ crlf +:+ crlf))
                       else answer tr (OWriteRequest peer)) with
                | Some _ => [OClose peer]
                | None => [OGo (CopyThenClose conn peer peer conn);
                           OGo (CopyThenClose peer conn peer conn)]
                end
            end
          else [OWriteResponse conn (rejection req 405)]
      end
  end.
Proof.
  intros s. unfold effects, serve. run_M.
  destruct (answer [] (OReadRequest conn)) as [req|e]; [|done].
  destruct (authenticate s req) as [code [e|]].
  { cbn [snd]. rewrite !nolog_app. unfold rejection. by case_bool_decide; subst. }
  unfold handleConn, handle_. change (dial s) with (RoutedDial router). run_M.
  case_bool_decide as Hc; [|case_bool_decide as Hg].
  - rewrite decide_True by (by left). exchange router conn (with_port (Host req) "443").
  - rewrite decide_True by (by right). exchange router conn (with_port (Host req) "80").
  - rewrite decide_False by naive_solver. cbn [snd]. by rewrite !nolog_app.
Qed.
End properties.

(** ** Witnesses *)
Module Sample.
Import Router.Sample.
Definition cfg : HTTPConfig.t (H := regexps) :=
  HTTPConfig.mk (H := regexps) "127.0.0.1:25345" "peter" "hunter2" "" "" [] false None false.
Definition server : HTTPServer (RL := regexps) :=
  mkServer cfg (mkCred "peter" "hunter2") (RoutedDial (NewDomainRouter (RL := regexps) [] false)) true false.
Definition request (auth : string) : Request :=
  mkRequest "CONNECT" "example.com:443" "HTTP/1.1" 1 1
    (fun k => if bool_decide (k = "Proxy-Authorization") then auth else "").

Lemma authenticate_decides_witness :
  authenticate server (request "Basic cGV0ZXI6aHVudGVyMg==") = (0%Z, None) /\
  exists e, authenticate server (request "") = (407%Z, Some e).
Proof.
  split.
  - apply (authenticate_decides server (request "Basic cGV0ZXI6aHVudGVyMg==") "peter" "hunter2");
      vm_compute; reflexivity.
  - apply (authenticate_decides server (request "") "peter" "hunter2"); vm_compute; reflexivity.
Defined.
End Sample.
