(* ===== verification/Relay.v ===== *)
(** * Relay: the copying goroutines of a forwarded connection

    [connForward] ([routine.go]) and the two goroutines at the end of [serve]
    ([http.go]) copy one stream into another with [io.Copy] and close both
    connections when the copy ends.  Here the goroutines of one forwarded
    connection run interleaved with their peers: a step is one [Read] or
    [Write] of the loop of [io.Copy], one deferred [Close], or an action of a
    remote end.  Errors can strike any operation. *)

From S2P Require Import Prelude GoStr GoNet GoNetip Ini ConfigTypes World Router Resolver Forward Sni.
From S2P Require Import Http.

(** ** What a copying goroutine does *)

(** The code of the goroutines that copy. *)
Definition copy_body `{Environment} (t : thread) : option (M unit) :=
  match t with
  | ConnForward from to => Some (connForward from to)
  | CopyThenClose dst src first second => Some (copyThenClose dst src first second)
  | _ => None
  end.

(** Its source, its destination, and what it closes, in order. *)
Record copier := mkCopier { from : stream; dst : handle; closing : list handle }.
Definition copier_of (t : thread) : option copier :=
  match t with
  | ConnForward from to =>
      Some (mkCopier from (stream_handle to) [stream_handle to; stream_handle from])
  | CopyThenClose dst src first second => Some (mkCopier (Conn src) dst [first; second])
  | _ => None
  end.
Definition src (c : copier) : handle := stream_handle (from c).
(** The bytes a replaying stream yields before those of its connection. *)
Definition replayed (s : stream) : string :=
  match s with Conn _ => "" | Replay p _ => p end.

(** ** State *)

(** A connection: the bytes its remote end has sent and nobody has read yet,
    whether the remote end is done sending, whether our end is open, and the
    whole traffic of both directions so far. *)
Record conn := mkConn {
  unread : string;
  eof : bool;
  is_open : bool;
  sent : string;        (* by the remote end *)
  received : string     (* by the remote end *)
}.

(** How a copy ended: [io.Copy] saw the end of its source, or an error. *)
Inductive ending := AtEof | Failed.
Inductive pc :=
  | Reading
  | Writing (data : string)
  | Closing (hs : list handle) (e : ending).

(** A goroutine: its code, what is left of the replayed bytes, where it is. *)
Record gor := mkGor { code : copier; left : string; at_ : pc }.

Record state := mkState { conns : gmap handle conn; gors : list gor }.

Definition set_conn (h : handle) (c : conn) (s : state) : state :=
  mkState (<[h:=c]> (conns s)) (gors s).
Definition set_gor (i : nat) (g : gor) (s : state) : state :=
  mkState (conns s) (<[i:=g]> (gors s)).

Definition fresh_conn : conn := mkConn "" false true "" "".
Definition start_gor (c : copier) : gor := mkGor c (replayed (from c)) Reading.
(** The copiers right after they were started, nothing sent yet. *)
Definition start (cs : list copier) : state :=
  mkState (list_to_map ((fun h => (h, fresh_conn)) <$> flat_map (fun c => [src c; dst c]) cs))
    (start_gor <$> cs).

(** ** Steps *)
Inductive label :=
  | PeerSend (h : handle) (data : string)
  | PeerEof (h : handle)
  | Read (i n : nat)                 (* at most [n] bytes *)
  | ReadEof (i : nat)
  | ReadErr (i : nat)
  | Write (i : nat)
  | WriteErr (i n : nat)             (* after at most [n] bytes *)
  | CloseNext (i : nat).

Definition deliver (data : string) (c : conn) : conn :=
  mkConn (unread c) (eof c) (is_open c) (sent c) (received c +:+ data).

Definition close_conn (h : handle) (s : state) : state :=
  mkState
    (alter (fun c => mkConn (unread c) (eof c) false (sent c) (received c)) h (conns s)) (gors s).

Definition step (l : label) (s : state) : option state :=
  match l with
  | PeerSend h data =>
      c ← conns s !! h;
      if eof c then None
      else Some (set_conn h (mkConn (unread c +:+ data) (eof c) (is_open c) (sent c +:+ data) (received c)) s)
  | PeerEof h =>
      c ← conns s !! h; Some (set_conn h (mkConn (unread c) true (is_open c) (sent c) (received c)) s)
  | Read i n =>
      g ← gors s !! i;
      match at_ g, n with
      | Reading, S _ =>
          if decide (left g = "") then
            c ← conns s !! src (code g);
            if is_open c && negb (bool_decide (unread c = ""))
            then Some (set_gor i (mkGor (code g) "" (Writing (str_take n (unread c))))
                   (set_conn (src (code g))
                     (mkConn (str_drop n (unread c)) (eof c) (is_open c) (sent c) (received c)) s))
            else None
          else Some (set_gor i (mkGor (code g) (str_drop n (left g)) (Writing (str_take n (left g)))) s)
      | _, _ => None
      end
  | ReadEof i =>
      g ← gors s !! i; c ← conns s !! src (code g);
      match at_ g with
      | Reading =>
          if bool_decide (left g = "") && is_open c && eof c && bool_decide (unread c = "")
          then Some (set_gor i (mkGor (code g) (left g) (Closing (closing (code g)) AtEof)) s)
          else None
      | _ => None
      end
  | ReadErr i =>
      g ← gors s !! i;
      match at_ g with
      | Reading =>
          if decide (left g = "")
          then Some (set_gor i (mkGor (code g) (left g) (Closing (closing (code g)) Failed)) s)
          else None
      | _ => None
      end
  | Write i =>
      g ← gors s !! i; c ← conns s !! dst (code g);
      match at_ g with
      | Writing data =>
          if is_open c
          then Some (set_gor i (mkGor (code g) (left g) Reading) (set_conn (dst (code g)) (deliver data c) s))
          else None
      | _ => None
      end
  | WriteErr i n =>
      g ← gors s !! i; c ← conns s !! dst (code g);
      match at_ g with
      | Writing data =>
          Some (set_gor i (mkGor (code g) (left g) (Closing (closing (code g)) Failed))
                 (if is_open c then set_conn (dst (code g)) (deliver (str_take n data) c) s else s))
      | _ => None
      end
  | CloseNext i =>
      g ← gors s !! i;
      match at_ g with
      | Closing (h :: hs) e =>
          Some (set_gor i (mkGor (code g) (left g) (Closing hs e)) (close_conn h s))
      | _ => None
      end
  end.

(** ** Lemmas *)

(** The code table agrees with the code: it copies, then closes. *)
Lemma copy_body_effects `{E : Environment} t c m :
  copier_of t = Some c -> copy_body t = Some m ->
  exists to, stream_handle to = dst c /\
    nolog (effects m) = OCopy to (from c) :: (OClose <$> closing c).
Proof.
  destruct t; intros [= <-] [= <-]; unfold connForward, copyThenClose, effects.
  - exists to. split; [done|]. run_M. by destruct (answer [] _).
  - exists (Conn dst0). done.
Qed.

Lemma str_take_drop_assoc n a rest : str_take n a +:+ str_drop n a +:+ rest = a +:+ rest.
Proof. by rewrite str_app_assoc, str_take_drop. Qed.

Section invariant.
Context (cs : list copier) (Hsrc : NoDup (src <$> cs)) (Hdst : NoDup (dst <$> cs)).

(** The bytes between the two ends of a copier, in order: delivered, in hand,
    left of the replayed ones, unread. *)
Definition flow (g : gor) (cin cout : conn) : Prop :=
  let stream := replayed (from (code g)) +:+ sent cin in
  match at_ g with
  | Reading => received cout +:+ left g +:+ unread cin = stream
  | Writing data => received cout +:+ data +:+ left g +:+ unread cin = stream
  | Closing _ AtEof => received cout = stream /\ eof cin = true
  | Closing _ Failed => exists rest, received cout +:+ rest = stream
  end.
Definition linked (s : state) (g : gor) : Prop :=
  exists cin cout, conns s !! src (code g) = Some cin /\ conns s !! dst (code g) = Some cout /\
    flow g cin cout.
Record inv (s : state) : Prop := {
  i_code : code <$> gors s = cs;
  i_link i g : gors s !! i = Some g -> linked s g
}.

(** A change of a connection that a copier does not see. *)
Lemma linked_frame s g h c c' :
  linked s g -> conns s !! h = Some c ->
  (h = src (code g) -> unread c' = unread c /\ eof c' = eof c /\ sent c' = sent c) ->
  (h = dst (code g) -> received c' = received c) ->
  linked (set_conn h c' s) g.
Proof.
  intros (cin & cout & Hi & Ho & Hf) Hc H1 H2. unfold linked, set_conn; simpl. rewrite !lookup_insert.
  destruct (decide (h = src (code g))) as [E1|E1], (decide (h = dst (code g))) as [E2|E2].
  - assert (cin = c) as -> by congruence. assert (cout = c) as -> by congruence. exists c', c'.
    split_and!; try done. destruct (H1 E1) as (Hu & He & Hs). specialize (H2 E2).
    unfold flow in *. by rewrite Hu, He, Hs, H2.
  - assert (cin = c) as -> by congruence. exists c', cout. split_and!; try done.
    destruct (H1 E1) as (Hu & He & Hs). unfold flow in *. by rewrite Hu, He, Hs.
  - assert (cout = c) as -> by congruence. exists cin, c'. split_and!; try done.
    specialize (H2 E2). unfold flow in *. by rewrite H2.
  - by exists cin, cout.
Qed.

Lemma distinct_ends s i j g g' :
  inv s -> gors s !! i = Some g -> gors s !! j = Some g' -> i <> j ->
  src (code g) <> src (code g') /\ dst (code g) <> dst (code g').
Proof.
  intros [Hcode _] Hi Hj Hne.
  assert (cs !! i = Some (code g) /\ cs !! j = Some (code g')) as [Ci Cj]
    by (rewrite <- Hcode, !list_lookup_fmap, Hi, Hj; done).
  split; intros Heq; apply Hne.
  - apply (NoDup_lookup _ _ _ (src (code g)) Hsrc); rewrite list_lookup_fmap; [by rewrite Ci|by rewrite Cj, Heq].
  - apply (NoDup_lookup _ _ _ (dst (code g)) Hdst); rewrite list_lookup_fmap; [by rewrite Ci|by rewrite Cj, Heq].
Qed.

(** A step of goroutine [i] that the others do not see. *)
Lemma relay_inv_gor_step s s1 i g g' :
  inv s -> gors s !! i = Some g -> code g' = code g -> gors s1 = gors s ->
  linked s1 g' ->
  (forall j gj, gors s !! j = Some gj -> j <> i -> linked s1 gj) ->
  inv (set_gor i g' s1).
Proof.
  intros [Hcode Hlink] Hg Hc Hs1 Hown Hothers. split; simpl.
  - rewrite Hs1, list_fmap_insert, Hcode, Hc. apply list_insert_id.
    by rewrite <- Hcode, list_lookup_fmap, Hg.
  - intros j gj. rewrite Hs1. intros [(-> & <- & _)|[Hne Hj]]%list_lookup_insert_Some.
    + done.
    + apply (Hothers j); auto.
Qed.

Lemma lookup_fresh (hs : list handle) h :
  h ∈ hs -> (list_to_map ((fun h => (h, fresh_conn)) <$> hs) : gmap handle conn) !! h = Some fresh_conn.
Proof.
  induction hs as [|h' hs IH]; [by intros ?%not_elem_of_nil|]. intros [->|Hin]%elem_of_cons; simpl.
  - by rewrite lookup_insert_eq.
  - rewrite lookup_insert. case_decide; [done|by apply IH].
Qed.

Lemma inv_start : inv (start cs).
Proof.
  split; simpl.
  - induction cs as [|c cs' IH]; simpl; [done|]. f_equal. apply IH; [by inversion Hsrc|by inversion Hdst].
  - intros i g. rewrite list_lookup_fmap. intros (c & Hc & ->)%fmap_Some. exists fresh_conn, fresh_conn.
    apply list_elem_of_lookup_2 in Hc.
    split_and!; [apply lookup_fresh, list_elem_of_In, in_flat_map; exists c; split;
      [by apply list_elem_of_In|simpl; auto]..|].
    done.
Qed.


(** What a copier needs to know of one changed connection, its own included. *)
Lemma linked_set s g g' h c c' :
  linked s g -> code g' = code g -> conns s !! h = Some c ->
  (forall cin cout, conns s !! src (code g) = Some cin -> conns s !! dst (code g) = Some cout ->
     flow g cin cout ->
     flow g' (if decide (h = src (code g)) then c' else cin)
             (if decide (h = dst (code g)) then c' else cout)) ->
  linked (set_conn h c' s) g'.
Proof.
  intros (cin & cout & Hi & Ho & Hf) Hcode Hc Himp. specialize (Himp cin cout Hi Ho Hf).
  eexists _, _. rewrite Hcode. unfold set_conn; simpl. rewrite !lookup_insert.
  split_and!; [..|exact Himp]; repeat case_decide; congruence.
Qed.

Lemma inv_peer_send s h data s' : inv s -> step (PeerSend h data) s = Some s' -> inv s'.
Proof.
  intros [Hcode Hlink] Hs. simpl in Hs. destruct (conns s !! h) as [c|] eqn:Hc; [|done].
  simpl in Hs. destruct (eof c) eqn:He; [done|]. injection Hs as <-. split; [done|]. intros i g Hg. simpl in Hg.
  apply (linked_set s g g h c); [by eapply Hlink|done..|]. intros cin cout Hi Ho Hf.
  unfold flow in *. repeat case_decide; simpl;
    try (assert (cin = c) as -> by congruence); try (assert (cout = c) as -> by congruence); try done;
    destruct (at_ g) as [|d|hs []]; rewrite ?str_app_assoc in *; rewrite <- ?Hf; try done;
    try (by destruct Hf; congruence);
    destruct Hf as [rest Hf]; exists (rest +:+ data); by rewrite <- Hf, !str_app_assoc.
Qed.

Lemma inv_read s i n s' : inv s -> step (Read i n) s = Some s' -> inv s'.
Proof.
  intros Hi Hs. simpl in Hs. destruct (gors s !! i) as [g|] eqn:Hg; [|done]. simpl in Hs.
  pose proof (i_link s Hi i g Hg) as Hl.
  destruct (at_ g) eqn:Ha; [|done..]. destruct n as [|n]; [done|]. case_decide as Hleft.
  - destruct (conns s !! src (code g)) as [c|] eqn:Hc; [|done]. simpl in Hs.
    destruct (is_open c && _); [|done]. injection Hs as <-.
    apply (relay_inv_gor_step s _ i g); try done.
    + apply (linked_set s g _ (src (code g)) c); try done. intros cin cout H1 H2 Hf.
      rewrite decide_True by done. unfold flow in *. rewrite Ha in Hf. cbn [at_ code left].
      assert (cin = c) as -> by congruence. rewrite Hleft in Hf.
      case_decide; [assert (cout = c) as -> by congruence|]; cbn -[str_take str_drop];
        by rewrite str_take_drop.
    + intros j gj Hj Hne. apply linked_frame with c; try done; [by apply (i_link s Hi j)|].
      intros E. by destruct (distinct_ends s i j g gj Hi Hg Hj).
  - injection Hs as <-. apply (relay_inv_gor_step s s i g); try done.
    + destruct Hl as (cin & cout & H1 & H2 & Hf). exists cin, cout. split_and!; try done.
      unfold flow in *. rewrite Ha in Hf. cbn -[str_take str_drop]. by rewrite str_take_drop_assoc.
    + intros j gj Hj Hne. by apply (i_link s Hi j).
Qed.

(** The end of a copy, without a change of the connections. *)
Lemma inv_stop s i g e :
  inv s -> gors s !! i = Some g ->
  (forall cin cout, conns s !! src (code g) = Some cin -> flow g cin cout ->
     flow (mkGor (code g) (left g) (Closing (closing (code g)) e)) cin cout) ->
  inv (set_gor i (mkGor (code g) (left g) (Closing (closing (code g)) e)) s).
Proof.
  intros Hi Hg Hf. apply (relay_inv_gor_step s s i g); try done.
  - destruct (i_link s Hi i g Hg) as (cin & cout & H1 & H2 & Hfl). exists cin, cout. auto.
  - intros j gj Hj Hne. by apply (i_link s Hi j).
Qed.

Lemma inv_write s i g c data rest p :
  inv s -> gors s !! i = Some g -> conns s !! dst (code g) = Some c ->
  at_ g = Writing (data +:+ rest) ->
  (p = Reading /\ rest = "" \/ exists hs, p = Closing hs Failed) ->
  inv (set_gor i (mkGor (code g) (left g) p) (set_conn (dst (code g)) (deliver data c) s)).
Proof.
  intros Hi Hg Hc Ha Hp. apply (relay_inv_gor_step s _ i g); try done.
  - apply (linked_set s g _ (dst (code g)) c); try done; [by apply (i_link s Hi i)|].
    intros cin cout H1 H2 Hf. rewrite (decide_True (P := dst _ = dst _)) by done.
    assert (cout = c) as -> by congruence. unfold flow in *. rewrite Ha in Hf.
    destruct Hp as [[-> ->]|[hs ->]]; cbn; [|eexists ((rest +:+ left g) +:+ unread cin)];
      case_decide; try (assert (cin = c) as -> by congruence); simpl;
      rewrite ?str_app_nil_r, <- ?Hf, ?str_app_assoc; rewrite ?str_app_nil_r in Hf |- *;
      rewrite <- ?str_app_assoc in *; done.
  - intros j gj Hj Hne. apply linked_frame with c; try done; [by apply (i_link s Hi j)|].
    intros E. by destruct (distinct_ends s i j g gj Hi Hg Hj).
Qed.

Lemma close_conn_lookup s h k :
  conns (close_conn h s) !! k =
    (fun c => mkConn (unread c) (eof c) (if decide (h = k) then false else is_open c) (sent c) (received c))
      <$> conns s !! k.
Proof.
  simpl. rewrite lookup_alter. case_decide; [by subst|]. by destruct (conns s !! k) as [[]|].
Qed.
Lemma linked_close s g h : linked s g -> linked (close_conn h s) g.
Proof.
  intros (cin & cout & H1 & H2 & Hf). unfold linked. rewrite !close_conn_lookup, H1, H2.
  eexists _, _. split_and!; [reflexivity..|]. exact Hf.
Qed.

Lemma relay_inv_step l s s' : inv s -> step l s = Some s' -> inv s'.
Proof.
  intros Hi Hs.
  destruct l; [by eapply inv_peer_send| |by eapply inv_read|..]; simpl in Hs.
  - destruct (conns s !! h) as [c|] eqn:Hc; [|done]. injection Hs as <-.
    split; [apply (i_code s Hi)|]. intros i g Hg. simpl in Hg.
    apply (linked_set s g g h c); [by eapply i_link|done..|]. intros cin cout H1 H2 Hf.
    unfold flow in *. repeat case_decide; simpl;
      try (assert (cin = c) as -> by congruence); try (assert (cout = c) as -> by congruence); try done;
      destruct (at_ g) as [|d|hs []]; try exact Hf; try (split; [exact (proj1 Hf)|done]).
  - destruct (gors s !! i) as [g|] eqn:Hg; [|done]. simpl in Hs.
    destruct (conns s !! src (code g)) as [c|] eqn:Hc; [|done]. simpl in Hs.
    destruct (at_ g) eqn:Ha; [|done..].
    destruct (bool_decide (left g = "")) eqn:Hl; [|done]. destruct (is_open c); [|done].
    destruct (eof c) eqn:He; [|done]. destruct (bool_decide (unread c = "")) eqn:Hu; [|done].
    injection Hs as <-. apply inv_stop; [done..|]. intros cin cout H1 Hf.
    assert (cin = c) as -> by congruence. apply bool_decide_eq_true in Hl, Hu.
    unfold flow in *. rewrite Ha, Hl, Hu in Hf. cbn. by rewrite str_app_nil_r in Hf.
  - destruct (gors s !! i) as [g|] eqn:Hg; [|done]. simpl in Hs. destruct (at_ g) eqn:Ha; [|done..].
    case_decide; [|done]. injection Hs as <-. apply inv_stop; [done..|]. intros cin cout H1 Hf.
    unfold flow in *. rewrite Ha in Hf. cbn. eauto.
  - destruct (gors s !! i) as [g|] eqn:Hg; [|done]. simpl in Hs.
    destruct (conns s !! dst (code g)) as [c|] eqn:Hc; [|done]. simpl in Hs.
    destruct (at_ g) eqn:Ha; [done| |done]. destruct (is_open c); [|done]. injection Hs as <-.
    apply (inv_write s i g c data ""); try done; [by rewrite str_app_nil_r|auto].
  - destruct (gors s !! i) as [g|] eqn:Hg; [|done]. simpl in Hs.
    destruct (conns s !! dst (code g)) as [c|] eqn:Hc; [|done]. simpl in Hs.
    destruct (at_ g) eqn:Ha; [done| |done]. injection Hs as <-. destruct (is_open c).
    + apply (inv_write s i g c _ (str_drop n data)); try done; [by rewrite str_take_drop|eauto].
    + apply inv_stop; [done..|]. intros cin cout H1 Hf. unfold flow in *. rewrite Ha in Hf. cbn. eauto.
  - destruct (gors s !! i) as [g|] eqn:Hg; [|done]. simpl in Hs.
    destruct (at_ g) as [|d|[|h hs] e] eqn:Ha; try done. injection Hs as <-.
    apply (relay_inv_gor_step s _ i g); try done.
    + apply linked_close. destruct (i_link s Hi i g Hg) as (cin & cout & H1 & H2 & Hf).
      exists cin, cout. split_and!; try done. unfold flow in *. by rewrite Ha in Hf.
    + intros j gj Hj _. by apply linked_close, (i_link s Hi j).
Qed.

Lemma relay_inv_reachable s : reachable step (start cs) s -> inv s.
Proof. apply reachable_invariant; [apply inv_start|apply relay_inv_step]. Qed.
End invariant.

(** ** Winding down *)

Definition of_gor (i : nat) (l : label) : bool :=
  match l with
  | Read j _ | ReadEof j | ReadErr j | Write j | WriteErr j _ | CloseNext j => bool_decide (i = j)
  | _ => false
  end.

Definition shut (s : state) (h : handle) : Prop :=
  exists c, conns s !! h = Some c /\ is_open c = false.
Definition finished (g : gor) : Prop := exists e, at_ g = Closing [] e.

(** The steps a goroutine with a shut source has left. *)
Definition rank (g : gor) : nat :=
  match at_ g with
  | Reading => 2 * String.length (left g) + 1 + length (closing (code g))
  | Writing _ => 2 * String.length (left g) + 2 + length (closing (code g))
  | Closing hs _ => length hs
  end.

Lemma str_drop_length n s : String.length (str_drop n s) = String.length s - n.
Proof. revert s; induction n as [|n IH]; intros [|c s]; simpl; try lia; apply IH. Qed.

(** A connection that was shut stays shut, and its remote end receives nothing
    more. *)
Lemma step_shut l s s' h c :
  step l s = Some s' -> conns s !! h = Some c -> is_open c = false ->
  exists c', conns s' !! h = Some c' /\ is_open c' = false /\ received c' = received c.
Proof.
  intros Hs Hc Ho.
  assert (forall h' c1 c2, conns s !! h' = Some c1 -> is_open c2 = is_open c1 ->
    (is_open c1 = false -> received c2 = received c1) ->
    exists c', <[h':=c2]> (conns s) !! h = Some c' /\ is_open c' = false /\ received c' = received c) as Hset.
  { intros h' c1 c2 H1 H2 H3. rewrite lookup_insert. case_decide; [subst h'|by exists c].
    assert (c1 = c) as -> by congruence. exists c2. rewrite H2. auto. }
  assert (forall g gi, gors (set_gor gi g s) = gors (set_gor gi g s)) as _ by done.
  destruct l; simpl in Hs.
  - destruct (conns s !! h0) eqn:E; [|done]. simpl in Hs. destruct (eof _); [done|].
    injection Hs as <-. by eapply Hset.
  - destruct (conns s !! h0) eqn:E; [|done]. injection Hs as <-. by eapply Hset.
  - destruct (gors s !! i) as [g|]; [|done]. simpl in Hs. destruct (at_ g), n; try done.
    case_decide; [|injection Hs as <-; by exists c].
    destruct (conns s !! src (code g)) eqn:E; [|done]. simpl in Hs. destruct (_ && _); [|done].
    injection Hs as <-. by eapply Hset.
  - destruct (gors s !! i) as [g|]; [|done]. simpl in Hs.
    destruct (conns s !! src _); [|done]. simpl in Hs. destruct (at_ g); try done.
    destruct (_ && _); [|done]. injection Hs as <-. by exists c.
  - destruct (gors s !! i) as [g|]; [|done]. simpl in Hs. destruct (at_ g); try done.
    case_decide; [|done]. injection Hs as <-. by exists c.
  - destruct (gors s !! i) as [g|]; [|done]. simpl in Hs. destruct (conns s !! dst _) eqn:E; [|done].
    simpl in Hs. destruct (at_ g); try done. destruct (is_open _) eqn:Hop; [|done]. injection Hs as <-.
    eapply Hset; [done..|]. by rewrite Hop.
  - destruct (gors s !! i) as [g|]; [|done]. simpl in Hs. destruct (conns s !! dst _) eqn:E; [|done].
    simpl in Hs. destruct (at_ g); try done. destruct (is_open _) eqn:Hop; injection Hs as <-; [|by exists c].
    eapply Hset; [done..|]. by rewrite Hop.
  - destruct (gors s !! i) as [g|]; [|done]. simpl in Hs. destruct (at_ g) as [| |[|h1 hs] e]; try done.
    injection Hs as <-. cbn [conns set_gor]. rewrite close_conn_lookup, Hc. eexists. split; [reflexivity|].
    simpl. split; [by case_decide|done].
Qed.

(** A step moves at most one goroutine, along its code. *)
Inductive moves (s s' : state) (g g' : gor) : Prop :=
  | MRead c data : at_ g = Reading -> at_ g' = Writing data -> left g = "" ->
      conns s !! src (code g) = Some c -> is_open c = true -> moves s s' g g'
  | MReplay data : at_ g = Reading -> at_ g' = Writing data ->
      String.length (left g') < String.length (left g) -> moves s s' g g'
  | MWrite data : at_ g = Writing data -> at_ g' = Reading -> left g' = left g -> moves s s' g g'
  | MEnd e : (forall hs e', at_ g <> Closing hs e') -> at_ g' = Closing (closing (code g)) e -> moves s s' g g'
  | MClose h hs e : at_ g = Closing (h :: hs) e -> at_ g' = Closing hs e ->
      conns s' = conns (close_conn h s) -> moves s s' g g'.

Lemma step_moves l s s' :
  step l s = Some s' ->
  (gors s' = gors s /\ forall i, of_gor i l = false) \/
  exists i g g', gors s !! i = Some g /\ gors s' = <[i:=g']> (gors s) /\
    (forall j, of_gor j l = bool_decide (j = i)) /\ code g' = code g /\ moves s s' g g'.
Proof.
  intros Hs. destruct l; simpl in Hs; cbn [of_gor].
  1: destruct (conns s !! h) as [c|]; [|done]; simpl in Hs; destruct (eof c); [done|].
  2: destruct (conns s !! h) as [c|]; [|done].
  1-2: by injection Hs as <-; left.
  all: right; destruct (gors s !! i) as [g|] eqn:Hg; [|done]; simpl in Hs; exists i, g.
  - destruct (at_ g) eqn:Ha, n; try done. case_decide as Hl.
    + destruct (conns s !! src (code g)) as [c|] eqn:Hc; [|done]. simpl in Hs.
      destruct (is_open c) eqn:Ho; [|done]. destruct (negb _); [|done]. injection Hs as <-.
      eexists. split_and!; [done..|]. by eapply MRead.
    + injection Hs as <-. eexists. split_and!; [done..|]. eapply MReplay; [done..|].
      cbn -[str_drop]. rewrite str_drop_length. destruct (left g); simpl; [done|lia].
  - destruct (conns s !! src _); [|done]. simpl in Hs. destruct (at_ g) eqn:Ha; try done.
    destruct (_ && _); [|done]. injection Hs as <-. eexists. split_and!; [done..|].
    eapply MEnd; [by rewrite Ha|done].
  - destruct (at_ g) eqn:Ha; try done. case_decide; [|done]. injection Hs as <-.
    eexists. split_and!; [done..|]. eapply MEnd; [by rewrite Ha|done].
  - destruct (conns s !! dst _) as [c|]; [|done]. simpl in Hs. destruct (at_ g) eqn:Ha; try done.
    destruct (is_open c); [|done]. injection Hs as <-. eexists. split_and!; [done..|]. by eapply MWrite.
  - destruct (conns s !! dst _) as [c|]; [|done]. simpl in Hs. destruct (at_ g) eqn:Ha; try done.
    injection Hs as <-. eexists. split_and!; [done|by destruct (is_open c)|done..|].
    eapply MEnd; [by rewrite Ha|done].
  - destruct (at_ g) as [| |[|h1 hs] e] eqn:Ha; try done. injection Hs as <-.
    eexists. split_and!; [done..|]. by eapply MClose.
Qed.

Lemma moves_rank s s' g g' :
  moves s s' g g' -> code g' = code g -> shut s (src (code g)) -> rank g' < rank g.
Proof.
  intros Hm Hc (c0 & Hc0 & Hshut). unfold rank. rewrite Hc.
  destruct Hm as [c data Ha Ha' Hl Hs Ho|data Ha Ha' Hl|data Ha Ha' Hl|e Ha Ha'|h hs e Ha Ha' Hs].
  - congruence.
  - rewrite Ha, Ha'. lia.
  - rewrite Ha, Ha', Hl. lia.
  - rewrite Ha'. destruct (at_ g) eqn:E; [lia..|]. by destruct (Ha hs e0).
  - rewrite Ha, Ha'. simpl. lia.
Qed.

Lemma relay_step_gor l s s' i g :
  step l s = Some s' -> gors s !! i = Some g -> shut s (src (code g)) ->
  exists g', gors s' !! i = Some g' /\ code g' = code g /\
    if of_gor i l then rank g' < rank g else g' = g.
Proof.
  intros Hs Hg Hshut. apply step_moves in Hs as [[-> ->]|(j & g0 & g1 & Hj & -> & Hof & Hc & Hm)]; [eauto|].
  rewrite Hof. case_bool_decide as E.
  - subst j. assert (g0 = g) as -> by congruence. exists g1.
    rewrite list_lookup_insert_eq by (by eapply lookup_lt_Some). eauto using moves_rank.
  - exists g. by rewrite list_lookup_insert_ne.
Qed.

Lemma step_shut_mono l s s' h : step l s = Some s' -> shut s h -> shut s' h.
Proof. intros Hs (c & Hc & Ho). destruct (step_shut _ _ _ _ _ Hs Hc Ho) as (c' & ? & ? & _). by exists c'. Qed.

(** ** The two goroutines of a forwarded connection *)

(** The pairs the handlers start, between the accepted connection [a] and the
    dialled one [b]: TCP tunnels, the SNI proxy, the HTTP proxy. *)
Definition two_way (a b : handle) (ts : list thread) : Prop :=
  ts = [ConnForward (Conn b) (Conn a); ConnForward (Conn a) (Conn b)] \/
  (exists p, ts = [ConnForward (Replay p a) (Conn b); ConnForward (Conn b) (Replay p a)]) \/
  ts = [CopyThenClose a b b a; CopyThenClose b a b a].
Definition relay (ts : list thread) : state := start (omap copier_of ts).

Lemma two_way_shape a b ts :
  two_way a b ts -> a <> b ->
  exists c1 c2, omap copier_of ts = [c1; c2] /\
    (src c1 = a /\ dst c1 = b /\ src c2 = b /\ dst c2 = a \/
     src c1 = b /\ dst c1 = a /\ src c2 = a /\ dst c2 = b) /\
    (forall c, c = c1 \/ c = c2 -> length (closing c) = 2 /\ forall h, h ∈ closing c <-> h = a \/ h = b).
Proof.
  intros [->|[[p ->]| ->]] Hne; (eexists _, _; split; [reflexivity|]); (split; [first [by left|by right]|]);
    intros c [->| ->]; (split; [done|]); intros h; simpl; rewrite !elem_of_cons, elem_of_nil; tauto.
Qed.

Section pair.
Context (a b : handle) (ts : list thread) (Hts : two_way a b ts) (Hne : a <> b).

Lemma pair_distinct : NoDup (src <$> omap copier_of ts) /\ NoDup (dst <$> omap copier_of ts).
Proof.
  destruct (two_way_shape a b ts Hts Hne) as (c1 & c2 & -> & Hends & _). simpl.
  destruct Hends as [(-> & -> & -> & ->)|(-> & -> & -> & ->)]; split;
    repeat constructor; rewrite ?elem_of_cons, ?elem_of_nil; intuition congruence.
Qed.

Record pair_inv (s : state) : Prop := {
  p_inv : inv (omap copier_of ts) s;
  p_closing i g hs e : gors s !! i = Some g -> at_ g = Closing hs e ->
    exists past, closing (code g) = past ++ hs /\ Forall (shut s) past
}.

Lemma pair_gor s i g :
  inv (omap copier_of ts) s -> gors s !! i = Some g ->
  (src (code g) = a \/ src (code g) = b) /\ (dst (code g) = a \/ dst (code g) = b) /\
  length (closing (code g)) = 2 /\ (forall h, h ∈ closing (code g) <-> h = a \/ h = b) /\
  is_Some (conns s !! a) /\ is_Some (conns s !! b).
Proof.
  intros [Hcode Hlink] Hg. destruct (two_way_shape a b ts Hts Hne) as (c1 & c2 & Hcs & Hends & Hcl).
  destruct (Hlink i g Hg) as (cin & cout & H1 & H2 & _).
  assert (code g = c1 \/ code g = c2) as Hc.
  { assert (code g ∈ code <$> gors s) as Hin by (eapply list_elem_of_lookup_2; by rewrite list_lookup_fmap, Hg).
    rewrite Hcode, Hcs in Hin. rewrite !elem_of_cons, elem_of_nil in Hin. tauto. }
  destruct (Hcl _ Hc) as [Hlen Hin].
  destruct Hc as [Hc|Hc], Hends as [(E1 & E2 & E3 & E4)|(E1 & E2 & E3 & E4)]; rewrite Hc in *; rewrite ?E1, ?E2, ?E3, ?E4 in *;
    split_and!; auto; by eexists.
Qed.

Lemma pair_inv_start : pair_inv (relay ts).
Proof.
  destruct pair_distinct. split; [by apply inv_start|]. intros i g hs e Hg.
  simpl in Hg. rewrite list_lookup_fmap in Hg. by apply fmap_Some in Hg as (c & _ & ->).
Qed.

Lemma pair_inv_step l s s' : pair_inv s -> step l s = Some s' -> pair_inv s'.
Proof.
  intros [Hi Hp] Hs. destruct pair_distinct as [Hd1 Hd2]. split; [by eapply relay_inv_step|].
  intros i g hs e Hg Ha.
  assert (forall past, Forall (shut s) past -> Forall (shut s') past) as Hmono
    by (intros past Hf; eapply Forall_impl; eauto using step_shut_mono).
  pose proof Hs as [[Hgs _]|(j & g0 & g1 & Hj & Hgs & _ & Hc & Hm)]%step_moves; rewrite Hgs in Hg;
    [destruct (Hp i g hs e Hg Ha) as (past & ? & ?); eauto|].
  apply list_lookup_insert_Some in Hg as [(<- & <- & _)|[Hji Hg]];
    [|destruct (Hp i g hs e Hg Ha) as (past & ? & ?); eauto].
  destruct Hm as [c data Hb Ha' Hl Hcs Ho|data Hb Ha' Hl|data Hb Ha' Hl|e' Hb Ha'|h1 hs1 e' Hb Ha' Hcs];
    try congruence.
  - exists []. split; [|done]. simpl. congruence.
  - destruct (Hp j g0 _ _ Hj Hb) as (past & Hpast & Hshut). exists (past ++ [h1]).
    rewrite <- (assoc_L (++)). simpl. split; [congruence|]. apply Forall_app; split; [auto|].
    apply Forall_singleton. destruct (pair_gor s j g0 Hi Hj) as (_ & _ & _ & Hab & [ca Ea] & [cb Eb]).
    unfold shut. rewrite Hcs, close_conn_lookup.
    assert (h1 = a \/ h1 = b) as [->| ->] by (apply Hab; rewrite Hpast; apply elem_of_app; right; left);
      [rewrite Ea|rewrite Eb]; eexists; (split; [reflexivity|]); simpl; by case_decide.
Qed.

Lemma pair_inv_reachable s : reachable step (relay ts) s -> pair_inv s.
Proof. apply reachable_invariant; [apply pair_inv_start|apply pair_inv_step]. Qed.

(** A finished goroutine has shut both connections. *)
Lemma finished_shut s i g :
  pair_inv s -> gors s !! i = Some g -> finished g -> shut s a /\ shut s b.
Proof.
  intros [Hi Hp] Hg [e He]. destruct (pair_gor s i g Hi Hg) as (_ & _ & _ & Hab & _).
  destruct (Hp i g [] e Hg He) as (past & Hpast & Hshut). rewrite app_nil_r in Hpast. subst past.
  rewrite Forall_forall in Hshut. split; apply Hshut, Hab; auto.
Qed.

(** A goroutine that is not finished can move. *)
Lemma pair_progress s i g :
  pair_inv s -> gors s !! i = Some g -> finished g \/ exists l, of_gor i l = true /\ is_Some (step l s).
Proof.
  intros [Hi Hp] Hg. destruct (pair_gor s i g Hi Hg) as (Hs & Hd & _ & _ & [ca Ha] & [cb Hb]).
  destruct (at_ g) as [|data|[|h hs] e] eqn:Hpc; [right..|left; by exists e|right].
  - destruct (decide (left g = "")).
    + exists (ReadErr i). simpl. rewrite bool_decide_eq_true_2, Hg by done. simpl.
      rewrite Hpc, decide_True by done. eauto.
    + exists (Read i 1). simpl. rewrite bool_decide_eq_true_2, Hg by done. cbn -[str_take str_drop].
      rewrite Hpc, decide_False by done. eauto.
  - exists (WriteErr i 0). simpl. rewrite bool_decide_eq_true_2, Hg by done. simpl.
    assert (is_Some (conns s !! dst (code g))) as [c ->] by (destruct Hd as [-> | ->]; eauto).
    simpl. rewrite Hpc. eauto.
  - exists (CloseNext i). simpl. rewrite bool_decide_eq_true_2, Hg by done. simpl. rewrite Hpc. eauto.
Qed.

Lemma pair_rank s ls s' i g :
  pair_inv s -> gors s !! i = Some g -> shut s a -> shut s b -> run step s ls = Some s' ->
  pair_inv s' /\ exists g', gors s' !! i = Some g' /\
    length (List.filter (of_gor i) ls) + rank g' <= rank g.
Proof.
  intros Hi Hg Ha Hb Hr.
  set (r s := match gors s !! i with Some g => rank g | None => 0 end).
  destruct (run_rank step (of_gor i) r
    (fun s => pair_inv s /\ shut s a /\ shut s b /\ is_Some (gors s !! i)) s ls s')
    as [(Hi' & _ & _ & [g' Hg']) Hn].
  - intros l s1 s2 (H1 & H2 & H3 & [g1 Hg1]) Hs.
    destruct (pair_gor s1 i g1 (p_inv _ H1) Hg1) as (Hsrc & _).
    destruct (relay_step_gor l s1 s2 i g1 Hs Hg1) as (g2 & Hg2 & _ & Hrk); [by destruct Hsrc as [-> | ->]|].
    split_and!; eauto using pair_inv_step, step_shut_mono. unfold r. rewrite Hg1, Hg2.
    destruct (of_gor i l); [done|by subst].
  - eauto.
  - done.
  - split; [done|]. exists g'. split; [done|]. unfold r in Hn. by rewrite Hg, Hg' in Hn.
Qed.
(** C15: a forwarded connection comes to an end: as soon as one of its two
    goroutines is done, both connections are closed, and the other goroutine
    takes, in every interleaving, at most four steps of its own (two more per
    byte still to be replayed), can always take one until it is done, and so
    never stays blocked. *)
Theorem relay_winds_down s ls s' i j g gj :
  reachable step (relay ts) s -> gors s !! i = Some g -> finished g ->
  gors s !! j = Some gj -> run step s ls = Some s' ->
  shut s' a /\ shut s' b /\
  exists gj', gors s' !! j = Some gj' /\
    length (List.filter (of_gor j) ls) + rank gj' <= rank gj <= 4 + 2 * String.length (left gj) /\
    (finished gj' \/ exists l, of_gor j l = true /\ is_Some (step l s')).
Proof.
  intros Hr Hg Hfin Hgj Hrun. pose proof (pair_inv_reachable s Hr) as Hi.
  destruct (finished_shut s i g Hi Hg Hfin) as [Ha Hb].
  destruct (pair_rank s ls s' j gj Hi Hgj Ha Hb Hrun) as (Hi' & gj' & Hgj' & Hn).
  assert (shut s' a /\ shut s' b) as [? ?].
  { eapply (run_invariant step (fun s => shut s a /\ shut s b)); [|by split|exact Hrun].
    intros l s1 s2 [? ?] ?. eauto using step_shut_mono. }
  split_and!; try done. exists gj'. split_and!; try done; [|by eapply pair_progress].
  destruct (pair_gor s j gj (p_inv _ Hi) Hgj) as (_ & _ & Hlen & _). unfold rank.
  destruct (at_ gj) as [|d|hs e] eqn:Hpc; rewrite ?Hlen; [lia..|].
  destruct (p_closing _ Hi j gj hs e Hgj Hpc) as (past & Hpast & _). rewrite Hpast, length_app in Hlen. lia.
Qed.

(** There is no half-close: once one goroutine is done, no remote end
    receives another byte, whatever was still on its way to it. *)
Theorem nothing_delivered_after_the_end s ls s' i g h c :
  reachable step (relay ts) s -> gors s !! i = Some g -> finished g ->
  run step s ls = Some s' -> h = a \/ h = b -> conns s !! h = Some c ->
  exists c', conns s' !! h = Some c' /\ received c' = received c.
Proof.
  intros Hr Hg Hfin Hrun Hh Hc.
  destruct (finished_shut s i g (pair_inv_reachable s Hr) Hg Hfin) as [(ca & Hca & Ha) (cb & Hcb & Hb)].
  destruct (run_invariant step (fun s => exists c', conns s !! h = Some c' /\ is_open c' = false /\
    received c' = received c) s ls s') as (c' & ? & _ & ?); [|by destruct Hh as [->| ->]; exists c; split_and!; congruence|done|by exists c'].
  intros l s1 s2 (c1 & H1 & H2 & H3) Hs. destruct (step_shut l s1 s2 h c1 Hs H1 H2) as (c2 & ? & ? & ?).
  exists c2. split_and!; congruence.
Qed.
End pair.

(** ** What arrives *)

(** Goroutines of which no two share a source or a destination. *)
Definition piped (ts : list thread) : Prop :=
  NoDup (src <$> omap copier_of ts) /\ NoDup (dst <$> omap copier_of ts).
Lemma two_way_piped a b ts : two_way a b ts -> a <> b -> piped ts.
Proof. apply pair_distinct. Qed.
(** The pair [STDIOTcpForward] starts. *)
Lemma stdio_piped input conn output :
  input <> conn -> conn <> output ->
  piped [ConnForward (Conn input) (Conn conn); ConnForward (Conn conn) (Conn output)].
Proof. intros H1 H2. split; repeat constructor; simpl; rewrite ?elem_of_cons, ?elem_of_nil; intuition. Qed.

(** C5: copying is faithful, for the two goroutines of every forwarded
    connection ([two_way_piped]) and of the STDIO tunnel ([stdio_piped]): in
    every interleaving, whatever fails, what a destination has received is a
    prefix of what its source has sent (after the bytes the SNI proxy
    replays), so nothing is invented, dropped in the middle, duplicated or
    reordered; and when a copy stops at the end of its source, everything was
    delivered. *)
Theorem relay_is_faithful ts s i g cin cout :
  piped ts -> reachable step (relay ts) s -> gors s !! i = Some g ->
  conns s !! src (code g) = Some cin -> conns s !! dst (code g) = Some cout ->
  let stream := replayed (from (code g)) +:+ sent cin in
  (exists rest, stream = received cout +:+ rest) /\
  (forall hs, at_ g = Closing hs AtEof -> received cout = stream).
Proof.
  intros [Hd1 Hd2] Hr Hg Hi Ho.
  destruct (relay_inv_reachable _ Hd1 Hd2 s Hr) as [_ Hlink].
  destruct (Hlink i g Hg) as (cin' & cout' & Hi' & Ho' & Hf).
  assert (cin' = cin) as -> by congruence. assert (cout' = cout) as -> by congruence.
  unfold flow in Hf. split.
  - destruct (at_ g) as [|d|hs []]; [by eexists..| |].
    + exists "". destruct Hf as [<- _]. by rewrite str_app_nil_r.
    + destruct Hf as [rest <-]. by exists rest.
  - intros hs Ha. rewrite Ha in Hf. apply Hf.
Qed.

(** ** The handlers start such pairs *)
Section handlers.
Context `{UT : UnicodeTables, RL : RegexpLib, E : Environment} {TL : TlsLib}.

(** The goroutines a trace starts. *)
Definition quiet_op (o : op) : bool := negb (spawns o).
Definition dials_to (before : trace) (o : op) (peer : handle) : Prop :=
  match o return ans o -> Prop with
  | ODial _ _ _ | ODialTCP _ _ => fun r => r = Ok peer
  | _ => fun _ => False
  end (answer before o).

(** A handler of the accepted connection [conn]: it starts nothing, or, after
    it has dialled [peer], the two goroutines of a relay and nothing else. *)
Definition relays {A} (conn : handle) (m : M A) : Prop :=
  forall tr, exists new, snd (m tr) = tr ++ new /\
    (threads new = [] \/
     exists pre o post peer, new = pre ++ o :: post /\ threads pre = [] /\
       dials_to (tr ++ pre) o peer /\ two_way conn peer (threads post)).

(** The computations it is made of: one that dials, and one that starts the
    goroutines once [peer] is known. *)
Definition dialling (m : M (result handle)) : Prop :=
  forall tr, exists pre o, snd (m tr) = tr ++ pre ++ [o] /\ threads (pre ++ [o]) = [] /\
    (forall peer, fst (m tr) = Ok peer -> dials_to (tr ++ pre) o peer).
Definition pairs {A} (conn peer : handle) (m : M A) : Prop :=
  forall tr, exists new, snd (m tr) = tr ++ new /\ (threads new = [] \/ two_way conn peer (threads new)).

Lemma threads_app t1 t2 : threads (t1 ++ t2) = threads t1 ++ threads t2.
Proof. apply omap_app. Qed.
Lemma threads_quiet tr : Forall quiet_op tr -> threads tr = [].
Proof. induction 1 as [|o tr Ho _ IH]; [done|]. destruct o; first [exact IH|done]. Qed.

Lemma relays_quiet {A} conn (m : M A) : does quiet_op m -> relays conn m.
Proof. intros Hm tr. destruct (Hm tr) as (new & -> & F). exists new. split; [done|left]. by apply threads_quiet. Qed.
Lemma relays_bind {A B} conn (m : M A) (k : A -> M B) :
  does quiet_op m -> (forall a, relays conn (k a)) -> relays conn (bind m k).
Proof.
  intros Hm Hk tr. unfold bind. destruct (Hm tr) as (n1 & H1 & F1). destruct (m tr) as [a t1].
  simpl in H1. subst t1. destruct (Hk a (tr ++ n1)) as (n2 & -> & Hn).
  apply threads_quiet in F1. exists (n1 ++ n2). split; [by rewrite (assoc_L (++))|].
  rewrite threads_app, F1. destruct Hn as [Hn|(pre & o & post & peer & -> & Hpre & Hd & Ht)]; [by left|right].
  exists (n1 ++ pre), o, post, peer. rewrite threads_app, F1, Hpre, !(assoc_L (++)). done.
Qed.
Lemma relays_dial {B} conn (m : M (result handle)) (k : result handle -> M B) :
  dialling m -> (forall e, does quiet_op (k (Err e))) -> (forall peer, pairs conn peer (k (Ok peer))) ->
  relays conn (bind m k).
Proof.
  intros Hm He Hk tr. unfold bind. destruct (Hm tr) as (pre & o & H1 & Hq & Hd).
  destruct (m tr) as [[peer|e] t1]; simpl in H1, Hd; subst t1.
  - destruct (Hk peer (tr ++ pre ++ [o])) as (n2 & -> & Hn). exists ((pre ++ [o]) ++ n2).
    split; [by rewrite <- !(assoc_L (++))|]. rewrite threads_app, Hq. destruct Hn as [Hn|Hn]; [by left|right].
    exists pre, o, n2, peer. rewrite threads_app in Hq. apply app_eq_nil in Hq as [-> _].
    rewrite <- (assoc_L (++)). auto.
  - destruct (He e (tr ++ pre ++ [o])) as (n2 & -> & F2). exists ((pre ++ [o]) ++ n2).
    split; [by rewrite <- !(assoc_L (++))|left]. by rewrite threads_app, Hq, (threads_quiet n2).
Qed.
Lemma relays_ext {A} conn (m m' : M A) : (forall tr, m tr = m' tr) -> relays conn m' -> relays conn m.
Proof. intros H Hm tr. rewrite H. apply Hm. Qed.

Lemma pairs_quiet {A} conn peer (m : M A) : does quiet_op m -> pairs conn peer m.
Proof. intros Hm tr. destruct (Hm tr) as (new & -> & F). exists new. split; [done|left]. by apply threads_quiet. Qed.
Lemma pairs_bind {A B} conn peer (m : M A) (k : A -> M B) :
  does quiet_op m -> (forall a, pairs conn peer (k a)) -> pairs conn peer (bind m k).
Proof.
  intros Hm Hk tr. unfold bind. destruct (Hm tr) as (n1 & H1 & F1). destruct (m tr) as [a t1].
  simpl in H1. subst t1. destruct (Hk a (tr ++ n1)) as (n2 & -> & Hn). exists (n1 ++ n2).
  split; [by rewrite (assoc_L (++))|]. by rewrite threads_app, (threads_quiet n1).
Qed.
Lemma relays_then {A B} conn (m : M A) (k : A -> M B) :
  relays conn m -> (forall a, does quiet_op (k a)) -> relays conn (bind m k).
Proof.
  intros Hm Hk tr. unfold bind. destruct (Hm tr) as (n1 & H1 & Hn). destruct (m tr) as [a t1].
  simpl in H1. subst t1. destruct (Hk a (tr ++ n1)) as (n2 & -> & F2). apply threads_quiet in F2.
  exists (n1 ++ n2). split; [by rewrite (assoc_L (++))|]. rewrite threads_app, F2, app_nil_r.
  destruct Hn as [Hn|(pre & o & post & peer & -> & Hpre & Hd & Ht)]; [by left|right].
  exists pre, o, (post ++ n2), peer. rewrite threads_app, F2, app_nil_r, <- (assoc_L (++)). done.
Qed.
Lemma bind_assoc {A B C} (m : M A) (k : A -> M B) (l : B -> M C) tr :
  bind (bind m k) l tr = bind m (fun a => bind (k a) l) tr.
Proof. unfold bind. by destruct (m tr). Qed.
Lemma pairs_ext {A} conn peer (m m' : M A) :
  (forall tr, m tr = m' tr) -> pairs conn peer m' -> pairs conn peer m.
Proof. intros H Hm tr. rewrite H. apply Hm. Qed.
Lemma pairs_then {A B} conn peer (m : M A) (k : A -> M B) :
  pairs conn peer m -> (forall a, does quiet_op (k a)) -> pairs conn peer (bind m k).
Proof.
  intros Hm Hk tr. unfold bind. destruct (Hm tr) as (n1 & H1 & Hn). destruct (m tr) as [a t1].
  simpl in H1. subst t1. destruct (Hk a (tr ++ n1)) as (n2 & -> & F2). exists (n1 ++ n2).
  split; [by rewrite (assoc_L (++))|]. by rewrite threads_app, (threads_quiet n2), app_nil_r.
Qed.
Lemma pairs_go conn peer t1 t2 :
  two_way conn peer [t1; t2] ->
  pairs conn peer (let! _ := perform (OGo t1) in perform (OGo t2)).
Proof.
  intros Ht tr. run_M. exists [OGo t1; OGo t2]. rewrite <- !(assoc_L (++)). split; [done|by right].
Qed.

Lemma dialling_TCP on a : dialling (perform (ODialTCP on a)).
Proof. intros tr. exists [], (ODialTCP on a). rewrite app_nil_r. done. Qed.
Lemma dialling_routed router network addr : dialling (RoutedDial router network addr).
Proof.
  intros tr. unfold RoutedDial.
  destruct (route_then_dial router (hostFromAddr addr) network addr tr) as (logs & Hl & ->).
  exists logs, (ODial (side_of router (hostFromAddr addr)) network addr).
  split; [cbn [snd]; by rewrite <- ?(assoc_L (++))|]. split; [|done].
  rewrite threads_app, (threads_quiet logs); [done|]. eapply Forall_impl; [exact Hl|]. by intros [].
Qed.

Lemma resolve_quiet vt raddr : does quiet_op (resolveToAddrPort vt raddr).
Proof.
  eapply does_weaken; [intros tr; apply resolveToAddrPort_passive|]. by intros [].
Qed.

Lemma tcp_relays conn vt raddr (on : side) (fail1 : error -> M unit) (fail2 : AddrPort -> error -> M unit) :
  (forall e, does quiet_op (fail1 e)) -> (forall a e, does quiet_op (fail2 a e)) ->
  relays conn (
    let! target := resolveToAddrPort vt raddr in
    match target with
    | Err err => fail1 err
    | Ok target =>
        let! sconn := perform (ODialTCP on target) in
        match sconn with
        | Err err => fail2 target err
        | Ok sconn =>
            let! _ := perform (OGo (ConnForward (Conn sconn) (Conn conn))) in
            perform (OGo (ConnForward (Conn conn) (Conn sconn)))
        end
    end).
Proof.
  intros H1 H2. apply relays_bind; [apply resolve_quiet|]. intros [target|e]; [|by apply relays_quiet].
  apply relays_dial; [apply dialling_TCP|done|]. intros peer. apply pairs_go. by left.
Qed.

Lemma drive_quiet h conn peeked hello : does quiet_op (drive h conn peeked hello).
Proof.
  intros tr. destruct (drive_reads h conn peeked hello tr) as (n & Ht & _). exists (replicate n (ORead conn)).
  split; [done|]. by apply Forall_replicate.
Qed.

Lemma sni_relays conn router : relays conn (sniProxyForward (RoutedDial router) conn).
Proof.
  unfold sniProxyForward. apply relays_bind; [by apply does_perform|]. intros [e|]; [apply relays_quiet, does_ret|].
  unfold peekClientHello. eapply relays_ext; [apply bind_assoc|].
  apply relays_bind; [apply drive_quiet|]. intros [[peeked hello] err].
  assert (forall name err', relays conn
    (match err' with
     | Some err => ret (Some (Errorf_w "peek client hello failed: " err))
     | None =>
      let! err := perform (OSetReadDeadline conn None) in
      match err with
      | Some err => ret (Some (Errorf_w "clear read deadline failed: " err))
      | None =>
        if bool_decide (name = "") then ret (Some (errorString "no SNI hostname in ClientHello"))
        else
          let target := JoinHostPort name "443" in
          let! backendConn := RoutedDial router "tcp" target in
          match backendConn with
          | Err err => ret (Some (Errorf_w "tun tcp dial failed: " err))
          | Ok backendConn =>
            let! _ := perform (OGo (ConnForward (Replay peeked conn) (Conn backendConn))) in
            let! _ := perform (OGo (ConnForward (Conn backendConn) (Replay peeked conn))) in
            ret None
          end
      end
     end)) as H.
  { intros name [e|]; [apply relays_quiet, does_ret|]. apply relays_bind; [by apply does_perform|].
    intros [e|]; [apply relays_quiet, does_ret|]. destruct (bool_decide _); [apply relays_quiet, does_ret|].
    apply relays_dial; [apply dialling_routed|intros e; apply does_ret|]. intros peer.
    eapply pairs_ext; [intros tr; symmetry; apply bind_assoc|]. apply pairs_then; [|intros; apply does_ret].
    apply pairs_go. right; left. by exists peeked. }
  destruct hello as [name|]; [exact (H name None)|exact (H "" err)].
Qed.

(** A branch that ends in a few operations that start nothing. *)
Ltac logs n :=
  intros ?tr; run_M;
  lazymatch n with
  | 1 => eexists [_]; split; [reflexivity|]
  | _ => eexists [_; _]; split; [by rewrite <- (assoc_L (++))|]
  end; by repeat constructor.

Lemma http_relays conn cfg creds router required tls :
  relays conn (Http.serve (mkServer cfg creds (RoutedDial router) required tls) conn).
Proof.
  set (s := mkServer _ _ _ _ _). unfold Http.serve. apply relays_bind; [by apply does_perform|].
  intros [req|e]; [|by apply relays_quiet, does_perform].
  destruct (authenticate s req) as [code [e|]]; [apply relays_quiet; does_auto|]. cbv zeta.
  destruct (bool_decide (Method req = "CONNECT")); [|destruct (bool_decide (Method req = "GET"))].
  - unfold handleConn. cbv zeta. eapply relays_ext; [apply bind_assoc|].
    apply relays_dial; [apply dialling_routed|intros e; logs 1|]. intros peer.
    eapply pairs_ext; [apply bind_assoc|]. apply pairs_bind; [by apply does_perform|].
    intros [e|]; [apply pairs_quiet; logs 2|]. apply pairs_go. by right; right.
  - unfold handle_. cbv zeta. eapply relays_ext; [apply bind_assoc|].
    apply relays_dial; [apply dialling_routed|intros e; logs 1|]. intros peer.
    eapply pairs_ext; [apply bind_assoc|]. apply pairs_bind; [by apply does_perform|].
    intros [e|]; [apply pairs_quiet; logs 2|]. apply pairs_go. by right; right.
  - apply relays_quiet. does_auto.
Qed.

(** Every handler of an accepted TCP connection starts either nothing, or
    exactly the two goroutines of a relay between that connection and the one
    it has just dialled, and it starts them after the dial: the forwarders of
    both TCP tunnels, the SNI proxy and the HTTP proxy. *)
Lemma handlers_start_relays conn :
  (forall vt raddr, relays conn (tcpClientForward vt raddr conn)) /\
  (forall vt raddr, relays conn (tcpServerForward vt raddr conn)) /\
  (forall router, relays conn (sniServe (RoutedDial router) conn)) /\
  (forall cfg creds router required tls,
     relays conn (Http.serve (mkServer cfg creds (RoutedDial router) required tls) conn)).
Proof.
  split_and!.
  - intros vt raddr. apply tcp_relays; intros; by apply does_perform.
  - intros vt raddr. apply tcp_relays; intros; by apply does_perform.
  - intros router. unfold sniServe. apply relays_then; [apply sni_relays|].
    intros [err|]; does_auto.
  - intros cfg creds router required tls. apply http_relays.
Qed.
End handlers.

(** ** A TCP tunnel, step by step *)
Module Scenario.
Definition tcp : list thread := [ConnForward (Conn 2) (Conn 1); ConnForward (Conn 1) (Conn 2)].
Lemma tcp_two_way : two_way 1 2 tcp.
Proof. by left. Qed.

(** The client sends a request and closes its sending side; the request is
    delivered, and the copy stops at its end. *)
Definition request : list label :=
  [PeerSend 1 "request"; PeerEof 1; Read 1 4; Write 1; Read 1 4; Write 1; ReadEof 1; CloseNext 1; CloseNext 1].
Definition s1 : state := after step (relay tcp) request.
(** The target answers. *)
Definition answer : list label := [PeerSend 2 "response"; ReadErr 0; CloseNext 0; CloseNext 0].
Definition s2 : state := after step s1 answer.

Definition gor_in (s : state) (i : nat) : gor := default (start_gor (mkCopier (Conn 0) 0 [])) (gors s !! i).
Definition conn_in (s : state) (h : handle) : conn := default fresh_conn (conns s !! h).

Lemma relay_is_faithful_witness : received (conn_in s1 2) = "request".
Proof.
  destruct (relay_is_faithful tcp s1 1 (gor_in s1 1) (conn_in s1 1)
    (conn_in s1 2)) as [_ Hend].
  - apply (two_way_piped 1 2); [exact tcp_two_way|discriminate].
  - apply (reachable_after step).
  - vm_compute. reflexivity.
  - vm_compute. reflexivity.
  - vm_compute. reflexivity.
  - rewrite (Hend []); vm_compute; reflexivity.
Defined.

Lemma relay_winds_down_witness : shut s2 1 /\ shut s2 2.
Proof.
  destruct (relay_winds_down 1 2 tcp tcp_two_way ltac:(done) s1 answer s2 1 0
    (gor_in s1 1)
    (gor_in s1 0)) as (H1 & H2 & _).
  - apply (reachable_after step).
  - vm_compute. reflexivity.
  - eexists. vm_compute. reflexivity.
  - vm_compute. reflexivity.
  - vm_compute. reflexivity.
  - split; [exact H1|exact H2].
Defined.

(** The response never arrives. *)
Lemma nothing_delivered_witness :
  exists c c', conns s2 !! 2 = Some c /\ sent c = "response" /\
    conns s2 !! 1 = Some c' /\ received c' = "".
Proof.
  destruct (nothing_delivered_after_the_end 1 2 tcp tcp_two_way ltac:(done) s1 answer s2 1
    (gor_in s1 1) 1
    (conn_in s1 1)) as (c' & H1 & H2).
  - apply (reachable_after step).
  - vm_compute. reflexivity.
  - eexists. vm_compute. reflexivity.
  - vm_compute. reflexivity.
  - left. reflexivity.
  - vm_compute. reflexivity.
  - eexists _, c'. split; [vm_compute; reflexivity|]. split; [reflexivity|].
    split; [exact H1|]. rewrite H2. vm_compute. reflexivity.
Defined.
End Scenario.
