(* ===== verification/Shutdown.v ===== *)
(** * Shutdown: the [shutdown] mix-in and [closeListener] of [routine.go] *)

From S2P Require Import Prelude GoStr ConfigTypes World.

Record shutdown := mkShutdown { closed : bool }.
Definition markClosed (s : shutdown) : shutdown := mkShutdown true.
Definition stopping (s : shutdown) : bool := closed s.

(** Whether an error is the ordinary consequence of [Close]; [None] is nil. *)
Definition closedByUs (s : shutdown) (err : option error) : bool :=
  match err with
  | None => true
  | Some err => stopping s || errors_Is_ErrClosed err
  end.

(** An [io.Closer]: the nil interface, a nil pointer of a concrete type inside a
    non-nil interface, or an open or closed object. *)
Inductive closer := NilInterface | NilPointer | Closer (h : handle).

(** A listener field of interface type, and one of type [*net.UDPConn]. *)
Definition interface_field (l : option handle) : closer :=
  match l with Some h => Closer h | None => NilInterface end.
Definition pointer_field (l : option handle) : closer :=
  match l with Some h => Closer h | None => NilPointer end.

(** How a call of [Close] ends: it returns, or dereferences a nil pointer. *)
Inductive close_result := Returns (err : option error) | NilDereference.

Section closing.
Context `{E : Environment}.

(** The guard compares the interface with nil; [Close] of a nil
    [*net.UDPConn], promoted from an embedded field, dereferences it. *)
Definition closeListener (c : closer) : M close_result :=
  match c with
  | NilInterface => ret (Returns None)
  | NilPointer => ret NilDereference
  | Closer h =>
      let! err := perform (OClose h) in
      match err with
      | Some err => ret (Returns (if errors_Is_ErrClosed err then None else Some err))
      | None => ret (Returns None)
      end
  end.

Lemma closeListener_effects c tr :
  snd (closeListener c tr) = tr ++ match c with Closer h => [OClose h] | _ => [] end.
Proof.
  unfold closeListener. destruct c as [| |h]; run_M; rewrite ?app_nil_r; [done..|].
  by destruct (answer tr (OClose h)) as [e|].
Qed.

Lemma closeListener_result c tr e :
  fst (closeListener c tr) = Returns (Some e) -> errors_Is_ErrClosed e = false.
Proof.
  unfold closeListener. destruct c as [| |h]; run_M; [done..|].
  destruct (answer tr (OClose h)) as [e'|]; [|done]. simpl.
  destruct (errors_Is_ErrClosed e') eqn:He; [done|]. by intros [= <-].
Qed.

Lemma closeListener_panics c tr : fst (closeListener c tr) = NilDereference <-> c = NilPointer.
Proof.
  unfold closeListener. destruct c as [| |h]; run_M; [done..|].
  by destruct (answer tr (OClose h)) as [e|].
Qed.
End closing.
