(* ===== verification/Lifecycle.v ===== *)
(** * Lifecycle: [Bind], [Serve] and [Close] of the eight routines of [routine.go]

    Each routine is an instance of the class [Routine], the [RoutineSpawner]
    interface; [RoutineSpawner] values dispatch on their dynamic type.  [Serve]
    returns what it amounts to ([serving]); the accept loop itself, interleaved
    with callers of [Close], is the transition system at the end of the file. *)

From S2P Require Import Prelude GoStr GoNet GoNetip Ini ConfigTypes World Router Resolver Forward.
From S2P Require Import Sni Http Shutdown.
From S2P Require Relay.

(** [%q] of a string: [strconv.Quote], with bytes from 128 on kept as they are. *)
Definition hex2 (n : N) : string :=
  String (GoCodec.hex_digit (n / 16)) (String (GoCodec.hex_digit (n mod 16)) "").
Definition quote_byte (c : ascii) : string :=
  let n := N_of_byte c in
  let esc (x : ascii) := String "\" (String x "") in
  match n with
  | 7 => esc "a"%char | 8 => esc "b"%char | 9 => esc "t"%char | 10 => esc "n"%char | 11 => esc "v"%char
  | 12 => esc "f"%char | 13 => esc "r"%char | 34 => esc c | 92 => esc c
  | _ => if (n <? 32)%N || (n =? 127)%N then "\x" +:+ hex2 n else String c ""
  end%N.
Fixpoint quote_bytes (s : string) : string :=
  match s with "" => "" | String c s' => quote_byte c +:+ quote_bytes s' end.
Definition Quote (s : string) : string := Http.quote +:+ quote_bytes s +:+ Http.quote.

(** ** The third-party SOCKS5 server

    [socks5.NewServer(options).Serve(listener)]: its options, and its accept
    loop, which returns the error of [Accept]. *)
Inductive socks5_auth := NoAuth | UserPass (user pass : string).
Inductive socks5_dialer `{RegexpLib} :=
  | DialTunnel                                  (* WithDial(vt.Tnet.DialContext) *)
  | DialRouted (router : option DomainRouter).  (* WithDialAndRequest(routedSocks5Dial) *)
Inductive socks5_resolver := TunnelResolver | PassthroughResolver.
Record socks5_options `{RegexpLib} := mkSocks5 {
  authMethods : socks5_auth;
  socks5_dial : socks5_dialer;
  socks5_resolve : socks5_resolver
}.

Arguments mkSocks5 {_} _ _ _.
Arguments DialTunnel {_}.
Arguments DialRouted {_} _.

Class Socks5Lib `{RegexpLib} := {
  socks5_ServeConn : socks5_options -> handle -> M unit;
  socks5_Serve_error : error -> option error;
  socks5_Serve_returns err : socks5_Serve_error err = Some err
}.

(** ** The interface *)
Class Routine (C : Type) := {
  Bind : C -> M (C * option error);
  Serve : VirtualTun.t -> C -> M serving;
  Close : C -> M (C * close_result)
}.

Section routines.
Context `{UT : UnicodeTables, RL : RegexpLib, E : Environment} {TL : TlsLib} {SL : Socks5Lib}.

(** The accept loops of this file: stop with nil if [closedByUs], else report. *)
Definition accept_error (prefix : string) (closed : bool) (err : error) : option error :=
  if closedByUs (mkShutdown closed) (Some err) then None else Some (Errorf_w prefix err).

(** [if err := server.Serve(l); err != nil && !closedByUs(err) { wrap }]. *)
Definition wrap_serve (prefix : string) (closed : bool) (err : option error) : option error :=
  match err with
  | None => None
  | Some e =>
      if closedByUs (mkShutdown closed) err then None else Some (Errorf_w prefix e)
  end.

(** Keep the error of a listen call, or store the listener. *)
Definition bind_listener {C} (prefix : string) (set : handle -> C) (c : C) (l : result handle)
    : C * option error :=
  match l with
  | Err err => (c, Some (Errorf_w prefix err))
  | Ok h => (set h, None)
  end.

(** In the handlers below [raddr] is never nil: [Bind] stores it before the
    listener ([nil_safe], below). *)
Section TCPClient.
Import TCPClientTunnelConfig.
Definition TCPClient_Bind (conf : t) : M (t * option error) :=
  match parseAddressPort (Target conf) with
  | Err err =>
      ret (conf, Some (Errorf_w ("tcp client tunnel: bad target " +:+ Quote (Target conf) +:+ ": ") err))
  | Ok ap =>
      let conf := mk (BindAddress conf) (Target conf) (listener conf) (Some ap) (closed conf) in
      let! l := perform (OListenTCP (BindAddress conf)) in
      ret (bind_listener
        ("tcp client tunnel: cannot listen on " +:+
         JoinHostPort (TCPAddr_IP (BindAddress conf)) (Itoa (TCPAddr_Port (BindAddress conf))) +:+ ": ")
        (fun h => mk (BindAddress conf) (Target conf) (Some h) (raddr conf) (closed conf)) conf l)
  end.
Definition TCPClient_Serve (vt : VirtualTun.t) (conf : t) : M serving :=
  match listener conf with
  | None => ret (Returned (Some (errorString "tcp client tunnel: Serve called before Bind")))
  | Some l =>
      ret (Accepting l (accept_error "tcp client tunnel: ")
        (fun conn => match raddr conf with
                     | Some ap => tcpClientForward vt ap conn
                     | None => ret tt
                     end))
  end.
Definition TCPClient_Close (conf : t) : M (t * close_result) :=
  let conf := mk (BindAddress conf) (Target conf) (listener conf) (raddr conf) true in
  let! err := closeListener (interface_field (listener conf)) in
  ret (conf, err).
#[export] Instance TCPClient_Routine : Routine t :=
  {| Bind := TCPClient_Bind; Serve := TCPClient_Serve; Close := TCPClient_Close |}.
End TCPClient.

Section STDIO.
Import STDIOTunnelConfig.
Definition STDIO_Bind (conf : t) : M (t * option error) :=
  match parseAddressPort (Target conf) with
  | Err err =>
      ret (conf, Some (Errorf_w ("stdio tunnel: bad target " +:+ Quote (Target conf) +:+ ": ") err))
  | Ok ap => ret (mk (Target conf) (Input conf) (Output conf) (Some ap), None)
  end.
Definition STDIO_Serve (vt : VirtualTun.t) (conf : t) : M serving :=
  match raddr conf with
  | None => ret (Returned (Some (errorString "stdio tunnel: Serve called before Bind")))
  | Some ap => let! _ := perform (OGo StdioForward) in ret (Returned None)
  end.
Definition STDIO_Close (conf : t) : M (t * close_result) := ret (conf, Returns None).
#[export] Instance STDIO_Routine : Routine t :=
  {| Bind := STDIO_Bind; Serve := STDIO_Serve; Close := STDIO_Close |}.
End STDIO.

Section TCPServer.
Import TCPServerTunnelConfig.
Definition TCPServer_Bind (conf : t) : M (t * option error) :=
  match parseAddressPort (Target conf) with
  | Err err =>
      ret (conf, Some (Errorf_w ("tcp server tunnel: bad target " +:+ Quote (Target conf) +:+ ": ") err))
  | Ok ap =>
      let conf := mk (ListenPort conf) (Target conf) (listener conf) (Some ap) (closed conf) in
      let! l := perform (OListenPort "tcp" (ListenPort conf)) in
      ret (bind_listener
        ("tcp server tunnel: cannot listen on WireGuard port " +:+ Itoa (ListenPort conf) +:+ ": ")
        (fun h => mk (ListenPort conf) (Target conf) (Some h) (raddr conf) (closed conf)) conf l)
  end.
Definition TCPServer_Serve (vt : VirtualTun.t) (conf : t) : M serving :=
  match listener conf with
  | None => ret (Returned (Some (errorString "tcp server tunnel: Serve called before Bind")))
  | Some l =>
      ret (Accepting l (accept_error "tcp server tunnel: ")
        (fun conn => match raddr conf with
                     | Some ap => tcpServerForward vt ap conn
                     | None => ret tt
                     end))
  end.
Definition TCPServer_Close (conf : t) : M (t * close_result) :=
  let conf := mk (ListenPort conf) (Target conf) (listener conf) (raddr conf) true in
  let! err := closeListener (interface_field (listener conf)) in
  ret (conf, err).
#[export] Instance TCPServer_Routine : Routine t :=
  {| Bind := TCPServer_Bind; Serve := TCPServer_Serve; Close := TCPServer_Close |}.
End TCPServer.

Section Socks5.
Import Socks5Config.
Definition set_socks5 (config : t) (l : option handle) (c : bool) : t :=
  mk (BindAddress config) (Username config) (Password config) (TunnelDomains config)
    (LogDomains config) l c.
Definition Socks5_Bind (config : t) : M (t * option error) :=
  let! l := perform (OListen Direct "tcp" (BindAddress config)) in
  ret (bind_listener ("socks5: cannot listen on " +:+ BindAddress config +:+ ": ")
    (fun h => set_socks5 config (Some h) (closed config)) config l).
Definition socks5_server_options (config : t) : socks5_options :=
  let methods :=
    if negb (bool_decide (Username config = ""))
    then UserPass (Username config) (Password config) else NoAuth in
  if bool_decide (length (TunnelDomains config) = 0) && negb (LogDomains config)
  then mkSocks5 methods DialTunnel TunnelResolver
  else
    let router := NewDomainRouter (TunnelDomains config) (LogDomains config) in
    mkSocks5 methods (DialRouted router) PassthroughResolver.
Definition Socks5_Serve (vt : VirtualTun.t) (config : t) : M serving :=
  match listener config with
  | None => ret (Returned (Some (errorString "socks5: Serve called before Bind")))
  | Some l =>
      ret (Accepting l
        (fun closed err => wrap_serve "socks5: " closed (socks5_Serve_error err))
        (socks5_ServeConn (socks5_server_options config)))
  end.
Definition Socks5_Close (config : t) : M (t * close_result) :=
  let config := set_socks5 config (listener config) true in
  let! err := closeListener (interface_field (listener config)) in
  ret (config, err).
#[export] Instance Socks5_Routine : Routine t :=
  {| Bind := Socks5_Bind; Serve := Socks5_Serve; Close := Socks5_Close |}.
End Socks5.

Section HTTP.
Import HTTPConfig.
Definition set_http (config : t) (l : option handle) (c : bool) : t :=
  mk (BindAddress config) (Username config) (Password config) (CertFile config)
    (KeyFile config) (TunnelDomains config) (LogDomains config) l c.
Definition HTTP_Bind (config : t) : M (t * option error) :=
  let finish l :=
    ret (bind_listener ("http proxy: cannot listen on " +:+ BindAddress config +:+ ": ")
      (fun h => set_http config (Some h) (closed config)) config l) in
  if negb (bool_decide (CertFile config = "")) && negb (bool_decide (KeyFile config = "")) then
    let! err := perform (OLoadX509KeyPair (CertFile config) (KeyFile config)) in
    match err with
    | Some err => ret (config, Some (Errorf_w "http proxy: cannot load certificate: " err))
    | None =>
        let! l := perform (OListenTLS "tcp" (BindAddress config) (CertFile config) (KeyFile config)) in
        finish l
    end
  else
    let! l := perform (OListen Direct "tcp" (BindAddress config)) in
    finish l.
Definition http_server (config : t) : HTTPServer :=
  let router := NewDomainRouter (TunnelDomains config) (LogDomains config) in
  let authRequired :=
    negb (bool_decide (Username config = "")) || negb (bool_decide (Password config = "")) in
  mkServer config (mkCred (Username config) (Password config)) (RoutedDial router) authRequired false.
Definition HTTP_Serve (vt : VirtualTun.t) (config : t) : M serving :=
  match listener config with
  | None => ret (Returned (Some (errorString "http proxy: Serve called before Bind")))
  | Some l =>
      match HTTPServer_Serve (http_server config) l with
      | Accepting l on_error handler =>
          ret (Accepting l
            (fun closed err => wrap_serve "http proxy: " closed (on_error closed err)) handler)
      | other => ret other
      end
  end.
Definition HTTP_Close (config : t) : M (t * close_result) :=
  let config := set_http config (listener config) true in
  let! err := closeListener (interface_field (listener config)) in
  ret (config, err).
#[export] Instance HTTP_Routine : Routine t :=
  {| Bind := HTTP_Bind; Serve := HTTP_Serve; Close := HTTP_Close |}.
End HTTP.

Section SNI.
Import SNIConfig.
Definition set_sni (config : t) (l : option handle) (c : bool) : t :=
  mk (BindAddress config) (TunnelDomains config) (LogDomains config) l c.
Definition SNI_Bind (config : t) : M (t * option error) :=
  let! l := perform (OListen Direct "tcp" (BindAddress config)) in
  ret (bind_listener ("sni proxy: cannot listen on " +:+ BindAddress config +:+ ": ")
    (fun h => set_sni config (Some h) (closed config)) config l).
Definition SNI_Serve (vt : VirtualTun.t) (config : t) : M serving :=
  match listener config with
  | None => ret (Returned (Some (errorString "sni proxy: Serve called before Bind")))
  | Some l =>
      let router := NewDomainRouter (TunnelDomains config) (LogDomains config) in
      let dial := RoutedDial router in
      ret (Accepting l (accept_error "sni proxy: ") (sniServe dial))
  end.
Definition SNI_Close (config : t) : M (t * close_result) :=
  let config := set_sni config (listener config) true in
  let! err := closeListener (interface_field (listener config)) in
  ret (config, err).
#[export] Instance SNI_Routine : Routine t :=
  {| Bind := SNI_Bind; Serve := SNI_Serve; Close := SNI_Close |}.
End SNI.

(** [select { case <-done: default: close(done) }], when [done] is not nil. *)
Definition close_done_channel (done : option chan_state) : option chan_state :=
  match done with
  | None => None
  | Some ChanClosed => Some ChanClosed
  | Some ChanOpen => Some ChanClosed
  end.

Section UDPServer.
Import UDPServerTunnelConfig.
Definition UDPServer_Bind (conf : t) : M (t * option error) :=
  let! target := perform (OResolveUDPAddr "udp" (Target conf)) in
  match target with
  | Err err =>
      ret (conf, Some (Errorf_w ("udp server tunnel: cannot resolve target " +:+ Target conf +:+ ": ") err))
  | Ok addr =>
      let conf := mk (ListenPort conf) (Target conf) (InactivityTimeout conf) (listener conf)
                    (Some addr) (done conf) (closed conf) in
      let! l := perform (OListenPort "udp" (ListenPort conf)) in
      ret (bind_listener
        ("udp server tunnel: cannot listen on WireGuard port " +:+ Itoa (ListenPort conf) +:+ ": ")
        (fun h => mk (ListenPort conf) (Target conf) (InactivityTimeout conf) (Some h)
                    (targetAddr conf) (Some ChanOpen) (closed conf)) conf l)
  end.
Definition UDPServer_Serve (vt : VirtualTun.t) (conf : t) : M serving :=
  match listener conf with
  | None => ret (Returned (Some (errorString "udp server tunnel: Serve called before Bind")))
  | Some l => ret (ReadLoop l)
  end.
Definition UDPServer_Close (conf : t) : M (t * close_result) :=
  let conf := mk (ListenPort conf) (Target conf) (InactivityTimeout conf) (listener conf)
                (targetAddr conf) (close_done_channel (done conf)) true in
  let! err := closeListener (interface_field (listener conf)) in
  ret (conf, err).
#[export] Instance UDPServer_Routine : Routine t :=
  {| Bind := UDPServer_Bind; Serve := UDPServer_Serve; Close := UDPServer_Close |}.
End UDPServer.

Section UDPProxy.
Import UDPProxyTunnelConfig.
Definition UDPProxy_Bind (conf : t) : M (t * option error) :=
  let! addr := perform (OResolveUDPAddr "udp" (BindAddress conf)) in
  match addr with
  | Err err =>
      ret (conf, Some (Errorf_w ("udp proxy: could not resolve bind address " +:+
                                 BindAddress conf +:+ ": ") err))
  | Ok addr =>
      let! l := perform (OListen Direct "udp" addr) in
      ret (bind_listener ("udp proxy: could not listen on " +:+ BindAddress conf +:+ ": ")
        (fun h => mk (BindAddress conf) (Target conf) (InactivityTimeout conf) (Some h)
                    (Some ChanOpen) (closed conf)) conf l)
  end.
Definition UDPProxy_Serve (vt : VirtualTun.t) (conf : t) : M serving :=
  match listener conf with
  | None => ret (Returned (Some (errorString "udp proxy: Serve called before Bind")))
  | Some l => ret (ReadLoop l)
  end.
(** The field is a [*net.UDPConn], so [closeListener] gets a non-nil closer. *)
Definition UDPProxy_Close (conf : t) : M (t * close_result) :=
  let conf := mk (BindAddress conf) (Target conf) (InactivityTimeout conf) (listener conf)
                (close_done_channel (done conf)) true in
  let! err := closeListener (pointer_field (listener conf)) in
  ret (conf, err).
#[export] Instance UDPProxy_Routine : Routine t :=
  {| Bind := UDPProxy_Bind; Serve := UDPProxy_Serve; Close := UDPProxy_Close |}.
End UDPProxy.

(** Method calls on an interface value: dispatch on the dynamic type; the
    pointer receiver keeps the updated structure. *)
Definition rewrap {C R} (wrap : C -> RoutineSpawner) (m : M (C * R)) : M (RoutineSpawner * R) :=
  let! (c, err) := m in ret (wrap c, err).

#[export] Instance RoutineSpawner_Routine : Routine RoutineSpawner := {|
  Bind r :=
    match r with
    | TCPClientTunnel c => rewrap TCPClientTunnel (Bind c)
    | STDIOTunnel c => rewrap STDIOTunnel (Bind c)
    | TCPServerTunnel c => rewrap TCPServerTunnel (Bind c)
    | Socks5 c => rewrap Socks5 (Bind c)
    | HTTP c => rewrap HTTP (Bind c)
    | SNI c => rewrap SNI (Bind c)
    | UDPServerTunnel c => rewrap UDPServerTunnel (Bind c)
    | UDPProxyTunnel c => rewrap UDPProxyTunnel (Bind c)
    end;
  Serve vt r :=
    match r with
    | TCPClientTunnel c => Serve vt c
    | STDIOTunnel c => Serve vt c
    | TCPServerTunnel c => Serve vt c
    | Socks5 c => Serve vt c
    | HTTP c => Serve vt c
    | SNI c => Serve vt c
    | UDPServerTunnel c => Serve vt c
    | UDPProxyTunnel c => Serve vt c
    end;
  Close r :=
    match r with
    | TCPClientTunnel c => rewrap TCPClientTunnel (Close c)
    | STDIOTunnel c => rewrap STDIOTunnel (Close c)
    | TCPServerTunnel c => rewrap TCPServerTunnel (Close c)
    | Socks5 c => rewrap Socks5 (Close c)
    | HTTP c => rewrap HTTP (Close c)
    | SNI c => rewrap SNI (Close c)
    | UDPServerTunnel c => rewrap UDPServerTunnel (Close c)
    | UDPProxyTunnel c => rewrap UDPProxyTunnel (Close c)
    end
|}.
End routines.

(** ** Observations *)
Section observations.
Context `{RL : RegexpLib}.
Implicit Types r : RoutineSpawner.

Definition listener_of r : option handle :=
  match r with
  | TCPClientTunnel c => TCPClientTunnelConfig.listener c
  | STDIOTunnel _ => None
  | TCPServerTunnel c => TCPServerTunnelConfig.listener c
  | Socks5 c => Socks5Config.listener c
  | HTTP c => HTTPConfig.listener c
  | SNI c => SNIConfig.listener c
  | UDPServerTunnel c => UDPServerTunnelConfig.listener c
  | UDPProxyTunnel c => UDPProxyTunnelConfig.listener c
  end.

Definition closed_of r : bool :=
  match r with
  | TCPClientTunnel c => TCPClientTunnelConfig.closed c
  | STDIOTunnel _ => true
  | TCPServerTunnel c => TCPServerTunnelConfig.closed c
  | Socks5 c => Socks5Config.closed c
  | HTTP c => HTTPConfig.closed c
  | SNI c => SNIConfig.closed c
  | UDPServerTunnel c => UDPServerTunnelConfig.closed c
  | UDPProxyTunnel c => UDPProxyTunnelConfig.closed c
  end.

Definition done_of r : option chan_state :=
  match r with
  | UDPServerTunnel c => UDPServerTunnelConfig.done c
  | UDPProxyTunnel c => UDPProxyTunnelConfig.done c
  | _ => None
  end.

Definition is_STDIO r : bool := match r with STDIOTunnel _ => true | _ => false end.
Definition is_UDPProxy r : bool := match r with UDPProxyTunnel _ => true | _ => false end.

(** No pointer [Serve] or its handlers dereference is nil once there is a
    listener. *)
Definition nil_safe r : Prop :=
  match r with
  | TCPClientTunnel c => TCPClientTunnelConfig.listener c <> None -> TCPClientTunnelConfig.raddr c <> None
  | TCPServerTunnel c => TCPServerTunnelConfig.listener c <> None -> TCPServerTunnelConfig.raddr c <> None
  | UDPServerTunnel c => UDPServerTunnelConfig.listener c <> None ->
      UDPServerTunnelConfig.targetAddr c <> None /\ UDPServerTunnelConfig.done c <> None
  | UDPProxyTunnel c => UDPProxyTunnelConfig.listener c <> None -> UDPProxyTunnelConfig.done c <> None
  | STDIOTunnel _ | Socks5 _ | HTTP _ | SNI _ => True
  end.
(** The configuration of a routine, which no operation may change. *)
Definition same_kind r r' : Prop :=
  match r, r' with
  | TCPClientTunnel c, TCPClientTunnel c' => TCPClientTunnelConfig.Target c = TCPClientTunnelConfig.Target c' /\
      TCPClientTunnelConfig.BindAddress c = TCPClientTunnelConfig.BindAddress c'
  | STDIOTunnel c, STDIOTunnel c' => STDIOTunnelConfig.mk (STDIOTunnelConfig.Target c)
        (STDIOTunnelConfig.Input c) (STDIOTunnelConfig.Output c) (STDIOTunnelConfig.raddr c') = c'
  | TCPServerTunnel c, TCPServerTunnel c' => TCPServerTunnelConfig.Target c = TCPServerTunnelConfig.Target c' /\
      TCPServerTunnelConfig.ListenPort c = TCPServerTunnelConfig.ListenPort c'
  | Socks5 c, Socks5 c' => Socks5Config.mk (Socks5Config.BindAddress c) (Socks5Config.Username c)
        (Socks5Config.Password c) (Socks5Config.TunnelDomains c) (Socks5Config.LogDomains c)
        (Socks5Config.listener c') (Socks5Config.closed c') = c'
  | HTTP c, HTTP c' => HTTPConfig.mk (HTTPConfig.BindAddress c) (HTTPConfig.Username c)
        (HTTPConfig.Password c) (HTTPConfig.CertFile c) (HTTPConfig.KeyFile c) (HTTPConfig.TunnelDomains c)
        (HTTPConfig.LogDomains c) (HTTPConfig.listener c') (HTTPConfig.closed c') = c'
  | SNI c, SNI c' => SNIConfig.mk (SNIConfig.BindAddress c) (SNIConfig.TunnelDomains c)
        (SNIConfig.LogDomains c) (SNIConfig.listener c') (SNIConfig.closed c') = c'
  | UDPServerTunnel c, UDPServerTunnel c' => UDPServerTunnelConfig.Target c = UDPServerTunnelConfig.Target c' /\
      UDPServerTunnelConfig.ListenPort c = UDPServerTunnelConfig.ListenPort c' /\
      UDPServerTunnelConfig.InactivityTimeout c = UDPServerTunnelConfig.InactivityTimeout c'
  | UDPProxyTunnel c, UDPProxyTunnel c' => UDPProxyTunnelConfig.Target c = UDPProxyTunnelConfig.Target c' /\
      UDPProxyTunnelConfig.BindAddress c = UDPProxyTunnelConfig.BindAddress c' /\
      UDPProxyTunnelConfig.InactivityTimeout c = UDPProxyTunnelConfig.InactivityTimeout c'
  | _, _ => False
  end.

(** The listen call the configuration asks for; [resolved] is the resolved
    bind address of a UDP proxy. *)
Definition listen_ops r (resolved : string) : trace :=
  match r with
  | TCPClientTunnel c => [OListenTCP (TCPClientTunnelConfig.BindAddress c)]
  | STDIOTunnel _ => []
  | TCPServerTunnel c => [OListenPort "tcp" (TCPServerTunnelConfig.ListenPort c)]
  | Socks5 c => [OListen Direct "tcp" (Socks5Config.BindAddress c)]
  | HTTP c =>
      let cert := HTTPConfig.CertFile c in
      let key := HTTPConfig.KeyFile c in
      if decide (cert <> "" /\ key <> "")
      then [OListenTLS "tcp" (HTTPConfig.BindAddress c) cert key]
      else [OListen Direct "tcp" (HTTPConfig.BindAddress c)]
  | SNI c => [OListen Direct "tcp" (SNIConfig.BindAddress c)]
  | UDPServerTunnel c => [OListenPort "udp" (UDPServerTunnelConfig.ListenPort c)]
  | UDPProxyTunnel c => [OListen Direct "udp" resolved]
  end.

(** What comes before it: the certificate of an HTTP proxy with TLS, and the
    resolution of the target of a UDP server tunnel or of the bind address of a
    UDP proxy. *)
Definition prepare_ops r : trace :=
  match r with
  | HTTP c =>
      let cert := HTTPConfig.CertFile c in
      let key := HTTPConfig.KeyFile c in
      if decide (cert <> "" /\ key <> "") then [OLoadX509KeyPair cert key] else []
  | UDPServerTunnel c => [OResolveUDPAddr "udp" (UDPServerTunnelConfig.Target c)]
  | UDPProxyTunnel c => [OResolveUDPAddr "udp" (UDPProxyTunnelConfig.BindAddress c)]
  | _ => []
  end.
Definition prepares (o : op) : bool :=
  match o with OResolveUDPAddr _ _ | OLoadX509KeyPair _ _ => true | _ => false end.

Context `{E : Environment}.

(** The answer to that resolution, after [tr]; nothing is resolved otherwise. *)
Definition resolution (tr : trace) r : result string :=
  match r with
  | UDPServerTunnel c => answer tr (OResolveUDPAddr "udp" (UDPServerTunnelConfig.Target c))
  | UDPProxyTunnel c => answer tr (OResolveUDPAddr "udp" (UDPProxyTunnelConfig.BindAddress c))
  | _ => Ok ""
  end.

(** What [Serve] reads besides the listener: the configured target, parsed or
    resolved, and an open [done] channel. *)
Definition ready_to_serve r r' (resolved : string) : Prop :=
  match r, r' with
  | TCPClientTunnel c, TCPClientTunnel c' => exists ap,
      parseAddressPort (TCPClientTunnelConfig.Target c) = Ok ap /\ TCPClientTunnelConfig.raddr c' = Some ap
  | STDIOTunnel c, STDIOTunnel c' => exists ap,
      parseAddressPort (STDIOTunnelConfig.Target c) = Ok ap /\ STDIOTunnelConfig.raddr c' = Some ap
  | TCPServerTunnel c, TCPServerTunnel c' => exists ap,
      parseAddressPort (TCPServerTunnelConfig.Target c) = Ok ap /\ TCPServerTunnelConfig.raddr c' = Some ap
  | UDPServerTunnel c, UDPServerTunnel c' =>
      UDPServerTunnelConfig.targetAddr c' = Some resolved /\ UDPServerTunnelConfig.done c' = Some ChanOpen
  | UDPProxyTunnel c, UDPProxyTunnel c' => UDPProxyTunnelConfig.done c' = Some ChanOpen
  | Socks5 _, Socks5 _ | HTTP _, HTTP _ | SNI _, SNI _ => True
  | _, _ => False
  end.

Definition listen_result (tr : trace) (o : op) : option handle :=
  let get (a : result handle) := match a with Ok h => Some h | Err _ => None end in
  match o with
  | OListen a b c => get (answer tr (OListen a b c))
  | OListenTCP a => get (answer tr (OListenTCP a))
  | OListenPort a b => get (answer tr (OListenPort a b))
  | OListenTLS a b c d => get (answer tr (OListenTLS a b c d))
  | _ => None
  end.
End observations.

Section properties.
Context `{UT : UnicodeTables, RL : RegexpLib, E : Environment} {TL : TlsLib} {SL : Socks5Lib}.
Implicit Types r : RoutineSpawner.

(** [Bind] only resolves, loads and listens. *)
Definition is_listen (o : op) : bool :=
  match o with
  | OListen _ _ _ | OListenTCP _ | OListenPort _ _ | OListenTLS _ _ _ _ => true
  | _ => false
  end.
Lemma Bind_does r : does (fun o => prepares o || is_listen o) (Bind r).
Proof.
  destruct r as [c|c|c|c|c|c|c|c]; simpl; unfold rewrap;
    unfold TCPClient_Bind, STDIO_Bind, TCPServer_Bind, Socks5_Bind, HTTP_Bind, SNI_Bind,
      UDPServer_Bind, UDPProxy_Bind, bind_listener; does_auto.
Qed.

(** A [Bind] up to its listen call. *)
Ltac listen_case :=
  cbn;
  lazymatch goal with
  | |- context [answer ?tr ?o] =>
      let Ha := fresh "Ha" in destruct (answer tr o) as [h|e] eqn:Ha; cbn; rewrite <- ?(assoc_L (++));
      [split; [eauto|split; [done|]];
       intros o' ->%list_elem_of_singleton; cbn; rewrite ?app_nil_r, Ha; eauto
      |by split]
  end.

(** C21: [Bind] performs exactly the operations its configuration asks for: it
    first loads the certificate (an HTTP proxy with both files) or resolves the
    configured address (the target of a UDP server tunnel, the bind address of
    a UDP proxy), then makes its one listen call, for a UDP proxy on the address
    that resolution answered, on the tunnel for the server tunnels, and none for
    STDIO.  If it succeeds, the listener stored is the one that call returned
    and the target [Serve] uses is the configured one, parsed or resolved; if
    it fails it has done an initial part of the same operations and stores no
    listener, so [Serve] refuses to run. *)
Theorem Bind_listens_as_configured r tr :
  let r' := fst (fst (Bind r tr)) in
  match snd (fst (Bind r tr)), resolution tr r with
  | None, Ok resolved =>
      ready_to_serve r r' resolved /\
      snd (Bind r tr) = tr ++ prepare_ops r ++ listen_ops r resolved /\
      (forall o, o ∈ listen_ops r resolved ->
         is_Some (listen_result (tr ++ prepare_ops r) o) /\
         listener_of r' = listen_result (tr ++ prepare_ops r) o)
  | None, Err _ => False
  | Some _, Ok resolved =>
      listener_of r' = listener_of r /\
      snd (Bind r tr) `prefix_of` tr ++ prepare_ops r ++ listen_ops r resolved
  | Some _, Err _ => listener_of r' = listener_of r /\ snd (Bind r tr) = tr ++ prepare_ops r
  end.
Proof.
  destruct r as [c|c|c|c|c|c|c|c]; simpl; unfold rewrap;
    unfold TCPClient_Bind, STDIO_Bind, TCPServer_Bind, Socks5_Bind, HTTP_Bind, SNI_Bind,
      UDPServer_Bind, UDPProxy_Bind.
  - destruct (parseAddressPort _) as [ap|e] eqn:Hp; [run_M; listen_case|].
    split; [done|]. by apply prefix_app_r.
  - destruct (parseAddressPort _) as [ap|e] eqn:Hp; cbn; [|by rewrite app_nil_r].
    split_and!; [by exists ap|by rewrite app_nil_r|]. by intros o ?%not_elem_of_nil.
  - destruct (parseAddressPort _) as [ap|e] eqn:Hp; [run_M; listen_case|].
    split; [done|]. by apply prefix_app_r.
  - run_M. listen_case.
  - destruct (decide (HTTPConfig.CertFile c = "")) as [Hc|Hc];
      [|destruct (decide (HTTPConfig.KeyFile c = "")) as [Hk|Hk]].
    + rewrite (bool_decide_eq_true_2 _ Hc), !decide_False by naive_solver. cbn [negb andb].
      run_M. listen_case.
    + rewrite (bool_decide_eq_true_2 _ Hk), andb_false_r, !decide_False by naive_solver.
      run_M. listen_case.
    + rewrite !bool_decide_eq_false_2, !decide_True by done. cbn [negb andb]. run_M.
      destruct (answer tr (OLoadX509KeyPair _ _)) as [e|]; [|listen_case].
      split; [done|]. cbn. by apply prefix_app, prefix_cons, prefix_nil.
  - run_M. listen_case.
  - run_M. destruct (answer tr (OResolveUDPAddr _ _)) as [a|e] eqn:Hr; [listen_case|done].
  - run_M. destruct (answer tr (OResolveUDPAddr _ _)) as [a|e] eqn:Hr; [listen_case|done].
Qed.

Lemma rewrap_close {C} (wrap : C -> RoutineSpawner) (c : C) k tr :
  rewrap wrap (let! err := closeListener k in ret (c, err)) tr =
  ((wrap c, fst (closeListener k tr)), snd (closeListener k tr)).
Proof. unfold rewrap. run_M. by destruct (closeListener k tr). Qed.

Lemma interface_closes (tr : trace) l :
  tr ++ match interface_field l with Closer h => [OClose h] | _ => [] end =
  tr ++ match l with Some h => [OClose h] | None => [] end.
Proof. by destruct l. Qed.
Lemma pointer_closes (tr : trace) l :
  tr ++ match pointer_field l with Closer h => [OClose h] | _ => [] end =
  tr ++ match l with Some h => [OClose h] | None => [] end.
Proof. by destruct l. Qed.

Lemma closeListener_again k tr h :
  k = Closer h -> (forall e, answer tr (OClose h) = Some e -> errors_Is_ErrClosed e = true) ->
  fst (closeListener k tr) = Returns None.
Proof.
  intros -> He. unfold closeListener. run_M. destruct (answer tr (OClose h)) as [e|]; [|done].
  by rewrite (He e).
Qed.
Lemma closeListener_returns k tr h :
  k = Closer h -> exists err, fst (closeListener k tr) = Returns err.
Proof.
  intros ->. destruct (fst (closeListener (Closer h) tr)) as [err|] eqn:Hr; [eauto|].
  by apply closeListener_panics in Hr.
Qed.

(** C29: [Close] of any routine marks it closed, closes its [done] channel and
    exactly its listener, and never reports a listener that was already
    closed; of a bound routine it always returns; closing again changes
    nothing more, and is silent when the listener says it is closed. *)
Theorem Close_releases_the_listener r tr :
  let r' := fst (fst (Close r tr)) in
  closed_of r' = true /\ listener_of r' = listener_of r /\ done_of r' <> Some ChanOpen /\
  snd (Close r tr) = tr ++ match listener_of r with Some h => [OClose h] | None => [] end /\
  (forall e, snd (fst (Close r tr)) = Returns (Some e) -> errors_Is_ErrClosed e = false) /\
  (is_Some (listener_of r) -> exists err, snd (fst (Close r tr)) = Returns err) /\
  (forall tr', fst (fst (Close r' tr')) = r' /\
     (forall h e, listener_of r = Some h -> answer tr' (OClose h) = Some e ->
        errors_Is_ErrClosed e = true -> snd (fst (Close r' tr')) = Returns None)).
Proof.
  assert (forall done, close_done_channel done <> Some ChanOpen) as Hd by (by intros [[]|]).
  assert (forall done, close_done_channel (close_done_channel done) = close_done_channel done)
    as Hdd by (by intros [[]|]).
  destruct r as [c|c|c|c|c|c|c|c];
    cbn [Close RoutineSpawner_Routine TCPClient_Routine STDIO_Routine TCPServer_Routine
      Socks5_Routine HTTP_Routine SNI_Routine UDPServer_Routine UDPProxy_Routine];
    unfold TCPClient_Close, STDIO_Close, TCPServer_Close, Socks5_Close, HTTP_Close, SNI_Close,
      UDPServer_Close, UDPProxy_Close.
  2:{ cbn. by rewrite app_nil_r. }
  all: rewrite rewrap_close; cbn [fst snd]; rewrite closeListener_effects; cbn; split_and!;
    try done; try apply interface_closes; try apply pointer_closes;
    try apply closeListener_result;
    try (intros [h ->]; by eapply closeListener_returns); intros tr';
    cbn [Close RoutineSpawner_Routine TCPClient_Routine STDIO_Routine TCPServer_Routine
      Socks5_Routine HTTP_Routine SNI_Routine UDPServer_Routine UDPProxy_Routine];
    unfold TCPClient_Close, STDIO_Close, TCPServer_Close, Socks5_Close, HTTP_Close, SNI_Close,
      UDPServer_Close, UDPProxy_Close;
    rewrite rewrap_close; cbn; rewrite ?Hdd; (split; [done|]);
    intros h e Hl Ha He; eapply closeListener_again; [by rewrite Hl|];
    intros e' He'; congruence.
Qed.

Lemma Bind_wf r tr :
  same_kind r (fst (fst (Bind r tr))) /\ (nil_safe r -> nil_safe (fst (fst (Bind r tr)))).
Proof.
  destruct r as [[]|[]|[]|[]|[]|[]|[]|[]]; cbn; unfold rewrap;
    unfold TCPClient_Bind, STDIO_Bind, TCPServer_Bind, Socks5_Bind, HTTP_Bind, SNI_Bind,
      UDPServer_Bind, UDPProxy_Bind, bind_listener; run_M; cbn;
    repeat (case_match; simplify_eq/=); intuition done.
Qed.
Lemma close_keeps {C} (c : C) k tr : fst (fst ((let! err := closeListener k in ret (c, err)) tr)) = c.
Proof. unfold bind. by destruct (closeListener k tr). Qed.
Lemma close_done_None d : close_done_channel d = None -> d = None.
Proof. by destruct d as [[]|]. Qed.
Lemma Close_wf r tr :
  same_kind r (fst (fst (Close r tr))) /\ listener_of (fst (fst (Close r tr))) = listener_of r /\
  (nil_safe r -> nil_safe (fst (fst (Close r tr)))).
Proof.
  assert (forall C (wrap : C -> RoutineSpawner) (m : M (C * close_result)),
    fst (fst (rewrap wrap m tr)) = wrap (fst (fst (m tr)))) as Hw.
  { intros C wrap m. unfold rewrap, bind. by destruct (m tr) as [[] ?]. }
  destruct r as [[]|[]|[]|[]|[]|[]|[]|[]]; cbn [Close RoutineSpawner_Routine]; rewrite Hw;
    cbn [Close TCPClient_Routine STDIO_Routine TCPServer_Routine Socks5_Routine HTTP_Routine SNI_Routine
      UDPServer_Routine UDPProxy_Routine];
    unfold TCPClient_Close, STDIO_Close, TCPServer_Close, Socks5_Close, HTTP_Close, SNI_Close,
      UDPServer_Close, UDPProxy_Close; cbv zeta; rewrite ?close_keeps; cbn;
    repeat (case_match; simplify_eq/=); intuition (eauto using close_done_None).
Qed.

(** C22: routines stay well formed: a routine that is not bound yet is nil-safe,
    and every [Bind], succeeding or failing, and every [Close], in any order and
    number, keeps it so, keeps its dynamic type and every configured field, and
    only [Bind] ever sets a listener; so no [Serve] or handler meets a nil
    target, address or channel. *)
Theorem routines_stay_well_formed r tr :
  (listener_of r = None -> nil_safe r) /\
  let bound := fst (fst (Bind r tr)) in
  let stopped := fst (fst (Close r tr)) in
  same_kind r bound /\ same_kind r stopped /\ listener_of stopped = listener_of r /\
  (nil_safe r -> nil_safe bound /\ nil_safe stopped).
Proof.
  cbv zeta. destruct (Bind_wf r tr) as [H1 H2], (Close_wf r tr) as (H3 & H4 & H5).
  split_and!; auto. destruct r as [c|c|c|c|c|c|c|c]; simpl; intros Hl; intuition congruence.
Qed.

(** C30: [Serve] before [Bind] is an error and does nothing; with a listener it
    serves on exactly that listener. *)
Theorem Serve_needs_Bind vt r tr (Hstdio : is_STDIO r = false) :
  snd (Serve vt r tr) = tr /\
  match listener_of r with
  | None => exists msg, fst (Serve vt r tr) = Returned (Some (errorString msg)) /\
              HasSuffix msg ": Serve called before Bind" = true
  | Some h => fst (Serve vt r tr) = ReadLoop h \/
              exists on_error handler, fst (Serve vt r tr) = Accepting h on_error handler
  end.
Proof.
  destruct r as [c|c|c|c|c|c|c|c]; try done; simpl;
    unfold TCPClient_Serve, TCPServer_Serve, Socks5_Serve, HTTP_Serve, SNI_Serve,
      UDPServer_Serve, UDPProxy_Serve;
    cbn; case_match; cbn; (split; [done|]); eauto; (eexists; split; [reflexivity|done]).
Qed.
End properties.

(** ** The accept loop against callers of [Close]

    A caller of [Close] first marks the routine closed, then closes the
    listener; the loop accepts, or fails to. *)
Section accept_loop.
Variable on_error : bool -> error -> option error.

Inductive closer_pc := CMarked | CReturned.

Record accept_state := mkAccept {
  result_of : option (option error);     (* [None] while [Serve] runs *)
  marked : bool;
  listening : bool;
  handling : list handle;                (* connections handed to a goroutine *)
  callers : gmap nat closer_pc
}.

Definition accept_init : accept_state := mkAccept None false true [] ∅.

Inductive accept_label :=
  | Accept (conn : handle)
  | AcceptErr (err : error)
  | MarkClosed (c : nat)
  | CloseListener (c : nat).

Definition accept_step (l : accept_label) (s : accept_state) : option accept_state :=
  match l with
  | Accept conn =>
      if listening s && bool_decide (result_of s = None)
      then Some (mkAccept None (marked s) (listening s) (handling s ++ [conn]) (callers s))
      else None
  | AcceptErr err =>
      if bool_decide (result_of s = None)
      then Some (mkAccept (Some (on_error (marked s) err)) (marked s) (listening s)
                   (handling s) (callers s))
      else None
  | MarkClosed c =>
      match callers s !! c with
      | None => Some (mkAccept (result_of s) true (listening s) (handling s)
                        (<[c := CMarked]> (callers s)))
      | Some _ => None
      end
  | CloseListener c =>
      match callers s !! c with
      | Some CMarked => Some (mkAccept (result_of s) (marked s) false (handling s)
                                (<[c := CReturned]> (callers s)))
      | _ => None
      end
  end.

(** A listener is only ever closed after the mark. *)
Lemma marked_first s :
  reachable accept_step accept_init s ->
  (listening s = false \/ (exists c : nat, is_Some (callers s !! c)) -> marked s = true).
Proof.
  apply (reachable_invariant accept_step (fun s =>
    listening s = false \/ (exists c : nat, is_Some (callers s !! c)) -> marked s = true)).
  - intros [|[c [x Hx]]]; simplify_map_eq.
  - intros l s1 s2 Hi. destruct l as [h|e|c|c]; cbn.
    + destruct (_ && _); [|done]. by intros [= <-].
    + case_bool_decide; [|done]. by intros [= <-].
    + destruct (callers s1 !! c); [done|]. by intros [= <-].
    + destruct (callers s1 !! c) as [[]|] eqn:Hc; [|done..]. intros [= <-] _. cbn.
      apply Hi. right. eauto.
Qed.
End accept_loop.

Section serving_properties.
Context `{UT : UnicodeTables, RL : RegexpLib, E : Environment} {TL : TlsLib} {SL : Socks5Lib}.
Implicit Types r : RoutineSpawner.

(** Every accept loop of the program: silent once marked, and loud before. *)
Lemma Serve_policy vt r tr l on_error handler :
  fst (Serve vt r tr) = Accepting l on_error handler ->
  (forall err, on_error true err = None) /\
  (forall err, errors_Is_ErrClosed err = true -> on_error false err = None) /\
  (forall err, errors_Is_ErrClosed err = false ->
     exists msg, on_error false err = Some (wrapError msg err) \/
       exists msg', on_error false err = Some (wrapError msg (wrapError msg' err))).
Proof.
  destruct r as [c|c|c|c|c|c|c|c]; simpl;
    unfold TCPClient_Serve, STDIO_Serve, TCPServer_Serve, Socks5_Serve, HTTP_Serve, SNI_Serve,
      UDPServer_Serve, UDPProxy_Serve; cbn; case_match; cbn; try discriminate;
    intros [= <- <- <-]; unfold accept_error, wrap_serve, closedByUs, stopping; cbn;
    (split; [intros err|split; intros err Herr]);
    rewrite ?socks5_Serve_returns, ?Herr; cbn; rewrite ?Herr; eauto.
  by destruct (errors_Is_ErrClosed err).
Qed.

(** C7: in every interleaving of an accept loop (TCP client and server tunnels,
    SOCKS5, HTTP, SNI) with callers of [Close], the failure of [Accept] that
    closing the listener provokes makes [Serve] return nil, whatever error the
    listener reports, and no connection is accepted any more; while nobody
    called [Close], an error that is not [net.ErrClosed] is returned, wrapping
    the original. *)
Theorem Serve_tells_shutdown_from_fault vt r tr l on_error handler s s' err
    (Hserve : fst (Serve vt r tr) = Accepting l on_error handler)
    (Hreach : reachable (accept_step on_error) accept_init s)
    (Hstep : accept_step on_error (AcceptErr err) s = Some s') :
  (listening s = false ->
     result_of s' = Some None /\ forall conn, accept_step on_error (Accept conn) s = None) /\
  (marked s = false -> errors_Is_ErrClosed err = false ->
     exists msg, result_of s' = Some (Some (wrapError msg err)) \/
       exists msg', result_of s' = Some (Some (wrapError msg (wrapError msg' err)))).
Proof.
  destruct (Serve_policy _ _ _ _ _ _ Hserve) as (Hquiet & _ & Hloud).
  cbn in Hstep. case_bool_decide; [|done]. injection Hstep as <-. cbn. split.
  - intros Hl. rewrite (marked_first on_error s Hreach) by auto. rewrite Hquiet.
    split; [done|]. intros conn. by rewrite Hl.
  - intros -> Herr. destruct (Hloud err Herr) as (msg & [->|[msg' ->]]); eauto.
Qed.

(** [Close] before [Bind] is silent for every routine but the UDP proxy,
    whose listener field has a concrete pointer type: its nil pointer becomes
    a non-nil interface, passes the guard and is dereferenced. *)
Theorem Close_before_Bind r tr (Hunbound : listener_of r = None) :
  snd (Close r tr) = tr /\
  snd (fst (Close r tr)) = if is_UDPProxy r then NilDereference else Returns None.
Proof.
  destruct r as [c|c|c|c|c|c|c|c]; simpl in *;
    unfold TCPClient_Close, STDIO_Close, TCPServer_Close, Socks5_Close, HTTP_Close, SNI_Close,
      UDPServer_Close, UDPProxy_Close, closeListener; cbn; rewrite ?Hunbound; by cbn.
Qed.

(** Who must authenticate: the HTTP proxy as soon as a user name or a
    password is configured, the SOCKS5 proxy only when a user name is (a
    password alone protects nothing); the credentials checked are the
    configured ones. *)
Theorem proxies_require_configured_credentials (h : HTTPConfig.t) (c : Socks5Config.t) :
  authRequired (http_server h) =
    negb (bool_decide (HTTPConfig.Username h = "" /\ HTTPConfig.Password h = "")) /\
  auth (http_server h) = mkCred (HTTPConfig.Username h) (HTTPConfig.Password h) /\
  authMethods (socks5_server_options c) =
    (if decide (Socks5Config.Username c = "") then NoAuth
     else UserPass (Socks5Config.Username c) (Socks5Config.Password c)).
Proof.
  split_and!.
  - cbn. repeat case_bool_decide; cbn; naive_solver.
  - done.
  - unfold socks5_server_options.
    destruct (decide (Socks5Config.Username c = "")) as [Hu|Hu];
      [rewrite (bool_decide_eq_true_2 _ Hu)|rewrite (bool_decide_eq_false_2 _ Hu)]; cbn zeta;
      by destruct (_ && _).
Qed.

(** C8: what becomes of an accepted connection: whatever routine accepted it (the
    SOCKS5 server apart, whose connections its library handles), the handler
    [Serve] starts for it begins either nothing, or, after it has dialled some
    [peer], exactly the two goroutines of a relay between the two connections:
    those of which [Relay] shows that they copy faithfully and wind down. *)
Theorem accepted_connections_are_relayed vt r tr l on_error handler conn :
  fst (Serve vt r tr) = Accepting l on_error handler ->
  (forall c, r <> Socks5 c) ->
  Relay.relays conn (handler conn).
Proof.
  intros Hs Hr. destruct (Relay.handlers_start_relays conn) as (H1 & H2 & H3 & H4).
  destruct r as [c|c|c|c|c|c|c|c]; cbn in Hs;
    unfold TCPClient_Serve, STDIO_Serve, TCPServer_Serve, HTTP_Serve, SNI_Serve,
      UDPServer_Serve, UDPProxy_Serve, HTTPServer_Serve in Hs; try (by destruct (Hr c)); run_M;
    repeat (case_match; simplify_eq/=); try done;
    first [apply H3|apply H4|by apply Relay.relays_quiet, (does_ret _ tt)].
Qed.

(** C38: the dialer and the resolver the SOCKS5 server is given follow the
    whitelist.  Without a whitelist and without logging they are those of the
    tunnel itself.  Otherwise names are passed on unresolved, and the dialer is
    [routedSocks5Dial]: called for an address and the requested name, it dials
    that address, once, on the side the whitelist decides for the name, or for
    the host of the address if no name was given; without a whitelist that is
    always the tunnel.  What the library does with the two, and what it serves
    without them, is not stated. *)
Theorem socks5_follows_whitelist (c : Socks5Config.t) network host port fqdn
    (Hhost : no_brackets host = true) (Hport : plain_port port = true) :
  let o := socks5_server_options c in
  let addr := JoinHostPort host port in
  let on := side_of (NewDomainRouter (Socks5Config.TunnelDomains c) (Socks5Config.LogDomains c))
    (if decide (fqdn = "") then host else fqdn) in
  (Socks5Config.TunnelDomains c = [] -> on = Tunnel) /\
  match socks5_dial o, socks5_resolve o with
  | DialTunnel, TunnelResolver =>
      Socks5Config.TunnelDomains c = [] /\ Socks5Config.LogDomains c = false
  | DialRouted router, PassthroughResolver =>
      (Socks5Config.TunnelDomains c <> [] \/ Socks5Config.LogDomains c = true) /\
      nolog (effects (routedSocks5Dial router network addr fqdn)) = [ODial on network addr]
  | _, _ => False
  end.
Proof.
  intros o addr on.
  assert (Socks5Config.TunnelDomains c = [] -> on = Tunnel) as Hon.
  { intros Ht. subst on. unfold side_of, NewDomainRouter. cbn. by rewrite Ht. }
  split; [done|].
  assert (nolog (effects (routedSocks5Dial
    (NewDomainRouter (Socks5Config.TunnelDomains c) (Socks5Config.LogDomains c)) network addr fqdn)) =
    [ODial on network addr]) as Hrouted.
  { unfold effects, routedSocks5Dial. subst on addr. rewrite hostFromAddr_Join by done.
    set (h := if bool_decide (fqdn = "") then host else fqdn).
    replace (if decide (fqdn = "") then host else fqdn) with h
      by (subst h; by case_bool_decide; case_decide).
    destruct (route_then_dial (NewDomainRouter (Socks5Config.TunnelDomains c) (Socks5Config.LogDomains c))
      h network (JoinHostPort host port) []) as (logs & Hlogs & ->).
    cbn [snd]. rewrite !nolog_app, (nolog_logs logs) by done. done. }
  subst o. unfold socks5_server_options. case_bool_decide as Hl; cbn.
  - apply nil_length_inv in Hl. destruct (Socks5Config.LogDomains c); cbn; auto.
  - split; [left|done]. intros Ht. destruct Hl. by rewrite Ht.
Qed.
End serving_properties.

(** ** Witnesses *)
Module Sample.
Import Router.Sample.
#[export] Existing Instance Sni.Sample.tls.
Definition rl : RegexpLib := regexps.
#[export] Program Instance socks5 : Socks5Lib (H := regexps) :=
  {| socks5_ServeConn _ _ := ret tt; socks5_Serve_error := Some |}.
Next Obligation. done. Qed.

Definition vt : VirtualTun.t :=
  VirtualTun.mk false DeviceConfig.zero (ResolveConfig.mk "ipv4") ∅.
Definition sni (l : option handle) : RoutineSpawner (H := regexps) :=
  SNI (H := regexps) (SNIConfig.mk (H := regexps) "127.0.0.1:443" [] false l false).
Definition invalid_state : error := extError "endpoint is in invalid state" false.

Lemma Serve_needs_Bind_witness :
  exists msg, fst (Serve (Routine := RoutineSpawner_Routine (SL := socks5)) vt (sni None) []) = Returned (Some (errorString msg)) /\
    HasSuffix msg ": Serve called before Bind" = true.
Proof. apply (Serve_needs_Bind (SL := socks5) vt (sni None) [] eq_refl). Defined.

Definition tcp : RoutineSpawner (H := regexps) :=
  TCPClientTunnel (H := regexps) (TCPClientTunnelConfig.mk (mkTCPAddr "127.0.0.1" 25565) "play.example.com:25565" None None false).
Lemma routines_stay_well_formed_witness : nil_safe tcp.
Proof. apply (proj1 (routines_stay_well_formed (SL := socks5) tcp [])). reflexivity. Defined.

Lemma accepted_connections_witness :
  exists on_error handler,
    fst (Serve (Routine := RoutineSpawner_Routine (SL := socks5)) vt (sni (Some 7)) []) = Accepting 7 on_error handler /\
    Relay.relays 9 (handler 9).
Proof.
  eexists _, _. split; [reflexivity|].
  eapply (accepted_connections_are_relayed (SL := socks5) vt (sni (Some 7)) [] 7); [reflexivity|].
  intros c Hc. discriminate Hc.
Defined.

Definition sni_error : bool -> error -> option error := accept_error "sni proxy: ".
Definition closing : accept_state :=
  after (accept_step sni_error) accept_init [Accept 5; MarkClosed 1; CloseListener 1].

Lemma Serve_tells_shutdown_from_fault_witness :
  exists s', accept_step sni_error (AcceptErr invalid_state) closing = Some s' /\
    result_of s' = Some None.
Proof.
  eexists. split; [vm_compute; reflexivity|].
  eapply (Serve_tells_shutdown_from_fault (SL := socks5) vt (sni (Some 7)) [] 7 sni_error _
    closing _ invalid_state).
  - reflexivity.
  - apply (reachable_after (accept_step sni_error)).
  - vm_compute. reflexivity.
  - vm_compute. reflexivity.
Defined.

Lemma Close_before_Bind_witness :
  snd (fst (Close (Routine := RoutineSpawner_Routine (SL := socks5)) (sni None) [])) = Returns None /\
  snd (fst (Close (Routine := RoutineSpawner_Routine (SL := socks5))
    (UDPProxyTunnel (H := regexps) UDPProxyTunnelConfig.zero) [])) = NilDereference.
Proof.
  split.
  - apply (Close_before_Bind (SL := socks5) (sni None) [] eq_refl).
  - apply (Close_before_Bind (SL := socks5) (UDPProxyTunnel (H := regexps) UDPProxyTunnelConfig.zero)
      [] eq_refl).
Defined.

Definition socks : Socks5Config.t (H := regexps) :=
  Socks5Config.mk (H := regexps) "127.0.0.1:25344" "" "" ["example.com"] false None false.
Lemma socks5_follows_whitelist_witness :
  exists router, socks5_dial (socks5_server_options socks) = DialRouted router /\
    nolog (effects (routedSocks5Dial router "tcp" "10.1.1.1:443" "www.example.com")) =
      [ODial Tunnel "tcp" "10.1.1.1:443"].
Proof.
  eexists. split; [reflexivity|].
  destruct (socks5_follows_whitelist socks "tcp" "10.1.1.1" "443" "www.example.com" eq_refl eq_refl)
    as [_ [_ H]].
  exact H.
Defined.
End Sample.
