(* ===== verification/ClientBind.v ===== *)
(** * ClientBind: [clientbind/clientbind.go]

    [ClientOnlyBind], a [conn.Bind] of wireguard-go over one connected UDP
    socket.  The methods take the bind by pointer: they return the updated
    structure next to their result. *)

From S2P Require Import Prelude GoStr GoNet GoNetip Ini ConfigTypes World.

Record ClientOnlyBind := mkBind { peer : AddrPort; conn : option handle }.

(** [conn.ErrBindAlreadyOpen] of wireguard-go. *)
Definition ErrBindAlreadyOpen : error := extError "bind is already open" false.

Definition New (peer : AddrPort) : result ClientOnlyBind :=
  if negb (AddrPort_IsValid peer) then Err (errorString "clientbind: invalid peer endpoint")
  else Ok (mkBind peer None).

(** [ParseEndpoint]: the endpoint is the address itself ([StdNetEndpoint]). *)
Definition ParseEndpoint (b : ClientOnlyBind) (s : string) : result AddrPort :=
  match ParseAddrPort s with
  | Err err => Err err
  | Ok ap =>
      if negb (bool_decide (ap = peer b))
      then Err (errorString "clientbind: configured peer endpoint mismatch")
      else Ok ap
  end.

Definition SetMark (b : ClientOnlyBind) (mark : Z) : option error := None.
Definition BatchSize (b : ClientOnlyBind) : nat := 1.

Section bind.
Context `{E : Environment}.

(** The receive function [Open] returns: the captured socket and endpoint. *)
Record ReceiveFunc := mkRecv { recv_conn : handle; recv_ep : AddrPort }.

(** One packet: its bytes and the endpoint it is from. *)
Definition receive (f : ReceiveFunc) : M (result (string * AddrPort)) :=
  let! packet := perform (ORead (recv_conn f)) in
  match packet with
  | Err err => ret (Err err)
  | Ok packet => ret (Ok (packet, recv_ep f))
  end.

Definition bind_network (b : ClientOnlyBind) : string :=
  if Is6 (AddrPort_Addr (peer b)) && negb (Is4In6 (AddrPort_Addr (peer b))) then "udp6" else "udp4".

Definition Open (b : ClientOnlyBind) (port : Z)
    : M (ClientOnlyBind * result (list ReceiveFunc * Z)) :=
  match conn b with
  | Some _ => ret (b, Err ErrBindAlreadyOpen)
  | None =>
      let network := bind_network b in
      let! c := perform (ODialUDP network (peer b)) in
      match c with
      | Err err => ret (b, Err err)
      | Ok (c, local) =>
          let b := mkBind (peer b) (Some c) in
          let localPort := wrapu16 local in
          ret (b, Ok ([mkRecv c (peer b)], localPort))
      end
  end.

(** The loop of [Send]: stop at the first failing write. *)
Fixpoint write_all (c : handle) (bufs : list string) : M (option error) :=
  match bufs with
  | [] => ret None
  | p :: bufs' =>
      let! err := perform (OWrite c p) in
      match err with
      | Some err => ret (Some err)
      | None => write_all c bufs'
      end
  end.

Definition Send (b : ClientOnlyBind) (bufs : list string) (ep : AddrPort) : M (option error) :=
  match conn b with
  | None => ret (Some errClosed)
  | Some c => write_all c bufs
  end.

Definition Close (b : ClientOnlyBind) : M (ClientOnlyBind * option error) :=
  match conn b with
  | None => ret (b, None)
  | Some c =>
      let! err := perform (OClose c) in
      ret (mkBind (peer b) None, err)
  end.

(** ** Sequences of calls *)
Inductive call := CallOpen (port : Z) | CallSend (bufs : list string) (ep : AddrPort) | CallClose.

Definition do_call (b : ClientOnlyBind) (c : call) : M ClientOnlyBind :=
  match c with
  | CallOpen port => let! (b', _) := Open b port in ret b'
  | CallSend bufs ep => let! _ := Send b bufs ep in ret b
  | CallClose => let! (b', _) := Close b in ret b'
  end.
Fixpoint do_calls (b : ClientOnlyBind) (cs : list call) : M ClientOnlyBind :=
  match cs with
  | [] => ret b
  | c :: cs' => let! b' := do_call b c in do_calls b' cs'
  end.

(** The sockets a trace leaves open: what [ODialUDP] returned, less what
    [OClose] got, in order. *)
Fixpoint open_sockets (before new : trace) (acc : list handle) : list handle :=
  match new with
  | [] => acc
  | o :: new' =>
      let acc' :=
        match o with
        | ODialUDP n p =>
            match answer before (ODialUDP n p) with Ok (h, _) => h :: acc | Err _ => acc end
        | OClose h => List.filter (fun x => negb (bool_decide (x = h))) acc
        | _ => acc
        end in
      open_sockets (before ++ [o]) new' acc'
  end.

(** ** Lemmas *)
Lemma open_sockets_app before n1 n2 acc :
  open_sockets before (n1 ++ n2) acc = open_sockets (before ++ n1) n2 (open_sockets before n1 acc).
Proof.
  revert before acc; induction n1 as [|o n1 IH]; intros before acc; simpl.
  - by rewrite app_nil_r.
  - by rewrite IH, <- (assoc_L (++)).
Qed.

(** A write never opens or closes anything. *)
Lemma write_all_effects c bufs tr :
  exists sent, snd (write_all c bufs tr) = tr ++ (OWrite c <$> sent) /\
    sent `prefix_of` bufs /\
    (fst (write_all c bufs tr) = None -> sent = bufs).
Proof.
  revert tr; induction bufs as [|p bufs IH]; intros tr; cbn [write_all].
  - exists []. simpl. by rewrite app_nil_r.
  - run_M. destruct (answer tr (OWrite c p)) as [e|].
    + exists [p]. split; [done|]. split; [|done]. by apply prefix_cons, prefix_nil.
    + destruct (IH (tr ++ [OWrite c p])) as (sent & -> & Hp & Hall).
      exists (p :: sent). split; [by rewrite <- (assoc_L (++))|].
      split; [by apply prefix_cons|]. intros Hn. by rewrite Hall.
Qed.

Lemma open_sockets_writes before c sent acc :
  open_sockets before (OWrite c <$> sent) acc = acc.
Proof. revert before; induction sent as [|p sent IH]; intros before; simpl; [done|apply IH]. Qed.

Definition held (b : ClientOnlyBind) : list handle := option_list (conn b).

Lemma do_call_sockets b c tr :
  exists new, snd (do_call b c tr) = tr ++ new /\
    open_sockets tr new (held b) = held (fst (do_call b c tr)) /\
    peer (fst (do_call b c tr)) = peer b.
Proof.
  destruct c as [port|bufs ep|]; cbn [do_call]; unfold Open, Send, Close.
  - destruct b as [p [h|]]; cbn [conn]; run_M.
    + exists []. by rewrite app_nil_r.
    + destruct (answer tr (ODialUDP _ _)) as [[h l]|e] eqn:Ha; cbn [fst snd];
        (eexists; split; [reflexivity|]); simpl in *; by rewrite Ha.
  - destruct b as [p [h|]]; cbn [conn]; run_M.
    + destruct (write_all_effects h bufs tr) as (sent & Hs & _ & _).
      destruct (write_all h bufs tr) as [r tr']; simpl in *. subst.
      eexists. split; [reflexivity|]. by rewrite open_sockets_writes.
    + exists []. by rewrite app_nil_r.
  - destruct b as [p [h|]]; cbn [conn]; run_M; cbn [fst snd].
    + eexists. split; [reflexivity|]. simpl. by rewrite bool_decide_eq_true_2.
    + exists []. by rewrite app_nil_r.
Qed.

Lemma do_calls_sockets b cs tr :
  exists new, snd (do_calls b cs tr) = tr ++ new /\
    open_sockets tr new (held b) = held (fst (do_calls b cs tr)) /\
    peer (fst (do_calls b cs tr)) = peer b.
Proof.
  revert b tr; induction cs as [|c cs IH]; intros b tr; cbn [do_calls].
  - exists []. by rewrite app_nil_r.
  - unfold bind. destruct (do_call_sockets b c tr) as (n1 & H1 & H2 & H3).
    destruct (do_call b c tr) as [b1 tr1]; simpl in *. subst tr1.
    destruct (IH b1 (tr ++ n1)) as (n2 & -> & H5 & H6). exists (n1 ++ n2).
    split; [by rewrite (assoc_L (++))|]. by rewrite open_sockets_app, H2, H5, H6, H3.
Qed.
End bind.

Section properties.
Context `{E : Environment}.

(** C27: whatever sequence of [Open], [Send] and [Close] is called on a new
    bind, the sockets left open are exactly the one the bind holds, so a
    second [Open] never leaks one, [Close] always releases it, and the
    Close-then-Open cycle of the device works; the peer never changes. *)
Theorem bind_owns_its_socket p b cs (Hnew : New p = Ok b) :
  let b' := outcome (do_calls b cs) in
  open_sockets [] (effects (do_calls b cs)) [] = option_list (conn b') /\
  peer b' = p.
Proof.
  unfold New in Hnew. destruct (negb _); [done|]. injection Hnew as <-.
  destruct (do_calls_sockets (mkBind p None) cs []) as (new & Heff & Hs & Hp).
  split; [|exact Hp]. unfold effects. rewrite Heff. exact Hs.
Qed.

(** [Open] fails with [ErrBindAlreadyOpen] and does nothing on an open
    bind; otherwise it dials the configured peer once, over udp6 exactly for
    a genuine IPv6 address, and the single receive function reads that very
    socket and attributes every packet to the peer. *)
Theorem Open_dials_the_peer (b : ClientOnlyBind) (port : Z) tr :
  match conn b with
  | Some _ => Open b port tr = ((b, Err ErrBindAlreadyOpen), tr)
  | None =>
      let network :=
        if decide (Is6 (AddrPort_Addr (peer b)) = true /\ Is4In6 (AddrPort_Addr (peer b)) = false)
        then "udp6" else "udp4" in
      let o := ODialUDP network (peer b) in
      snd (Open b port tr) = tr ++ [o] /\
      match answer tr (ODialUDP network (peer b)) with
      | Err e => fst (Open b port tr) = (b, Err e)
      | Ok (h, local) =>
          fst (Open b port tr) = (mkBind (peer b) (Some h), Ok ([mkRecv h (peer b)], wrapu16 local))
      end
  end.
Proof.
  unfold Open. destruct (conn b) as [h|] eqn:Hc; [done|].
  assert (bind_network b = if decide (Is6 (AddrPort_Addr (peer b)) = true /\
    Is4In6 (AddrPort_Addr (peer b)) = false) then "udp6" else "udp4") as <-.
  { unfold bind_network. destruct (Is6 _), (Is4In6 _); done. }
  run_M. by destruct (answer tr (ODialUDP (bind_network b) (peer b))) as [[h l]|e].
Qed.

(** [Send] on a closed bind is [net.ErrClosed]; on an open one it writes
    the buffers in order to the bind's socket, stops at the first failure
    and reports it, and reports success only after writing all of them. *)
Theorem Send_writes_in_order (b : ClientOnlyBind) bufs ep tr :
  match conn b with
  | None => Send b bufs ep tr = (Some errClosed, tr)
  | Some h =>
      exists sent, snd (Send b bufs ep tr) = tr ++ (OWrite h <$> sent) /\
        sent `prefix_of` bufs /\ (fst (Send b bufs ep tr) = None -> sent = bufs)
  end.
Proof. unfold Send. destruct (conn b); [apply write_all_effects|done]. Qed.

(** The only endpoint the bind accepts is its peer. *)
Theorem ParseEndpoint_only_peer (b : ClientOnlyBind) s ap :
  ParseEndpoint b s = Ok ap <-> ParseAddrPort s = Ok ap /\ ap = peer b.
Proof.
  unfold ParseEndpoint. destruct (ParseAddrPort s) as [ap'|e]; [|split; [done|by intros []]].
  case_bool_decide as Hp; simpl; split.
  - intros [= <-]. done.
  - by intros [? _].
  - done.
  - by intros [[= ->] ->].
Qed.
End properties.

(** ** Witness *)
Lemma bind_owns_its_socket_witness :
  let p := mkAddrPort (Addr4 192 0 2 1) 51820 in
  exists b, New p = Ok b /\
    peer (outcome (do_calls (E := fun _ o => default_answer o) b [CallOpen 0; CallClose; CallOpen 0])) = p.
Proof.
  eexists. split; [reflexivity|].
  apply (bind_owns_its_socket (E := fun _ o => default_answer o) (mkAddrPort (Addr4 192 0 2 1) 51820)).
  reflexivity.
Defined.
