(* ===== verification/Wireguard.v ===== *)
(** * Wireguard: [wireguard.go]

    The device's configuration request, the choice of the bind, and the start
    of the device.  [heredoc.Doc] is third-party code: a class, with what it
    documents (common indentation removed) stated on the two literals used. *)

From S2P Require Import Prelude GoStr GoCodec GoNet GoNetip Ini ConfigTypes Config ConfigProps World.
From S2P Require Import ClientBind.

Definition nl : string := String "010" "".
Definition tabs (n : nat) : string := Nat.iter n (String "009") "".

(** ** [fmt.Fprintf] with the verbs used: [%s] of a string, [%d] of an integer *)
Inductive arg := AStr (s : string) | AInt (z : Z).

Fixpoint Sprintf (format : string) (args : list arg) : string :=
  match format with
  | String "%" (String "s" f) =>
      match args with
      | AStr s :: args' => s +:+ Sprintf f args'
      | AInt z :: args' => "%!s(int=" +:+ Itoa z +:+ ")" +:+ Sprintf f args'
      | [] => "%!s(MISSING)" +:+ Sprintf f []
      end
  | String "%" (String "d" f) =>
      match args with
      | AInt z :: args' => Itoa z +:+ Sprintf f args'
      | AStr s :: args' => "%!d(string=" +:+ s +:+ ")" +:+ Sprintf f args'
      | [] => "%!d(MISSING)" +:+ Sprintf f []
      end
  | String c f => String c (Sprintf f args)
  | "" => ""
  end.

(** ** The two raw literals, with the indentation of the source file *)
Definition peer_literal : string :=
  nl +:+ tabs 4 +:+ "public_key=%s" +:+
  nl +:+ tabs 4 +:+ "persistent_keepalive_interval=%d" +:+
  nl +:+ tabs 4 +:+ "preshared_key=%s" +:+ nl +:+ tabs 3.
Definition any_literal : string :=
  nl +:+ tabs 4 +:+ "allowed_ip=0.0.0.0/0" +:+
  nl +:+ tabs 4 +:+ "allowed_ip=::0/0" +:+ nl +:+ tabs 3.

Class Heredoc := {
  Doc : string -> string;
  Doc_peer : Doc peer_literal =
    "public_key=%s" +:+ nl +:+ "persistent_keepalive_interval=%d" +:+ nl +:+ "preshared_key=%s" +:+ nl;
  Doc_any : Doc any_literal = "allowed_ip=0.0.0.0/0" +:+ nl +:+ "allowed_ip=::0/0" +:+ nl
}.

Record DeviceSetting := mkSetting {
  IpcRequest : string;
  DNS : list Addr;
  DeviceAddr : list Addr;
  MTU : Z
}.

Section wireguard.
Context {HD : Heredoc}.

(** One round of [for _, peer := range conf.Peers]. *)
Definition write_peer (request : string) (peer : PeerConfig.t) : string :=
  let request := request +:+
    Sprintf (Doc peer_literal)
      [AStr (PeerConfig.PublicKey peer); AInt (PeerConfig.KeepAlive peer);
       AStr (PeerConfig.PreSharedKey peer)] in
  let request :=
    match PeerConfig.Endpoint peer with
    | Some e => request +:+ Sprintf ("endpoint=%s" +:+ nl) [AStr e]
    | None => request
    end in
  if bool_decide (0 < length (PeerConfig.AllowedIPs peer))
  then foldl (fun request ip => request +:+ Sprintf ("allowed_ip=%s" +:+ nl) [AStr (Prefix_String ip)])
         request (PeerConfig.AllowedIPs peer)
  else request +:+ Doc any_literal.

Definition CreateIPCRequest (conf : DeviceConfig.t) : result DeviceSetting :=
  let request := Sprintf ("private_key=%s" +:+ nl) [AStr (DeviceConfig.SecretKey conf)] in
  let request :=
    match DeviceConfig.ListenPort conf with
    | Some p => request +:+ Sprintf ("listen_port=%d" +:+ nl) [AInt p]
    | None => request
    end in
  let request := foldl write_peer request (DeviceConfig.Peers conf) in
  Ok (mkSetting request (DeviceConfig.DNS conf) (DeviceConfig.Endpoint conf) (DeviceConfig.MTU conf)).

(** [None] is the default bind, [Some b] the client-only one. *)
Definition bindForConfig (conf : DeviceConfig.t) : option ClientOnlyBind :=
  if negb (bool_decide (length (DeviceConfig.Peers conf) = 1)) then None
  else
    match DeviceConfig.Peers conf with
    | peer :: _ =>
        match PeerConfig.Endpoint peer with
        | None => None
        | Some ep =>
            match ParseAddrPort ep with
            | Err _ => None
            | Ok ap =>
                match New ap with
                | Err _ => None
                | Ok bind => Some bind
                end
            end
        end
    | [] => None
    end.

Context `{RL : RegexpLib, E : Environment}.

(** The addresses decide what "auto" stands for. *)
Definition resolve_auto (addrs : list Addr) (strategy : string) : string :=
  let hasV4 := existsb Is4 addrs in
  let hasV6 := existsb Is6 addrs in
  if bool_decide (strategy = "auto")
  then (if hasV4 && negb hasV6 then "ipv4" else "ipv6")
  else strategy.

(** The logger only receives messages.  The structure [conf.Resolve] points to
    is updated in place: the configuration comes back with the result. *)
Definition StartWireguardWithLogger (conf : Configuration.t)
    : M (Configuration.t * result VirtualTun.t) :=
  let deviceConf := Configuration.Device conf in
  match CreateIPCRequest deviceConf with
  | Err err => ret (conf, Err err)
  | Ok setting =>
      let! err := perform (OCreateNetTUN (DeviceAddr setting) (DNS setting) (MTU setting)) in
      match err with
      | Some err => ret (conf, Err err)
      | None =>
          let bind := bindForConfig deviceConf in
          let! _ := perform (ONewDevice (peer <$> bind)) in
          let! err := perform (OIpcSet (IpcRequest setting)) in
          match err with
          | Some err => ret (conf, Err err)
          | None =>
              let! err := perform ODeviceUp in
              match err with
              | Some err => ret (conf, Err err)
              | None =>
                  let strategy := resolve_auto (DeviceAddr setting)
                    (ResolveConfig.ResolveStrategy (Configuration.Resolve conf)) in
                  let conf := Configuration.mk deviceConf (Configuration.Routines conf)
                    (ResolveConfig.mk strategy) in
                  ret (conf, Ok (VirtualTun.mk (bool_decide (length (DNS setting) = 0))
                    deviceConf (Configuration.Resolve conf) ∅))
              end
          end
      end
  end.
(** [StartWireguard]: the same with the device's own logger, whose level only
    selects what it prints. *)
Definition StartWireguard (conf : Configuration.t) : M (Configuration.t * result VirtualTun.t) :=
  StartWireguardWithLogger conf.
End wireguard.

(** ** The request as settings *)
Definition setting_line (kv : string * string) : string := kv.1 +:+ "=" +:+ kv.2 +:+ nl.
Definition render (kvs : list (string * string)) : string := foldr (fun kv s => setting_line kv +:+ s) "" kvs.

Definition peer_settings (p : PeerConfig.t) : list (string * string) :=
  [("public_key", PeerConfig.PublicKey p);
   ("persistent_keepalive_interval", Itoa (PeerConfig.KeepAlive p));
   ("preshared_key", PeerConfig.PreSharedKey p)] ++
  match PeerConfig.Endpoint p with Some e => [("endpoint", e)] | None => [] end ++
  match PeerConfig.AllowedIPs p with
  | [] => [("allowed_ip", "0.0.0.0/0"); ("allowed_ip", "::0/0")]
  | ips => (fun ip => ("allowed_ip", Prefix_String ip)) <$> ips
  end.

Definition settings (conf : DeviceConfig.t) : list (string * string) :=
  ("private_key", DeviceConfig.SecretKey conf) ::
  match DeviceConfig.ListenPort conf with Some p => [("listen_port", Itoa p)] | None => [] end ++
  concat (peer_settings <$> DeviceConfig.Peers conf).

(** The reader of the device's protocol: lines of key=value. *)
Fixpoint read_lines (ls : list string) : option (list (string * string)) :=
  match ls with
  | [] => None
  | [l] => if bool_decide (l = "") then Some [] else None
  | l :: ls' =>
      match SplitN2 l "=" with
      | [k; v] => kvs ← read_lines ls'; Some ((k, v) :: kvs)
      | _ => None
      end
  end.
Definition read_settings (s : string) : option (list (string * string)) := read_lines (Split s "010").

Definition newline : ascii := "010".
Definition line_safe (s : string) : bool := negb (has_byte newline s).
Definition setting_ok (kv : string * string) : Prop :=
  has_byte "=" kv.1 = false /\ line_safe kv.1 = true /\ line_safe kv.2 = true.

Section lemmas.
Context {HD : Heredoc}.

Lemma render_app l1 l2 : render (l1 ++ l2) = render l1 +:+ render l2.
Proof. induction l1 as [|kv l1 IH]; simpl; [done|]. by rewrite IH, str_app_assoc. Qed.

Lemma render_cons kv l : render (kv :: l) = setting_line kv +:+ render l.
Proof. done. Qed.

Lemma setting_line_app k v s :
  setting_line (k, v) +:+ s = (k +:+ String "=" v) +:+ String newline s.
Proof. unfold setting_line, nl. cbn [fst snd]. by rewrite <- !str_app_assoc. Qed.

Lemma read_lines_cons l l' ls :
  read_lines (l :: l' :: ls) =
  match SplitN2 l "=" with
  | [k; v] => kvs ← read_lines (l' :: ls); Some ((k, v) :: kvs)
  | _ => None
  end.
Proof. done. Qed.

Lemma read_render kvs : Forall setting_ok kvs -> read_settings (render kvs) = Some kvs.
Proof.
  unfold read_settings. induction 1 as [|[k v] kvs (Hk & Hk' & Hv) _ IH]; [done|].
  cbn [fst snd] in *. unfold line_safe, newline in *. rewrite negb_true_iff in Hk', Hv.
  rewrite render_cons, setting_line_app. unfold newline. rewrite Split_app.
  2:{ rewrite has_byte_app, Hk'. simpl. by rewrite Hv. }
  destruct (Split_cons (render kvs) "010") as (l & ls & Hs).
  rewrite Hs in IH |- *. rewrite read_lines_cons, SplitN2_app by done.
  by rewrite IH.
Qed.

(** What one [Fprintf] of a [key=value] line writes. *)
Lemma Sprintf_any request : request +:+ Doc any_literal =
  request +:+ render [("allowed_ip", "0.0.0.0/0"); ("allowed_ip", "::0/0")].
Proof. by rewrite Doc_any. Qed.

Lemma write_allowed request ips :
  foldl (fun request ip => request +:+ Sprintf ("allowed_ip=%s" +:+ nl) [AStr (Prefix_String ip)])
    request ips =
  request +:+ render ((fun ip => ("allowed_ip", Prefix_String ip)) <$> ips).
Proof.
  revert request; induction ips as [|ip ips IH]; intros request; simpl.
  - by rewrite str_app_nil_r.
  - rewrite IH, <- str_app_assoc. done.
Qed.

Lemma write_peer_render request p :
  write_peer request p = request +:+ render (peer_settings p).
Proof.
  unfold write_peer, peer_settings. rewrite Doc_peer, !render_app.
  assert (request +:+ Sprintf ("public_key=%s" +:+ nl +:+ "persistent_keepalive_interval=%d" +:+ nl +:+
    "preshared_key=%s" +:+ nl)
    [AStr (PeerConfig.PublicKey p); AInt (PeerConfig.KeepAlive p); AStr (PeerConfig.PreSharedKey p)] =
    request +:+ render [("public_key", PeerConfig.PublicKey p);
      ("persistent_keepalive_interval", Itoa (PeerConfig.KeepAlive p));
      ("preshared_key", PeerConfig.PreSharedKey p)]) as ->.
  { f_equal. unfold render, setting_line. simpl. by rewrite <- !str_app_assoc. }
  set (r := request +:+ render _).
  assert (match PeerConfig.Endpoint p with
    | Some e => r +:+ Sprintf ("endpoint=%s" +:+ nl) [AStr e] | None => r end =
    r +:+ render match PeerConfig.Endpoint p with Some e => [("endpoint", e)] | None => [] end) as ->.
  { destruct (PeerConfig.Endpoint p) as [e|]; unfold render; simpl; by rewrite str_app_nil_r. }
  subst r. destruct (PeerConfig.AllowedIPs p) as [|ip ips]; cbn [length].
  - rewrite bool_decide_eq_false_2 by lia. rewrite Sprintf_any. by rewrite <- !str_app_assoc.
  - rewrite bool_decide_eq_true_2 by lia. rewrite write_allowed. by rewrite <- !str_app_assoc.
Qed.

Lemma write_peers_render request ps :
  foldl write_peer request ps = request +:+ render (concat (peer_settings <$> ps)).
Proof.
  revert request; induction ps as [|p ps IH]; intros request; cbn [foldl fmap list_fmap concat].
  - by rewrite str_app_nil_r.
  - rewrite IH, write_peer_render, render_app. by rewrite str_app_assoc.
Qed.

Lemma CreateIPCRequest_render conf :
  CreateIPCRequest conf =
  Ok (mkSetting (render (settings conf)) (DeviceConfig.DNS conf) (DeviceConfig.Endpoint conf)
        (DeviceConfig.MTU conf)).
Proof.
  unfold CreateIPCRequest, settings. do 2 f_equal. rewrite write_peers_render.
  rewrite render_cons, render_app.
  change (Sprintf ("private_key=%s" +:+ nl) [AStr ?k]) with (setting_line ("private_key", k)).
  set (rest := render (concat _)). destruct (DeviceConfig.ListenPort conf) as [p|].
  - change (Sprintf ("listen_port=%d" +:+ nl) [AInt p]) with (setting_line ("listen_port", Itoa p)).
    rewrite render_cons. change (render []) with "". by rewrite <- !str_app_assoc.
  - done.
Qed.

(** ** Values of a well-formed configuration stay on their line *)
Lemma line_safe_app s t : line_safe (s +:+ t) = line_safe s && line_safe t.
Proof. unfold line_safe. by rewrite has_byte_app, negb_orb. Qed.
Lemma line_safe_Itoa z : line_safe (Itoa z) = true.
Proof. unfold line_safe. by rewrite Itoa_no_byte. Qed.
Lemma line_safe_utoa n : line_safe (utoa n) = true.
Proof.
  unfold line_safe. erewrite str_forall_has_byte; [done|apply utoa_digits|done].
Qed.
Lemma line_safe_hex_key k : hex_key k -> line_safe k = true.
Proof.
  intros [_ Hk]. unfold line_safe. erewrite str_forall_has_byte; [done|exact Hk|done].
Qed.

Lemma hex_digit_not_newline n : (n < 16)%N -> byte_eqb newline (hex_digit n) = false.
Proof.
  intros Hn. apply byte_eqb_neq. intros Hd. pose proof (hex_val_digit n Hn) as Hv.
  by rewrite <- Hd in Hv.
Qed.
Lemma line_safe_hex fuel n acc : line_safe acc = true -> line_safe (hex_of_N_go fuel n acc) = true.
Proof.
  revert n acc; induction fuel as [|f IH]; intros n acc Ha; simpl; [done|].
  assert (line_safe (String (hex_digit (n mod 16)) acc) = true) as H.
  { unfold line_safe in *. simpl. rewrite hex_digit_not_newline by (by apply N.mod_lt). done. }
  destruct (n <? 16)%N; [done|]. by apply IH.
Qed.
Lemma line_safe_groups gs : line_safe (join_groups gs) = true.
Proof.
  induction gs as [|g [|g' gs] IH]; [done|by apply line_safe_hex|].
  change (join_groups (g :: g' :: gs)) with (appendHex g +:+ ":" +:+ join_groups (g' :: gs)).
  rewrite !line_safe_app, IH. unfold appendHex. by rewrite line_safe_hex.
Qed.
Lemma line_safe_string4 a b c d : line_safe (string4 a b c d) = true.
Proof. unfold string4. by rewrite !line_safe_app, !line_safe_utoa. Qed.
Lemma line_safe_string6 bs : line_safe (string6 bs "") = true.
Proof.
  unfold string6. rewrite bool_decide_eq_true_2 by done.
  destruct (longest_zeros _ _ _) as [[s e]|]; [|apply line_safe_groups].
  by rewrite !line_safe_app, !line_safe_groups.
Qed.
Lemma line_safe_prefix p : wf_Prefix p -> line_safe (Prefix_String p) = true.
Proof.
  intros [_ Hz]. unfold Prefix_String. rewrite !line_safe_app, line_safe_Itoa, andb_true_r.
  destruct (Prefix_Addr p) as [|a b c d|bs zone]; cbn [Addr_String];
    [done|by rewrite line_safe_string4|].
  destruct Hz as [-> _]. destruct (Is4In6 _); [|by rewrite line_safe_string6].
  destruct (drop 12 bs) as [|a [|b [|c [|d [|]]]]]; try apply line_safe_string6.
  rewrite bool_decide_eq_true_2 by done. by rewrite !line_safe_app, line_safe_string4.
Qed.
End lemmas.

Section properties.
Context {HD : Heredoc} `{UT : UnicodeTables, RL : RegexpLib, E : Environment}.

Definition endpoint_safe (p : PeerConfig.t) : Prop :=
  from_option (fun e => line_safe e = true) True (PeerConfig.Endpoint p).

Lemma peer_settings_ok p :
  wf_peer p -> endpoint_safe p -> Forall setting_ok (peer_settings p).
Proof.
  intros [Hpub Hpsk _ Hips] He. unfold peer_settings, endpoint_safe in *.
  rewrite !Forall_app. split_and!.
  - repeat constructor; simpl; auto using line_safe_hex_key, line_safe_Itoa.
  - destruct (PeerConfig.Endpoint p); repeat constructor; done.
  - destruct (PeerConfig.AllowedIPs p) as [|ip ips]; [by repeat constructor|].
    apply Forall_fmap. eapply Forall_impl; [exact Hips|]. intros q Hq.
    repeat split. by apply line_safe_prefix.
Qed.

(** C14: the request handed to the device says exactly what the configuration
    says: for any configuration with well-formed keys and prefixes and
    one-line endpoints, reading it back line by line gives the private key, the
    listen port if any, and for every peer in order its keys, keep-alive,
    endpoint and allowed addresses (everything, for an empty list); no value
    can add or change a setting. *)
Theorem ipc_request_roundtrip conf
    (Hdev : wf_device conf) (Hpeers : Forall wf_peer (DeviceConfig.Peers conf))
    (Hends : Forall endpoint_safe (DeviceConfig.Peers conf)) :
  exists s, CreateIPCRequest conf = Ok s /\
    read_settings (IpcRequest s) = Some (settings conf) /\
    DeviceAddr s = DeviceConfig.Endpoint conf /\ DNS s = DeviceConfig.DNS conf /\
    MTU s = DeviceConfig.MTU conf.
Proof.
  eexists. split; [apply CreateIPCRequest_render|]. split; [|done]. cbn [IpcRequest].
  apply read_render. unfold settings. constructor.
  { repeat split. apply line_safe_hex_key, Hdev. }
  apply Forall_app. split.
  - destruct (DeviceConfig.ListenPort conf); repeat constructor. apply line_safe_Itoa.
  - apply Forall_concat, Forall_fmap. clear Hdev.
    induction Hpeers as [|p ps Hp _ IH]; [done|]. inversion_clear Hends.
    constructor; [by apply peer_settings_ok|by apply IH].
Qed.

(** The outbound-only bind is used exactly for a configuration with a
    single peer whose endpoint parses as an address and port; it is for that
    peer and not open. *)
Theorem client_bind_iff_single_resolved_peer conf b :
  bindForConfig conf = Some b <->
  exists p ep ap, DeviceConfig.Peers conf = [p] /\ PeerConfig.Endpoint p = Some ep /\
    ParseAddrPort ep = Ok ap /\ AddrPort_IsValid ap = true /\ b = mkBind ap None.
Proof.
  unfold bindForConfig, New. split.
  - case_bool_decide as Hl; simpl; [|done].
    destruct (DeviceConfig.Peers conf) as [|p [|q ps]] eqn:Hp; try done.
    destruct (PeerConfig.Endpoint p) as [ep|] eqn:He; [|done].
    destruct (ParseAddrPort ep) as [ap|] eqn:Ha; [|done].
    destruct (AddrPort_IsValid ap) eqn:Hv; simpl; [|done]. intros [= <-]. eauto 10.
  - intros (p & ep & ap & -> & He & Ha & Hv & ->). simpl. by rewrite He, Ha, Hv.
Qed.




End properties.

(** ** Witness *)
Module Sample.
#[export] Program Instance heredoc : Heredoc := {|
  Doc s :=
    if bool_decide (s = peer_literal)
    then "public_key=%s" +:+ nl +:+ "persistent_keepalive_interval=%d" +:+ nl +:+ "preshared_key=%s" +:+ nl
    else "allowed_ip=0.0.0.0/0" +:+ nl +:+ "allowed_ip=::0/0" +:+ nl
|}.
Next Obligation. done. Qed.
Next Obligation. done. Qed.

Definition key : string := hex_EncodeToString "0123456789abcdef0123456789abcdef".
Definition peer : PeerConfig.t :=
  PeerConfig.mk key key (Some "192.0.2.1:51820") 25 [mkPrefix (Addr4 10 0 0 0) 8].
Definition device : DeviceConfig.t :=
  DeviceConfig.mk key [Addr4 10 0 0 2] [peer] [] 1420 (Some 51820%Z) [] 5.

Lemma device_wf : wf_device device.
Proof. split; try (by vm_compute); repeat constructor; done. Qed.
Lemma peer_wf : wf_peer peer.
Proof.
  split; try (by vm_compute).
  - exists "192.0.2.1", "51820". by vm_compute.
  - repeat constructor; simpl; unfold is_byte; lia.
Qed.

Lemma ipc_request_roundtrip_witness :
  exists s, CreateIPCRequest device = Ok s /\
    read_settings (IpcRequest s) = Some (settings device) /\ MTU s = 1420%Z.
Proof.
  destruct (ipc_request_roundtrip device device_wf) as (s & H1 & H2 & _ & _ & H3).
  - exact (Forall_cons_2 _ _ _ peer_wf (Forall_nil_2 _)).
  - repeat constructor.
  - exists s. split; [exact H1|]. split; [exact H2|exact H3].
Defined.
End Sample.
