(* ===== verification/Health.v ===== *)
(** * Health: the health endpoint and the pings of [routine.go]

    [ServeHTTP] (readiness and redacted metrics), [pingIPs], the goroutine that
    waits for one reply, and [StartPingIPs]. *)

From stdpp Require Import sorting.
From S2P Require Import Prelude GoStr GoCodec GoPath GoNetip Ini ConfigTypes World Router Wireguard.

(** ** [json.Marshal] of a [map[string]uint64]: keys sorted, strings escaped
    (bytes from 128 on are kept as they are) *)
Definition json_byte (c : ascii) : string :=
  let n := N_of_byte c in
  let esc (x : ascii) := String "\" (String x "") in
  match n with
  | 34 => esc c | 92 => esc c
  | 8 => esc "b"%char | 12 => esc "f"%char | 10 => esc "n"%char | 13 => esc "r"%char
  | 9 => esc "t"%char
  | _ =>
      if (n <? 32)%N || (n =? 60)%N || (n =? 62)%N || (n =? 38)%N
      then "\u00" +:+ String (hex_digit (n / 16)) (String (hex_digit (n mod 16)) "")
      else String c ""
  end%N.
Fixpoint json_bytes (s : string) : string :=
  match s with "" => "" | String c s' => json_byte c +:+ json_bytes s' end.
Definition dquote : string := String "034" "".
Definition json_string (s : string) : string := dquote +:+ json_bytes s +:+ dquote.

Definition key_le (a b : string * Z) : Prop := String.leb a.1 b.1 = true.
#[export] Instance key_le_dec a b : Decision (key_le a b).
Proof. unfold key_le. apply _. Defined.

Definition json_entry (e : string * Z) : string := json_string e.1 +:+ ":" +:+ Itoa e.2.
Definition json_Marshal (m : gmap string Z) : result string :=
  Ok ("{" +:+ Join (json_entry <$> merge_sort key_le (map_to_list m)) "," +:+ "}").

(** ** The metrics text *)

(** One round of the loop over the lines of [IpcGet]. *)
Definition metrics_line (line : string) : string :=
  match SplitN2 line "=" with
  | [k; v] =>
      let v := if bool_decide (k = "private_key") || bool_decide (k = "preshared_key")
               then "REDACTED" else v in
      k +:+ "=" +:+ v +:+ nl
  | _ => line
  end.
Fixpoint metrics_lines (lines : list string) : string :=
  match lines with [] => "" | l :: lines' => metrics_line l +:+ metrics_lines lines' end.
Definition metrics (get : string) : string := metrics_lines (Split get "010").

(** What the handler wrote: the status and the body. *)
Record reply := mkReply { status : Z; body : string }.

(** How the goroutine of one ping ends. *)
Inductive ping_outcome :=
  | Recorded (key : string) (at_ : Z)   (* [PingRecord[key] = at_] *)
  | Rejected
  | Panicked.                           (* slice bounds out of range *)

Definition is_recorded (o : ping_outcome) : bool := match o with Recorded _ _ => true | _ => false end.

Section health.
Context `{E : Environment}.

(** [time.Since(time.Unix(int64(record), 0)) > Duration(interval+2)*Second]. *)
Definition stale (now interval record : Z) : bool :=
  bool_decide (seconds (wrap64 (interval + 2)) < time_Sub now (wrap64 record * 1000000000))%Z.

(** The loop over the records; the clock is read for each. *)
Fixpoint readyz_status (interval : Z) (records : list Z) : M Z :=
  match records with
  | [] => ret 200%Z
  | record :: records' =>
      let! now := perform ONow in
      if stale now interval record then ret 503%Z else readyz_status interval records'
  end.

Definition ServeHTTP (d : VirtualTun.t) (path : string) : M reply :=
  let! _ := perform (OLog ("Health metric request: " +:+ path)) in
  let p := Clean path in
  if bool_decide (p = "/readyz") then
    match json_Marshal (VirtualTun.PingRecord d) with
    | Err err =>
        let! _ := perform (OLog ("Failed to get device metrics: " +:+ Error err)) in
        ret (mkReply 500 "")
    | Ok body =>
        let! status := readyz_status (DeviceConfig.CheckAliveInterval (VirtualTun.Conf d))
                         (snd <$> map_to_list (VirtualTun.PingRecord d)) in
        ret (mkReply status (body +:+ nl))
    end
  else if bool_decide (p = "/metrics") then
    let! get := perform OIpcGet in
    match get with
    | Err err =>
        let! _ := perform (OLog ("Failed to get device metrics: " +:+ Error err)) in
        ret (mkReply 500 "")
    | Ok get => ret (mkReply 200 (metrics get))
    end
  else ret (mkReply 404 "").

(** ** Pings *)

Definition ping_payload : nat := 16.

(** One round of [pingIPs]. *)
Definition ping_one (d : VirtualTun.t) (addr : Addr) : M unit :=
  let! socket := perform (ODial Tunnel "ping" (Addr_String addr)) in
  match socket with
  | Err err => perform (OLog ("Failed to ping " +:+ Addr_String addr +:+ ": " +:+ Error err))
  | Ok socket =>
      let! data := perform (ORandRead ping_payload) in
      let! seq := perform (OIntn (Z.to_nat 65536)) in
      let send (v6 : bool) : M unit :=
        let! icmpBytes := perform (OMarshalEcho v6 seq data) in
        let! _ := perform (OSetReadDeadline socket
          (Some (seconds (DeviceConfig.CheckAliveInterval (VirtualTun.Conf d))))) in
        let! err := perform (OWrite socket icmpBytes) in
        match err with
        | Some err => perform (OLog ("Failed to ping " +:+ Addr_String addr +:+ ": " +:+ Error err))
        | None => perform (OGo (PingReply socket addr seq data))
        end in
      if Is4 addr then send false
      else if Is6 addr then send true
      else perform (OLog ("Failed to ping " +:+ Addr_String addr +:+ ": invalid address: " +:+
                          Addr_String addr))
  end.

Fixpoint ping_all (d : VirtualTun.t) (addrs : list Addr) : M unit :=
  match addrs with
  | [] => ret tt
  | addr :: addrs' => let! _ := ping_one d addr in ping_all d addrs'
  end.
Definition pingIPs (d : VirtualTun.t) : M unit :=
  ping_all d (DeviceConfig.CheckAlive (VirtualTun.Conf d)).

(** Bytes 2 and 3, big endian. *)
Definition be16 (s : string) : Z :=
  match str_take 2 (str_drop 2 s) with
  | String a (String b "") => (Z.of_N (N_of_byte a) * 256 + Z.of_N (N_of_byte b))%Z
  | _ => 0%Z
  end.

(** The checks of the reply, by family of the pinged address. *)
Definition check_reply (addr : Addr) (seq : nat) (data : string) (b : icmp_body) : ping_outcome :=
  let fine := Recorded (Addr_String addr) 0 in
  if Is4 addr then
    match b with
    | Echo _ s d =>
        if negb (bool_decide (d = data)) || negb (bool_decide (s = Z.of_nat seq)) then Rejected else fine
    | _ => Rejected
    end
  else if Is6 addr then
    match b with
    | RawBody d =>
        if bool_decide (String.length d < 4) then Panicked
        else if negb (bool_decide (str_drop 4 d = data)) || negb (bool_decide (be16 d = Z.of_nat seq))
        then Rejected else fine
    | _ => Rejected
    end
  else fine.

(** The goroutine: the deferred [Close] is only reached at the very end.  The
    log line of a rejected reply also prints the third-party packet. *)
Definition ping_reply (socket : handle) (addr : Addr) (seq : nat) (data : string)
    : M ping_outcome :=
  let! packet := perform (ORead socket) in
  match packet with
  | Err err =>
      let! _ := perform (OLog ("Failed to read ping response from " +:+ Addr_String addr +:+ ": " +:+ Error err)) in
      ret Rejected
  | Ok packet =>
      let! parsed := perform (OParseICMP packet) in
      match parsed with
      | Err err =>
          let! _ := perform (OLog ("Failed to parse ping response from " +:+ Addr_String addr +:+ ": " +:+ Error err)) in
          ret Rejected
      | Ok b =>
          match check_reply addr seq data b with
          | Recorded key _ =>
              let! now := perform ONow in
              let! _ := perform (OClose socket) in
              ret (Recorded key (now / 1000000000)%Z)
          | Rejected =>
              let! _ := perform (OLog ("Failed to parse ping response from " +:+ Addr_String addr)) in
              ret Rejected
          | Panicked => ret Panicked
          end
      end
  end.

(** The write to the shared map, under its mutex. *)
Definition record_pong (o : ping_outcome) (d : VirtualTun.t) : VirtualTun.t :=
  match o with
  | Recorded key at_ =>
      VirtualTun.mk (VirtualTun.SystemDNS d) (VirtualTun.Conf d) (VirtualTun.ResolveConfig d)
        (<[key := at_]> (VirtualTun.PingRecord d))
  | _ => d
  end.

Definition StartPingIPs (d : VirtualTun.t) : M VirtualTun.t :=
  let record := foldl (fun m addr => <[Addr_String addr := 0%Z]> m) (VirtualTun.PingRecord d)
                  (DeviceConfig.CheckAlive (VirtualTun.Conf d)) in
  let d := VirtualTun.mk (VirtualTun.SystemDNS d) (VirtualTun.Conf d) (VirtualTun.ResolveConfig d)
             record in
  let! _ := perform (OGo PingLoop) in
  ret d.

(** The goroutine of [StartPingIPs], for so many of its endless rounds. *)
Fixpoint ping_loop (rounds : nat) (d : VirtualTun.t) : M unit :=
  match rounds with
  | 0 => ret tt
  | S rounds =>
      let! _ := pingIPs d in
      let! _ := perform (OSleep (seconds (DeviceConfig.CheckAliveInterval (VirtualTun.Conf d)))) in
      ping_loop rounds d
  end.

(** ** Lemmas *)
Lemma ping_loop_ops (f : op -> bool) d rounds tr (spec : trace) :
  (forall tr, ops_of f (snd (pingIPs d tr)) = ops_of f tr ++ spec) ->
  ops_of f (snd (ping_loop rounds d tr)) = ops_of f tr ++
    concat (replicate rounds (spec ++
      ops_of f [OSleep (seconds (DeviceConfig.CheckAliveInterval (VirtualTun.Conf d)))])).
Proof.
  intros Hs. revert tr; induction rounds as [|n IH]; intros tr; cbn [ping_loop replicate concat].
  - by rewrite app_nil_r.
  - unfold bind, perform. specialize (Hs tr). destruct (pingIPs d tr) as [[] tr']. cbn [snd] in Hs.
    by rewrite IH, ops_of_app, Hs, <- !(assoc_L (++)).
Qed.

Lemma readyz_status_spec interval records now tr :
  (forall tr, answer tr ONow = now) ->
  fst (readyz_status interval records tr) =
    if existsb (stale now interval) records then 503%Z else 200%Z.
Proof.
  intros Hc. revert tr; induction records as [|r rs IH]; intros tr; cbn [readyz_status existsb]; [done|].
  run_M. rewrite Hc. destruct (stale now interval r); [done|apply IH].
Qed.

Lemma ping_all_ops (f : op -> bool) d addrs tr (spec : Addr -> trace) :
  (forall a tr, ops_of f (snd (ping_one d a tr)) = ops_of f tr ++ spec a) ->
  ops_of f (snd (ping_all d addrs tr)) = ops_of f tr ++ concat (spec <$> addrs).
Proof.
  intros Hs. revert tr; induction addrs as [|a addrs IH]; intros tr; simpl.
  - by rewrite app_nil_r.
  - unfold bind. specialize (Hs a tr). destruct (ping_one d a tr) as [[] tr']. simpl in Hs.
    by rewrite IH, Hs, <- (assoc_L (++)).
Qed.
End health.

Section properties.
Context `{E : Environment}.

(** C34: readiness: with the clock at [now], the endpoint answers 503 exactly
    when some monitored address has gone more than the interval plus two
    seconds without a pong, 200 otherwise, whatever the order the map is
    walked in, and the body is the JSON of all the records either way; an
    address that never answered keeps it at 503. *)
Theorem readyz_reports_stale_peers d path (now : Z)
    (Hclock : forall tr, answer tr ONow = now) (Hpath : Clean path = "/readyz") :
  let interval := DeviceConfig.CheckAliveInterval (VirtualTun.Conf d) in
  let r := outcome (ServeHTTP d path) in
  (status r = 503%Z \/ status r = 200%Z) /\
  (status r = 503%Z <->
   exists key record, VirtualTun.PingRecord d !! key = Some record /\ stale now interval record = true) /\
  (forall key, VirtualTun.PingRecord d !! key = Some 0%Z ->
     (seconds (wrap64 (interval + 2)) < now < 2^63)%Z -> status r = 503%Z) /\
  (exists json, json_Marshal (VirtualTun.PingRecord d) = Ok json /\ body r = json +:+ nl).
Proof.
  intros interval r.
  set (recs := snd <$> map_to_list (VirtualTun.PingRecord d)).
  assert (status r = (if existsb (stale now interval) recs then 503%Z else 200%Z) /\
    exists json, json_Marshal (VirtualTun.PingRecord d) = Ok json /\ body r = json +:+ nl) as [-> Hb].
  { subst r. unfold outcome, ServeHTTP. rewrite Hpath, (bool_decide_eq_true_2 (_ = _)) by done.
    unfold json_Marshal. run_M. fold recs interval.
    pose proof (readyz_status_spec interval recs now [OLog ("Health metric request: " +:+ path)]
      Hclock) as Hr.
    destruct (readyz_status _ _ _) as [st tr]. cbn [fst snd] in *.
    split; [exact Hr|eauto]. }
  assert (existsb (stale now interval) recs = true <-> exists key record,
    VirtualTun.PingRecord d !! key = Some record /\ stale now interval record = true) as Hst.
  { rewrite existsb_exists. split.
    - intros (rec & Hin & Hs). apply list_elem_of_In, list_elem_of_fmap in Hin as ([k v] & -> & Hin).
      apply elem_of_map_to_list in Hin. eauto.
    - intros (key & rec & Hk & Hs). exists rec. split; [|done].
      apply list_elem_of_In, list_elem_of_fmap. exists (key, rec). split; [done|].
      by apply elem_of_map_to_list. }
  split_and!; [by case_match; auto|rewrite <- Hst; by case_match| |done].
  intros key Hk Hn. destruct (existsb _ recs) eqn:He; [done|]. exfalso.
  assert (false = true); [|done]. apply Hst. exists key, 0%Z. split; [done|].
  unfold stale. apply bool_decide_eq_true. unfold time_Sub.
  change (wrap64 0) with 0%Z. lia.
Qed.

(** C37: the metrics text hides the keys: it is the same for any two device
    states that differ only in the values of private and preshared keys, and
    every other setting is printed unchanged. *)
Theorem metrics_redact_keys (l1 l2 : list (string * string))
    (H1 : Forall setting_ok l1) (H2 : Forall setting_ok l2) :
  let mask (kv : string * string) :=
    if decide (kv.1 = "private_key" \/ kv.1 = "preshared_key") then (kv.1, "REDACTED") else kv in
  metrics (render l1) = render (mask <$> l1) /\
  (mask <$> l1 = mask <$> l2 -> metrics (render l1) = metrics (render l2)).
Proof.
  intros mask. assert (forall l, Forall setting_ok l -> metrics (render l) = render (mask <$> l)) as Hm.
  { induction 1 as [|[k v] l (Hk & Hk' & Hv) _ IH]; [done|].
    cbn [fst snd] in *. unfold metrics in *. rewrite Wireguard.render_cons, setting_line_app.
    unfold line_safe, newline in *. rewrite negb_true_iff in Hk', Hv. rewrite Split_app.
    2:{ rewrite has_byte_app, Hk'. simpl. by rewrite Hv. }
    cbn [metrics_lines fmap list_fmap]. rewrite IH, render_cons. f_equal.
    unfold metrics_line. rewrite SplitN2_app by done. unfold mask, setting_line. cbn [fst snd].
    case_decide as Hd; repeat case_bool_decide; simpl; try done; naive_solver. }
  split; [by apply Hm|]. intros He. by rewrite !Hm, He.
Qed.

(** What a round of pings dials. *)
Definition round_dials (d : VirtualTun.t) : trace :=
  (fun a => ODial Tunnel "ping" (Addr_String a)) <$> DeviceConfig.CheckAlive (VirtualTun.Conf d).

Lemma pingIPs_ops (f : op -> bool) d tr (spec : Addr -> trace) :
  (forall a tr, ops_of f (snd (ping_one d a tr)) = ops_of f tr ++ spec a) ->
  ops_of f (snd (pingIPs d tr)) = ops_of f tr ++ concat (spec <$> DeviceConfig.CheckAlive (VirtualTun.Conf d)).
Proof. apply ping_all_ops. Qed.
Lemma ping_one_dials d a tr :
  ops_of is_dial (snd (ping_one d a tr)) = ops_of is_dial tr ++ [ODial Tunnel "ping" (Addr_String a)].
Proof. unfold ping_one. run_M. go_cases; rewrite !ops_of_app; simpl; by rewrite ?app_nil_r. Qed.
Lemma ping_one_sleeps d a tr : ops_of is_sleep (snd (ping_one d a tr)) = ops_of is_sleep tr ++ [].
Proof. unfold ping_one. run_M. go_cases; rewrite !ops_of_app; simpl; by rewrite ?app_nil_r. Qed.
Lemma concat_singletons {A B} (g : A -> B) l : concat ((fun a => [g a]) <$> l) = g <$> l.
Proof. induction l as [|a l IH]; [done|]. cbn. by f_equal. Qed.
Lemma concat_nils {A B} (l : list A) : concat ((fun _ => @nil B) <$> l) = [].
Proof. by induction l. Qed.

(** The ping loop paces itself by the configured interval: each round dials
    every monitored address once and is followed by one pause, of exactly that
    many seconds for every interval from 1 to 9223372036; with zero or a
    negative interval, which the parser accepts, it never pauses. *)
Theorem ping_loop_paces_itself d rounds :
  let interval := DeviceConfig.CheckAliveInterval (VirtualTun.Conf d) in
  let tr := effects (ping_loop rounds d) in
  ops_of is_sleep tr = replicate rounds (OSleep (seconds interval)) /\
  ops_of is_dial tr = concat (replicate rounds (round_dials d)) /\
  ((1 <= interval <= 9223372036)%Z -> seconds interval = interval * 1000000000)%Z /\
  ((-9223372036 <= interval <= 0)%Z -> (seconds interval <= 0)%Z).
Proof.
  intros interval tr. subst tr. unfold effects. split_and!.
  - rewrite (ping_loop_ops is_sleep d rounds [] []).
    + cbn [ops_of List.filter app is_sleep]. fold interval. induction rounds as [|n IH]; [done|].
      cbn. by f_equal.
    + intros tr. rewrite (pingIPs_ops is_sleep d tr (fun _ => []) (ping_one_sleeps d)). by rewrite (concat_nils (B := op)).
  - rewrite (ping_loop_ops is_dial d rounds [] (round_dials d)).
    + cbn [ops_of List.filter app is_dial]. by rewrite app_nil_r.
    + intros tr. rewrite (pingIPs_ops is_dial d tr _ (ping_one_dials d)). by rewrite (concat_singletons (B := op)).
  - intros. apply seconds_exact. lia.
  - intros. rewrite seconds_exact; lia.
Qed.

(** A round of pings dials every monitored address once, in order, through
    the tunnel, starts one reply goroutine at most per address, and closes
    nothing itself. *)
Theorem pingIPs_dials_each_once d :
  ops_of is_dial (effects (pingIPs d)) =
    (fun a => ODial Tunnel "ping" (Addr_String a)) <$> DeviceConfig.CheckAlive (VirtualTun.Conf d) /\
  (forall h, ops_of (closes h) (effects (pingIPs d)) = []).
Proof.
  unfold effects. split.
  - by rewrite (pingIPs_ops is_dial d [] _ (ping_one_dials d)), (concat_singletons (B := op)).
  - intros h. rewrite (pingIPs_ops (closes h) d [] (fun _ => [])); [by rewrite (concat_nils (B := op))|].
    intros a tr. unfold ping_one. run_M. go_cases; rewrite !ops_of_app; simpl; by rewrite ?app_nil_r.
Qed.

(** C36: a pong is recorded, under the pinged address and with the time of the
    reply, only for a reply that matches the request: over IPv4 an echo with
    the same payload and sequence number, over IPv6 a body with both after
    four bytes; and the socket is closed exactly in that case, so every other
    ending leaves it open. *)
Theorem pong_needs_matching_reply socket addr seq data :
  let r := outcome (ping_reply socket addr seq data) in
  let closed := ops_of (closes socket) (effects (ping_reply socket addr seq data)) in
  closed = (if is_recorded r then [OClose socket] else []) /\
  (forall key at_, r = Recorded key at_ ->
     key = Addr_String addr /\
     exists packet b, answer [] (ORead socket) = Ok packet /\
       answer [ORead socket] (OParseICMP packet) = Ok b /\
       (Is4 addr = true -> exists id, b = Echo id (Z.of_nat seq) data) /\
       (Is6 addr = true -> exists d, b = RawBody d /\ str_drop 4 d = data /\ be16 d = Z.of_nat seq)).
Proof.
  unfold outcome, effects, ping_reply. run_M.
  destruct (answer [] (ORead socket)) as [packet|e] eqn:Hr; cbn [fst snd]; [|by split].
  destruct (answer _ (OParseICMP packet)) as [b|e] eqn:Hp; cbn [fst snd]; [|by split].
  destruct (check_reply addr seq data b) as [key t| |] eqn:Hc; cbn [fst snd]; [|by split..].
  split; [simpl; by rewrite bool_decide_eq_true_2|].
  intros key' at_ [= <- <-]. unfold check_reply in Hc.
  split; [repeat (case_match; try congruence)|].
  exists packet, b. split_and!; try done; intros Hf; rewrite Hf in Hc.
  - go_cases. repeat case_bool_decide; simplify_eq/=. eauto.
  - assert (Is4 addr = false) as H4 by (by destruct addr). rewrite H4 in Hc.
    go_cases. repeat case_bool_decide; simplify_eq/=. eauto.
Qed.

(** Before the first pong every monitored address is recorded with time
    zero, so the readiness endpoint lists it from the start; records of other
    addresses are kept. *)
Theorem StartPingIPs_registers_all d :
  let d' := outcome (StartPingIPs d) in
  (forall a, a ∈ DeviceConfig.CheckAlive (VirtualTun.Conf d) ->
     VirtualTun.PingRecord d' !! Addr_String a = Some 0%Z) /\
  (forall key, (forall a, a ∈ DeviceConfig.CheckAlive (VirtualTun.Conf d) -> key <> Addr_String a) ->
     VirtualTun.PingRecord d' !! key = VirtualTun.PingRecord d !! key).
Proof.
  unfold outcome, StartPingIPs. run_M. cbn [VirtualTun.PingRecord].
  set (m := VirtualTun.PingRecord d). set (l := DeviceConfig.CheckAlive (VirtualTun.Conf d)).
  clearbody m l. split.
  - assert (forall a, (a ∈ l \/ m !! Addr_String a = Some 0%Z) ->
      foldl (fun m addr => <[Addr_String addr := 0%Z]> m) m l !! Addr_String a = Some 0%Z) as H; [|auto].
    intros a. revert m; induction l as [|b l IH]; intros m; simpl.
    + intros [?%not_elem_of_nil|?]; done.
    + intros [[->|?]%elem_of_cons|Hm]; apply IH; [right|by left|right].
      * by rewrite lookup_insert_eq.
      * rewrite lookup_insert. by case_decide.
  - intros key. revert m; induction l as [|b l IH]; intros m Hk; simpl; [done|].
    rewrite IH by (intros; apply Hk; by constructor).
    apply lookup_insert_ne. intros Hb. eapply Hk; [by constructor|done].
Qed.
End properties.

(** ** Witnesses *)
Module Sample.
#[export] Instance env : Environment := fun _ o => default_answer o.
Definition tun : VirtualTun.t :=
  VirtualTun.mk false (DeviceConfig.set_CheckAliveInterval 5 DeviceConfig.zero)
    (ResolveConfig.mk "ipv4") (<["10.0.0.1" := 0%Z]> ∅).

Lemma readyz_reports_stale_peers_witness :
  status (outcome (ServeHTTP tun "/readyz")) = 503%Z.
Proof.
  apply (readyz_reports_stale_peers tun "/readyz" 1700000000000000000%Z (fun _ => eq_refl)) with "10.0.0.1".
  - vm_compute. reflexivity.
  - vm_compute. reflexivity.
  - split; vm_compute; reflexivity.
Defined.

Lemma metrics_redact_keys_witness :
  metrics (render [("private_key", "aa"); ("endpoint", "h:1")]) =
  metrics (render [("private_key", "bb"); ("endpoint", "h:1")]).
Proof.
  apply (metrics_redact_keys [("private_key", "aa"); ("endpoint", "h:1")]
    [("private_key", "bb"); ("endpoint", "h:1")]).
  - repeat constructor.
  - repeat constructor.
  - vm_compute. reflexivity.
Defined.
End Sample.
