(* ===== verification/PingTable.v ===== *)
(** * PingTable: the record of pongs, shared by pings and requests

    [VirtualTun.PingRecord] is written by one goroutine per valid reply, under
    [PingRecordLock], and walked by [ServeHTTP] without it ([routine.go]).  A
    step is one lock operation, the begin or the end of a map write, or one
    round of a walk.  Go's map checks for concurrent use: a write that finds
    another one under way, and a round of a walk that finds a write under way,
    end the process with a fatal error that cannot be recovered.  The model takes
    the check as always noticing; the runtime documents it as best effort. *)

From S2P Require Import Prelude GoStr GoNetip Ini ConfigTypes World Health.

(** Where the goroutine of a valid reply is. *)
Inductive wpc :=
  | WLock              (* about to lock *)
  | WWrite             (* holding the lock, about to write *)
  | WWriting           (* inside the map assignment *)
  | WUnlock            (* about to unlock *)
  | WDone.
#[export] Instance wpc_eq_dec : EqDecision wpc.
Proof. solve_decision. Defined.

Record writer := mkWriter { key : string; at_ : Z; w_pc : wpc }.

Record state := mkState {
  record : gmap string Z;              (* [PingRecord] *)
  lock : option nat;                   (* [PingRecordLock]: who holds it *)
  writing : option nat;                (* the write under way *)
  writers : gmap nat writer;
  walks : gset nat;                    (* requests walking the map *)
  crashed : bool
}.
(** After [StartPingIPs] has registered the monitored addresses. *)
Definition init (registered : gmap string Z) : state := mkState registered None None ∅ ∅ false.

Inductive label :=
  | Pong (i : nat) (o : ping_outcome)  (* goroutine [i] accepts its reply *)
  | Lock (i : nat)
  | BeginWrite (i : nat)
  | EndWrite (i : nat)
  | Unlock (i : nat)
  | Request (r : nat)                  (* [ServeHTTP] starts to walk the map *)
  | WalkNext (r : nat)
  | WalkEnd (r : nat).

Definition set_writer (i : nat) (w : writer) (s : state) : state :=
  mkState (record s) (lock s) (writing s) (<[i:=w]> (writers s)) (walks s) (crashed s).
Definition goto (i : nat) (pc : wpc) (s : state) : state :=
  match writers s !! i with
  | Some w => set_writer i (mkWriter (key w) (at_ w) pc) s
  | None => s
  end.
Definition crash (s : state) : state :=
  mkState (record s) (lock s) (writing s) (writers s) (walks s) true.

Definition writer_step (l : label) (i : nat) (w : writer) (s : state) : option state :=
  match l, w_pc w with
  | Lock _, WLock =>
      match lock s with
      | None => Some (goto i WWrite (mkState (record s) (Some i) (writing s) (writers s) (walks s) (crashed s)))
      | Some _ => None
      end
  | BeginWrite _, WWrite =>
      match writing s with
      | None => Some (goto i WWriting (mkState (record s) (lock s) (Some i) (writers s) (walks s) (crashed s)))
      | Some _ => Some (crash s)                    (* concurrent map writes *)
      end
  | EndWrite _, WWriting =>
      Some (goto i WUnlock (mkState (<[key w := at_ w]> (record s)) (lock s) None (writers s) (walks s) (crashed s)))
  | Unlock _, WUnlock =>
      Some (goto i WDone (mkState (record s) None (writing s) (writers s) (walks s) (crashed s)))
  | _, _ => None
  end.

Definition step (l : label) (s : state) : option state :=
  if crashed s then None else
  match l with
  | Pong i o =>
      match o, writers s !! i with
      | Recorded key at_, None => Some (set_writer i (mkWriter key at_ WLock) s)
      | _, _ => None
      end
  | Lock i | BeginWrite i | EndWrite i | Unlock i => w ← writers s !! i; writer_step l i w s
  | Request r => Some (mkState (record s) (lock s) (writing s) (writers s) ({[r]} ∪ walks s) false)
  | WalkNext r =>
      if bool_decide (r ∈ walks s) then
        match writing s with
        | None => Some s
        | Some _ => Some (crash s)                  (* concurrent map iteration and map write *)
        end
      else None
  | WalkEnd r =>
      if bool_decide (r ∈ walks s)
      then Some (mkState (record s) (lock s) (writing s) (writers s) (walks s ∖ {[r]}) false) else None
  end.

(** ** The mutex excludes *)
Record inv (s : state) : Prop := {
  i_lock i w : writers s !! i = Some w -> (w_pc w = WWrite \/ w_pc w = WWriting \/ w_pc w = WUnlock <-> lock s = Some i);
  i_writing i w : writers s !! i = Some w -> (w_pc w = WWriting <-> writing s = Some i);
  i_locked i : lock s = Some i -> is_Some (writers s !! i);
  i_busy i : writing s = Some i -> is_Some (writers s !! i)
}.

Lemma ping_inv_init m : inv (init m).
Proof. split; simpl; [by intros i w ?%lookup_empty_Some..|done|done]. Qed.

(** One writer moves on, with the lock and the flag as its new place says. *)
Lemma ping_inv_goto s i w pc rec lk wr :
  inv s -> writers s !! i = Some w ->
  (lock s = None \/ lock s = Some i) -> (writing s = None \/ writing s = Some i) ->
  lk = (if decide (pc = WWrite \/ pc = WWriting \/ pc = WUnlock) then Some i else None) ->
  wr = (if decide (pc = WWriting) then Some i else None) ->
  inv (goto i pc (mkState rec lk wr (writers s) (walks s) (crashed s))).
Proof.
  intros [H1 H2 H3 H4] Hw Hl Hwr -> ->. unfold goto. cbn [writers]. rewrite Hw. split; simpl.
  - intros j wj. rewrite lookup_insert. destruct (decide (i = j)) as [<-|Hne].
    + intros [= <-]. simpl. destruct (decide _); intuition congruence.
    + intros Hj. specialize (H1 j wj Hj). rewrite H1. destruct (decide _); intuition congruence.
  - intros j wj. rewrite lookup_insert. destruct (decide (i = j)) as [<-|Hne].
    + intros [= <-]. simpl. destruct (decide _); intuition congruence.
    + intros Hj. specialize (H2 j wj Hj). rewrite H2. destruct (decide (pc = WWriting)); intuition congruence.
  - intros j. destruct (decide _); [|done]. intros [= <-]. rewrite lookup_insert_eq. by eexists.
  - intros j. destruct (decide _); [|done]. intros [= <-]. rewrite lookup_insert_eq. by eexists.
Qed.

Lemma ping_inv_crash s : inv s -> inv (crash s).
Proof. by intros []. Qed.

(** Whoever writes, and whoever is inside the critical section, holds the lock. *)
Lemma writing_holds_lock s i : inv s -> writing s = Some i -> lock s = Some i.
Proof.
  intros Hi Hw. destruct (i_busy s Hi i Hw) as [w Hj]. apply (i_lock s Hi i w Hj).
  right; left. by apply (i_writing s Hi i w Hj).
Qed.
Lemma critical_lock s i w :
  inv s -> writers s !! i = Some w -> w_pc w = WWrite \/ w_pc w = WWriting \/ w_pc w = WUnlock ->
  lock s = Some i /\ (writing s = None \/ writing s = Some i).
Proof.
  intros Hi Hw Hpc. assert (lock s = Some i) as Hl by (by apply (i_lock s Hi i w Hw)). split; [done|].
  destruct (writing s) as [j|] eqn:E; [right|by left]. apply writing_holds_lock in E; congruence.
Qed.

Lemma ping_inv_step l s s' : inv s -> step l s = Some s' -> inv s'.
Proof.
  intros Hi. unfold step. destruct (crashed s); [done|].
  assert (forall i w, writers s !! i = Some w -> writer_step l i w s = Some s' -> inv s') as Hw.
  { intros i w Hw Hs. unfold writer_step in Hs.
    destruct l; try discriminate Hs; destruct (w_pc w) eqn:Hpc; try discriminate Hs.
    - destruct (lock s) eqn:Hl; [done|]. injection Hs as <-.
      assert (writing s = None) as Hwn.
      { destruct (writing s) as [j|] eqn:E; [|done]. apply writing_holds_lock in E; [congruence|done]. }
      eapply ping_inv_goto; eauto.
    - destruct (critical_lock s i w Hi Hw) as [Hl Hwr]; [auto|].
      destruct (writing s) eqn:E; injection Hs as <-; [by apply ping_inv_crash|].
      eapply ping_inv_goto; eauto.
    - destruct (critical_lock s i w Hi Hw) as [Hl Hwr]; [auto|]. injection Hs as <-. by eapply ping_inv_goto; eauto.
    - destruct (critical_lock s i w Hi Hw) as [Hl Hwr]; [auto|]. injection Hs as <-. eapply ping_inv_goto; eauto.
      destruct Hwr as [->|Hwr]; [done|]. apply (i_writing s Hi i w Hw) in Hwr. congruence. }
  destruct l as [i o|i|i|i|i|r|r|r];
    try (destruct (writers s !! i) as [w|] eqn:E; [by eapply Hw|done]).
  - destruct o as [k a| |]; try done. destruct (writers s !! i) eqn:E; [done|]. intros [= <-].
    destruct Hi as [H1 H2 H3 H4]. split; simpl.
    + intros j wj. rewrite lookup_insert. destruct (decide (i = j)) as [<-|]; [|apply H1].
      intros [= <-]. simpl. split; [by intros [?|[?|?]]|]. intros Hl. destruct (H3 i Hl). congruence.
    + intros j wj. rewrite lookup_insert. destruct (decide (i = j)) as [<-|]; [|apply H2].
      intros [= <-]. simpl. split; [done|]. intros Hl. destruct (H4 i Hl). congruence.
    + intros j Hj. rewrite lookup_insert. destruct (decide (i = j)); [by eexists|auto].
    + intros j Hj. rewrite lookup_insert. destruct (decide (i = j)); [by eexists|auto].
  - intros [= <-]. by destruct Hi.
  - case_bool_decide; [|done]. destruct (writing s); intros [= <-]; [by apply ping_inv_crash|done].
  - case_bool_decide; [|done]. intros [= <-]. by destruct Hi.
Qed.

Lemma ping_inv_reachable m s : reachable step (init m) s -> inv s.
Proof. apply reachable_invariant; [apply ping_inv_init|]. intros. by eapply ping_inv_step. Qed.

Section properties.
Context (registered : gmap string Z).

(** C35: the mutex protects the record from its writers and from nobody else:
    in every interleaving of replies and requests, the process dies exactly
    when a request for [/readyz] walks the map while some goroutine, holding
    [PingRecordLock], is inside its write; two writes never meet. *)
Theorem readyz_crashes_on_a_pong l s s' :
  reachable step (init registered) s -> step l s = Some s' ->
  (crashed s' = true <->
   exists r i, l = WalkNext r /\ r ∈ walks s /\ writing s = Some i /\ lock s = Some i).
Proof.
  intros Hr Hs. pose proof (ping_inv_reachable _ _ Hr) as Hi. unfold step in Hs.
  destruct (crashed s) eqn:Hc; [done|].
  assert (forall i w, writers s !! i = Some w -> writer_step l i w s = Some s' -> crashed s' = false) as Hw.
  { intros i w Hw Hws. unfold writer_step in Hws.
    destruct l; try discriminate Hws; destruct (w_pc w) eqn:Hpc; try discriminate Hws.
    - destruct (lock s); [done|]. injection Hws as <-. unfold goto. simpl. by rewrite Hw.
    - destruct (critical_lock s i w Hi Hw) as [_ Hn]; [auto|].
      destruct (writing s) as [j|] eqn:E.
      + destruct Hn as [|[= ->]]; [done|]. apply (i_writing s Hi i w Hw) in E. congruence.
      + injection Hws as <-. unfold goto. simpl. by rewrite Hw.
    - injection Hws as <-. unfold goto. simpl. by rewrite Hw.
    - injection Hws as <-. unfold goto. simpl. by rewrite Hw. }
  split.
  - intros Hcr. destruct l as [i o|i|i|i|i|r|r|r];
      try (destruct (writers s !! i) as [w|] eqn:E; [by rewrite (Hw i w E Hs) in Hcr|done]).
    + destruct o; try done. destruct (writers s !! i); [done|]. injection Hs as <-. simpl in Hcr. congruence.
    + by injection Hs as <-.
    + case_bool_decide as Hin; [|done]. destruct (writing s) as [i|] eqn:E; injection Hs as <-; [|congruence].
      exists r, i. split_and!; try done. by apply writing_holds_lock.
    + case_bool_decide; [|done]. by injection Hs as <-.
  - intros (r & i & -> & Hin & Hwr & _). rewrite bool_decide_eq_true_2, Hwr in Hs by done. by injection Hs as <-.
Qed.
End properties.

(** ** A pong in the middle of a request *)
Module Scenario.
Definition pong : list label :=
  [Pong 0 (Recorded "10.0.0.1" 1700000000); Lock 0; Request 7; WalkNext 7; BeginWrite 0].
Definition s1 : state := after step (init {["10.0.0.1" := 0%Z]}) pong.

Lemma readyz_crashes_witness : exists s', step (WalkNext 7) s1 = Some s' /\ crashed s' = true.
Proof.
  exists (crash s1). assert (step (WalkNext 7) s1 = Some (crash s1)) as Hs by (vm_compute; reflexivity).
  split; [exact Hs|].
  apply (proj2 (readyz_crashes_on_a_pong {["10.0.0.1" := 0%Z]} (WalkNext 7) s1 (crash s1)
    (reachable_after step _ pong) Hs)).
  exists 7, 0. split; [reflexivity|]. split; [|split; vm_compute; reflexivity].
  apply (bool_decide_unpack _). vm_compute. exact I.
Defined.
End Scenario.
