(* ===== verification/Cli.v ===== *)
(** * Cli: the command line program, [cmd/wireproxy/main.go] and [landlock_other.go]

    [main] up to the point where every routine serves.  The argument parser and
    Landlock, [pledge] and [unveil] are third-party code: the parsed options are
    an argument, the sandbox calls are operations of the world. *)

From S2P Require Import Prelude GoStr GoNet GoNetip Ini ConfigTypes World Config ConfigProps Router Resolver Sni.
From S2P Require Import Shutdown Lifecycle ClientBind Wireguard Health.

(** ** Leaving the process *)
Inductive exit :=
  | Fatal (err : error)        (* log.Fatal *)
  | Panic (err : error)        (* panic *)
  | Throw (msg : string)       (* a fatal error of the Go runtime, not recoverable *)
  | Return.                    (* main returns *)

(** A piece of [main]: it goes on with a value or leaves. *)
Definition P (A : Type) : Type := M (A + exit).
Definition go_on {A} (a : A) : P A := ret (inl a).
Definition leave {A} (e : exit) : P A := ret (inr e).
Definition pbind_ {A B} (m : P A) (k : A -> P B) : P B :=
  bind m (fun r => match r with inl a => k a | inr e => leave e end).
Notation "'run!' x ':=' m 'in' k" := (pbind_ m (fun x => k))
  (at level 10, x pattern, m at level 100, k at level 200) : go_scope.
Definition lift {A} (m : M A) : P A := let! a := m in go_on a.

(** The options as [argparse] returns them. *)
Record options := mkOptions {
  config : string;
  silent : bool;
  daemon : bool;
  info : string;
  printVersion : bool;
  configTest : bool
}.

Definition daemonProcess : string := "daemon-process".
Definition version : string := "1.0.8-dev".

(** [tlsFilePaths]: the certificate and key files of the HTTP sections. *)
Fixpoint tlsFilePaths `{RegexpLib} (routines : list RoutineSpawner) : list string :=
  match routines with
  | [] => []
  | HTTP http :: routines' =>
      (if bool_decide (HTTPConfig.CertFile http = "") then [] else [HTTPConfig.CertFile http]) ++
      (if bool_decide (HTTPConfig.KeyFile http = "") then [] else [HTTPConfig.KeyFile http]) ++
      tlsFilePaths routines'
  | _ :: routines' => tlsFilePaths routines'
  end.

(** The static read-only and read-write files of the "ready" stage. *)
Definition ready_rules : list rule :=
  (ROFiles <$> ["/etc/resolv.conf"; "/dev/fd"; "/dev/zero"; "/dev/urandom"; "/etc/localtime";
                "/proc/self/stat"; "/proc/self/status"; "/usr/share/locale"; "/proc/self/cmdline";
                "/usr/share/zoneinfo"; "/proc/sys/kernel/version"; "/proc/sys/kernel/ngroups_max";
                "/proc/sys/kernel/cap_last_cap"; "/proc/sys/vm/overcommit_memory"]) ++
  (RWFiles <$> ["/dev/log"; "/dev/null"; "/dev/full"; "/proc/self/fd"]).

(** [extractPort]: the conversion to [uint16] truncates; a failure panics. *)
Definition extractPort (addr : string) : Z + exit :=
  match SplitHostPort addr with
  | Err err => inr (Panic (Errorf_w ("failed to extract port from " +:+ addr +:+ ": ") err))
  | Ok (_, portStr) =>
      match Atoi portStr with
      | Err err => inr (Panic (Errorf_w ("failed to extract port from " +:+ addr +:+ ": ") err))
      | Ok port => inl (wrapu16 port)
      end
  end.

(** The rule of one section in [lockNetwork], if it has one. *)
Definition section_rule `{RegexpLib} (section : RoutineSpawner) : option rule + exit :=
  let with_port (r : Z -> rule) (addr : string) : option rule + exit :=
    match extractPort addr with inl p => inl (Some (r p)) | inr e => inr e end in
  match section with
  | TCPServerTunnel c => with_port ConnectTCP (TCPServerTunnelConfig.Target c)
  | HTTP c => with_port BindTCP (HTTPConfig.BindAddress c)
  | TCPClientTunnel c => inl (Some (BindTCP (wrapu16 (TCPAddr_Port (TCPClientTunnelConfig.BindAddress c)))))
  | Socks5 c => with_port BindTCP (Socks5Config.BindAddress c)
  | SNI c => with_port BindTCP (SNIConfig.BindAddress c)
  | STDIOTunnel _ | UDPServerTunnel _ | UDPProxyTunnel _ => inl None
  end.
Fixpoint section_rules `{RegexpLib} (sections : list RoutineSpawner) : list rule + exit :=
  match sections with
  | [] => inl []
  | s :: sections' =>
      match section_rule s with
      | inr e => inr e
      | inl r =>
          match section_rules sections' with
          | inr e => inr e
          | inl rs => inl (option_list r ++ rs)
          end
      end
  end.
Definition network_rules `{RegexpLib} (sections : list RoutineSpawner) (infoAddr : string)
    : list rule + exit :=
  let first : list rule + exit :=
    if bool_decide (infoAddr = "") then inl []
    else match extractPort infoAddr with inl p => inl [BindTCP p] | inr e => inr e end in
  match first with
  | inr e => inr e
  | inl rs => match section_rules sections with inl rs' => inl (rs ++ rs') | inr e => inr e end
  end.

(** ** The two builds of the Landlock calls

    [landlock_other.go] asks the kernel; [landlock_android.go] does nothing,
    since even probing for Landlock kills an Android process. *)
Class Landlock := {
  restrictPaths : list rule -> M (option error);
  restrictNet : list rule -> M (option error)
}.
Definition landlock_other `{Environment} : Landlock := {|
  restrictPaths rules := perform (ORestrictPaths rules);
  restrictNet rules := perform (ORestrictNet rules)
|}.
Definition landlock_android : Landlock := {|
  restrictPaths _ := ret None;
  restrictNet _ := ret None
|}.

Section main.
Context `{UT : UnicodeTables, IL : IniLib, RL : RegexpLib, CE : ConfigEnv, E : Environment}
  {TL : TlsLib} {SL : Socks5Lib} {HD : Heredoc} {LL : Landlock}.

Definition panicIfError (m : M (option error)) : P unit :=
  let! err := m in match err with Some err => leave (Fatal err) | None => go_on tt end.

Definition pledgeOrPanic (promises : string) : P unit := panicIfError (perform (OPledge promises)).
Definition unveilOrPanic (path flags : string) : P unit := panicIfError (perform (OUnveil path flags)).

Definition executablePath (arg0 : string) : M string :=
  let! r := perform OExecutable in
  ret (match r with Ok p => p | Err _ => arg0 end).

Fixpoint first_existing (paths : list string) : M (option string) :=
  match paths with
  | [] => ret None
  | path :: paths' =>
      let! err := perform (OStat path) in
      match err with None => ret (Some path) | Some _ => first_existing paths' end
  end.
Definition default_config_paths (home : string) : list string :=
  ["/etc/wireproxy/wireproxy.conf"; home +:+ "/.config/wireproxy.conf"].
Definition configFilePath (home : string) : M (option string) :=
  first_existing (default_config_paths home).

Definition lock (arg0 stage : string) (roFiles : list string) : P unit :=
  if bool_decide (stage = "boot") then
    run! exePath := lift (executablePath arg0) in
    run! _ := unveilOrPanic "/" "r" in
    run! _ := unveilOrPanic exePath "x" in
    run! _ := pledgeOrPanic "stdio rpath inet dns proc exec" in
    panicIfError (restrictPaths [RODirs "/"; RWFiles "/dev/null"])
  else if bool_decide (stage = "boot-daemon") then go_on tt
  else if bool_decide (stage = "read-config") then pledgeOrPanic "stdio rpath inet dns"
  else if bool_decide (stage = "ready") then
    run! _ := pledgeOrPanic "stdio inet dns" in
    run! _ := lift (perform OPreferGo) in
    panicIfError (restrictPaths (ready_rules ++ (ROFiles <$> roFiles)))
  else leave (Panic (errorString "invalid stage")).

Definition lockNetwork (sections : list RoutineSpawner) (infoAddr : string) : P unit :=
  match network_rules sections infoAddr with
  | inr e => leave e
  | inl rules => panicIfError (restrictNet rules)
  end.

(** [for _, spawner := range conf.Routines { spawner.Bind(tun) }] *)
Fixpoint bind_all (spawners : list RoutineSpawner) : P (list RoutineSpawner) :=
  match spawners with
  | [] => go_on []
  | s :: spawners' =>
      let! (s', err) := Bind s in
      match err with
      | Some err => leave (Fatal err)
      | None => run! bound := bind_all spawners' in go_on (s' :: bound)
      end
  end.

Fixpoint serve_all (i : nat) (spawners : list RoutineSpawner) : P unit :=
  match spawners with
  | [] => go_on tt
  | _ :: spawners' => run! _ := lift (perform (OGo (ServeRoutine i))) in serve_all (S i) spawners'
  end.

(** The part of [main] that runs the tunnel. *)
Definition start (conf : Configuration.t) (infoAddr : string)
    : P (VirtualTun.t * list RoutineSpawner) :=
  run! (conf, tun) := lift (StartWireguard conf) in
  match tun with
  | Err err => leave (Fatal err)
  | Ok tun =>
      run! bound := bind_all (Configuration.Routines conf) in
      run! _ := serve_all 0 bound in
      run! tun := lift (StartPingIPs tun) in
      run! _ := (if bool_decide (infoAddr = "") then go_on tt
                 else lift (perform (OGo (HealthServer infoAddr)))) in
      go_on (tun, bound)
  end.

(** [main] from the reading of the configuration on. *)
Definition run_configured (arg0 exePath : string) (args : list string) (isDaemonProcess : bool)
    (opts : options) (path : string) : P (VirtualTun.t * list RoutineSpawner) :=
  run! conf := lift (ParseConfig path) in
  match conf with
  | Err err => leave (Fatal err)
  | Ok conf =>
      if configTest opts
      then run! _ := lift (perform (OPrint "Config OK")) in leave Return
      else
        run! _ := lockNetwork (Configuration.Routines conf) (info opts) in
        run! _ := (if isDaemonProcess
                   then run! _ := lift (perform (OOpen "/dev/null")) in
                        run! _ := lift (perform (OOpen "/dev/null")) in go_on tt
                   else go_on tt) in
        if daemon opts && negb isDaemonProcess then
          let! err := perform (OSpawn exePath (daemonProcess :: drop 1 args)) in
          run! _ := match err with
                    | Some err => lift (perform (OPrint (Error err)))
                    | None => go_on tt
                    end in
          leave Return
        else
          run! _ := lock arg0 "ready" (tlsFilePaths (Configuration.Routines conf)) in
          start conf (info opts)
  end.

(** [args] is [os.Args]; [parsed] what [argparse] makes of it. *)
Definition main (args : list string) (home : string) (parsed : result options)
    : P (VirtualTun.t * list RoutineSpawner) :=
  let arg0 := default "" (head args) in
  run! exePath := lift (executablePath arg0) in
  run! _ := lock arg0 "boot" [] in
  let isDaemonProcess := bool_decide (args !! 1 = Some daemonProcess) in
  let args := if isDaemonProcess then arg0 :: drop 2 args else args in
  run! _ := (if isDaemonProcess then lock arg0 "boot-daemon" [] else go_on tt) in
  match parsed with
  | Err err => run! _ := lift (perform (OPrint (Error err))) in leave Return
  | Ok opts =>
      if printVersion opts
      then run! _ := lift (perform (OPrint ("wireproxy, version " +:+ version))) in leave Return
      else
        run! path := (if bool_decide (config opts = "")
                      then lift (configFilePath home) else go_on (Some (config opts))) in
        match path with
        | None => run! _ := lift (perform (OPrint "configuration path is required")) in leave Return
        | Some path =>
            run! _ := (if negb (daemon opts) then lock arg0 "read-config" [] else go_on tt) in
            run_configured arg0 exePath args isDaemonProcess opts path
        end
  end.
End main.

(** ** Lemmas *)
Section lemmas.
Context `{UT : UnicodeTables, IL : IniLib, RL : RegexpLib, CE : ConfigEnv, E : Environment}
  {TL : TlsLib} {SL : Socks5Lib} {HD : Heredoc}.

(** Success of a sequence is success of its parts. *)
Lemma pbind_inl {A B} (m : P A) (k : A -> P B) tr b tr' :
  pbind_ m k tr = (inl b, tr') <->
  exists a tr1, m tr = (inl a, tr1) /\ k a tr1 = (inl b, tr').
Proof.
  unfold pbind_, bind. destruct (m tr) as [[a|e] tr1]; [naive_solver|].
  unfold leave, ret. split; [done|naive_solver].
Qed.
Lemma lift_inl {A} (m : M A) tr a tr' : lift m tr = (inl a, tr') <-> m tr = (a, tr').
Proof. unfold lift, bind, go_on, ret. destruct (m tr). naive_solver. Qed.

(** A restriction of the process that was asked for and granted; the choice of
    the resolver cannot fail. *)
Definition granted (before : trace) (o : op) : Prop :=
  match o return ans o -> Prop with
  | OPledge _ | OUnveil _ _ | ORestrictPaths _ | ORestrictNet _ => fun err => err = None
  | OPreferGo => fun _ => True
  | _ => fun _ => False
  end (answer before o).
Definition applied (o : op) (tr : trace) : Prop :=
  exists before later, tr = before ++ o :: later /\ granted before o.

Lemma applied_app o tr new : applied o tr -> applied o (tr ++ new).
Proof.
  intros (t1 & t2 & -> & Hg). exists t1, (t2 ++ new). by rewrite <- (assoc_L (++)).
Qed.
Lemma panicIfError_inl (o : op) (m : M (option error)) tr u tr' :
  snd (m tr) = tr ++ [o] -> (fst (m tr) = None -> granted tr o) ->
  panicIfError m tr = (inl u, tr') -> tr' = tr ++ [o] /\ applied o tr'.
Proof.
  unfold panicIfError, bind. destruct (m tr) as [[e|] t]; simpl; unfold leave, go_on, ret;
    intros -> Hg [= _ <-]. split; [done|]. exists tr, []. auto.
Qed.

Lemma section_rules_inl sections rs :
  section_rules sections = inl rs ->
  forall r, r ∈ rs <-> exists s, s ∈ sections /\ section_rule s = inl (Some r).
Proof.
  revert rs; induction sections as [|s ss IH]; intros rs; simpl.
  - intros [= <-] r. split; [by intros ?%not_elem_of_nil|]. by intros (s & ?%not_elem_of_nil & _).
  - destruct (section_rule s) as [o|e] eqn:Hs; [|done].
    destruct (section_rules ss) as [rs'|e]; [|done]. intros [= <-] r.
    rewrite elem_of_app, (IH rs') by done. split.
    + intros [Hin|(s' & Hin & Hr)]; [|exists s'; by split; [right|]].
      exists s. split; [by left|]. rewrite Hs. destruct o; simpl in Hin; [|by apply not_elem_of_nil in Hin].
      by apply list_elem_of_singleton in Hin as ->.
    + intros (s' & [->|Hin]%elem_of_cons & Hr); [left|right; eauto].
      rewrite Hs in Hr. injection Hr as ->. simpl. by apply list_elem_of_singleton.
Qed.
Lemma section_rules_all sections rs s :
  section_rules sections = inl rs -> s ∈ sections -> exists o, section_rule s = inl o.
Proof.
  revert rs; induction sections as [|s' ss IH]; intros rs; simpl; [by intros _ ?%not_elem_of_nil|].
  destruct (section_rule s') as [o|e] eqn:Hs; [|done].
  destruct (section_rules ss) as [rs'|e] eqn:Hr; [|done].
  intros _ [->|Hin]%elem_of_cons; eauto.
Qed.

(** The TCP port a listen call binds on the host. *)
Definition host_port (o : op) : option Z :=
  let port addr :=
    match SplitHostPort addr with
    | Ok (_, p) => match Atoi p with Ok n => Some n | Err _ => None end
    | Err _ => None
    end in
  match o with
  | OListen Direct "tcp" addr => port addr
  | OListenTLS _ addr _ _ => port addr
  | OListenTCP a => Some (TCPAddr_Port a)
  | _ => None
  end.

Lemma extractPort_host addr p :
  match SplitHostPort addr with
  | Ok (_, p) => match Atoi p with Ok n => Some n | Err _ => None end
  | Err _ => None
  end = Some p -> extractPort addr = inl (wrapu16 p).
Proof. unfold extractPort. repeat case_match; naive_solver. Qed.
End lemmas.

Section properties.
Context `{UT : UnicodeTables, IL : IniLib, RL : RegexpLib, CE : ConfigEnv, E : Environment}
  {TL : TlsLib} {SL : Socks5Lib} {HD : Heredoc}.

(** C25: the network sandbox never gets in the way of the listeners: every TCP
    port a routine of the configuration listens on, on the host, is allowed by
    the rules, for valid port numbers. *)
Theorem sandbox_allows_every_listener sections infoAddr rules r resolved o p
    (Hrules : network_rules sections infoAddr = inl rules)
    (Hr : r ∈ sections) (Ho : o ∈ listen_ops r resolved) (Hport : host_port o = Some p)
    (Hvalid : (0 <= p < 65536)%Z) :
  BindTCP p ∈ rules.
Proof.
  unfold network_rules in Hrules.
  destruct (if bool_decide (infoAddr = "") then _ else _) as [first|e]; [|done].
  destruct (section_rules sections) as [rs|e] eqn:Hs; [|done]. injection Hrules as <-.
  apply elem_of_app. right. apply (section_rules_inl _ _ Hs). exists r. split; [done|].
  rewrite <- (wrapu16_small p) by done.
  destruct r as [c|c|c|c|c|c|c|c]; simpl in Ho |- *;
    try (destruct (decide _) in Ho); try apply list_elem_of_singleton in Ho;
    try (by apply not_elem_of_nil in Ho); subst o; simpl in Hport; try done;
    try (by apply extractPort_host in Hport as ->).
  by injection Hport as ->.
Qed.

(** C39: outgoing TCP connections are allowed to exactly the target ports of
    the TCP server tunnels; in particular nothing allows the direct
    connections that a domain whitelist asks of the HTTP, SNI and SOCKS5
    proxies. *)
Theorem sandbox_connects_only_to_server_targets sections infoAddr rules p
    (Hrules : network_rules sections infoAddr = inl rules) :
  ConnectTCP p ∈ rules <->
  exists c, TCPServerTunnel c ∈ sections /\
    extractPort (TCPServerTunnelConfig.Target c) = inl p.
Proof.
  unfold network_rules in Hrules.
  assert (forall first, (if bool_decide (infoAddr = "") then inl []
    else match extractPort infoAddr with inl p => inl [BindTCP p] | inr e => inr e end) = inl first ->
    ConnectTCP p ∉ first) as Hfirst.
  { intros first. repeat case_match; intros [= <-]; set_solver. }
  destruct (if bool_decide (infoAddr = "") then _ else _) as [first|e]; [|done].
  destruct (section_rules sections) as [rs|e] eqn:Hs; [|done]. injection Hrules as <-.
  rewrite elem_of_app, (section_rules_inl _ _ Hs). split.
  - intros [Hf|(r & Hr & Hrule)]; [by destruct (Hfirst _ eq_refl)|].
    destruct r as [c|c|c|c|c|c|c|c]; simpl in Hrule; try done;
      destruct (extractPort _) eqn:Hp; try done. injection Hrule as ->. eauto.
  - intros (c & Hc & Hp). right. exists (TCPServerTunnel c). split; [done|]. simpl. by rewrite Hp.
Qed.

(** The files an HTTP section with TLS will load are among the files the
    sandbox leaves readable. *)
Theorem sandbox_leaves_tls_files_readable routines h cert key
    (Hin : HTTP h ∈ routines) (Hload : OLoadX509KeyPair cert key ∈ effects (Bind h)) :
  ROFiles cert ∈ ready_rules ++ (ROFiles <$> tlsFilePaths routines) /\
  ROFiles key ∈ ready_rules ++ (ROFiles <$> tlsFilePaths routines).
Proof.
  assert (cert = HTTPConfig.CertFile h /\ key = HTTPConfig.KeyFile h /\ cert <> "" /\ key <> "") as
    (-> & -> & Hc & Hk).
  { revert Hload. unfold effects. simpl. unfold HTTP_Bind. repeat case_bool_decide; simpl;
      run_M; repeat case_match; cbn; set_solver. }
  assert (HTTPConfig.CertFile h ∈ tlsFilePaths routines /\ HTTPConfig.KeyFile h ∈ tlsFilePaths routines)
    as [H1 H2].
  { induction routines as [|r rs IH]; [by apply not_elem_of_nil in Hin|].
    apply elem_of_cons in Hin as [<-|Hin].
    - simpl. rewrite !bool_decide_eq_false_2 by done. set_solver.
    - destruct (IH Hin). destruct r; simpl; set_solver. }
  rewrite !elem_of_app. set_solver.
Qed.

(** ** Bind before serve *)

Definition no_spawn (o : op) : bool := negb (spawns o).

Lemma bind_all_spec rs tr :
  exists new, snd (bind_all rs tr) = tr ++ new /\ Forall no_spawn new /\
    match fst (bind_all rs tr) with
    | inl bound => Forall2 (fun r r' => exists t, fst (Bind r t) = (r', None)) rs bound
    | inr e => exists err, e = Fatal err
    end.
Proof.
  revert tr; induction rs as [|r rs IH]; intros tr; cbn [bind_all].
  { exists []. rewrite app_nil_r. by repeat constructor. }
  unfold bind. destruct (Bind_does r tr) as (n1 & H1 & F1).
  destruct (Bind r tr) as [[r' err] t1] eqn:Hb. simpl in H1. subst t1.
  assert (Forall no_spawn n1) as F1'.
  { eapply Forall_impl; [exact F1|]. by intros []. }
  destruct err as [err|]; [exists n1; split; [done|]; split; [done|]; by eexists|].
  destruct (IH (tr ++ n1)) as (n2 & H2 & F2 & Hres). unfold pbind_, bind.
  unfold go_on, leave, ret.
  destruct (bind_all rs (tr ++ n1)) as [[bound|e] t2]; cbn [fst snd] in *; subst t2;
    exists (n1 ++ n2); (split; [by rewrite (assoc_L (++))|]); (split; [by apply Forall_app|]);
    [constructor; [|done]|done].
  exists tr. by rewrite Hb.
Qed.

Lemma serve_all_spec i (rs : list RoutineSpawner) tr :
  serve_all i rs tr = (inl tt, tr ++ ((fun j => OGo (ServeRoutine j)) <$> seq i (length rs))).
Proof.
  revert i tr; induction rs as [|r rs IH]; intros i tr; cbn [serve_all length seq fmap list_fmap].
  - by rewrite app_nil_r.
  - unfold pbind_, lift. run_M. unfold go_on, ret. cbn. rewrite IH. by rewrite <- (assoc_L (++)).
Qed.

Lemma Start_does conf : does no_spawn (StartWireguard conf).
Proof. unfold StartWireguard, StartWireguardWithLogger. rewrite CreateIPCRequest_render. does_auto. Qed.

Lemma no_spawn_ops l : Forall no_spawn l -> ops_of spawns l = [].
Proof. induction 1 as [|o l Ho _ IH]; simpl; [done|]. by destruct o. Qed.

(** C24: the program binds everything before it serves anything: a start that
    fails, at the device or at any [Bind], is fatal with no goroutine started;
    a start that succeeds has bound every routine of the configuration, in
    order, before one goroutine per routine, the ping loop and, if asked for,
    the health endpoint are started. *)
Theorem start_binds_before_serving conf infoAddr :
  let '(r, tr) := start conf infoAddr [] in
  match r with
  | inr e => (exists err, e = Fatal err) /\ ops_of spawns tr = []
  | inl (tun, bound) =>
      Forall2 (fun r r' => exists t, fst (Bind r t) = (r', None)) (Configuration.Routines conf) bound /\
      exists pre, ops_of spawns pre = [] /\
        tr = pre ++ ((fun j => OGo (ServeRoutine j)) <$> seq 0 (length (Configuration.Routines conf))) ++
             [OGo PingLoop] ++
             (if decide (infoAddr = "") then [] else [OGo (HealthServer infoAddr)])
  end.
Proof.
  unfold start. unfold pbind_ at 1. unfold lift at 1. unfold bind at 1 2.
  destruct (Start_does conf []) as (n1 & H1 & F1).
  assert (Configuration.Routines (fst (fst (StartWireguard conf []))) = Configuration.Routines conf)
    as Hr.
  { unfold StartWireguard, StartWireguardWithLogger. rewrite CreateIPCRequest_render. run_M. by repeat case_match. }
  destruct (StartWireguard conf []) as [[conf' tun] t1]. cbn [fst snd] in *.
  simpl in H1. subst t1. cbn. destruct tun as [tun|err]; cbn.
  2:{ split; [by eexists|by apply no_spawn_ops]. }
  rewrite Hr. unfold pbind_ at 1. unfold bind at 1.
  destruct (bind_all_spec (Configuration.Routines conf) n1) as (n2 & H2 & F2 & Hres).
  destruct (bind_all (Configuration.Routines conf) n1) as [[bound|e] t2]; cbn [fst snd] in *; subst t2.
  2:{ destruct Hres as [err ->]. split; [by eexists|]. by apply no_spawn_ops, Forall_app. }
  unfold pbind_ at 1. unfold bind at 1. rewrite serve_all_spec.
  assert (length bound = length (Configuration.Routines conf)) as ->
    by (symmetry; by eapply Forall2_length).
  unfold StartPingIPs, pbind_, lift. run_M. unfold go_on, ret. cbn.
  case_bool_decide as Hi; [rewrite decide_True by done|rewrite decide_False by done]; cbn;
    (split; [done|]); exists (n1 ++ n2);
    (split; [by apply no_spawn_ops, Forall_app|]); by rewrite <- !(assoc_L (++)).
Qed.

(** ** Sandbox before start, where Landlock is used *)
#[local] Existing Instance landlock_other.

(** What [main] itself does before the tunnel, apart from reading the
    configuration: no network operation, no file but [Stat] of the default
    configurations and the null device. *)
Definition setup_op (o : op) : bool :=
  match o with
  | OExecutable | OPledge _ | OUnveil _ _ | ORestrictPaths _ | ORestrictNet _ | OStat _ | OPrint _
  | OPreferGo | OOpen _ => true
  | _ => false
  end.

(** A successful piece of the set-up extends the trace by set-up operations,
    and [musts] are granted among them. *)
Definition sets_up {A} (musts : trace) (m : P A) : Prop :=
  forall tr a tr', m tr = (inl a, tr') ->
    exists new, tr' = tr ++ new /\ Forall setup_op new /\ Forall (fun o => applied o tr') musts.

Lemma sets_up_go_on {A} (a : A) : sets_up [] (go_on a).
Proof. intros tr b tr' [= <- <-]. exists []. by rewrite app_nil_r. Qed.
Lemma sets_up_leave {A} e musts : sets_up musts (leave (A := A) e).
Proof. by intros tr b tr' [=]. Qed.
Lemma sets_up_bind {A B} l1 l2 (m : P A) (k : A -> P B) :
  sets_up l1 m -> (forall a, sets_up l2 (k a)) -> sets_up (l1 ++ l2) (pbind_ m k).
Proof.
  intros Hm Hk tr b tr' (a & t1 & H1 & H2)%pbind_inl.
  destruct (Hm _ _ _ H1) as (n1 & -> & F1 & M1). destruct (Hk _ _ _ _ H2) as (n2 & -> & F2 & M2).
  exists (n1 ++ n2). split; [by rewrite (assoc_L (++))|]. split; [by apply Forall_app|].
  apply Forall_app; split; [|done]. eapply Forall_impl; [exact M1|]. intros o. apply applied_app.
Qed.
Lemma sets_up_panic (o : op) (m : M (option error)) :
  setup_op o = true -> (forall tr, snd (m tr) = tr ++ [o]) ->
  (forall tr, fst (m tr) = None -> granted tr o) -> sets_up [o] (panicIfError m).
Proof.
  intros Ho Hm Hg tr u tr' H. destruct (panicIfError_inl o m tr u tr') as [-> Ha]; auto.
  exists [o]. split; [done|]. split; apply Forall_singleton; [by rewrite Ho|done].
Qed.
Lemma lockNetwork_inl sections infoAddr tr u tr' :
  lockNetwork sections infoAddr tr = (inl u, tr') ->
  exists rules, network_rules sections infoAddr = inl rules /\
    tr' = tr ++ [ORestrictNet rules] /\ applied (ORestrictNet rules) tr'.
Proof.
  unfold lockNetwork. destruct (network_rules _ _) as [rules|e]; [|done]. intros H.
  exists rules. split; [done|]. eapply panicIfError_inl; [..|exact H]; [done|auto].
Qed.
Lemma sets_up_lift {A} (m : M A) : does setup_op m -> sets_up [] (lift m).
Proof.
  intros Hm tr a tr' H. apply (proj1 (lift_inl _ _ _ _)) in H. destruct (Hm tr) as (new & Hn & F). rewrite H in Hn. simpl in Hn.
  exists new. by subst.
Qed.

Lemma first_existing_does paths : does setup_op (first_existing paths).
Proof. induction paths as [|p ps IH]; cbn [first_existing]; does_auto. Qed.

Lemma sets_up_nil {A} l (m : P A) : sets_up l m -> sets_up [] m.
Proof. intros Hm tr a tr' H. destruct (Hm _ _ _ H) as (new & ? & ? & _). by exists new. Qed.
Lemma sets_up_then {A B} l (m : P A) (k : A -> P B) :
  sets_up [] m -> (forall a, sets_up l (k a)) -> sets_up l (pbind_ m k).
Proof. apply (sets_up_bind [] l). Qed.

Lemma sets_up_if {A} l (c : bool) (m1 m2 : P A) :
  sets_up l m1 -> sets_up l m2 -> sets_up l (if c then m1 else m2).
Proof. by destruct c. Qed.

Lemma pledge_sets_up p : sets_up [OPledge p] (pledgeOrPanic p).
Proof. by apply sets_up_panic. Qed.
Lemma unveil_sets_up p f : sets_up [OUnveil p f] (unveilOrPanic p f).
Proof. by apply sets_up_panic. Qed.

Lemma lock_boot arg0 :
  sets_up [ORestrictPaths [RODirs "/"; RWFiles "/dev/null"]] (lock arg0 "boot" []).
Proof.
  unfold lock. rewrite bool_decide_eq_true_2 by done.
  apply sets_up_then; [apply sets_up_lift; unfold executablePath; does_auto|intros exe].
  repeat (apply sets_up_then; [eapply sets_up_nil, unveil_sets_up|intros _]).
  apply sets_up_then; [eapply sets_up_nil, pledge_sets_up|intros _].
  by apply sets_up_panic.
Qed.
Lemma prefer_go_sets_up : sets_up [OPreferGo] (lift (perform OPreferGo)).
Proof.
  intros tr u tr' [= <- <-]. exists [OPreferGo]. split; [done|].
  split; apply Forall_singleton; [done|]. by exists tr, [].
Qed.
Lemma lock_ready arg0 files :
  sets_up [OPreferGo; ORestrictPaths (ready_rules ++ (ROFiles <$> files))] (lock arg0 "ready" files).
Proof.
  unfold lock. do 3 rewrite bool_decide_eq_false_2 by done. rewrite bool_decide_eq_true_2 by done.
  apply sets_up_then; [eapply sets_up_nil, pledge_sets_up|intros _].
  apply (sets_up_bind [OPreferGo]); [apply prefer_go_sets_up|intros _]. by apply sets_up_panic.
Qed.
Lemma lock_read_config arg0 : sets_up [OPledge "stdio rpath inet dns"] (lock arg0 "read-config" []).
Proof. apply pledge_sets_up. Qed.
Lemma quiet_daemon_sets_up (c : bool) :
  sets_up [] (if c then run! _ := lift (perform (OOpen "/dev/null")) in
                        run! _ := lift (perform (OOpen "/dev/null")) in go_on tt
              else go_on tt).
Proof.
  apply sets_up_if; [|apply sets_up_go_on].
  do 2 (apply sets_up_then; [by apply sets_up_lift, does_perform|intros _]). apply sets_up_go_on.
Qed.

(** [main] up to the reading of the configuration. *)
Lemma main_boots args home parsed x tr' :
  main args home parsed [] = (inl x, tr') ->
  exists opts path exe args' d boot,
    parsed = Ok opts /\ printVersion opts = false /\ (config opts <> "" -> path = config opts) /\
    Forall setup_op boot /\ applied (ORestrictPaths [RODirs "/"; RWFiles "/dev/null"]) boot /\
    (daemon opts = false -> applied (OPledge "stdio rpath inet dns") boot) /\
    run_configured (default "" (head args)) exe args' d opts path boot = (inl x, tr').
Proof.
  intros Hmain. unfold main in Hmain. set (arg0 := default "" (head args)) in *.
  assert (sets_up [] (lift (executablePath arg0))) as Hexe
    by (apply sets_up_lift; unfold executablePath; does_auto).
  apply pbind_inl in Hmain as (exe & t1 & H1 & Hmain). apply Hexe in H1 as (n1 & -> & F1 & _).
  apply pbind_inl in Hmain as (u2 & t2 & H2 & Hmain).
  apply lock_boot in H2 as (n2 & -> & F2 & M2). apply (proj1 (Forall_singleton _ _)) in M2.
  apply pbind_inl in Hmain as (u3 & t3 & H3 & Hmain).
  assert (sets_up [] (if bool_decide (args !! 1 = Some daemonProcess)
    then lock arg0 "boot-daemon" [] else go_on tt)) as Hd
    by (apply sets_up_if; [|apply sets_up_go_on];
        unfold lock; rewrite bool_decide_eq_false_2, bool_decide_eq_true_2 by done; apply sets_up_go_on).
  apply Hd in H3 as (n3 & -> & F3 & _).
  destruct parsed as [opts|e]; [|by apply pbind_inl in Hmain as (? & ? & _ & ?)].
  destruct (printVersion opts) eqn:Hv; [by apply pbind_inl in Hmain as (? & ? & _ & ?)|].
  apply pbind_inl in Hmain as (path & t4 & H4 & Hmain).
  assert (sets_up [] (if bool_decide (config opts = "") then lift (configFilePath home)
    else go_on (Some (config opts)))) as Hp
    by (apply sets_up_if; [apply sets_up_lift, first_existing_does|apply sets_up_go_on]).
  pose proof H4 as Hpath. apply Hp in H4 as (n4 & -> & F4 & _).
  destruct path as [path|]; [|by apply pbind_inl in Hmain as (? & ? & _ & ?)].
  apply pbind_inl in Hmain as (u5 & t5 & H5 & Hmain).
  assert (sets_up (if daemon opts then [] else [OPledge "stdio rpath inet dns"])
    (if negb (daemon opts) then lock arg0 "read-config" [] else go_on tt)) as Hr
    by (destruct (daemon opts); [apply sets_up_go_on|apply lock_read_config]).
  apply Hr in H5 as (n5 & -> & F5 & M5).
  eexists opts, path, _, _, _, _. split_and!; [done..| | | | |exact Hmain].
  - intros Hc. rewrite bool_decide_eq_false_2 in Hpath by done. by injection Hpath.
  - repeat (apply Forall_app; split); done.
  - by do 3 apply applied_app.
  - intros Hdm. rewrite Hdm in M5. by apply (proj1 (Forall_singleton _ _)) in M5.
Qed.

(** From there on: the reading, then the rules it determines. *)
Lemma run_configured_locks arg0 exe args d opts path boot x tr' :
  run_configured arg0 exe args d opts path boot = (inl x, tr') ->
  exists conf rules reads after,
    configTest opts = false /\ ParseConfig path boot = (Ok conf, boot ++ reads) /\
    Forall reads_config reads /\ Forall setup_op after /\
    network_rules (Configuration.Routines conf) (info opts) = inl rules /\
    applied (ORestrictNet rules) (boot ++ reads ++ after) /\ applied OPreferGo (boot ++ reads ++ after) /\
    applied (ORestrictPaths (ready_rules ++ (ROFiles <$> tlsFilePaths (Configuration.Routines conf))))
      (boot ++ reads ++ after) /\
    start conf (info opts) (boot ++ reads ++ after) = (inl x, tr').
Proof.
  intros Hmain. apply pbind_inl in Hmain as (r & t6 & H6 & Hmain).
  apply (proj1 (lift_inl _ _ _ _)) in H6. destruct r as [conf|e]; [|done].
  destruct (ParseConfig_reads path boot) as (reads & Hrd & Freads).
  rewrite H6 in Hrd. cbn [snd] in Hrd. subst t6.
  destruct (configTest opts) eqn:Ht; [by apply pbind_inl in Hmain as (? & ? & _ & ?)|].
  apply pbind_inl in Hmain as (u7 & t7 & H7 & Hmain).
  apply lockNetwork_inl in H7 as (rules & Hn & -> & M7).
  apply pbind_inl in Hmain as (u8 & t8 & H8 & Hmain).
  apply quiet_daemon_sets_up in H8 as (n8 & -> & F8 & _).
  destruct (daemon opts && _).
  { unfold bind in Hmain. cbn [perform] in Hmain.
    by apply pbind_inl in Hmain as (? & ? & _ & ?). }
  apply pbind_inl in Hmain as (u9 & t9 & H9 & Hmain).
  apply lock_ready in H9 as (n9 & -> & F9 & M9).
  apply Forall_cons in M9 as [M9 M9']. apply (proj1 (Forall_singleton _ _)) in M9'.
  assert ((((boot ++ reads) ++ [ORestrictNet rules]) ++ n8) ++ n9 =
    boot ++ reads ++ [ORestrictNet rules] ++ n8 ++ n9) as Heq by (by rewrite <- !(assoc_L (++))).
  rewrite Heq in Hmain, M9, M9'.
  exists conf, rules, reads, ([ORestrictNet rules] ++ n8 ++ n9). split_and!; try done.
  - repeat (apply Forall_app; split); try done. by constructor.
  - rewrite <- Heq. by do 2 apply applied_app.
Qed.

(** C13: on a system with Landlock the tunnel is only ever started inside the
    sandbox.  When [main] gets to start it, it has first applied the boot
    restrictions and, unless it is about to become a daemon, the pledge of the
    reading stage; then read the configuration, which is all it does on files
    and on the network before the tunnel: it reads the configuration files and
    looks up the names in them, outside the network rules, which depend on
    the result; then applied the network rules computed from that very
    configuration, chosen Go's own resolver, and applied the final file rules
    with its TLS files. *)
Theorem main_starts_in_the_sandbox args home parsed x tr'
    (Hmain : main args home parsed [] = (inl x, tr')) :
  exists opts path conf rules boot reads after,
    parsed = Ok opts /\ printVersion opts = false /\ configTest opts = false /\
    (config opts <> "" -> path = config opts) /\
    Forall setup_op boot /\ applied (ORestrictPaths [RODirs "/"; RWFiles "/dev/null"]) boot /\
    (daemon opts = false -> applied (OPledge "stdio rpath inet dns") boot) /\
    ParseConfig path boot = (Ok conf, boot ++ reads) /\ Forall reads_config reads /\
    Forall setup_op after /\ network_rules (Configuration.Routines conf) (info opts) = inl rules /\
    let before := boot ++ reads ++ after in
    applied (ORestrictNet rules) before /\ applied OPreferGo before /\
    applied (ORestrictPaths (ready_rules ++ (ROFiles <$> tlsFilePaths (Configuration.Routines conf)))) before /\
    start conf (info opts) before = (inl x, tr').
Proof.
  apply main_boots in Hmain as (opts & path & exe & args' & d & boot & -> & Hv & Hp & Fb & Hb & Hr & Hrun).
  apply run_configured_locks in Hrun as (conf & rules & reads & after & Ht & Hc & Frd & Fa & Hrest).
  by exists opts, path, conf, rules, boot, reads, after.
Qed.
End properties.

(** ** Witnesses *)
Module Sample.
Import ConfigProps.Sample.
#[export] Program Instance socks5 : Socks5Lib (H := regexps) :=
  {| socks5_ServeConn _ _ := ret tt; socks5_Serve_error := Some |}.
Next Obligation. done. Qed.
#[export] Existing Instance Wireguard.Sample.heredoc.
#[export] Existing Instance Sni.Sample.tls.
#[local] Existing Instance landlock_other.

Definition path : string := "/etc/wireproxy.conf".
Definition opts : options := mkOptions path false false "127.0.0.1:9080" false false.

Definition http : HTTPConfig.t (H := regexps) :=
  HTTPConfig.mk (H := regexps) "127.0.0.1:25345" "" "" "/c.pem" "/k.pem" [] false None false.
Definition server : TCPServerTunnelConfig.t := TCPServerTunnelConfig.mk 3422 "localhost:25545" None None false.
Definition routines : list (RoutineSpawner (H := regexps)) := [HTTP (H := regexps) http; TCPServerTunnel (H := regexps) server].
Definition rules : list rule := [BindTCP 25345; ConnectTCP 25545].

Lemma sandbox_allows_every_listener_witness : BindTCP 25345 ∈ rules.
Proof.
  apply (sandbox_allows_every_listener routines "" rules (HTTP (H := regexps) http) ""
    (OListenTLS "tcp" "127.0.0.1:25345" "/c.pem" "/k.pem") 25345%Z).
  - vm_compute. reflexivity.
  - left.
  - vm_compute. left.
  - vm_compute. reflexivity.
  - split; [vm_compute; discriminate|vm_compute; reflexivity].
Defined.

Lemma sandbox_connects_witness :
  exists c, TCPServerTunnel (H := regexps) c ∈ routines /\
    extractPort (TCPServerTunnelConfig.Target c) = inl 25545%Z.
Proof.
  apply (sandbox_connects_only_to_server_targets routines "" rules 25545%Z).
  - vm_compute. reflexivity.
  - right. left.
Defined.

Lemma sandbox_leaves_tls_files_readable_witness :
  ROFiles "/c.pem" ∈ ready_rules ++ (ROFiles <$> tlsFilePaths routines).
Proof.
  apply (sandbox_leaves_tls_files_readable routines http "/c.pem" "/k.pem").
  - left.
  - vm_compute. left.
Defined.

Definition ran := main (RL := regexps) (SL := socks5) ["wireproxy"] "/root" (Ok opts) [].
Lemma main_starts_in_the_sandbox_witness :
  exists conf boot reads after, ParseConfig path boot = (Ok conf, boot ++ reads) /\
    Forall reads_config reads /\ Forall setup_op after /\
    start (SL := socks5) conf "127.0.0.1:9080" (boot ++ reads ++ after) = ran.
Proof.
  assert (exists x, ran = (inl x, snd ran)) as [x Hx].
  { destruct ran as [[x|e] tr] eqn:E; [exists x; reflexivity|vm_compute in E; discriminate E]. }
  destruct (main_starts_in_the_sandbox (SL := socks5) ["wireproxy"] "/root" (Ok opts) x (snd ran) Hx)
    as (o & p & conf & rules' & boot & reads & after & Ho & _ & _ & Hp & _ & _ & _ & Hc & Hrd & Ha & _ & _ & _ & _ & Hst).
  injection Ho as <-. exists conf, boot, reads, after. rewrite Hx.
  split; [rewrite <- Hc; f_equal; symmetry; apply Hp; discriminate|].
  split; [exact Hrd|]. split; [exact Ha|exact Hst].
Defined.
End Sample.
