(* ===== verification/UdpTable.v ===== *)
(** * UdpTable: the session table shared by the two UDP forwarders

    [udp_proxy.go] and [udp_server_tunnel.go] keep the same structure: a map
    from source address to a pointer to a session, sessions with a last-use
    time and a channel that is closed when the session must stop.  The class
    [Session] is what the table needs of a session; the operations below are
    the critical sections under the mutex ([removeSession]/[closeSession] and
    the reaper's sweep). *)

From S2P Require Import Prelude GoStr ConfigTypes.

Class Session (Sess : Type) := {
  lastActive : Sess -> Z;
  closeChan : Sess -> chan_state;
  close_session : Sess -> Sess;
  touch : Z -> Sess -> Sess;
  closeChan_close s : closeChan (close_session s) = ChanClosed;
  lastActive_close s : lastActive (close_session s) = lastActive s;
  close_session_idem s : closeChan s = ChanClosed -> close_session s = s;
  closeChan_touch now s : closeChan (touch now s) = closeChan s
}.

(** A read deadline that the clock has reached; [None] is no deadline, the zero
    [time.Time] of a connection nobody called [SetReadDeadline] on. *)
Definition past_deadline (deadline : option Z) (now : Z) : bool :=
  match deadline with Some d => bool_decide (d <= now)%Z | None => false end.

Section table.
Context {Sess : Type} `{SL : Session Sess}.
Implicit Types (heap : gmap nat Sess) (sessions : gmap string nat).

(** [select { case <-c: default: close(c) }] under the mutex. *)
Definition close_if_open (s : Sess) : Sess :=
  match closeChan s with ChanClosed => s | ChanOpen => close_session s end.

(** Remove [key] only if it still maps to this very session. *)
Definition removeSession (key : string) (sid : nat) (t : gmap nat Sess * gmap string nat)
    : gmap nat Sess * gmap string nat :=
  let '(heap, sessions) := t in
  if bool_decide (sessions !! key = Some sid)
  then (alter close_if_open sid heap, delete key sessions)
  else (heap, sessions).

Definition expired (now inactivityDur : Z) (s : Sess) : bool :=
  bool_decide (inactivityDur <= time_Sub now (lastActive s))%Z.

(** One round of [for key, sess := range sessions]. *)
Definition reap_one (now inactivityDur : Z) (t : gmap nat Sess * gmap string nat)
    (entry : string * nat) : gmap nat Sess * gmap string nat :=
  let '(heap, sessions) := t in
  let '(key, sid) := entry in
  match heap !! sid with
  | Some s =>
      if expired now inactivityDur s
      then (alter close_if_open sid heap, delete key sessions)
      else (heap, sessions)
  | None => (heap, sessions)
  end.

Definition reap (now inactivityDur : Z) (t : gmap nat Sess * gmap string nat)
    : gmap nat Sess * gmap string nat :=
  foldl (reap_one now inactivityDur) t (map_to_list (snd t)).

(** ** Lemmas *)
Lemma close_if_open_eq s : close_if_open s = close_session s.
Proof. unfold close_if_open. destruct (closeChan s) eqn:E; [done|]. by rewrite close_session_idem. Qed.

(** Touching a session keeps every object and every channel. *)
Lemma lookup_alter_touch heap now sid i x :
  heap !! i = Some x ->
  exists x', alter (touch now) sid heap !! i = Some x' /\ closeChan x' = closeChan x.
Proof.
  intros Hx. rewrite lookup_alter. case_decide as E; [subst i|]; rewrite Hx; simpl;
    (eexists; split; [reflexivity|]); [apply closeChan_touch|reflexivity].
Qed.
Lemma lookup_alter_None {A} (f : A -> A) (m : gmap nat A) i j :
  m !! j = None -> alter f i m !! j = None.
Proof. intros Hj. rewrite lookup_alter. case_decide; subst; by rewrite Hj. Qed.

Definition is_expired now dur heap (sid : nat) : bool :=
  match heap !! sid with Some s => expired now dur s | None => false end.

Lemma expired_close now dur s : expired now dur (close_session s) = expired now dur s.
Proof. unfold expired. by rewrite lastActive_close. Qed.

Lemma is_expired_alter now dur heap sid sid' :
  is_expired now dur (alter close_if_open sid heap) sid' = is_expired now dur heap sid'.
Proof.
  unfold is_expired. rewrite lookup_alter. case_decide as E; [subst|done].
  destruct (heap !! sid') as [s|]; simpl; [|done]. by rewrite close_if_open_eq, expired_close.
Qed.

Lemma reap_one_eq now dur heap sessions key sid :
  reap_one now dur (heap, sessions) (key, sid) =
  if is_expired now dur heap sid then (alter close_if_open sid heap, delete key sessions)
  else (heap, sessions).
Proof. unfold reap_one, is_expired. by destruct (heap !! sid). Qed.

(** Whether a list of entries makes the sweep drop a key, close a session. *)
Definition drops now dur heap (l : list (string * nat)) (key : string) : bool :=
  existsb (fun '(k, i) => bool_decide (k = key) && is_expired now dur heap i) l.
Definition kills now dur heap (l : list (string * nat)) (sid : nat) : bool :=
  existsb (fun '(_, i) => bool_decide (i = sid)) l && is_expired now dur heap sid.

Lemma reap_loop now dur l heap sessions heap' sessions' :
  foldl (reap_one now dur) (heap, sessions) l = (heap', sessions') ->
  (forall key, sessions' !! key =
     if drops now dur heap l key then None else sessions !! key) /\
  (forall sid, heap' !! sid =
     (if kills now dur heap l sid then close_session else id) <$> heap !! sid).
Proof.
  revert heap sessions; induction l as [|[k i] l IH]; intros heap sessions; cbn [foldl].
  - intros [= <- <-]. split; [done|]. intros sid. by destruct (heap !! sid).
  - rewrite reap_one_eq. unfold kills at 1. cbn [drops existsb].
    destruct (is_expired now dur heap i) eqn:Ei; intros Hl; apply IH in Hl as [Hs Hh].
    + assert (forall l' key, drops now dur (alter close_if_open i heap) l' key =
        drops now dur heap l' key) as Hd.
      { intros l' key. unfold drops. induction l' as [|[k' i'] l' IHl]; simpl; [done|].
        by rewrite is_expired_alter, IHl. }
      split.
      * intros key. rewrite Hs, Hd, andb_true_r, lookup_delete.
        case_bool_decide; case_decide; simplify_eq; simpl; [by case_match|done].
      * intros sid. rewrite Hh. unfold kills. rewrite is_expired_alter, lookup_alter.
        case_decide as E; [subst i|].
        -- rewrite Ei, bool_decide_eq_true_2, !andb_true_r by done. simpl.
           destruct (heap !! sid) as [s|]; simpl; [|done]. f_equal.
           rewrite close_if_open_eq. case_match; simpl; [|done].
           apply close_session_idem, closeChan_close.
        -- rewrite bool_decide_eq_false_2 by done. done.
    + split.
      * intros key. rewrite Hs, andb_false_r. done.
      * intros sid. rewrite Hh. unfold kills. case_bool_decide; [subst|done].
        by rewrite Ei, !andb_false_r.
Qed.

Lemma reap_sessions now dur heap sessions key :
  snd (reap now dur (heap, sessions)) !! key =
  (sid ← sessions !! key; if is_expired now dur heap sid then None else Some sid).
Proof.
  unfold reap. destruct (foldl _ _ _) as [h m] eqn:E. simpl in *.
  apply reap_loop in E as [Hs _]. rewrite Hs.
  destruct (drops _ _ _ _ _) eqn:Ed.
  - apply existsb_exists in Ed as ([k sid] & Hin & [Hk He]%andb_true_iff).
    apply bool_decide_eq_true in Hk as ->.
    apply list_elem_of_In, elem_of_map_to_list in Hin. rewrite Hin. simpl. by rewrite He.
  - destruct (sessions !! key) as [sid|] eqn:Ek; simpl; [|done].
    destruct (is_expired now dur heap sid) eqn:Ee; [|done].
    apply not_true_iff_false in Ed. destruct Ed. apply existsb_exists.
    exists (key, sid). rewrite bool_decide_eq_true_2, Ee by done. split; [|done].
    by apply list_elem_of_In, elem_of_map_to_list.
Qed.

Lemma reap_heap now dur heap sessions sid :
  exists f, fst (reap now dur (heap, sessions)) !! sid = f <$> heap !! sid /\
    (f = id \/ f = close_session /\
     exists key, sessions !! key = Some sid /\ is_expired now dur heap sid = true).
Proof.
  unfold reap. destruct (foldl _ _ _) as [h m] eqn:E. simpl in *.
  apply reap_loop in E as [_ Hh]. rewrite Hh.
  eexists. split; [reflexivity|].
  destruct (kills _ _ _ _ _) eqn:Ek; [right|by left]. split; [done|].
  apply andb_true_iff in Ek as [([key i] & Hin & Hi)%existsb_exists He].
  apply bool_decide_eq_true in Hi as ->. exists key.
  by apply list_elem_of_In, elem_of_map_to_list in Hin.
Qed.

(** An idle session of the table has its channel closed. *)
Lemma reap_kills now dur heap sessions key sid :
  sessions !! key = Some sid -> is_expired now dur heap sid = true ->
  fst (reap now dur (heap, sessions)) !! sid = close_session <$> heap !! sid.
Proof.
  intros Hk He. unfold reap. destruct (foldl _ _ _) as [h m] eqn:E. simpl in *.
  apply reap_loop in E as [_ Hh]. rewrite Hh.
  replace (kills now dur heap (map_to_list sessions) sid) with true; [done|].
  unfold kills. rewrite He, andb_true_r. symmetry. apply existsb_exists.
  exists (key, sid). rewrite bool_decide_eq_true_2 by done.
  split; [|done]. by apply list_elem_of_In, elem_of_map_to_list.
Qed.

(** A session that the sweep leaves in the table keeps an untouched object,
    provided no two keys share a session. *)
Lemma reap_keeps now dur heap sessions key sid :
  (forall k, sessions !! k = Some sid -> k = key) ->
  snd (reap now dur (heap, sessions)) !! key = Some sid ->
  fst (reap now dur (heap, sessions)) !! sid = heap !! sid.
Proof.
  intros Hinj. rewrite reap_sessions. destruct (reap_heap now dur heap sessions sid)
    as (f & -> & [->|[-> (k & Hk & He)]]); [by destruct (heap !! sid)|].
  rewrite (Hinj k Hk) in Hk. rewrite Hk. simpl. by rewrite He.
Qed.

(** C18: the inactivity timeout of both UDP tunnels, over the whole range of
    the setting: up to 9223372036 seconds a sweep keeps a session exactly if it
    was used less than that many seconds ago, to the nanosecond, however far
    the clock has moved; from 9223372037 to 18446744073 the product with
    [time.Second] overflows to a negative duration, and every sweep throws out
    every session. *)
Theorem timeout_is_exact_until_it_overflows t now heap sessions key sid s :
  sessions !! key = Some sid -> heap !! sid = Some s ->
  let kept := snd (reap now (seconds t) (heap, sessions)) !! key in
  ((0 < t <= 9223372036)%Z ->
     kept = if decide (now - lastActive s < t * 1000000000)%Z then Some sid else None) /\
  ((9223372037 <= t <= 18446744073)%Z -> (lastActive s <= now)%Z -> kept = None).
Proof.
  intros Hk Hs kept. subst kept. rewrite reap_sessions, Hk. simpl.
  unfold is_expired, expired. rewrite Hs. split.
  - intros Ht. rewrite seconds_exact by lia. unfold time_Sub.
    destruct (decide _) as [Hd|Hd]; [rewrite bool_decide_eq_false_2 by lia|rewrite bool_decide_eq_true_2 by lia]; done.
  - intros Ht Hl. pose proof (seconds_overflow t Ht). unfold time_Sub. by rewrite bool_decide_eq_true_2 by lia.
Qed.
End table.

(** ** A session of thirty seconds *)
Module Sample.
Definition session : Type := Z * chan_state.
#[export] Program Instance session_Session : Session session := {|
  lastActive := fst; closeChan := snd;
  close_session s := (fst s, ChanClosed); touch now s := (now, snd s)
|}.
Next Obligation. done. Qed.
Next Obligation. done. Qed.
Next Obligation. by intros [? ?] [= ->]. Qed.
Next Obligation. done. Qed.

Definition heap : gmap nat session := {[0 := (0%Z, ChanOpen)]}.
Definition sessions : gmap string nat := {["10.0.0.2:5000" := 0]}.

Lemma timeout_is_exact_witness :
  snd (reap 29999999999 (seconds 30) (heap, sessions)) !! "10.0.0.2:5000" = Some 0 /\
  snd (reap 1 (seconds 9223372037) (heap, sessions)) !! "10.0.0.2:5000" = None.
Proof.
  destruct (timeout_is_exact_until_it_overflows 30 29999999999 heap sessions "10.0.0.2:5000" 0
    (0%Z, ChanOpen) eq_refl eq_refl) as [H1 _].
  destruct (timeout_is_exact_until_it_overflows 9223372037 1 heap sessions "10.0.0.2:5000" 0
    (0%Z, ChanOpen) eq_refl eq_refl) as [_ H2].
  split; [rewrite H1 by lia; reflexivity|apply H2; simpl; lia].
Defined.
End Sample.
