(* ===== verification/UdpProxy.v ===== *)
(** * UdpProxy: [udp_proxy.go]

    [UDPProxyTunnelConfig] after [Bind]: the read loop of [Serve], one goroutine
    per session ([handleRemoteToLocal]), the reaper, and callers of [Close],
    interleaved.  A step of the transition system is one action of one
    goroutine: a critical section under [sessionMu], one channel operation, one
    socket call.  [udpSession] objects live in a heap because the table, the
    read loop and the session's goroutine share them by pointer; a session and
    the connection it dialled carry the same fresh number. *)

From S2P Require Import Prelude GoStr ConfigTypes World Shutdown UdpTable.

Record udpSession := mkSession {
  remoteConn : handle;
  session_lastActive : Z;
  session_closeChan : chan_state;
  inactivityDur : Z
}.

#[export] Program Instance udpSession_Session : Session udpSession := {|
  lastActive := session_lastActive;
  closeChan := session_closeChan;
  close_session s := mkSession (remoteConn s) (session_lastActive s) ChanClosed (inactivityDur s);
  touch now s := mkSession (remoteConn s) now (session_closeChan s) (inactivityDur s)
|}.
Next Obligation. done. Qed.
Next Obligation. done. Qed.
Next Obligation. by intros [? ? ? ?] [= ->]. Qed.
Next Obligation. done. Qed.

(** ** State *)

(** Where a session's goroutine is in [handleRemoteToLocal]. *)
Inductive gpc :=
  | GTop                       (* at the [select] at the head of the loop *)
  | GArm                       (* about to set the read deadline *)
  | GRead (deadline : option Z)  (* in [remoteConn.Read]; the deadline of the connection *)
  | GTimeout                   (* at the [select] of the timeout branch *)
  | GTouch (data : string)     (* read [data], about to set [lastActive] *)
  | GReply (data : string)     (* about to write it to the local client *)
  | GExit                      (* returning: the deferred [removeSession] *)
  | GClose                     (* the deferred [remoteConn.Close] *)
  | GDone.
#[export] Instance gpc_eq_dec : EqDecision gpc.
Proof. solve_decision. Defined.

Record goroutine := mkGor { g_src : string; g_pc : gpc }.

(** Where [Serve] is. *)
Inductive mpc :=
  | MRead                                         (* in [ReadFromUDP] *)
  | MGot (src data : string)                      (* calling [getOrCreateSession] *)
  | MTouch (sid : nat) (src data : string)        (* about to set [lastActive] *)
  | MSend (sid : nat) (src data : string)         (* about to write to [remoteConn] *)
  | MReturned (err : option error).

Inductive rpc := RRunning | RExited.

(** Where a caller of [Close] is. *)
Inductive cpc :=
  | CMarked          (* [markClosed] done *)
  | CDefault         (* the [select] found [done] open *)
  | CListener        (* about to close the listener *)
  | CReturned.
#[export] Instance cpc_eq_dec : EqDecision cpc.
Proof. solve_decision. Defined.

Record state := mkState {
  heap : gmap nat udpSession;
  sessions : gmap string nat;
  gors : gmap nat goroutine;
  open_conns : gset nat;
  main : mpc;
  reaper : rpc;
  done : chan_state;
  closed : bool;
  listener_open : bool;
  closers : gmap nat cpc;
  panicked : bool;
  forwarded : list (nat * string * string);   (* connection, source, datagram *)
  replied : list (nat * string * string);     (* connection, destination, datagram *)
  next : nat
}.

Definition set_heap_sessions h m s :=
  mkState h m (gors s) (open_conns s) (main s) (reaper s) (done s) (closed s) (listener_open s)
    (closers s) (panicked s) (forwarded s) (replied s) (next s).
Definition set_heap h s := set_heap_sessions h (sessions s) s.
Definition set_main m s :=
  mkState (heap s) (sessions s) (gors s) (open_conns s) m (reaper s) (done s) (closed s)
    (listener_open s) (closers s) (panicked s) (forwarded s) (replied s) (next s).
Definition set_gor sid g s :=
  mkState (heap s) (sessions s) (<[sid:=g]> (gors s)) (open_conns s) (main s) (reaper s) (done s)
    (closed s) (listener_open s) (closers s) (panicked s) (forwarded s) (replied s) (next s).
Definition set_reaper r s :=
  mkState (heap s) (sessions s) (gors s) (open_conns s) (main s) r (done s) (closed s)
    (listener_open s) (closers s) (panicked s) (forwarded s) (replied s) (next s).
Definition add_forwarded f s :=
  mkState (heap s) (sessions s) (gors s) (open_conns s) (main s) (reaper s) (done s) (closed s)
    (listener_open s) (closers s) (panicked s) (forwarded s ++ [f]) (replied s) (next s).
Definition add_replied r s :=
  mkState (heap s) (sessions s) (gors s) (open_conns s) (main s) (reaper s) (done s) (closed s)
    (listener_open s) (closers s) (panicked s) (forwarded s) (replied s ++ [r]) (next s).
Definition close_conn c s :=
  mkState (heap s) (sessions s) (gors s) (open_conns s ∖ {[c]}) (main s) (reaper s) (done s)
    (closed s) (listener_open s) (closers s) (panicked s) (forwarded s) (replied s) (next s).
(** The fields [Close] works on. *)
Definition set_shutdown d c l cs p s :=
  mkState (heap s) (sessions s) (gors s) (open_conns s) (main s) (reaper s) d c l cs p
    (forwarded s) (replied s) (next s).

Section proxy.
(** The configuration: [InactivityTimeout] is the only field the loop reads. *)
Variable InactivityTimeout : Z.
Let inactivityDur_ := seconds InactivityTimeout.

(** [Serve] right after it started the reaper, with the listener bound. *)
Definition init : state :=
  mkState ∅ ∅ ∅ ∅ MRead (if bool_decide (0 < InactivityTimeout)%Z then RRunning else RExited)
    ChanOpen false true ∅ false [] [] 0.

(** ** The read loop *)

Definition main_recv (src data : string) (s : state) : option state :=
  match main s with
  | MRead => if listener_open s then Some (set_main (MGot src data) s) else None
  | _ => None
  end.

(** A failed read: after [Close], or on a closed listener, the loop ends with
    nil; any other error is logged and the loop goes on. *)
Definition main_recv_err (err : error) (s : state) : option state :=
  match main s with
  | MRead =>
      if closedByUs (mkShutdown (closed s)) (Some err) then Some (set_main (MReturned None) s) else Some s
  | _ => None
  end.

(** [getOrCreateSession], one critical section; [dial] is the answer of
    [vt.Tnet.Dial] should a session be created. *)
Definition getOrCreateSession (now : Z) (src : string) (dial : option error) (s : state)
    : result nat * state :=
  match sessions s !! src with
  | Some sid => (Ok sid, set_heap (alter (touch now) sid (heap s)) s)
  | None =>
      match dial with
      | Some err => (Err (Errorf_w "UDPProxyTunnel: could not Dial: " err), s)
      | None =>
          let sid := next s in
          (Ok sid,
           mkState (<[sid := mkSession sid now ChanOpen inactivityDur_]> (heap s))
             (<[src := sid]> (sessions s))
             (<[sid := mkGor src GTop]> (gors s))
             ({[sid]} ∪ open_conns s)
             (main s) (reaper s) (done s) (closed s) (listener_open s) (closers s)
             (panicked s) (forwarded s) (replied s) (S sid))
      end
  end.

Definition main_session (now : Z) (dial : option error) (s : state) : option state :=
  match main s with
  | MGot src data =>
      match getOrCreateSession now src dial s with
      | (Ok sid, s') => Some (set_main (MTouch sid src data) s')
      | (Err _, s') => Some (set_main MRead s')
      end
  | _ => None
  end.

(** [s.lastActive = time.Now()], outside the mutex. *)
Definition main_touch (now : Z) (s : state) : option state :=
  match main s with
  | MTouch sid src data =>
      Some (set_main (MSend sid src data) (set_heap (alter (touch now) sid (heap s)) s))
  | _ => None
  end.

(** [s.remoteConn.Write(buf[:n])]: the datagram is sent if the connection is
    still open and the write succeeds; a failure is only logged. *)
Definition main_send (write_ok : bool) (s : state) : option state :=
  match main s with
  | MSend sid src data =>
      let s1 := set_main MRead s in
      Some (if write_ok && bool_decide (sid ∈ open_conns s)
            then add_forwarded (sid, src, data) s1 else s1)
  | _ => None
  end.

(** ** The reaper *)
Definition reaper_tick (now : Z) (s : state) : option state :=
  match reaper s with
  | RRunning =>
      let '(h, m) := reap now inactivityDur_ (heap s, sessions s) in
      Some (set_heap_sessions h m s)
  | RExited => None
  end.

Definition reaper_done (s : state) : option state :=
  match reaper s, done s with
  | RRunning, ChanClosed => Some (set_reaper RExited s)
  | _, _ => None
  end.

(** ** A session's goroutine: [handleRemoteToLocal] *)
Definition with_gor (sid : nat) (s : state) (k : string -> gpc -> option state) : option state :=
  g ← gors s !! sid; k (g_src g) (g_pc g).

Definition sess_closed (sid : nat) (s : state) : bool :=
  match heap s !! sid with
  | Some x => bool_decide (closeChan x = ChanClosed)
  | None => false
  end.

(** Both [select]s on [closeChan]: leave the loop, or go on at [pc]. *)
Definition check_close (sid : nat) (src : string) (pc : gpc) (s : state) : state :=
  set_gor sid (mkGor src (if sess_closed sid s then GExit else pc)) s.

Definition gor_top (sid : nat) (s : state) : option state :=
  with_gor sid s (fun src pc =>
    match pc with GTop => Some (check_close sid src GArm s) | _ => None end).

(** [SetReadDeadline(time.Now().Add(5 * time.Second))]; its error is dropped,
    and there is none while the connection is open. *)
Definition gor_arm (sid : nat) (now : Z) (s : state) : option state :=
  with_gor sid s (fun src pc =>
    match pc with
    | GArm => Some (set_gor sid (mkGor src (GRead (Some (now + 5000000000)%Z))) s)
    | _ => None
    end).

Definition gor_read (sid : nat) (data : string) (s : state) : option state :=
  with_gor sid s (fun src pc =>
    match pc with GRead _ => Some (set_gor sid (mkGor src (GTouch data)) s) | _ => None end).

(** A read fails at time [now]: with a timeout only when the deadline of the
    connection has passed, with any other error whenever the network says so. *)
Definition gor_read_err (sid : nat) (now : Z) (err : error) (s : state) : option state :=
  with_gor sid s (fun src pc =>
    match pc with
    | GRead deadline =>
        if is_timeout err
        then if past_deadline deadline now then Some (set_gor sid (mkGor src GTimeout) s) else None
        else Some (set_gor sid (mkGor src GExit) s)
    | _ => None
    end).

Definition gor_timeout (sid : nat) (s : state) : option state :=
  with_gor sid s (fun src pc =>
    match pc with GTimeout => Some (check_close sid src GTop s) | _ => None end).

Definition gor_touch (sid : nat) (now : Z) (s : state) : option state :=
  with_gor sid s (fun src pc =>
    match pc with
    | GTouch data =>
        Some (set_gor sid (mkGor src (GReply data))
                (set_heap (alter (touch now) sid (heap s)) s))
    | _ => None
    end).

(** Resolve the client address again and write to it through the listener;
    [ok] if both succeed, which needs the listener open. *)
Definition gor_reply (sid : nat) (ok : bool) (s : state) : option state :=
  with_gor sid s (fun src pc =>
    match pc with
    | GReply data =>
        if ok && listener_open s
        then Some (add_replied (sid, src, data) (set_gor sid (mkGor src GTop) s))
        else Some (set_gor sid (mkGor src GExit) s)
    | _ => None
    end).

Definition gor_remove (sid : nat) (s : state) : option state :=
  with_gor sid s (fun src pc =>
    match pc with
    | GExit =>
        let '(h, m) := removeSession src sid (heap s, sessions s) in
        Some (set_gor sid (mkGor src GClose) (set_heap_sessions h m s))
    | _ => None
    end).

Definition gor_close (sid : nat) (s : state) : option state :=
  with_gor sid s (fun src pc =>
    match pc with
    | GClose => Some (close_conn sid (set_gor sid (mkGor src GDone) s))
    | _ => None
    end).

(** ** [Close], by the caller number [c] *)
Definition close_mark (c : nat) (s : state) : option state :=
  match closers s !! c with
  | None => Some (set_shutdown (done s) true (listener_open s) (<[c:=CMarked]> (closers s))
                    (panicked s) s)
  | Some _ => None
  end.

(** [select { case <-conf.done: default: ... }] *)
Definition close_select (c : nat) (s : state) : option state :=
  match closers s !! c with
  | Some CMarked =>
      let pc := match done s with ChanClosed => CListener | ChanOpen => CDefault end in
      Some (set_shutdown (done s) (closed s) (listener_open s) (<[c:=pc]> (closers s))
              (panicked s) s)
  | _ => None
  end.

(** [close(conf.done)]: closing a closed channel panics. *)
Definition close_done (c : nat) (s : state) : option state :=
  match closers s !! c with
  | Some CDefault =>
      match done s with
      | ChanOpen => Some (set_shutdown ChanClosed (closed s) (listener_open s)
                            (<[c:=CListener]> (closers s)) (panicked s) s)
      | ChanClosed => Some (set_shutdown ChanClosed (closed s) (listener_open s)
                              (closers s) true s)
      end
  | _ => None
  end.

Definition close_listener (c : nat) (s : state) : option state :=
  match closers s !! c with
  | Some CListener =>
      Some (set_shutdown (done s) (closed s) false (<[c:=CReturned]> (closers s))
              (panicked s) s)
  | _ => None
  end.

(** ** The transition system *)
Inductive label :=
  | Recv (src data : string)
  | RecvErr (err : error)
  | GetSession (now : Z) (dial : option error)
  | Touch (now : Z)
  | Send (write_ok : bool)
  | ReaperTick (now : Z)
  | ReaperDone
  | GorTop (sid : nat)
  | GorArm (sid : nat) (now : Z)
  | GorRead (sid : nat) (data : string)
  | GorReadErr (sid : nat) (now : Z) (err : error)
  | GorTimeout (sid : nat)
  | GorTouch (sid : nat) (now : Z)
  | GorReply (sid : nat) (ok : bool)
  | GorRemove (sid : nat)
  | GorClose (sid : nat)
  | CloseMark (c : nat)
  | CloseSelect (c : nat)
  | CloseDone (c : nat)
  | CloseListener (c : nat).

(** A panic in any goroutine ends the process: no step follows. *)
Definition step (l : label) (s : state) : option state :=
  if panicked s then None else
  match l with
  | Recv src data => main_recv src data s
  | RecvErr err => main_recv_err err s
  | GetSession now dial => main_session now dial s
  | Touch now => main_touch now s
  | Send write_ok => main_send write_ok s
  | ReaperTick now => reaper_tick now s
  | ReaperDone => reaper_done s
  | GorTop sid => gor_top sid s
  | GorArm sid now => gor_arm sid now s
  | GorRead sid data => gor_read sid data s
  | GorReadErr sid now err => gor_read_err sid now err s
  | GorTimeout sid => gor_timeout sid s
  | GorTouch sid now => gor_touch sid now s
  | GorReply sid ok => gor_reply sid ok s
  | GorRemove sid => gor_remove sid s
  | GorClose sid => gor_close sid s
  | CloseMark c => close_mark c s
  | CloseSelect c => close_select c s
  | CloseDone c => close_done c s
  | CloseListener c => close_listener c s
  end.

(** The goroutine a label belongs to, if it is a session's. *)
Definition owner (l : label) : option nat :=
  match l with
  | GorTop i | GorArm i _ | GorRead i _ | GorReadErr i _ _ | GorTimeout i | GorTouch i _ | GorReply i _
  | GorRemove i | GorClose i => Some i
  | _ => None
  end.
End proxy.

(** ** The invariant *)

(** The source address a session's goroutine was started for. *)
Definition gor_src (s : state) (sid : nat) : option string := g_src <$> gors s !! sid.

Record inv (s : state) : Prop := {
  (* a session in the table is live: its channel open, its goroutine running
     for that very key and before its clean-up *)
  inv_table k sid : sessions s !! k = Some sid ->
    exists x pc, heap s !! sid = Some x /\ closeChan x = ChanOpen /\
      gors s !! sid = Some (mkGor k pc) /\ pc <> GClose /\ pc <> GDone;
  (* every goroutine has its session; its connection is open until it is done *)
  inv_gor sid g : gors s !! sid = Some g ->
    is_Some (heap s !! sid) /\ (sid ∈ open_conns s <-> g_pc g <> GDone);
  inv_conns sid : sid ∈ open_conns s -> is_Some (gors s !! sid);
  inv_fresh sid : next s <= sid -> gors s !! sid = None /\ heap s !! sid = None;
  inv_main : match main s with
             | MTouch sid src _ | MSend sid src _ => gor_src s sid = Some src
             | MReturned r => r = None
             | _ => True
             end;
  inv_forwarded c src d : (c, src, d) ∈ forwarded s -> gor_src s c = Some src;
  inv_replied c dst d : (c, dst, d) ∈ replied s -> gor_src s c = Some dst;
  inv_closed : done s = ChanClosed \/ listener_open s = false \/
    (exists c, is_Some (closers s !! c)) -> closed s = true
}.

Section invariant.
Variable InactivityTimeout : Z.

Lemma inv_init : inv (init InactivityTimeout).
Proof.
  split; simpl; try done.
  - by intros c src d ?%not_elem_of_nil.
  - by intros c src d ?%not_elem_of_nil.
  - intros [|[|[c [x Hx]]]]; [done..|]. by rewrite lookup_empty in Hx.
Qed.

Lemma gor_src_set_gor s sid src pc pc' i :
  gors s !! sid = Some (mkGor src pc) ->
  gor_src (set_gor sid (mkGor src pc') s) i = gor_src s i.
Proof.
  intros Hg. unfold gor_src. simpl. rewrite lookup_insert. case_decide; [subst|done].
  by rewrite Hg.
Qed.

(** Moving a goroutine on keeps the invariant; it may reach its clean-up only
    when no key maps to its session. *)
Lemma inv_set_gor s sid src pc pc' :
  inv s -> gors s !! sid = Some (mkGor src pc) -> pc <> GDone -> pc' <> GDone ->
  (pc' = GClose -> forall k, sessions s !! k <> Some sid) ->
  inv (set_gor sid (mkGor src pc') s).
Proof.
  intros [Ht Hg Hc Hf Hm Hfw Hr Hcl] Hsid Hpc Hpc' Hclose.
  pose proof (gor_src_set_gor s sid src pc pc') as Hsrc.
  split; simpl; try done.
  - intros k i Hk. destruct (Ht k i Hk) as (x & p & ? & ? & Hi & ? & ?).
    rewrite lookup_insert. case_decide; [subst i|by eauto 8].
    rewrite Hsid in Hi. injection Hi as -> ->. exists x, pc'.
    repeat split; try done. intros ->. by destruct (Hclose eq_refl k).
  - intros i g. rewrite lookup_insert. case_decide; [subst i|apply Hg].
    intros [= <-]. simpl. destruct (Hg _ _ Hsid) as [? ?]. split; [done|]. simpl in *. tauto.
  - intros i Hi. rewrite lookup_insert. case_decide; eauto.
  - intros i Hi. rewrite lookup_insert_ne by (intros ->; destruct (Hf _ Hi); congruence). auto.
  - destruct (main s); try done; by rewrite Hsrc.
  - intros c d x Hx. rewrite Hsrc by done. eauto.
  - intros c d x Hx. rewrite Hsrc by done. eauto.
Qed.

(** Updating a session object without touching its channel. *)
Lemma inv_touch s sid now : inv s -> inv (set_heap (alter (touch now) sid (heap s)) s).
Proof.
  intros [Ht Hg Hc Hf Hm Hfw Hr Hcl]. split; simpl; try done.
  - intros k i Hk. destruct (Ht k i Hk) as (x & p & Hx & Hopen & ? & ? & ?).
    destruct (lookup_alter_touch (heap s) now sid i x Hx) as (x' & ? & Hx').
    exists x', p. split_and!; [done|exact (eq_trans Hx' Hopen)|done..].
  - intros i g Hi. destruct (Hg i g Hi) as [[x Hx] ?]. split; [|done].
    destruct (lookup_alter_touch (heap s) now sid i x Hx) as (x' & ? & _). by exists x'.
  - intros i Hi. destruct (Hf i Hi) as [? Hx]. split; [done|]. by apply lookup_alter_None.
Qed.

Lemma inv_set_main s m :
  inv s ->
  match m with
  | MTouch sid src _ | MSend sid src _ => gor_src s sid = Some src
  | MReturned r => r = None
  | _ => True
  end -> inv (set_main m s).
Proof. intros [Ht Hg Hc Hf Hm Hfw Hr Hcl] H. by split. Qed.

(** Replacing the table by a smaller one whose remaining sessions keep their
    object, while closed channels stay closed. *)
Lemma inv_shrink s h m :
  inv s ->
  (forall k sid, m !! k = Some sid -> sessions s !! k = Some sid /\ h !! sid = heap s !! sid) ->
  (forall sid, is_Some (heap s !! sid) <-> is_Some (h !! sid)) ->
  inv (set_heap_sessions h m s).
Proof.
  intros [Ht Hg Hc Hf Hm Hfw Hr Hcl] Hsub Hdom. split; simpl; try done.
  - intros k i Hk. destruct (Hsub k i Hk) as [Hk' ->]. eauto.
  - intros i g Hi. destruct (Hg i g Hi) as [? ?]. split; [by apply Hdom|done].
  - intros i Hi. destruct (Hf i Hi) as [? Hx]. split; [done|].
    apply eq_None_not_Some. rewrite <- Hdom, Hx. by intros [? ?].
Qed.

(** No two keys share a session. *)
Lemma inv_inj s k k' sid :
  inv s -> sessions s !! k = Some sid -> sessions s !! k' = Some sid -> k = k'.
Proof.
  intros Hi (? & ? & _ & _ & H1 & _)%(inv_table _ Hi) (? & ? & _ & _ & H2 & _)%(inv_table _ Hi).
  congruence.
Qed.

Lemma inv_removeSession s src sid h m :
  inv s -> removeSession src sid (heap s, sessions s) = (h, m) ->
  inv (set_heap_sessions h m s) /\
  (forall pc, gors s !! sid = Some (mkGor src pc) -> forall k, m !! k <> Some sid).
Proof.
  intros Hi. unfold removeSession. case_bool_decide as Hk; intros [= <- <-]; split.
  - apply inv_shrink; [done| |].
    + intros k i [Hne Hk']%lookup_delete_Some. split; [done|].
      apply lookup_alter_ne. intros ->. by rewrite (inv_inj s k src i Hi) in Hne.
    + intros i. by rewrite lookup_alter_is_Some.
  - intros pc _ k [Hne Hk']%lookup_delete_Some. by rewrite (inv_inj s k src sid Hi) in Hne.
  - by apply inv_shrink.
  - intros pc Hg k Hk'. destruct (inv_table s Hi k sid Hk') as (? & ? & _ & _ & Hg' & _).
    congruence.
Qed.

Lemma inv_reap s now dur h m :
  inv s -> reap now dur (heap s, sessions s) = (h, m) -> inv (set_heap_sessions h m s).
Proof.
  intros Hi Hr. pose proof (reap_sessions now dur (heap s) (sessions s)) as Hs.
  pose proof (reap_keeps now dur (heap s) (sessions s)) as Hk.
  pose proof (reap_heap now dur (heap s) (sessions s)) as Hh.
  rewrite Hr in Hs, Hk, Hh. simpl in *. apply inv_shrink; [done| |].
  - intros k i Hm. assert (sessions s !! k = Some i) as Hki.
    { rewrite Hs in Hm. destruct (sessions s !! k); simpl in Hm; [|done]. by case_match. }
    split; [done|]. apply (Hk k); [|done]. intros k' ?. by eapply inv_inj.
  - intros i. destruct (Hh i) as (f & -> & _). by rewrite fmap_is_Some.
Qed.

Lemma inv_new_session s now dur src :
  inv s -> sessions s !! src = None ->
  let sid := next s in
  inv (mkState (<[sid := mkSession sid now ChanOpen dur]> (heap s)) (<[src := sid]> (sessions s))
         (<[sid := mkGor src GTop]> (gors s)) ({[sid]} ∪ open_conns s) MRead (reaper s) (done s)
         (closed s) (listener_open s) (closers s) (panicked s) (forwarded s) (replied s) (S sid)).
Proof.
  intros Hi Hsrc sid. destruct (inv_fresh s Hi sid (le_n _)) as [Hg0 Hh0].
  assert (forall i g, gors s !! i = Some g -> i <> sid) as Hne by (intros i g ? ->; congruence).
  assert (forall i r, gor_src s i = Some r ->
    g_src <$> <[sid := mkGor src GTop]> (gors s) !! i = Some r) as Hsrc'.
  { intros i r. unfold gor_src. destruct (gors s !! i) as [g|] eqn:E; [|done].
    rewrite lookup_insert_ne by (by apply not_eq_sym, (Hne i g)). by rewrite E. }
  destruct Hi as [Ht Hg Hc Hf Hm Hfw Hr Hcl]. split; simpl; try done.
  - intros k i. rewrite lookup_insert. case_decide.
    + intros [= <-]. subst k. rewrite !lookup_insert_eq. by eexists _, GTop.
    + intros Hk. destruct (Ht k i Hk) as (x & pc & Hx & ? & Hgi & ? & ?).
      rewrite !lookup_insert_ne by (by apply not_eq_sym, (Hne i _ Hgi)). eauto 8.
  - intros i g. rewrite lookup_insert. case_decide; [subst i|].
    + intros [= <-]. simpl. rewrite lookup_insert_eq. split; [by eexists|set_solver].
    + intros Hgi. rewrite lookup_insert_ne by done. destruct (Hg i g Hgi). split; [done|set_solver].
  - intros i [->%elem_of_singleton|Hi]%elem_of_union; [rewrite lookup_insert_eq; by eexists|].
    rewrite lookup_insert. case_decide; [by eexists|auto].
  - intros i Hi. rewrite !lookup_insert_ne by lia. apply Hf. lia.
  - intros c r d Hin. apply Hsrc'. eauto.
  - intros c r d Hin. apply Hsrc'. eauto.
Qed.

Lemma gor_src_close_conn c s i : gor_src (close_conn c s) i = gor_src s i.
Proof. done. Qed.

Lemma inv_finish s sid src :
  inv s -> gors s !! sid = Some (mkGor src GClose) ->
  inv (close_conn sid (set_gor sid (mkGor src GDone) s)).
Proof.
  intros Hi Hsid. pose proof (gor_src_set_gor s sid src GClose GDone) as Hsrc.
  destruct Hi as [Ht Hg Hc Hf Hm Hfw Hr Hcl]. split; simpl; try done.
  - intros k i Hk. destruct (Ht k i Hk) as (x & pc & ? & ? & Hgi & ? & ?).
    rewrite lookup_insert_ne by (intros ->; congruence). eauto 8.
  - intros i g. rewrite lookup_insert. case_decide; [subst i|].
    + intros [= <-]. destruct (Hg _ _ Hsid). split; [done|]. simpl. set_solver.
    + intros Hgi. destruct (Hg i g Hgi). split; [done|set_solver].
  - intros i Hin. rewrite lookup_insert. case_decide; [by eexists|]. apply Hc. set_solver.
  - intros i Hin. rewrite lookup_insert_ne by (intros ->; destruct (Hf _ Hin); congruence). auto.
  - destruct (main s); try done; by rewrite gor_src_close_conn, Hsrc.
  - intros c r d Hin. rewrite gor_src_close_conn, Hsrc by done. eauto.
  - intros c r d Hin. rewrite gor_src_close_conn, Hsrc by done. eauto.
Qed.

Lemma inv_shutdown s d c l cs p :
  inv s -> c = true -> inv (set_shutdown d c l cs p s).
Proof. intros [Ht Hg Hc Hf Hm Hfw Hr Hcl] ->. by split. Qed.

Lemma inv_add_forwarded s c src d :
  inv s -> gor_src s c = Some src -> inv (add_forwarded (c, src, d) s).
Proof.
  intros [Ht Hg Hc Hf Hm Hfw Hr Hcl] Hc'. split; simpl; try done.
  intros c' src' d' [?|Heq%list_elem_of_singleton]%elem_of_app; [by eapply Hfw|].
  by injection Heq as -> -> ->.
Qed.
Lemma inv_add_replied s c src d :
  inv s -> gor_src s c = Some src -> inv (add_replied (c, src, d) s).
Proof.
  intros [Ht Hg Hc Hf Hm Hfw Hr Hcl] Hc'. split; simpl; try done.
  intros c' src' d' [?|Heq%list_elem_of_singleton]%elem_of_app; [by eapply Hr|].
  by injection Heq as -> -> ->.
Qed.

Lemma inv_check_close s sid src pc pc' :
  inv s -> gors s !! sid = Some (mkGor src pc) -> pc <> GDone -> pc' <> GDone -> pc' <> GClose ->
  inv (check_close sid src pc' s).
Proof.
  intros. unfold check_close. eapply inv_set_gor; try done; by destruct (sess_closed sid s).
Qed.

Lemma with_gor_Some sid s k s' :
  with_gor sid s k = Some s' ->
  exists src pc, gors s !! sid = Some (mkGor src pc) /\ k src pc = Some s'.
Proof. unfold with_gor. destruct (gors s !! sid) as [[src pc]|]; [|done]. simpl. eauto. Qed.

Lemma inv_gor_step l sid s s' :
  owner l = Some sid -> inv s -> step InactivityTimeout l s = Some s' -> inv s'.
Proof.
  intros Ho Hi. unfold step. destruct (panicked s); [done|].
  destruct l; simpl in Ho; try discriminate; injection Ho as ->;
    intros (src & pc & Hg & Hk)%with_gor_Some; destruct pc; try discriminate Hk.
  - injection Hk as <-. by eapply inv_check_close.
  - injection Hk as <-. by eapply inv_set_gor.
  - injection Hk as <-. by eapply inv_set_gor.
  - destruct (is_timeout err); [destruct (past_deadline _ _); [|done]|]; injection Hk as <-; by eapply inv_set_gor.
  - injection Hk as <-. by eapply inv_check_close.
  - injection Hk as <-. eapply (inv_set_gor _ sid src (GTouch data)); try done. by apply inv_touch.
  - destruct (ok && listener_open s); injection Hk as <-; [|by eapply inv_set_gor].
    apply inv_add_replied; [by eapply inv_set_gor|].
    rewrite (gor_src_set_gor _ _ _ (GReply data)) by done. unfold gor_src. by rewrite Hg.
  - destruct (removeSession src sid (heap s, sessions s)) as [h m] eqn:Er.
    injection Hk as <-. apply inv_removeSession in Er as [Hi' Hno]; [|done].
    eapply (inv_set_gor _ sid src GExit); try done. intros _. by eapply Hno.
  - injection Hk as <-. by apply inv_finish.
Qed.

Lemma inv_step l s s' : inv s -> step InactivityTimeout l s = Some s' -> inv s'.
Proof.
  intros Hi. destruct (owner l) as [sid|] eqn:Ho; [by eapply inv_gor_step|].
  unfold step. destruct (panicked s); [done|]. pose proof (inv_main s Hi) as Hm.
  destruct l; simpl in Ho; try discriminate Ho;
    unfold main_recv, main_recv_err, main_session, main_touch, main_send, reaper_tick,
      reaper_done, close_mark, close_select, close_done, close_listener.
  - destruct (main s); try done. destruct (listener_open s); [|done].
    intros [= <-]. by apply inv_set_main.
  - destruct (main s); try done. destruct (closedByUs _ _); intros [= <-]; [|done].
    by apply inv_set_main.
  - destruct (main s) as [|src data| | |]; try done. unfold getOrCreateSession.
    destruct (sessions s !! src) as [sid|] eqn:Hk.
    + intros [= <-]. apply inv_set_main; [by apply inv_touch|].
      destruct (inv_table s Hi src sid Hk) as (x & pc & _ & _ & Hg & _).
      unfold gor_src. simpl. by rewrite Hg.
    + destruct dial; intros [= <-]; [by apply inv_set_main|].
      apply (inv_set_main _ (MTouch (next s) src data) (inv_new_session s now _ src Hi Hk)).
      unfold gor_src. simpl. by rewrite lookup_insert_eq.
  - destruct (main s); try done. intros [= <-]. apply inv_set_main; [by apply inv_touch|done].
  - destruct (main s); try done. destruct (_ && _); intros [= <-].
    + apply inv_add_forwarded; [by apply inv_set_main|done].
    + by apply inv_set_main.
  - destruct (reaper s); [|done]. destruct (reap _ _ _) as [h m] eqn:Er.
    intros [= <-]. by eapply inv_reap.
  - destruct (reaper s); [|done]. destruct (done s); [done|]. intros [= <-].
    destruct Hi as [Ht Hg Hc Hf Hm' Hfw Hr Hcl]. by split.
  - destruct (closers s !! c); [done|]. intros [= <-]. by apply inv_shutdown.
  - destruct (closers s !! c) as [[]|] eqn:Hc; try done. intros [= <-].
    apply inv_shutdown; [done|]. apply (inv_closed s Hi). right; right; eauto.
  - destruct (closers s !! c) as [[]|] eqn:Hc; try done.
    assert (closed s = true) by (apply (inv_closed s Hi); right; right; eauto).
    destruct (done s); intros [= <-]; by apply inv_shutdown.
  - destruct (closers s !! c) as [[]|] eqn:Hc; try done. intros [= <-].
    apply inv_shutdown; [done|]. apply (inv_closed s Hi). right; right; eauto.
Qed.

Lemma inv_reachable s :
  reachable (step InactivityTimeout) (init InactivityTimeout) s -> inv s.
Proof.
  apply reachable_invariant; [apply inv_init|]. intros. by eapply inv_step.
Qed.
End invariant.
