(* ===== verification/UdpProxyProps.v ===== *)
(** * UdpProxyProps: what the UDP forwarder of [udp_proxy.go] guarantees

    Properties of every interleaving of the read loop, the session goroutines,
    the reaper and the callers of [Close], from the invariant of [UdpProxy]. *)

From S2P Require Import Prelude GoStr ConfigTypes World Shutdown UdpTable UdpProxy.

(** The datagrams the read loop received during a run, in order. *)
Definition received (ls : list label) : list (string * string) :=
  omap (fun l => match l with Recv src data => Some (src, data) | _ => None end) ls.

(** The datagram the read loop holds. *)
Definition pending (s : state) : list (string * string) :=
  match main s with
  | MGot src data | MTouch _ src data | MSend _ src data => [(src, data)]
  | MRead | MReturned _ => []
  end.

(** Own steps a session's goroutine still takes once its channel is closed. *)
Definition gor_rank (pc : gpc) : nat :=
  match pc with
  | GArm => 7 | GRead _ => 6 | GTouch _ => 5 | GReply _ => 4 | GTop | GTimeout => 3
  | GExit => 2 | GClose => 1 | GDone => 0
  end.

(** Own steps [Serve] still takes once the listener is closed. *)
Definition main_rank (m : mpc) : nat :=
  match m with
  | MGot _ _ => 4 | MTouch _ _ _ => 3 | MSend _ _ _ => 2 | MRead => 1 | MReturned _ => 0
  end.
Definition main_label (l : label) : bool :=
  match l with Recv _ _ | RecvErr _ | GetSession _ _ | Touch _ | Send _ => true | _ => false end.

(** Steps that need nothing from the remote target: no answer of it and no
    network error; a read may time out at [now]. *)
Definition unaided (now : Z) (l : label) : bool :=
  match l with
  | GorRead _ _ => false
  | GorReadErr _ n err => is_timeout err && (n =? now)%Z
  | _ => true
  end.

Definition owned_by (sid : nat) (l : label) : bool := bool_decide (owner l = Some sid).

(** No caller is inside [Close]. *)
Definition no_closer (s : state) : bool :=
  bool_decide (map_Forall (fun _ pc => pc = CReturned) (closers s)).

(** Steps where a [Close] starts only when no other one is running. *)
Definition seq_step (t : Z) (l : label) (s : state) : option state :=
  match l with
  | CloseMark _ => if no_closer s then step t l s else None
  | _ => step t l s
  end.

(** The steps of a caller of [Close]. *)
Definition calls_Close (l : label) : bool :=
  match l with CloseMark _ | CloseSelect _ | CloseDone _ | CloseListener _ => true | _ => false end.

Section props.
Context {t : Z}.
Implicit Types s : state.

(** Unfold one step and split on the state it looks at. *)
Ltac step_cases :=
  unfold step, main_recv, main_recv_err, main_session, getOrCreateSession, main_touch,
    main_send, reaper_tick, reaper_done, close_mark, close_select, close_done, close_listener,
    gor_top, gor_arm, gor_read, gor_read_err, gor_timeout, gor_touch, gor_reply, gor_remove, gor_close,
    check_close, with_gor, mbind, option_bind;
  intros; go_cases; try done.

(** ** Which part of the state a step may change *)
Lemma step_live l s s' : step t l s = Some s' -> panicked s = false.
Proof. unfold step. by destruct (panicked s). Qed.

Lemma step_gor l s s' sid :
  inv s -> step t l s = Some s' -> owner l <> Some sid -> is_Some (gors s !! sid) ->
  gors s' !! sid = gors s !! sid.
Proof.
  intros Hi Hs Ho [g Hg]. assert (next s <> sid) as Hne.
  { intros <-. destruct (inv_fresh s Hi (next s) (le_n _)). congruence. }
  revert Hs. destruct l; simpl in Ho; step_cases; rewrite ?lookup_insert_ne by congruence; try done.
Qed.

Lemma step_main l s s' :
  step t l s = Some s' -> main_label l = false -> main s' = main s.
Proof. intros Hs Hl. revert Hs. destruct l; try done; step_cases. Qed.

Lemma step_listener l s s' :
  step t l s = Some s' -> listener_open s = false -> listener_open s' = false.
Proof. intros Hs Hl. revert Hs. destruct l; try done; step_cases. Qed.

(** What a step does to the objects and to the table. *)
Lemma removeSession_closed src i h m h' m' sid x :
  removeSession src i (h, m) = (h', m') -> h !! sid = Some x -> closeChan x = ChanClosed ->
  exists x', h' !! sid = Some x' /\ closeChan x' = ChanClosed.
Proof.
  unfold removeSession. case_bool_decide; intros [= <- <-] Hx Hc; [|eauto].
  rewrite lookup_alter. case_decide; [subst i|eauto]. rewrite Hx. eexists. split; [done|].
  rewrite close_if_open_eq. apply closeChan_close.
Qed.
Lemma reap_closed now dur h m h' m' sid (x : udpSession) :
  reap now dur (h, m) = (h', m') -> h !! sid = Some x -> closeChan x = ChanClosed ->
  exists x', h' !! sid = Some x' /\ closeChan x' = ChanClosed.
Proof.
  intros Hr Hx Hc. destruct (reap_heap now dur h m sid) as (f & Hf & Hcases).
  rewrite Hr, Hx in Hf. simpl in Hf. exists (f x). split; [done|].
  destruct Hcases as [->|[-> _]]; [done|apply closeChan_close].
Qed.

Lemma sess_closed_spec sid s :
  sess_closed sid s = true <-> exists x, heap s !! sid = Some x /\ closeChan x = ChanClosed.
Proof.
  unfold sess_closed. destruct (heap s !! sid) as [x|].
  - rewrite bool_decide_eq_true. naive_solver.
  - naive_solver.
Qed.

Lemma step_closed l s s' sid :
  inv s -> step t l s = Some s' -> sess_closed sid s = true -> sess_closed sid s' = true.
Proof.
  intros Hi Hs (x & Hx & Hc)%sess_closed_spec. apply sess_closed_spec.
  assert (next s <> sid) as Hne.
  { intros <-. destruct (inv_fresh s Hi (next s) (le_n _)). congruence. }
  assert (forall now i, exists x', alter (touch now) i (heap s) !! sid = Some x' /\ closeChan x' = ChanClosed) as Ht.
  { intros now i. destruct (lookup_alter_touch (heap s) now i sid x Hx) as (x' & ? & ?).
    exists x'. split; [done|congruence]. }
  revert Hs. destruct l; step_cases; try (by apply Ht); try (by eauto).
  - rewrite lookup_insert_ne by congruence. eauto.
  - match goal with H : reap _ _ _ = _ |- _ => exact (reap_closed _ _ _ _ _ _ _ _ H Hx Hc) end.
  - rewrite lookup_alter. destruct (decide _); subst; [|eauto]. exists (close_if_open x).
    split; [by rewrite Hx|]. by rewrite close_if_open_eq.
Qed.

Lemma inv_run s ls s' : inv s -> run (step t) s ls = Some s' -> inv s'.
Proof. apply run_invariant. intros. by eapply inv_step. Qed.

(** ** Traffic *)

(** No datagram crosses from one client to another: whatever the
    interleaving, all the traffic of a connection to the target, in both
    directions, belongs to one local source address. *)
Theorem sessions_never_cross s c src d dst d' :
  reachable (step t) (init t) s ->
  (c, src, d) ∈ forwarded s ++ replied s -> (c, dst, d') ∈ forwarded s ++ replied s ->
  src = dst.
Proof.
  intros Hi%inv_reachable H1 H2.
  assert (forall a b x, (a, b, x) ∈ forwarded s ++ replied s -> gor_src s a = Some b) as H.
  { intros a b x [?|?]%elem_of_app; [by eapply inv_forwarded|by eapply inv_replied]. }
  apply H in H1, H2. congruence.
Qed.

(** What has been forwarded, as (source, datagram) pairs. *)
Definition forwarded_data s : list (string * string) :=
  (fun '(_, src, data) => (src, data)) <$> forwarded s.

Lemma step_traffic l s s' :
  step t l s = Some s' ->
  forwarded_data s' ++ pending s' `sublist_of` (forwarded_data s ++ pending s) ++ received [l].
Proof.
  intros Hs. unfold pending, forwarded_data. revert Hs.
  destruct l; step_cases; rewrite ?fmap_app, ?app_nil_r, <-?(assoc_L (++)); simpl;
    try done; try (by apply sublist_inserts_r).
Qed.

(** The read loop forwards what it received and nothing else: the
    datagrams written to the target, with the source each is attributed to,
    are a subsequence of the datagrams received, so none is invented,
    altered, duplicated, reordered or attributed to another client. *)
Theorem forwarding_is_faithful ls s :
  run (step t) (init t) ls = Some s -> forwarded_data s `sublist_of` received ls.
Proof.
  intros Hr. cut (forwarded_data s ++ pending s `sublist_of`
    (forwarded_data (init t) ++ pending (init t)) ++ received ls).
  { intros H. etrans; [|exact H]. by apply sublist_inserts_r. }
  revert Hr. generalize (init t). induction ls as [|l ls IH]; intros s0; cbn [run].
  - intros [= ->]. by rewrite app_nil_r.
  - destruct (step t l s0) as [s1|] eqn:E; [|done]. intros Hr%IH.
    apply step_traffic in E. etrans; [exact Hr|].
    change (received (l :: ls)) with (received ([l] ++ ls)). unfold received.
    rewrite omap_app, (assoc_L (++)). by apply sublist_app.
Qed.

(** ** The table *)

(** Every session in the table is usable: its channel is open, its
    connection is open, and its goroutine is running for that very key and
    has not begun its clean-up. *)
Theorem table_sessions_are_live s key sid :
  reachable (step t) (init t) s -> sessions s !! key = Some sid ->
  sess_closed sid s = false /\ sid ∈ open_conns s /\
  exists pc, gors s !! sid = Some (mkGor key pc) /\ pc <> GClose /\ pc <> GDone.
Proof.
  intros Hi%inv_reachable Hk.
  destruct (inv_table s Hi key sid Hk) as (x & pc & Hx & Hc & Hg & H1 & H2). split_and!.
  - unfold sess_closed. rewrite Hx, Hc. done.
  - by apply (inv_gor s Hi sid _ Hg).
  - by exists pc.
Qed.

(** C12: a table entry is never overwritten, and only two actions drop it: the
    clean-up of that very session's own goroutine, and a reaper tick that
    finds it idle for the whole timeout.  A goroutine of an earlier session of
    the same client never removes its successor. *)
Theorem entry_dropped_only_by_its_owner l s s' key sid :
  reachable (step t) (init t) s -> step t l s = Some s' -> sessions s !! key = Some sid ->
  sessions s' !! key = Some sid \/
  (sessions s' !! key = None /\
   (l = GorRemove sid \/
    exists now, l = ReaperTick now /\ is_expired now (seconds t) (heap s) sid = true)).
Proof.
  intros Hi%inv_reachable Hs Hk. revert Hs.
  destruct l; step_cases; simpl; try (by left).
  - left. rewrite lookup_insert_ne by congruence. done.
  - match goal with H : reap ?n ?d ?hm = _ |- _ =>
      pose proof (reap_sessions n d (heap s) (sessions s) key) as Hr; rewrite H, Hk in Hr end.
    simpl in Hr. rewrite Hr. destruct (is_expired _ _ _ sid) eqn:He; [right|by left]. eauto.
  - rewrite lookup_delete. destruct (decide _) as [E|]; [right|by left].
    split; [done|]. left. f_equal.
    match goal with H : bool_decide _ = true |- _ => apply bool_decide_eq_true in H end.
    congruence.
Qed.

(** A reaper tick is exact: it keeps, with their objects untouched, the
    sessions used within the timeout, drops all the others and closes their
    channels. *)
Theorem reaper_tick_exact now s s' key sid :
  reachable (step t) (init t) s -> step t (ReaperTick now) s = Some s' ->
  sessions s !! key = Some sid ->
  if is_expired now (seconds t) (heap s) sid
  then sessions s' !! key = None /\ sess_closed sid s' = true
  else sessions s' !! key = Some sid /\ heap s' !! sid = heap s !! sid.
Proof.
  intros Hi%inv_reachable Hs Hk. unfold step, reaper_tick in Hs.
  destruct (panicked s); [done|]. destruct (reaper s); [|done].
  destruct (reap _ _ _) as [h m] eqn:Er. injection Hs as <-.
  pose proof (reap_sessions now (seconds t) (heap s) (sessions s) key) as Hm.
  pose proof (reap_keeps now (seconds t) (heap s) (sessions s) key sid) as Hh.
  pose proof (reap_kills now (seconds t) (heap s) (sessions s) key sid Hk) as Hd.
  rewrite Er in Hm, Hh, Hd. rewrite Hk in Hm. simpl in *.
  destruct (is_expired _ _ _ sid) eqn:He; (split; [done|]).
  - unfold sess_closed. simpl. destruct (inv_table s Hi key sid Hk) as (x & pc & Hx & _).
    rewrite Hd, Hx by done. done.
  - apply Hh; [|done]. intros k' ?. by eapply inv_inj.
Qed.

(** ** Termination *)

Definition rank_of sid s : nat := from_option (gor_rank ∘ g_pc) 0 (gors s !! sid).

Lemma gor_step_closed l s s' sid g :
  step t l s = Some s' -> owner l = Some sid -> sess_closed sid s = true ->
  gors s !! sid = Some g ->
  exists g', gors s' !! sid = Some g' /\ gor_rank (g_pc g') < gor_rank (g_pc g).
Proof.
  intros Hs Ho Hc Hg. revert Hs.
  destruct l; simpl in Ho; try discriminate Ho; injection Ho as ->;
    step_cases; simpl in *; rewrite lookup_insert_eq; eexists; (split; [done|]);
    destruct g as [gs gp]; simpl in *; subst; simpl; lia.
Qed.

(** The step a goroutine can take next at time [now]. *)
Definition gor_next sid (now : Z) (pc : gpc) : label :=
  match pc with
  | GTop => GorTop sid | GArm => GorArm sid now
  | GRead _ => GorReadErr sid now (extError "i/o timeout" true)
  | GTimeout => GorTimeout sid | GTouch _ => GorTouch sid now | GReply _ => GorReply sid false
  | GExit => GorRemove sid | GClose | GDone => GorClose sid
  end.

(** When the goroutine can go on without the target: at once, or at the
    deadline of its read; never if a read has none. *)
Definition wakes_at (pc : gpc) (now : Z) : bool :=
  match pc with GRead deadline => past_deadline deadline now | _ => true end.

Lemma gor_progress s sid g now :
  panicked s = false -> gors s !! sid = Some g -> g_pc g <> GDone -> wakes_at (g_pc g) now = true ->
  unaided now (gor_next sid now (g_pc g)) = true /\ owner (gor_next sid now (g_pc g)) = Some sid /\
  is_Some (step t (gor_next sid now (g_pc g)) s).
Proof.
  intros Hp Hg Hd Hw. destruct g as [src pc]. simpl in *.
  destruct pc; simpl in *; rewrite ?Z.eqb_refl; (split; [done|split; [done|]]); unfold step; rewrite Hp;
    unfold gor_top, gor_arm, gor_read_err, gor_timeout, gor_touch, gor_reply, gor_remove, gor_close,
      with_gor; rewrite Hg; simpl; rewrite ?Hw; try done.
  destruct (bool_decide _); done.
Qed.

(** Every read of a session has a deadline. *)
Definition reads_armed s : Prop :=
  forall sid g deadline, gors s !! sid = Some g -> g_pc g = GRead deadline -> is_Some deadline.
Lemma armed_reachable s : reachable (step t) (init t) s -> reads_armed s.
Proof.
  apply (reachable_invariant (step t) reads_armed); [intros sid g d Hg; simpl in Hg; simplify_map_eq|].
  intros l s1 s2 Ha Hs sid g d Hg Hpc. revert Hs Hg.
  destruct l; step_cases; simpl in *; try (by eapply Ha);
    match goal with H : <[_ := _]> _ !! _ = Some _ |- _ => rewrite lookup_insert in H end;
    case_decide; simplify_eq/=; try done; try (by eapply Ha); case_match; simplify_eq.
Qed.

(** C11: once a session's channel is closed, by the reaper or by its own
    clean-up, its goroutine takes at most seven more steps of its own, in every
    interleaving that no panic ends.  Until it is done it never waits for the
    target alone: there is a time (the deadline of its read, if it is in one,
    and otherwise any) from which on a step of its own is enabled that needs
    nothing from the target.  When it is done its connection is closed. *)
Theorem closed_session_goroutine_ends s ls s' sid g :
  reachable (step t) (init t) s -> gors s !! sid = Some g -> sess_closed sid s = true ->
  run (step t) s ls = Some s' -> panicked s' = false ->
  exists g', gors s' !! sid = Some g' /\
    length (List.filter (owned_by sid) ls) + gor_rank (g_pc g') <= gor_rank (g_pc g) <= 7 /\
    (g_pc g' = GDone /\ sid ∉ open_conns s' \/
     exists due, (forall d, g_pc g' = GRead d -> d = Some due) /\
       forall now, (due <= now)%Z ->
         exists l, unaided now l = true /\ owner l = Some sid /\ is_Some (step t l s')).
Proof.
  intros Hreach Hg Hc Hr Hp.
  assert (reads_armed s') as Harmed.
  { apply armed_reachable. destruct Hreach as [ls0 H0]. exists (ls0 ++ ls). by rewrite run_app, H0. }
  apply inv_reachable in Hreach as Hi.
  destruct (run_rank (step t) (owned_by sid) (rank_of sid)
    (fun s => inv s /\ sess_closed sid s = true /\ is_Some (gors s !! sid)) s ls s')
    as [(Hi' & Hc' & g' & Hg') Hn]; [|by eauto|done|].
  - intros l s1 s2 (Hi1 & Hc1 & g1 & Hg1) Hs1. unfold owned_by.
    assert (inv s2) by (by eapply inv_step). assert (sess_closed sid s2 = true) by (by apply (step_closed l s1)).
    unfold rank_of. case_bool_decide as Ho.
    + destruct (gor_step_closed _ _ _ _ _ Hs1 Ho Hc1 Hg1) as (g2 & Hg2 & Hlt).
      rewrite Hg1, Hg2. eauto.
    + rewrite (step_gor _ _ _ _ Hi1 Hs1 Ho (mk_is_Some _ _ Hg1)). rewrite Hg1. eauto.
  - unfold rank_of in Hn. rewrite Hg, Hg' in Hn. simpl in Hn. exists g'.
    split; [done|]. split; [split; [lia|destruct (g_pc g); simpl; lia]|].
    destruct (decide (g_pc g' = GDone)) as [Hd|Hd].
    { left. split; [done|]. destruct (inv_gor s' Hi' sid g' Hg') as [_ ->]. rewrite Hd. by intros []. }
    right. assert (exists due, (forall d, g_pc g' = GRead d -> d = Some due) /\
      forall now, (due <= now)%Z -> wakes_at (g_pc g') now = true) as (due & Hdue & Hw).
    { destruct (g_pc g') as [| |dl| | | | | |] eqn:Hpc; try (by exists 0%Z).
      destruct (Harmed sid g' dl Hg' Hpc) as [due ->]. exists due. split; [by intros ? [= <-]|].
      intros now Hnow. simpl. by apply bool_decide_eq_true_2. }
    exists due. split; [done|]. intros now Hnow. exists (gor_next sid now (g_pc g')).
    by apply gor_progress; auto.
Qed.

(** C23: after [Close] has closed the listener, [Serve] takes at most four more
    steps of its own in every interleaving that no panic ends, can always take one until it has
    returned, and returns nil whatever error the socket reports. *)
Theorem Serve_stops_after_Close s ls s' :
  reachable (step t) (init t) s -> listener_open s = false ->
  run (step t) s ls = Some s' -> panicked s' = false ->
  length (List.filter main_label ls) + main_rank (main s') <= main_rank (main s) <= 4 /\
  (main s' = MReturned None \/ exists l, main_label l = true /\ is_Some (step t l s')).
Proof.
  intros Hi%inv_reachable Hl Hr Hp.
  destruct (run_rank (step t) main_label (main_rank ∘ main)
    (fun s => inv s /\ listener_open s = false) s ls s') as [[Hi' Hl'] Hn]; [|done..|].
  - intros l s1 s2 [Hi1 Hl1] Hs1. assert (inv s2) by (by apply (inv_step t l s1)).
    assert (listener_open s2 = false) by (by apply (step_listener l s1)).
    split; [done|]. simpl. destruct (main_label l) eqn:Hml.
    + assert (closed s1 = true) as Hcl by (apply (inv_closed s1 Hi1); auto).
      revert Hs1. destruct l; try discriminate Hml;
        unfold step, main_recv, main_recv_err, closedByUs, stopping; simpl; rewrite ?Hl1, ?Hcl; simpl;
        step_cases; simpl; lia.
    + by rewrite (step_main _ _ _ Hs1 Hml).
  - simpl in Hn. split; [split; [lia|destruct (main s); simpl; lia]|].
    pose proof (inv_main s' Hi') as Hm.
    assert (closed s' = true) as Hcl by (apply (inv_closed s' Hi'); auto).
    destruct (main s') as [|src d|sid src d|sid src d|r] eqn:Hms; [right..|left; by subst].
    + exists (RecvErr errClosed). split; [done|].
      unfold step, main_recv_err. by rewrite Hp, Hms, Hcl.
    + exists (GetSession 0 (Some errClosed)). split; [done|].
      unfold step, main_session, getOrCreateSession. rewrite Hp, Hms. by destruct (_ !! _).
    + exists (Touch 0). split; [done|]. unfold step, main_touch. by rewrite Hp, Hms.
    + exists (Send false). split; [done|]. unfold step, main_send. by rewrite Hp, Hms.
Qed.

(** ** Callers of [Close] *)

Lemma seq_step_step l s s' : seq_step t l s = Some s' -> step t l s = Some s'.
Proof. unfold seq_step. destruct l; try done. by destruct (no_closer s). Qed.

Lemma seq_reachable s :
  reachable (seq_step t) (init t) s -> reachable (step t) (init t) s.
Proof.
  intros [ls H]. exists ls. revert H. generalize (init t).
  induction ls as [|l ls IH]; simpl; intros s0; [done|].
  destruct (seq_step t l s0) eqn:E; [|done]. apply seq_step_step in E as ->. apply IH.
Qed.

(** One caller at a time, and what it has done so far. *)
Record close_inv s : Prop := {
  ci_panic : panicked s = false;
  ci_one c c' p p' : closers s !! c = Some p -> closers s !! c' = Some p' ->
    p <> CReturned -> p' <> CReturned -> c = c';
  ci_phase c p : closers s !! c = Some p ->
    match p with
    | CMarked => True
    | CDefault => done s = ChanOpen
    | CListener => done s = ChanClosed
    | CReturned => done s = ChanClosed /\ listener_open s = false
    end
}.

(** Moving caller [c] on from a running state keeps the others. *)
Lemma ci_one_insert s c p q :
  close_inv s -> closers s !! c = Some p -> p <> CReturned ->
  forall i j a b, <[c := q]> (closers s) !! i = Some a -> <[c := q]> (closers s) !! j = Some b ->
    a <> CReturned -> b <> CReturned -> i = j.
Proof.
  intros Hc Hp Hne i j a b. rewrite !lookup_insert.
  repeat case_decide; simplify_eq; intros; simplify_eq; try done;
    first [by apply (ci_one s Hc i j a b)|by apply (ci_one s Hc i j p b)|by apply (ci_one s Hc i j a p)].
Qed.

Lemma ci_other s c p i q :
  close_inv s -> closers s !! c = Some p -> p <> CReturned -> i <> c ->
  closers s !! i = Some q -> q = CReturned.
Proof.
  intros Hc Hp Hne Hi Hq. destruct (decide (q = CReturned)) as [|Hn]; [done|].
  by destruct (Hi (ci_one s Hc i c q p Hq Hp Hn Hne)).
Qed.

Lemma close_inv_advance s c p q d l :
  close_inv s -> closers s !! c = Some p -> p <> CReturned ->
  (d = done s \/ d = ChanClosed) -> (l = listener_open s \/ l = false) ->
  match q with
  | CMarked => True
  | CDefault => d = ChanOpen
  | CListener => d = ChanClosed
  | CReturned => d = ChanClosed /\ l = false
  end ->
  close_inv (set_shutdown d (closed s) l (<[c := q]> (closers s)) false s).
Proof.
  intros Hc Hp Hne Hd Hl Hq. split; simpl; [done|by eapply ci_one_insert|].
  intros i a. rewrite lookup_insert. case_decide as E; [intros [= <-]; done|].
  intros Ha. pose proof (ci_other s c p i a Hc Hp Hne (not_eq_sym E) Ha) as ->.
  destruct (ci_phase s Hc i _ Ha) as [H1 H2]. rewrite H1, H2 in *. naive_solver.
Qed.

Lemma close_inv_step l s s' : close_inv s -> seq_step t l s = Some s' -> close_inv s'.
Proof.
  intros Hc Hs. assert (close_inv s -> panicked s' = panicked s -> closers s' = closers s ->
    done s' = done s -> listener_open s' = listener_open s -> close_inv s') as Hkeep.
  { intros [H1 H2 H3] E1 E2 E3 E4. split; rewrite ?E1, ?E2, ?E3, ?E4; done. }
  pose proof (ci_panic s Hc) as Hp. pose proof (ci_phase s Hc) as Hph.
  destruct l as [| | | | | | | | | | | | | | | |c|c|c|c];
    try (solve [apply Hkeep; [done|revert Hs; unfold seq_step; step_cases..]]).
  - simpl in Hs. destruct (no_closer s) eqn:Hn; [|done]. unfold no_closer in Hn.
    apply bool_decide_eq_true in Hn. unfold step, close_mark in Hs. rewrite Hp in Hs.
    destruct (closers s !! c) eqn:Hcc; [done|]. injection Hs as <-. split; simpl; [done| |].
    + intros i j a b. rewrite !lookup_insert. repeat case_decide; simplify_eq; intros; simplify_eq;
        try done; exfalso; naive_solver.
    + intros i a. rewrite lookup_insert. case_decide; [by intros [= <-]|]. apply Hph.
  - simpl in Hs. unfold step, close_select in Hs. rewrite Hp in Hs.
    destruct (closers s !! c) as [[]|] eqn:Hcc; try done. injection Hs as <-.
    eapply close_inv_advance; [done|exact Hcc|done|by left|by left|by destruct (done s)].
  - simpl in Hs. unfold step, close_done in Hs. rewrite Hp in Hs.
    destruct (closers s !! c) as [[]|] eqn:Hcc; try done.
    rewrite (Hph c _ Hcc) in Hs. injection Hs as <-.
    eapply close_inv_advance; [done|exact Hcc|done|by right|by left|done].
  - simpl in Hs. unfold step, close_listener in Hs. rewrite Hp in Hs.
    destruct (closers s !! c) as [[]|] eqn:Hcc; try done. injection Hs as <-.
    eapply close_inv_advance; [done|exact Hcc|done|by left|by right|].
    split; [by apply (Hph c _ Hcc)|done].
Qed.

(** C32: calls of [Close] that do not overlap never panic, however many there
    are and whatever else runs, and when one has returned the tunnel is marked
    closed, its [done] channel is closed and so is its listener. *)
Theorem sequential_Closes_never_panic s c :
  reachable (seq_step t) (init t) s ->
  panicked s = false /\
  (closers s !! c = Some CReturned ->
     closed s = true /\ done s = ChanClosed /\ listener_open s = false).
Proof.
  intros Hr. pose proof (inv_reachable t s (seq_reachable s Hr)) as Hi.
  assert (close_inv s) as Hc.
  { revert Hr. apply reachable_invariant; [|intros; by eapply close_inv_step].
    split; simpl; [done| |]; intros; simplify_map_eq. }
  split; [apply Hc|]. intros Hcc. pose proof (ci_phase s Hc c _ Hcc) as [? ?].
  split; [|done]. apply (inv_closed s Hi). auto.
Qed.

(** The [select] in [Close] does not make it safe against itself: a
    panic is only ever the [close(conf.done)] of a call that found the channel
    open while another call, still running then, closed it in between. *)
Theorem panic_is_overlapping_Close l s s' :
  reachable (step t) (init t) s -> step t l s = Some s' -> panicked s' = true ->
  exists c, l = CloseDone c /\ closers s !! c = Some CDefault /\ done s = ChanClosed.
Proof.
  intros _ Hs. pose proof (step_live _ _ _ Hs) as Hp. revert Hs.
  destruct l as [| | | | | | | | | | | | | | | |c|c|c|c]; step_cases; simpl; try congruence.
  eauto.
Qed.

(** So a tunnel nobody closes never panics. *)
Lemma no_Close_no_panic l s s' :
  calls_Close l = false -> step t l s = Some s' -> panicked s' = false.
Proof.
  intros Hl Hs. pose proof (step_live _ _ _ Hs) as Hp. revert Hs.
  destruct l; try discriminate Hl; step_cases; done.
Qed.

(** ** What [Close] leaves running *)

(** What the remote may do to a silent session: let its reads time out. *)
Definition silent sid (l : label) : Prop :=
  match l with
  | GorRead i _ => i <> sid
  | GorReadErr i _ err => i = sid -> is_timeout err = true
  | _ => True
  end.

Definition in_read_loop (pc : gpc) : bool :=
  match pc with GTop | GArm | GRead _ | GTimeout => true | _ => false end.

(** Nobody is left who would close the session. *)
Record orphan sid s : Prop := {
  or_main : main s = MReturned None;
  or_reaper : reaper s = RExited;
  or_open : sess_closed sid s = false;
  or_loop : exists g, gors s !! sid = Some g /\ in_read_loop (g_pc g) = true
}.

Lemma orphan_step sid l s s' :
  inv s -> silent sid l -> orphan sid s -> step t l s = Some s' -> orphan sid s'.
Proof.
  intros Hi Hl [Hm Hr Ho (g & Hg & Hpc)] Hs.
  destruct (decide (owner l = Some sid)) as [Hown|Hown].
  - revert Hs. destruct l; simpl in Hown, Hl; try discriminate Hown; injection Hown as ->;
      try done; step_cases; simpl in *; split; simpl; try done;
      rewrite lookup_insert_eq; eexists; (split; [done|]); simpl; try done;
      first [by rewrite Hl in * | simplify_eq/=; congruence | idtac].
  - split.
    + revert Hs. unfold step. destruct l; step_cases.
    + revert Hs. destruct l; step_cases.
    + revert Hs. destruct l; simpl in Hown; step_cases; unfold sess_closed in *; simpl in *;
        try (rewrite lookup_alter_ne by congruence); done.
    + rewrite (step_gor _ _ _ _ Hi Hs Hown (mk_is_Some _ _ Hg)). eauto.
Qed.

(** C40: [Close] does not end the sessions: once [Serve] has returned and the
    reaper has exited, a session in its read loop whose target stays silent
    keeps its connection open whatever happens next. *)
Theorem silent_sessions_outlive_Close s ls s' sid :
  reachable (step t) (init t) s -> orphan sid s -> Forall (silent sid) ls ->
  run (step t) s ls = Some s' ->
  sid ∈ open_conns s'.
Proof.
  intros Hi%inv_reachable Ho Hls Hr.
  assert (inv s' /\ orphan sid s') as [Hi' [_ _ _ (g & Hg & Hpc)]].
  { revert s Hi Ho Hr. induction Hls as [|l ls Hl _ IH]; simpl; intros s Hi Ho.
    - by intros [= <-].
    - destruct (step t l s) as [s1|] eqn:E; [|done]. apply IH; [by apply (inv_step t l s)|].
      by apply (orphan_step sid l s). }
  apply (inv_gor s' Hi' sid g Hg). intros Hd. by rewrite Hd in Hpc.
Qed.
End props.

(** ** Concrete runs *)
Module Scenario.
Definition client : string := "10.0.0.2:5".

(** One datagram forwarded and one reply, with a 30 second timeout. *)
Definition exchange : list label :=
  [Recv client "hi"; GetSession 0 None; Touch 1; Send true;
   GorTop 0; GorArm 0 1; GorRead 0 "yo"; GorTouch 0 2; GorReply 0 true; GorTop 0; GorArm 0 3].
Definition s1 : state := after (step 30) (init 30) exchange.
Lemma s1_reachable : reachable (step 30) (init 30) s1.
Proof. apply reachable_after. Qed.

Definition late : Z := 40000000000.
(** The reaper closed the session; its goroutine is blocked in a read. *)
Definition s2 : state := after (step 30) (init 30) (exchange ++ [ReaperTick late]).
Lemma s2_reachable : reachable (step 30) (init 30) s2.
Proof. apply reachable_after. Qed.
Definition wind_down : list label :=
  [GorReadErr 0 5000000003 (extError "i/o timeout" true); GorTimeout 0; GorRemove 0; GorClose 0].
Definition s3 : state := after (step 30) s2 wind_down.

(** [Close] ran to its end while the session was in use. *)
Definition closing : list label :=
  [CloseMark 1; CloseSelect 1; CloseDone 1; CloseListener 1].
Definition stopping : list label := [ReaperDone; RecvErr errClosed].
Definition s4 : state := after (step 30) (init 30) (exchange ++ closing).
Definition s5 : state := after (step 30) (init 30) (exchange ++ closing ++ stopping).
Lemma s4_reachable : reachable (step 30) (init 30) s4.
Proof. apply reachable_after. Qed.
Lemma s5_reachable : reachable (step 30) (init 30) s5.
Proof. apply reachable_after. Qed.

(** Two callers both find the channel open. *)
Definition race : list label :=
  [CloseMark 1; CloseMark 2; CloseSelect 1; CloseSelect 2; CloseDone 1].
Definition s6 : state := after (step 30) (init 30) race.
Lemma s6_reachable : reachable (step 30) (init 30) s6.
Proof. apply reachable_after. Qed.

Lemma sessions_never_cross_witness :
  (0, client, "hi") ∈ forwarded s1 ++ replied s1 /\ client = client.
Proof.
  assert ((0, client, "hi") ∈ forwarded s1 ++ replied s1) as H1
    by (apply (bool_decide_unpack _); vm_compute; exact I).
  assert ((0, client, "yo") ∈ forwarded s1 ++ replied s1) as H2
    by (apply (bool_decide_unpack _); vm_compute; exact I).
  split; [exact H1|]. exact (sessions_never_cross _ _ _ _ _ _ s1_reachable H1 H2).
Defined.

Lemma forwarding_is_faithful_witness :
  forwarded_data s1 = [(client, "hi")] /\ forwarded_data s1 `sublist_of` received exchange.
Proof.
  split; [vm_compute; reflexivity|].
  apply (forwarding_is_faithful exchange s1 (t := 30)). vm_compute. reflexivity.
Defined.

Lemma table_sessions_are_live_witness : sess_closed 0 s1 = false /\ 0 ∈ open_conns s1.
Proof.
  destruct (table_sessions_are_live s1 client 0 s1_reachable) as (H1 & H2 & _).
  - vm_compute. reflexivity.
  - split; [exact H1|exact H2].
Defined.

Lemma entry_dropped_witness : sessions s2 !! client = Some 0 \/ sessions s2 !! client = None.
Proof.
  destruct (entry_dropped_only_by_its_owner (ReaperTick late) s1 s2 client 0 s1_reachable)
    as [H|[H _]].
  - vm_compute. reflexivity.
  - vm_compute. reflexivity.
  - left. exact H.
  - right. exact H.
Defined.

Lemma reaper_tick_exact_witness : sessions s2 !! client = None /\ sess_closed 0 s2 = true.
Proof.
  apply (reaper_tick_exact late s1 s2 client 0 s1_reachable); vm_compute; reflexivity.
Defined.

Lemma closed_session_goroutine_ends_witness :
  exists g', gors s3 !! 0 = Some g' /\ 4 + gor_rank (g_pc g') <= 7.
Proof.
  destruct (closed_session_goroutine_ends s2 wind_down s3 0 (mkGor client (GRead (Some 5000000003%Z))) s2_reachable)
    as (g' & H1 & H2 & _); [vm_compute; reflexivity..|].
  exists g'. split; [exact H1|]. destruct H2 as [H2 H3]. exact (Nat.le_trans _ _ _ H2 H3).
Defined.

Lemma Serve_stops_after_Close_witness :
  listener_open s4 = false /\ 1 + main_rank (main s5) <= 4.
Proof.
  split; [vm_compute; reflexivity|].
  destruct (Serve_stops_after_Close s4 stopping s5 s4_reachable) as [[H1 H2] _];
    [vm_compute; reflexivity..|].
  exact (Nat.le_trans _ _ _ H1 H2).
Defined.

Lemma sequential_Closes_witness :
  let s := after (seq_step 30) (init 30) (exchange ++ closing) in
  closers s !! 1 = Some CReturned /\ panicked s = false /\ listener_open s = false.
Proof.
  pose (s := after (seq_step 30) (init 30) (exchange ++ closing)).
  assert (closers s !! 1 = Some CReturned) as Hc by (vm_compute; reflexivity).
  destruct (sequential_Closes_never_panic s 1 (reachable_after (seq_step 30) (init 30) _))
    as [H1 H2].
  split; [exact Hc|]. split; [exact H1|]. apply (H2 Hc).
Defined.

Lemma panic_witness : exists s', step 30 (CloseDone 2) s6 = Some s' /\ panicked s' = true /\
  exists c, CloseDone 2 = CloseDone c /\ closers s6 !! c = Some CDefault.
Proof.
  destruct (step 30 (CloseDone 2) s6) as [s'|] eqn:E; [|vm_compute in E; discriminate E].
  exists s'. split; [reflexivity|].
  assert (panicked s' = true) as Hp by (vm_compute in E; injection E as <-; reflexivity).
  split; [exact Hp|].
  destruct (panic_is_overlapping_Close (CloseDone 2) s6 s' s6_reachable E Hp) as (c & H1 & H2 & _).
  exists c. split; [exact H1|exact H2].
Defined.

Lemma s5_orphan : orphan 0 s5.
Proof.
  split; [vm_compute; reflexivity..|].
  exists (mkGor client (GRead (Some 5000000003%Z))). split; vm_compute; reflexivity.
Defined.

Lemma silent_sessions_witness :
  0 ∈ open_conns (after (step 30) s5
    [GorReadErr 0 6000000000 (extError "i/o timeout" true); GorTimeout 0; GorTop 0]).
Proof.
  apply (silent_sessions_outlive_Close (t := 30) s5
    [GorReadErr 0 6000000000 (extError "i/o timeout" true); GorTimeout 0; GorTop 0] _ 0 s5_reachable s5_orphan).
  - repeat constructor.
  - vm_compute. reflexivity.
Defined.
End Scenario.
