(* ===== verification/UdpServer.v ===== *)
(** * UdpServer: [udp_server_tunnel.go]

    [UDPServerTunnelConfig] after [Bind]: the read loop of [Serve] on the
    WireGuard side, one goroutine per session, the reaper, and callers of
    [Close], interleaved.  Unlike [udp_proxy.go], the look-up and the insertion are two critical
    sections with the dial between them, the goroutine starts after the
    insertion, reads have a deadline only with a positive timeout, and the connection is
    closed before the table entry is removed. *)

From S2P Require Import Prelude GoStr ConfigTypes World Shutdown UdpTable.

Record udpServerSession := mkSession {
  localConn : handle;
  session_lastActive : Z;
  session_closeChan : chan_state
}.

#[export] Program Instance udpServerSession_Session : Session udpServerSession := {|
  lastActive := session_lastActive;
  closeChan := session_closeChan;
  close_session s := mkSession (localConn s) (session_lastActive s) ChanClosed;
  touch now s := mkSession (localConn s) now (session_closeChan s)
|}.
Next Obligation. done. Qed.
Next Obligation. done. Qed.
Next Obligation. by intros [? ? ?] [= ->]. Qed.
Next Obligation. done. Qed.

(** Where a session's goroutine is. *)
Inductive gpc :=
  | GTop                       (* at the [select] at the head of the loop *)
  | GArm                       (* about to set the read deadline, if any *)
  | GRead (deadline : option Z)  (* in [localConn.Read]; the deadline of the connection *)
  | GTimeout                   (* at the [select] of the timeout branch *)
  | GTouch (data : string)     (* about to set [lastActive] *)
  | GReply (data : string)     (* about to write to the WireGuard peer *)
  | GClose                     (* returning: the deferred [localConn.Close] *)
  | GRemove                    (* then the deferred [closeSession] *)
  | GDone.
#[export] Instance gpc_eq_dec : EqDecision gpc.
Proof. solve_decision. Defined.

(** Where [Serve] is. *)
Inductive mpc :=
  | MRead
  | MGot (src data : string)                    (* about to look the session up *)
  | MDial (src data : string)                   (* no session: about to dial *)
  | MInsert (sid : nat) (src data : string)     (* about to insert the new one *)
  | MSpawn (sid : nat) (src data : string)      (* about to start its goroutine *)
  | MSend (sid : nat) (src data : string)       (* about to write to the target *)
  | MReturned (err : option error).

Inductive rpc := RRunning | RExited.
(** Where a caller of [Close] is. *)
Inductive cpc :=
  | CMarked          (* [markClosed] done *)
  | CDefault         (* the [select] found [done] open *)
  | CListener        (* about to close the listener *)
  | CReturned.
#[export] Instance cpc_eq_dec : EqDecision cpc.
Proof. solve_decision. Defined.

Record state := mkState {
  heap : gmap nat udpServerSession;
  sessions : gmap string nat;
  gors : gmap nat gpc;
  open_conns : gset nat;
  srcs : gmap nat string;       (* which source address a session was made for *)
  main : mpc;
  reaper : rpc;
  done : chan_state;
  closed : bool;
  listener_open : bool;
  closers : gmap nat cpc;
  panicked : bool;
  forwarded : list (nat * string * string);
  replied : list (nat * string * string);
  next : nat
}.

Definition set_table h m s :=
  mkState h m (gors s) (open_conns s) (srcs s) (main s) (reaper s) (done s) (closed s)
    (listener_open s) (closers s) (panicked s) (forwarded s) (replied s) (next s).
Definition set_main m s :=
  mkState (heap s) (sessions s) (gors s) (open_conns s) (srcs s) m (reaper s) (done s) (closed s)
    (listener_open s) (closers s) (panicked s) (forwarded s) (replied s) (next s).
Definition set_gor sid pc s :=
  mkState (heap s) (sessions s) (<[sid:=pc]> (gors s)) (open_conns s) (srcs s) (main s) (reaper s)
    (done s) (closed s) (listener_open s) (closers s) (panicked s) (forwarded s) (replied s) (next s).
Definition close_conn c s :=
  mkState (heap s) (sessions s) (gors s) (open_conns s ∖ {[c]}) (srcs s) (main s) (reaper s)
    (done s) (closed s) (listener_open s) (closers s) (panicked s) (forwarded s) (replied s) (next s).
Definition log_traffic fw rp s :=
  mkState (heap s) (sessions s) (gors s) (open_conns s) (srcs s) (main s) (reaper s) (done s)
    (closed s) (listener_open s) (closers s) (panicked s) (forwarded s ++ fw) (replied s ++ rp) (next s).
Definition set_shutdown r d c l cs p s :=
  mkState (heap s) (sessions s) (gors s) (open_conns s) (srcs s) (main s) r d c l cs p
    (forwarded s) (replied s) (next s).

Section server.
Variable InactivityTimeout : Z.
Let inactivityDur := seconds InactivityTimeout.

Definition init : state :=
  mkState ∅ ∅ ∅ ∅ ∅ MRead (if bool_decide (0 < InactivityTimeout)%Z then RRunning else RExited)
    ChanOpen false true ∅ false [] [] 0.

Inductive label :=
  | Recv (src data : string)
  | RecvOther                              (* a source that is not a UDP address *)
  | RecvErr (err : error)
  | Lookup (now : Z)
  | Dial (now : Z) (r : option error)
  | Insert
  | Spawn
  | Send (write_ok : bool)
  | ReaperTick (now : Z)
  | ReaperDone
  | GorTop (sid : nat)
  | GorArm (sid : nat) (now : Z)
  | GorRead (sid : nat) (data : string)
  | GorReadErr (sid : nat) (now : Z) (err : error)
  | GorTimeout (sid : nat)
  | GorTouch (sid : nat) (now : Z)
  | GorReply (sid : nat) (ok : bool)
  | GorClose (sid : nat)
  | GorRemove (sid : nat)
  | CloseMark (c : nat)
  | CloseSelect (c : nat)
  | CloseDone (c : nat)
  | CloseListener (c : nat).

Definition main_step (l : label) (s : state) : option state :=
  match l, main s with
  | Recv src data, MRead => if listener_open s then Some (set_main (MGot src data) s) else None
  | RecvOther, MRead => if listener_open s then Some s else None
  | RecvErr err, MRead =>
      if closedByUs (mkShutdown (closed s)) (Some err) then Some (set_main (MReturned None) s)
      else Some s
  | Lookup now, MGot src data =>
      match sessions s !! src with
      | Some sid =>
          Some (set_main (MSend sid src data) (set_table (alter (touch now) sid (heap s)) (sessions s) s))
      | None => Some (set_main (MDial src data) s)
      end
  | Dial now r, MDial src data =>
      match r with
      | Some err => Some (set_main MRead s)
      | None =>
          let sid := next s in
          Some (mkState (<[sid := mkSession sid now ChanOpen]> (heap s)) (sessions s) (gors s)
                  ({[sid]} ∪ open_conns s) (<[sid := src]> (srcs s)) (MInsert sid src data)
                  (reaper s) (done s) (closed s) (listener_open s) (closers s) (panicked s) (forwarded s)
                  (replied s) (S sid))
      end
  | Insert, MInsert sid src data =>
      Some (set_main (MSpawn sid src data) (set_table (heap s) (<[src := sid]> (sessions s)) s))
  | Spawn, MSpawn sid src data => Some (set_main (MSend sid src data) (set_gor sid GTop s))
  | Send write_ok, MSend sid src data =>
      let s1 := set_main MRead s in
      Some (if write_ok && bool_decide (sid ∈ open_conns s)
            then log_traffic [(sid, src, data)] [] s1 else s1)
  | _, _ => None
  end.

Definition reaper_step (l : label) (s : state) : option state :=
  match l, reaper s with
  | ReaperTick now, RRunning =>
      let '(h, m) := reap now inactivityDur (heap s, sessions s) in Some (set_table h m s)
  | ReaperDone, RRunning =>
      match done s with
      | ChanClosed => Some (set_shutdown RExited (done s) (closed s) (listener_open s) (closers s) (panicked s) s)
      | ChanOpen => None
      end
  | _, _ => None
  end.

Definition sess_closed (sid : nat) (s : state) : bool :=
  match heap s !! sid with
  | Some x => bool_decide (closeChan x = ChanClosed)
  | None => false
  end.

(** [if inactivityDur > 0 { SetReadDeadline(time.Now().Add(5 * time.Second)) }]:
    without it the connection never has a deadline. *)
Definition armed (now : Z) : option Z :=
  if bool_decide (0 < inactivityDur)%Z then Some (now + 5000000000)%Z else None.

Definition gor_step (l : label) (sid : nat) (pc : gpc) (src : string) (s : state) : option state :=
  match l, pc with
  | GorTop _, GTop => Some (set_gor sid (if sess_closed sid s then GClose else GArm) s)
  | GorArm _ now, GArm => Some (set_gor sid (GRead (armed now)) s)
  | GorRead _ data, GRead _ => Some (set_gor sid (GTouch data) s)
  | GorReadErr _ now err, GRead deadline =>
      if is_timeout err
      then (if past_deadline deadline now then Some (set_gor sid GTimeout s) else None)
      else Some (set_gor sid GClose s)
  | GorTimeout _, GTimeout => Some (set_gor sid (if sess_closed sid s then GClose else GTop) s)
  | GorTouch _ now, GTouch data =>
      Some (set_gor sid (GReply data) (set_table (alter (touch now) sid (heap s)) (sessions s) s))
  | GorReply _ ok, GReply data =>
      if ok && listener_open s
      then Some (log_traffic [] [(sid, src, data)] (set_gor sid GTop s))
      else Some (set_gor sid GClose s)
  | GorClose _, GClose => Some (close_conn sid (set_gor sid GRemove s))
  | GorRemove _, GRemove =>
      let '(h, m) := removeSession src sid (heap s, sessions s) in
      Some (set_gor sid GDone (set_table h m s))
  | _, _ => None
  end.

(** [Close], by the caller number [c]; closing a closed channel panics. *)
Definition close_step (l : label) (s : state) : option state :=
  let go r d cl lo c pc := Some (set_shutdown r d cl lo (<[c:=pc]> (closers s)) (panicked s) s) in
  match l with
  | CloseMark c =>
      match closers s !! c with
      | None => go (reaper s) (done s) true (listener_open s) c CMarked
      | Some _ => None
      end
  | CloseSelect c =>
      match closers s !! c with
      | Some CMarked =>
          go (reaper s) (done s) (closed s) (listener_open s) c
            match done s with ChanClosed => CListener | ChanOpen => CDefault end
      | _ => None
      end
  | CloseDone c =>
      match closers s !! c with
      | Some CDefault =>
          match done s with
          | ChanOpen => go (reaper s) ChanClosed (closed s) (listener_open s) c CListener
          | ChanClosed =>
              Some (set_shutdown (reaper s) ChanClosed (closed s) (listener_open s) (closers s) true s)
          end
      | _ => None
      end
  | CloseListener c =>
      match closers s !! c with
      | Some CListener => go (reaper s) (done s) (closed s) false c CReturned
      | _ => None
      end
  | _ => None
  end.

Definition owner (l : label) : option nat :=
  match l with
  | GorTop i | GorArm i _ | GorRead i _ | GorReadErr i _ _ | GorTimeout i | GorTouch i _ | GorReply i _
  | GorClose i | GorRemove i => Some i
  | _ => None
  end.

(** A panic in any goroutine ends the process: no step follows. *)
Definition step (l : label) (s : state) : option state :=
  if panicked s then None else
  match owner l with
  | Some sid => pc ← gors s !! sid; src ← srcs s !! sid; gor_step l sid pc src s
  | None =>
      match l with
      | ReaperTick _ | ReaperDone => reaper_step l s
      | CloseMark _ | CloseSelect _ | CloseDone _ | CloseListener _ => close_step l s
      | _ => main_step l s
      end
  end.

(** The session the read loop works on before its goroutine exists. *)
Definition fresh_session (s : state) : option nat :=
  match main s with MInsert sid _ _ | MSpawn sid _ _ => Some sid | _ => None end.

(** A connection is open until its goroutine has closed it. *)
Definition pre_close (pc : option gpc) : bool :=
  match pc with Some GRemove | Some GDone => false | _ => true end.

Record inv (s : state) : Prop := {
  i_table k sid : sessions s !! k = Some sid ->
    srcs s !! sid = Some k /\ sess_closed sid s = false /\ gors s !! sid <> Some GDone;
  i_heap sid : is_Some (srcs s !! sid) -> is_Some (heap s !! sid);
  i_conns sid : is_Some (srcs s !! sid) -> (sid ∈ open_conns s <-> pre_close (gors s !! sid) = true);
  i_gors sid : is_Some (gors s !! sid) -> is_Some (srcs s !! sid) /\ fresh_session s <> Some sid;
  i_next sid : next s <= sid -> srcs s !! sid = None;
  i_main : match main s with
           | MDial src _ => sessions s !! src = None
           | MInsert sid src _ => srcs s !! sid = Some src /\ sessions s !! src = None /\
               sess_closed sid s = false
           | MSpawn sid src _ | MSend sid src _ => srcs s !! sid = Some src
           | MReturned r => r = None
           | _ => True
           end;
  i_forwarded c src d : (c, src, d) ∈ forwarded s -> srcs s !! c = Some src;
  i_replied c src d : (c, src, d) ∈ replied s -> srcs s !! c = Some src;
  i_closed : done s = ChanClosed \/ listener_open s = false \/
    (exists c, is_Some (closers s !! c)) -> closed s = true
}.

Lemma server_inv_init : inv init.
Proof.
  split; simpl; try done; try (by intros ? [? ?%lookup_empty_Some]); try (by intros; simplify_map_eq).
  - by intros c src d ?%not_elem_of_nil.
  - by intros c src d ?%not_elem_of_nil.
  - intros [|[|[c [x Hx]]]]; [done..|]. by rewrite lookup_empty in Hx.
Qed.

(** ** The invariant is preserved *)

Lemma sess_closed_touch now i sid s m :
  sess_closed sid (set_table (alter (touch now) i (heap s)) m s) = sess_closed sid s.
Proof.
  unfold sess_closed. simpl. rewrite lookup_alter. case_decide; [subst|done].
  by destruct (heap s !! sid).
Qed.

(** A smaller table, whose sessions and those outside it keep their object. *)
Lemma server_inv_shrink s h m :
  inv s ->
  (forall k sid, m !! k = Some sid -> sessions s !! k = Some sid /\ h !! sid = heap s !! sid) ->
  (forall sid, (forall k, sessions s !! k <> Some sid) -> h !! sid = heap s !! sid) ->
  (forall sid, is_Some (heap s !! sid) -> is_Some (h !! sid)) ->
  inv (set_table h m s).
Proof.
  intros [Ht Hh Hc Hg Hn Hm Hf Hr Hcl] Hsub Hout Hdom.
  assert (forall k, sessions s !! k = None -> m !! k = None) as Hnone.
  { intros k Hk. destruct (m !! k) as [i|] eqn:Hmk; [|done]. destruct (Hsub k i Hmk). congruence. }
  split; simpl; try done; unfold sess_closed in *; simpl in *.
  - intros k sid Hk. destruct (Hsub k sid Hk) as [Hk' ->]. by apply Ht.
  - intros sid Hs. by apply Hdom, Hh.
  - destruct (main s) as [|src d|src d|sid src d|sid src d|sid src d|r]; try done.
    + by apply Hnone.
    + destruct Hm as (H1 & H2 & H3). rewrite Hout; [by auto|].
      intros k Hk. destruct (Ht k sid Hk) as [H4 _]. congruence.
Qed.

Lemma server_inv_touch s i now : inv s -> inv (set_table (alter (touch now) i (heap s)) (sessions s) s).
Proof.
  intros [Ht Hh Hc Hg Hn Hm Hf Hr Hcl]. split; simpl; try done.
  - intros k sid Hk. destruct (Ht k sid Hk) as (? & Hx & ?). split_and!; try done.
    exact (eq_trans (sess_closed_touch now i sid s (sessions s)) Hx).
  - intros sid Hs. apply lookup_alter_is_Some. by apply Hh.
  - destruct (main s); try done. destruct Hm as (? & ? & Hx). split_and!; try done.
    exact (eq_trans (sess_closed_touch now i _ s (sessions s)) Hx).
Qed.

Lemma server_inv_set_main s m :
  inv s ->
  match m with
  | MDial src _ => sessions s !! src = None
  | MInsert _ _ _ | MSpawn _ _ _ => False
  | MSend sid src _ => srcs s !! sid = Some src
  | MReturned r => r = None
  | _ => True
  end -> inv (set_main m s).
Proof.
  intros [Ht Hh Hc Hg Hn Hm Hf Hr Hcl] H. split; simpl; try done.
  - intros sid Hs. split; [by apply Hg|]. unfold fresh_session. simpl. by destruct m.
  - by destruct m.
Qed.

(** Moving a goroutine on, not over one of its clean-up steps. *)
Lemma server_inv_set_gor s sid pc pc' :
  inv s -> gors s !! sid = Some pc -> pc' <> GDone -> pre_close (Some pc') = pre_close (Some pc) ->
  inv (set_gor sid pc' s).
Proof.
  intros [Ht Hh Hc Hg Hn Hm Hf Hr Hcl] Hpc Hd Heq. split; simpl; try done.
  - intros k i Hk. destruct (Ht k i Hk) as (? & ? & ?). split_and!; try done.
    rewrite lookup_insert. by case_decide; [congruence|].
  - intros i Hi. rewrite lookup_insert. case_decide; [subst i|by apply Hc].
    rewrite Heq, <- Hpc. by apply Hc.
  - intros i. rewrite lookup_insert. case_decide; [subst i|by apply Hg]. intros _. apply Hg. eauto.
Qed.

Lemma removeSession_table src sid h m h' m' :
  removeSession src sid (h, m) = (h', m') ->
  (forall k i, m' !! k = Some i -> m !! k = Some i /\ (h' !! i = h !! i \/ i = sid /\ m !! src = Some sid)) /\
  (forall i, (forall k, m !! k <> Some i) -> h' !! i = h !! i) /\
  (forall i, is_Some (h !! i) -> is_Some (h' !! i)) /\ m' !! src <> Some sid.
Proof.
  unfold removeSession. case_bool_decide as Hk; intros [= <- <-]; split_and!; try done; auto.
  - intros k i [_ Hi]%lookup_delete_Some. split; [done|].
    destruct (decide (i = sid)); [by right|left]. by apply lookup_alter_ne.
  - intros i Hi. apply lookup_alter_ne. intros ->. by apply (Hi src).
  - intros i Hi. by apply lookup_alter_is_Some.
  - by rewrite lookup_delete_eq.
Qed.

Lemma server_inv_gor_step l sid s s' :
  owner l = Some sid -> inv s -> step l s = Some s' -> inv s'.
Proof.
  intros Ho Hi Hs. unfold step in Hs. destruct (panicked s); [done|]. rewrite Ho in Hs.
  destruct (gors s !! sid) as [pc|] eqn:Hpc; [|done].
  destruct (srcs s !! sid) as [src|] eqn:Hsrc; [|done]. simpl in Hs.
  destruct l; simpl in Ho; try discriminate Ho; destruct pc; cbn [gor_step] in Hs; try discriminate Hs.
  - injection Hs as <-. eapply server_inv_set_gor; try done; by destruct (sess_closed sid s).
  - injection Hs as <-. by eapply server_inv_set_gor.
  - injection Hs as <-. by eapply server_inv_set_gor.
  - destruct (is_timeout err); [destruct (past_deadline _ _); [|done]|]; injection Hs as <-; by eapply server_inv_set_gor.
  - injection Hs as <-. eapply server_inv_set_gor; try done; by destruct (sess_closed sid s).
  - injection Hs as <-. eapply (server_inv_set_gor _ sid (GTouch data)); try done. by apply server_inv_touch.
  - destruct (ok && listener_open s); injection Hs as <-; [|by eapply server_inv_set_gor].
    destruct (server_inv_set_gor s sid (GReply data) GTop) as [? ? ? ? ? ? ? Hr ?]; try done.
    split; simpl in *; try done; rewrite ?app_nil_r; try done.
    intros c src' d' [?|Heq%list_elem_of_singleton]%elem_of_app; [by eapply Hr|].
    by injection Heq as -> -> ->.
  - injection Hs as <-. destruct Hi as [Ht Hh Hc Hg Hn Hm Hf Hr Hcl]. split; simpl; try done.
    + intros k i Hk. destruct (Ht k i Hk) as (? & ? & ?). split_and!; try done.
      rewrite lookup_insert. by case_decide.
    + intros i Hi. rewrite lookup_insert. case_decide; [subst i; simpl; set_solver|].
      rewrite <- (Hc i Hi). set_solver.
    + intros i. rewrite lookup_insert. case_decide; [subst i|by apply Hg]. intros _. apply Hg. eauto.
  - destruct (removeSession src sid (heap s, sessions s)) as [h m] eqn:Er. injection Hs as <-.
    apply removeSession_table in Er as (Hsub & Hout & Hdom & Hgone).
    assert (inv (set_table h m s)) as [Ht Hh Hc Hg Hn Hm Hf Hr Hcl].
    { apply server_inv_shrink; try done. intros k i Hk. destruct (Hsub k i Hk) as [Hk' Hor].
      split; [done|]. destruct Hor as [?|[-> Hsid]]; [done|].
      destruct (i_table s Hi k sid Hk') as [Hs1 _]. congruence. }
    split; simpl in *; try done.
    + intros k i Hk. destruct (Ht k i Hk) as (H1 & ? & ?). split_and!; try done.
      rewrite lookup_insert. case_decide; [subst i|done]. congruence.
    + intros i Hi'. rewrite lookup_insert. case_decide; [subst i; simpl|by apply Hc].
      rewrite (Hc sid) by done. by rewrite Hpc.
    + intros i. rewrite lookup_insert. case_decide; [subst i|by apply Hg]. intros _. apply Hg. eauto.
Qed.

(** The dial of a new session makes its object; the table is unchanged. *)
Lemma inv_dial s src0 d0 now s' :
  main s = MDial src0 d0 -> inv s -> main_step (Dial now None) s = Some s' -> inv s'.
Proof.
  intros Hms Hi Hs. pose proof (i_main s Hi) as Hm. unfold main_step in Hs. rewrite Hms in Hs, Hm.
  injection Hs as <-.
  pose proof (i_next s Hi (next s) (le_n _)) as Hfree.
  assert (forall i r, srcs s !! i = Some r -> i <> next s) as Hne by (intros i r ? ->; congruence).
  destruct Hi as [Ht Hh Hc Hg Hn Hm' Hf Hr Hcl]. split; simpl; try done.
  + intros k i Hk. destruct (Ht k i Hk) as (H1 & H2 & H3).
    rewrite lookup_insert_ne by (by apply not_eq_sym, (Hne i k)).
    unfold sess_closed in *. simpl. rewrite lookup_insert_ne by (by apply not_eq_sym, (Hne i k)).
    done.
  + intros i. rewrite !lookup_insert. case_decide; [by eexists|apply Hh].
  + intros i. rewrite lookup_insert. case_decide; [subst i|].
    * intros _. split; [|set_solver]. intros _.
      destruct (gors s !! next s) eqn:E; [|done]. exfalso.
      destruct (Hg (next s)) as [[? ?] _]; [by eexists|congruence].
    * intros Hi'. rewrite <- (Hc i Hi'). set_solver.
  + intros i Hgi. destruct (Hg i Hgi) as [Hsi _]. split.
    * rewrite lookup_insert. case_decide; [by eexists|done].
    * unfold fresh_session. simpl. intros Heq. injection Heq as <-. destruct Hsi. congruence.
  + intros i Hi'. rewrite lookup_insert_ne by lia. apply Hn. lia.
  + rewrite lookup_insert_eq. split_and!; try done.
    unfold sess_closed. simpl. by rewrite lookup_insert_eq.
  + intros c r d Hin. rewrite lookup_insert_ne; [by eapply Hf|].
    by apply not_eq_sym, (Hne c r), (Hf _ _ _ Hin).
  + intros c r d Hin. rewrite lookup_insert_ne; [by eapply Hr|].
    by apply not_eq_sym, (Hne c r), (Hr _ _ _ Hin).
Qed.

(** The insertion finds the key free, whatever happened during the dial. *)
Lemma inv_insert s sid0 src0 d0 s' :
  main s = MInsert sid0 src0 d0 -> inv s -> main_step Insert s = Some s' -> inv s'.
Proof.
  intros Hms Hi Hs. pose proof (i_main s Hi) as Hm. unfold main_step in Hs. rewrite Hms in Hs, Hm.
  injection Hs as <-. destruct Hm as (H1 & H2 & H3).
  destruct Hi as [Ht Hh Hc Hg Hn Hm' Hf Hr Hcl]. split; simpl; try done.
  + intros k i. rewrite lookup_insert. case_decide; [|apply Ht].
    intros [= <-]. subst k. split_and!; try done. intros Hd.
    destruct (Hg sid0) as [_ Hfs]; [by eexists|]. by destruct Hfs; unfold fresh_session; rewrite Hms.
  + intros i Hgi. destruct (Hg i Hgi) as [? Hfs]. split; [done|].
    unfold fresh_session in *. simpl. by rewrite Hms in Hfs.
Qed.

Lemma inv_spawn s sid0 src0 d0 s' :
  main s = MSpawn sid0 src0 d0 -> inv s -> main_step Spawn s = Some s' -> inv s'.
Proof.
  intros Hms Hi Hs. pose proof (i_main s Hi) as Hm. unfold main_step in Hs. rewrite Hms in Hs, Hm.
  injection Hs as <-.
  destruct Hi as [Ht Hh Hc Hg Hn Hm' Hf Hr Hcl].
  assert (gors s !! sid0 = None) as Hnone.
  { apply eq_None_not_Some. intros Hgi. destruct (Hg _ Hgi) as [_ []]. unfold fresh_session. by rewrite Hms. }
  split; simpl; try done.
  + intros k i Hk. destruct (Ht k i Hk) as (? & ? & ?). split_and!; try done.
    rewrite lookup_insert. by case_decide.
  + intros i Hi'. rewrite lookup_insert. case_decide; [subst i|by apply Hc].
    rewrite (Hc sid0 Hi'), Hnone. done.
  + intros i. rewrite lookup_insert. case_decide; [subst i; by intros _|].
    intros Hgi. by destruct (Hg i Hgi).
Qed.

Lemma inv_main_step l s s' : inv s -> main_step l s = Some s' -> inv s'.
Proof.
  intros Hi Hs. pose proof (i_main s Hi) as Hm. unfold main_step in Hs.
  destruct l; try discriminate Hs; destruct (main s) as [|src0 d0|src0 d0|sid0 src0 d0|sid0 src0 d0|sid0 src0 d0|r0] eqn:Hms;
    try discriminate Hs.
  - destruct (listener_open s); [|done]. injection Hs as <-. by apply server_inv_set_main.
  - destruct (listener_open s); [|done]. by injection Hs as <-.
  - destruct (closedByUs _ _); injection Hs as <-; [by apply server_inv_set_main|done].
  - destruct (sessions s !! src0) as [sid|] eqn:Hk; injection Hs as <-.
    + apply server_inv_set_main; [by apply server_inv_touch|]. by apply (i_table s Hi).
    + by apply server_inv_set_main.
  - destruct r; [injection Hs as <-; by apply server_inv_set_main|].
    eapply inv_dial; [exact Hms|done|]. unfold main_step. by rewrite Hms.
  - eapply inv_insert; [exact Hms|done|]. unfold main_step. by rewrite Hms.
  - eapply inv_spawn; [exact Hms|done|]. unfold main_step. by rewrite Hms.
  - destruct (_ && _); injection Hs as <-; [|by apply server_inv_set_main].
    destruct (server_inv_set_main s MRead Hi I) as [? ? ? ? ? ? Hf ? ?]. split; simpl in *; try done;
      rewrite ?app_nil_r; try done.
    intros c src' d' [?|Heq%list_elem_of_singleton]%elem_of_app; [by eapply Hf|].
    by injection Heq as -> -> ->.
Qed.

Lemma server_inv_step l s s' : inv s -> step l s = Some s' -> inv s'.
Proof.
  intros Hi Hs. destruct (owner l) as [sid|] eqn:Ho; [by eapply server_inv_gor_step|].
  unfold step in Hs. destruct (panicked s); [done|]. rewrite Ho in Hs.
  assert (forall r d c lo cs p, c = true -> inv (set_shutdown r d c lo cs p s)) as Hsd.
  { intros r d c lo cs p ->. by destruct Hi; split. }
  destruct l; try (by eapply inv_main_step); simpl in Hs.
  - destruct (reaper s); [|done]. destruct (reap _ _ _) as [h m] eqn:Er. injection Hs as <-.
    pose proof (reap_sessions now inactivityDur (heap s) (sessions s)) as Hrs.
    pose proof (reap_keeps now inactivityDur (heap s) (sessions s)) as Hrk.
    pose proof (reap_heap now inactivityDur (heap s) (sessions s)) as Hrh.
    rewrite Er in Hrs, Hrk, Hrh. simpl in *. apply server_inv_shrink; [done|..].
    + intros k i Hm. assert (sessions s !! k = Some i) as Hki.
      { rewrite Hrs in Hm. destruct (sessions s !! k); simpl in Hm; [|done]. by case_match. }
      split; [done|]. apply (Hrk k); [|done]. intros k' Hk'.
      destruct (i_table s Hi k i Hki) as [? _], (i_table s Hi k' i Hk') as [? _]. congruence.
    + intros i Hout. destruct (Hrh i) as (f & -> & [->|[_ (k & Hk & _)]]); [by destruct (heap s !! i)|].
      by destruct (Hout k).
    + intros i Hx. destruct (Hrh i) as (f & -> & _). by rewrite fmap_is_Some.
  - destruct (reaper s); [|done]. destruct (done s) eqn:Hd; [done|]. injection Hs as <-.
    apply Hsd, (i_closed s Hi). by left.
  - destruct (closers s !! c); [done|]. injection Hs as <-. by apply Hsd.
  - destruct (closers s !! c) as [[]|] eqn:Hc; try done. injection Hs as <-.
    apply Hsd, (i_closed s Hi). right; right; eauto.
  - destruct (closers s !! c) as [[]|] eqn:Hc; try done.
    assert (closed s = true) by (apply (i_closed s Hi); right; right; eauto).
    destruct (done s); injection Hs as <-; by apply Hsd.
  - destruct (closers s !! c) as [[]|] eqn:Hc; try done. injection Hs as <-.
    apply Hsd, (i_closed s Hi). right; right; eauto.
Qed.

Lemma server_inv_reachable s : reachable step init s -> inv s.
Proof. apply reachable_invariant; [apply server_inv_init|]. intros. by eapply server_inv_step. Qed.
End server.
