(* ===== verification/UdpServerProps.v ===== *)
(** * UdpServerProps: what the UDP server tunnel of [udp_server_tunnel.go] guarantees

    Properties of every interleaving, from the invariant of [UdpServer]. *)

From S2P Require Import Prelude GoStr ConfigTypes World Shutdown UdpTable UdpServer.

(** Own steps a session's goroutine still takes once its channel is closed. *)
Definition gor_rank (pc : gpc) : nat :=
  match pc with
  | GArm => 7 | GRead _ => 6 | GTouch _ => 5 | GReply _ => 4 | GTop | GTimeout => 3
  | GClose => 2 | GRemove => 1 | GDone => 0
  end.
(** Own steps [Serve] still takes once the listener is closed. *)
Definition main_rank (m : mpc) : nat :=
  match m with
  | MGot _ _ => 6 | MDial _ _ => 5 | MInsert _ _ _ => 4 | MSpawn _ _ _ => 3 | MSend _ _ _ => 2
  | MRead => 1 | MReturned _ => 0
  end.
Definition main_label (l : label) : bool :=
  match l with
  | Recv _ _ | RecvOther | RecvErr _ | Lookup _ | Dial _ _ | Insert | Spawn | Send _ => true
  | _ => false
  end.
(** Steps that need nothing from the local target: no answer of it and no
    network error; a read may time out at [now]. *)
Definition unaided (now : Z) (l : label) : bool :=
  match l with
  | GorRead _ _ => false
  | GorReadErr _ n err => is_timeout err && (n =? now)%Z
  | _ => true
  end.
(** What a silent target lets happen to a session: its reads time out, if they
    can. *)
Definition silent (sid : nat) (l : label) : Prop :=
  match l with
  | GorRead i _ => i <> sid
  | GorReadErr i _ err => i = sid -> is_timeout err = true
  | _ => True
  end.
Definition owned_by (sid : nat) (l : label) : bool := bool_decide (owner l = Some sid).

(** The steps of a caller of [Close]. *)
Definition calls_Close (l : label) : bool :=
  match l with CloseMark _ | CloseSelect _ | CloseDone _ | CloseListener _ => true | _ => false end.

Section props.
Context {t : Z}.
Implicit Types s : state.

(** Unfold one step and split on the state it looks at. *)
Ltac step_cases :=
  unfold step; cbn [owner]; unfold main_step, reaper_step, gor_step, close_step, mbind, option_bind;
  intros; go_cases; try done.

Lemma server_step_gor l s s' sid :
  inv s -> step t l s = Some s' -> owner l <> Some sid -> is_Some (gors s !! sid) ->
  gors s' !! sid = gors s !! sid.
Proof.
  intros Hi Hs Ho Hg. destruct (i_gors s Hi sid Hg) as [_ Hf]. unfold fresh_session in Hf.
  revert Hs. destruct l; simpl in Ho; step_cases; simpl; rewrite ?lookup_insert_ne by congruence; try done.
Qed.

Lemma server_step_main l s s' : step t l s = Some s' -> main_label l = false -> main s' = main s.
Proof. intros Hs Hl. revert Hs. destruct l; try done; step_cases. Qed.

Lemma server_step_listener l s s' :
  step t l s = Some s' -> listener_open s = false -> listener_open s' = false.
Proof. intros Hs Hl. revert Hs. destruct l; try done; step_cases. Qed.

(** As in the UDP proxy, all the traffic of a connection to the local
    target belongs to one WireGuard-side source address. *)
Theorem server_sessions_never_cross s c src d dst d' :
  reachable (step t) (init t) s ->
  (c, src, d) ∈ forwarded s ++ replied s -> (c, dst, d') ∈ forwarded s ++ replied s -> src = dst.
Proof.
  intros Hi%server_inv_reachable H1 H2.
  assert (forall a b x, (a, b, x) ∈ forwarded s ++ replied s -> srcs s !! a = Some b) as H.
  { intros a b x [?|?]%elem_of_app; [by eapply i_forwarded|by eapply i_replied]. }
  apply H in H1, H2. congruence.
Qed.

(** Although the look-up and the insertion of a session are separate
    critical sections with a dial in between, an insertion never overwrites an
    entry, and an entry is only dropped by its own goroutine's clean-up or by
    a reaper tick that finds it idle. *)
Theorem server_entries_have_one_owner l s s' key sid :
  reachable (step t) (init t) s -> step t l s = Some s' -> sessions s !! key = Some sid ->
  sessions s' !! key = Some sid \/
  (sessions s' !! key = None /\
   (l = GorRemove sid \/
    exists now, l = ReaperTick now /\ is_expired now (seconds t) (heap s) sid = true)).
Proof.
  intros Hi%server_inv_reachable Hs Hk.
  assert (forall i src d, main s = MInsert i src d -> sessions s !! src = None) as Hins.
  { intros i src d Hms. pose proof (i_main s Hi) as Hm. rewrite Hms in Hm. apply Hm. }
  revert Hs. destruct l; step_cases; simpl; try (by left).
  - left. rewrite lookup_insert_ne; [done|]. intros ->.
    by rewrite (Hins sid0 key data eq_refl) in Hk.
  - match goal with H : reap ?n ?d ?hm = _ |- _ =>
      pose proof (reap_sessions n d (heap s) (sessions s) key) as Hr; rewrite H, Hk in Hr end.
    simpl in Hr. rewrite Hr. destruct (is_expired _ _ _ sid) eqn:He; [right|by left]. eauto.
  - rewrite lookup_delete. destruct (decide _) as [E|]; [right|by left].
    split; [done|]. left. f_equal.
    match goal with H : bool_decide _ = true |- _ => apply bool_decide_eq_true in H end.
    congruence.
Qed.

(** A session in the table was made for that key, its channel is open, and
    its connection is open unless its goroutine is exactly between its two
    deferred calls: the connection is closed before the entry is removed, so in
    that window a datagram of the client is written to a closed connection. *)
Theorem server_listed_sessions s key sid :
  reachable (step t) (init t) s -> sessions s !! key = Some sid ->
  srcs s !! sid = Some key /\ sess_closed sid s = false /\
  (sid ∈ open_conns s <-> gors s !! sid <> Some GRemove).
Proof.
  intros Hi%server_inv_reachable Hk. destruct (i_table s Hi key sid Hk) as (H1 & H2 & H3).
  split_and!; try done. rewrite (i_conns s Hi sid) by (by eexists).
  destruct (gors s !! sid) as [[]|]; simpl; naive_solver.
Qed.

(** ** Termination *)
Lemma server_sess_closed_spec sid s :
  sess_closed sid s = true <-> exists x, heap s !! sid = Some x /\ session_closeChan x = ChanClosed.
Proof.
  unfold sess_closed. destruct (heap s !! sid) as [x|].
  - rewrite bool_decide_eq_true. naive_solver.
  - naive_solver.
Qed.

Lemma server_reap_closed now dur h m h' m' sid (x : udpServerSession) :
  reap now dur (h, m) = (h', m') -> h !! sid = Some x -> session_closeChan x = ChanClosed ->
  exists x', h' !! sid = Some x' /\ session_closeChan x' = ChanClosed.
Proof.
  intros Hr Hx Hc. destruct (reap_heap now dur h m sid) as (f & Hf & Hcases).
  rewrite Hr, Hx in Hf. simpl in Hf. exists (f x). split; [done|].
  destruct Hcases as [->|[-> _]]; [done|reflexivity].
Qed.

Lemma step_srcs l s s' sid :
  inv s -> step t l s = Some s' -> is_Some (srcs s !! sid) -> srcs s' !! sid = srcs s !! sid.
Proof.
  intros Hi Hs Hsrc. assert (next s <> sid) as Hne.
  { intros <-. rewrite (i_next s Hi (next s)) in Hsrc by lia. by destruct Hsrc. }
  revert Hs. destruct l; step_cases; simpl. by rewrite lookup_insert_ne.
Qed.

Lemma server_step_closed l s s' sid :
  inv s -> step t l s = Some s' -> is_Some (srcs s !! sid) ->
  sess_closed sid s = true -> sess_closed sid s' = true.
Proof.
  intros Hi Hs Hsrc (x & Hx & Hc)%server_sess_closed_spec. apply server_sess_closed_spec.
  assert (next s <> sid) as Hne.
  { intros <-. rewrite (i_next s Hi (next s)) in Hsrc by lia. by destruct Hsrc. }
  assert (forall now i, exists y, (alter (touch now) i (heap s) !! sid = Some y) /\
    session_closeChan y = ChanClosed) as Ht.
  { intros now i. destruct (lookup_alter_touch (heap s) now i sid x Hx) as (y & Hy & Hyc).
    exists y. split; [done|]. exact (eq_trans Hyc Hc). }
  clear Hsrc Hi. revert Hs. destruct l; step_cases; try (by apply Ht); try (by eauto).
  - simpl. rewrite lookup_insert_ne by congruence. eauto.
  - match goal with H : reap _ _ _ = _ |- _ => exact (server_reap_closed _ _ _ _ _ _ _ _ H Hx Hc) end.
  - simpl. rewrite lookup_alter. destruct (decide _); subst; [|eauto]. exists (close_if_open x).
    split; [by rewrite Hx|]. by rewrite close_if_open_eq.
Qed.

Definition rank_of sid s : nat := from_option gor_rank 0 (gors s !! sid).

Lemma server_gor_step_closed l s s' sid pc :
  step t l s = Some s' -> owner l = Some sid -> sess_closed sid s = true -> gors s !! sid = Some pc ->
  exists pc', gors s' !! sid = Some pc' /\ gor_rank pc' < gor_rank pc.
Proof.
  intros Hs Ho Hc Hg. revert Hs.
  destruct l; simpl in Ho; try discriminate Ho; injection Ho as ->;
    step_cases; simpl in *; rewrite lookup_insert_eq; eexists; (split; [done|]); simpl; lia.
Qed.

(** The step a goroutine can take next at time [now]. *)
Definition gor_next sid (now : Z) (pc : gpc) : label :=
  match pc with
  | GTop => GorTop sid | GArm => GorArm sid now
  | GRead _ => GorReadErr sid now (extError "i/o timeout" true)
  | GTimeout => GorTimeout sid | GTouch _ => GorTouch sid now | GReply _ => GorReply sid false
  | GClose | GDone => GorClose sid | GRemove => GorRemove sid
  end.

(** When the goroutine can go on without the target: at once, or at the
    deadline of its read; never if a read has none. *)
Definition wakes_at (pc : gpc) (now : Z) : bool :=
  match pc with GRead deadline => past_deadline deadline now | _ => true end.

Lemma server_gor_progress s sid pc now :
  inv s -> panicked s = false -> gors s !! sid = Some pc -> pc <> GDone -> wakes_at pc now = true ->
  unaided now (gor_next sid now pc) = true /\ owner (gor_next sid now pc) = Some sid /\
  is_Some (step t (gor_next sid now pc) s).
Proof.
  intros Hi Hp Hg Hd Hw. destruct (i_gors s Hi sid (mk_is_Some _ _ Hg)) as [[src Hsrc] _].
  unfold step. rewrite Hp.
  destruct pc; simpl in *; rewrite ?Z.eqb_refl; (split; [done|split; [done|]]);
    rewrite ?Hg, ?Hsrc; simpl; rewrite ?Hw; try done.
  by destruct (bool_decide _).
Qed.

(** A read has a deadline exactly when the timeout in nanoseconds is positive. *)
Definition reads_armed s : Prop :=
  forall sid deadline, gors s !! sid = Some (GRead deadline) ->
    (0 < seconds t)%Z <-> is_Some deadline.
Lemma server_armed_step l s1 s2 : reads_armed s1 -> step t l s1 = Some s2 -> reads_armed s2.
Proof.
  intros Ha Hs sid d Hg. revert Hs Hg.
  destruct l; step_cases; simpl in *; try (by eapply Ha);
    match goal with H : <[_ := _]> _ !! _ = Some _ |- _ => rewrite lookup_insert in H end;
    case_decide; simplify_eq/=; try done; try (by eapply Ha); try (by case_match; simplify_eq).
  unfold armed. case_bool_decide; (split; [|by intros [? ?]]); [by eexists|done].
Qed.
Lemma server_armed_reachable s : reachable (step t) (init t) s -> reads_armed s.
Proof.
  apply (reachable_invariant (step t) reads_armed);
    [intros sid d Hg; simpl in Hg; simplify_map_eq|intros; by eapply server_armed_step].
Qed.

(** C26: with an inactivity timeout that is positive in nanoseconds (as
    all from 1 to 9223372036 seconds are), once a session's channel is closed and while no
    overlapping [Close] ends the process, its goroutine takes at most seven more
    steps of its own in every interleaving.  Until it is done it never waits for
    the target alone: from some time on (the deadline of its read, if it is in
    one) a step of its own is enabled that needs nothing from the target.  When
    it is done its connection is closed and no table entry points to it. *)
Theorem server_closed_session_ends s ls s' sid pc
    (Htimeout : (0 < seconds t)%Z)
    (Hreach : reachable (step t) (init t) s) (Hgor : gors s !! sid = Some pc)
    (Hclosed : sess_closed sid s = true) (Hrun : run (step t) s ls = Some s')
    (Hlive : panicked s' = false) :
  exists pc', gors s' !! sid = Some pc' /\
    length (List.filter (owned_by sid) ls) + gor_rank pc' <= gor_rank pc <= 7 /\
    ((pc' = GDone /\ (sid ∉ open_conns s') /\ forall k, sessions s' !! k <> Some sid) \/
     exists due, (forall d, pc' = GRead d -> d = Some due) /\
       forall now, (due <= now)%Z ->
         exists l, unaided now l = true /\ owner l = Some sid /\ is_Some (step t l s')).
Proof.
  assert (reads_armed s') as Harmed.
  { apply server_armed_reachable. destruct Hreach as [ls0 H0]. exists (ls0 ++ ls). by rewrite run_app, H0. }
  apply server_inv_reachable in Hreach as Hi.
  destruct (run_rank (step t) (owned_by sid) (rank_of sid)
    (fun s => inv s /\ sess_closed sid s = true /\ is_Some (gors s !! sid)) s ls s')
    as [(Hi' & Hc' & pc' & Hg') Hn]; [|by eauto|done|].
  - intros l s1 s2 (Hi1 & Hc1 & pc1 & Hg1) Hs1. unfold owned_by.
    assert (inv s2) by (by apply (server_inv_step t l s1)).
    assert (is_Some (srcs s1 !! sid)) as Hsrc1 by (apply (i_gors s1 Hi1); eauto).
    assert (sess_closed sid s2 = true) by (by apply (server_step_closed l s1)).
    unfold rank_of. case_bool_decide as Ho.
    + destruct (server_gor_step_closed _ _ _ _ _ Hs1 Ho Hc1 Hg1) as (pc2 & Hg2 & Hlt).
      rewrite Hg1, Hg2. eauto.
    + rewrite (server_step_gor _ _ _ _ Hi1 Hs1 Ho (mk_is_Some _ _ Hg1)). rewrite Hg1. eauto.
  - unfold rank_of in Hn. rewrite Hgor, Hg' in Hn. simpl in Hn. exists pc'.
    split; [done|]. split; [split; [lia|destruct pc; simpl; lia]|].
    destruct (i_gors s' Hi' sid (mk_is_Some _ _ Hg')) as [[src Hsrc] _].
    destruct (decide (pc' = GDone)) as [->|Hd]; [left|right].
    + split; [done|]. split.
      * rewrite (i_conns s' Hi' sid) by eauto. by rewrite Hg'.
      * intros k Hk. by destruct (i_table s' Hi' k sid Hk) as (_ & _ & []).
    + assert (exists due, (forall d, pc' = GRead d -> d = Some due) /\
        forall now, (due <= now)%Z -> wakes_at pc' now = true) as (due & Hdue & Hw).
      { destruct pc' as [| |dl| | | | | |]; try (by exists 0%Z).
        destruct (proj1 (Harmed sid dl Hg') Htimeout) as [due ->]. exists due.
        split; [by intros ? [= <-]|]. intros now Hnow. simpl. by apply bool_decide_eq_true_2. }
      exists due. split; [done|]. intros now Hnow. exists (gor_next sid now pc').
      by apply server_gor_progress; auto.
Qed.

(** Without a deadline nothing replaces it: when the timeout is not positive in
    nanoseconds, which includes every setting from 9223372037 to 18446744073
    seconds, where the reaper does run and does close channels, a session
    whose goroutine is in its read stays in it, with its connection open, for
    as long as its target is silent, whatever else happens. *)
Theorem server_unarmed_read_never_ends s ls s' sid deadline :
  (seconds t <= 0)%Z -> reachable (step t) (init t) s ->
  gors s !! sid = Some (GRead deadline) -> Forall (silent sid) ls ->
  run (step t) s ls = Some s' ->
  gors s' !! sid = Some (GRead None) /\ sid ∈ open_conns s'.
Proof.
  intros Ht Hreach Hg Hls Hr. pose proof (server_inv_reachable _ _ Hreach) as Hi.
  assert (deadline = None) as ->.
  { apply eq_None_not_Some. intros Hd. apply (server_armed_reachable s Hreach sid _ Hg) in Hd. lia. }
  assert (inv s' /\ gors s' !! sid = Some (GRead None)) as [Hi' Hg'].
  { clear Hreach. revert s Hi Hg Hr. induction Hls as [|l ls Hl _ IH]; simpl; intros s Hi Hg.
    { by intros [= <-]. }
    destruct (step t l s) as [s1|] eqn:E; [|done]. apply IH; [by apply (server_inv_step t l s)|].
    destruct (decide (owner l = Some sid)) as [Ho|Ho].
    - exfalso. revert E. destruct l; simpl in Ho, Hl; try discriminate Ho; injection Ho as ->;
        unfold step; destruct (panicked s); cbn [owner]; rewrite ?Hg; try done; simpl;
        destruct (srcs s !! sid); simpl; try done.
      by rewrite Hl.
    - by rewrite (server_step_gor _ _ _ _ Hi E Ho (mk_is_Some _ _ Hg)). }
  split; [done|]. apply (i_conns s' Hi' sid); [by apply (i_gors s' Hi'); eauto|]. by rewrite Hg'.
Qed.

(** After [Close] has closed the listener, and while no overlapping second
    [Close] ends the process, [Serve] takes at most six more steps of its own
    in every interleaving, can always take one until it has
    returned, and returns nil. *)
Theorem server_Serve_stops_after_Close s ls s'
    (Hreach : reachable (step t) (init t) s) (Hl : listener_open s = false)
    (Hrun : run (step t) s ls = Some s') (Hlive : panicked s' = false) :
  length (List.filter main_label ls) + main_rank (main s') <= main_rank (main s) <= 6 /\
  (main s' = MReturned None \/ exists l, main_label l = true /\ is_Some (step t l s')).
Proof.
  apply server_inv_reachable in Hreach as Hi.
  destruct (run_rank (step t) main_label (main_rank ∘ main)
    (fun s => inv s /\ listener_open s = false) s ls s') as [[Hi' Hl'] Hn]; [|done..|].
  - intros l s1 s2 [Hi1 Hl1] Hs1. assert (inv s2) by (by apply (server_inv_step t l s1)).
    assert (listener_open s2 = false) by (by apply (server_step_listener l s1)).
    split; [done|]. simpl. destruct (main_label l) eqn:Hml.
    + assert (closed s1 = true) as Hcl by (apply (i_closed s1 Hi1); auto).
      clear Hi1. revert Hs1. destruct l; try discriminate Hml;
        unfold step; cbn [owner]; unfold main_step, closedByUs, stopping; simpl; rewrite ?Hl1, ?Hcl;
        simpl; intros; go_cases; try done; simpl; lia.
    + by rewrite (server_step_main _ _ _ Hs1 Hml).
  - simpl in Hn. split; [split; [lia|destruct (main s); simpl; lia]|].
    pose proof (i_main s' Hi') as Hm.
    assert (closed s' = true) as Hcl by (apply (i_closed s' Hi'); auto).
    unfold step. rewrite Hlive. destruct (main s') as [|src d|src d|sid src d|sid src d|sid src d|r] eqn:Hms;
      [right..|left; by subst].
    + exists (RecvErr errClosed). split; [done|]. simpl. rewrite Hms. by rewrite Hcl.
    + exists (Lookup 0). split; [done|]. simpl. rewrite Hms. by destruct (_ !! _).
    + exists (Dial 0 None). split; [done|]. simpl. by rewrite Hms.
    + exists Insert. split; [done|]. simpl. by rewrite Hms.
    + exists Spawn. split; [done|]. simpl. by rewrite Hms.
    + exists (Send false). split; [done|]. simpl. by rewrite Hms.
Qed.

(** As in the UDP proxy, a panic is only ever the [close(conf.done)] of a
    [Close] that found the channel open while another one closed it. *)
Theorem server_panic_is_overlapping_Close l s s' :
  step t l s = Some s' -> panicked s' = true ->
  exists c, l = CloseDone c /\ closers s !! c = Some CDefault /\ done s = ChanClosed.
Proof.
  unfold step. destruct (panicked s) eqn:Hp; [done|]. intros Hs Hp'. revert Hs.
  destruct l; cbn [owner]; unfold main_step, reaper_step, gor_step, close_step, mbind, option_bind;
    intros; go_cases; simpl in *; try congruence. eauto.
Qed.
(** So a tunnel nobody closes never panics. *)
Lemma server_no_Close_no_panic l s s' :
  calls_Close l = false -> step t l s = Some s' -> panicked s' = false.
Proof.
  intros Hl Hs. destruct (panicked s') eqn:Hp; [|done].
  destruct (server_panic_is_overlapping_Close l s s' Hs Hp) as (c & -> & _). discriminate Hl.
Qed.
End props.

(** ** Concrete runs *)
Module Scenario.
Definition client : string := "10.0.0.2:5".
Definition exchange : list label :=
  [Recv client "hi"; Lookup 0; Dial 1 None; Insert; Spawn; Send true;
   GorTop 0; GorArm 0 1; GorRead 0 "yo"; GorTouch 0 2; GorReply 0 true; GorTop 0; GorArm 0 3].
Definition late : Z := 40000000000.
Definition wind_down : list label :=
  [GorReadErr 0 5000000003 (extError "i/o timeout" true); GorTimeout 0; GorClose 0; GorRemove 0].
Definition stopping : list label := [RecvErr (extError "endpoint is in invalid state" false)].

Definition s1 : state := after (step 30) (init 30) exchange.
Definition s2 : state := after (step 30) (init 30) (exchange ++ [ReaperTick late]).
Definition s3 : state := after (step 30) s2 wind_down.
Definition s4 : state := after (step 30) (init 30) (exchange ++ [CloseMark 1; CloseSelect 1; CloseDone 1; CloseListener 1]).
Definition s5 : state := after (step 30) s4 stopping.
Lemma server_s1_reachable : reachable (step 30) (init 30) s1.
Proof. apply reachable_after. Qed.
Lemma server_s2_reachable : reachable (step 30) (init 30) s2.
Proof. apply reachable_after. Qed.
Lemma server_s4_reachable : reachable (step 30) (init 30) s4.
Proof. apply reachable_after. Qed.

Lemma server_sessions_never_cross_witness :
  (0, client, "hi") ∈ forwarded s1 ++ replied s1 /\ client = client.
Proof.
  assert ((0, client, "hi") ∈ forwarded s1 ++ replied s1) as H1
    by (apply (bool_decide_unpack _); vm_compute; exact I).
  assert ((0, client, "yo") ∈ forwarded s1 ++ replied s1) as H2
    by (apply (bool_decide_unpack _); vm_compute; exact I).
  split; [exact H1|]. exact (server_sessions_never_cross _ _ _ _ _ _ server_s1_reachable H1 H2).
Defined.

Lemma server_entries_witness : sessions s2 !! client = Some 0 \/ sessions s2 !! client = None.
Proof.
  destruct (server_entries_have_one_owner (ReaperTick late) s1 s2 client 0 server_s1_reachable) as [H|[H _]].
  - vm_compute. reflexivity.
  - vm_compute. reflexivity.
  - left. exact H.
  - right. exact H.
Defined.

Lemma server_listed_sessions_witness : srcs s1 !! 0 = Some client /\ sess_closed 0 s1 = false.
Proof.
  destruct (server_listed_sessions s1 client 0 server_s1_reachable) as (H1 & H2 & _).
  - vm_compute. reflexivity.
  - split; [exact H1|exact H2].
Defined.

Lemma server_closed_session_ends_witness :
  exists pc', gors s3 !! 0 = Some pc' /\ 4 + gor_rank pc' <= 7.
Proof.
  destruct (server_closed_session_ends (t := 30) s2 wind_down s3 0 (GRead (Some 5000000003%Z))) as (pc' & H1 & [H2 H3] & _).
  - vm_compute. reflexivity.
  - exact server_s2_reachable.
  - vm_compute. reflexivity.
  - vm_compute. reflexivity.
  - vm_compute. reflexivity.
  - vm_compute. reflexivity.
  - exists pc'. split; [exact H1|]. exact (Nat.le_trans _ _ _ H2 H3).
Defined.

Lemma server_Serve_stops_witness : listener_open s4 = false /\ 1 + main_rank (main s5) <= 6.
Proof.
  split; [vm_compute; reflexivity|].
  destruct (server_Serve_stops_after_Close s4 stopping s5 server_s4_reachable) as [[H1 H2] _].
  - vm_compute. reflexivity.
  - vm_compute. reflexivity.
  - vm_compute. reflexivity.
  - exact (Nat.le_trans _ _ _ H1 H2).
Defined.
End Scenario.
