(* ===== verification/UdpSpec.v ===== *)
(** * UdpSpec: what the two UDP tunnels promise

    An abstract machine without goroutines, locks, channels or pointers: flows
    between one client and one connection each.  A flow is made for a client
    that has sent something, is listed (the client's later datagrams use it),
    retired once, and hung up once; a datagram is forwarded or discarded, an
    answer returned or dropped.  [udp_proxy_refines_spec] and
    [udp_server_refines_spec] show that every run of the detailed machines of
    [UdpProxy] and [UdpServer] is a run of this one with the same datagrams
    arriving. *)

From S2P Require Import Prelude GoStr ConfigTypes World Shutdown UdpTable.
From S2P Require UdpProxy UdpServer.

(** ** The abstract machine *)
Inductive stage := Fresh | Listed | Retired.
#[export] Instance stage_eq_dec : EqDecision stage.
Proof. solve_decision. Defined.

Record flow := mkFlow {
  client : string;
  stage_of : stage;
  opened : bool;
  arrived : option string      (* an answer read from the connection *)
}.

Record nat_state := mkNat {
  flows : gmap nat flow;
  pending : option (string * string);       (* the datagram received last *)
  out : list (nat * string * string);       (* to the target: connection, source, datagram *)
  back : list (nat * string * string)       (* to the clients *)
}.
Definition nat_init : nat_state := mkNat ∅ None [] [].

Inductive act :=
  | Receive (src data : string)
  | Discard
  | Connect (c : nat)
  | Enlist (c : nat)
  | Forward (c : nat)
  | Arrive (c : nat) (data : string)
  | Answer (c : nat)
  | Drop (c : nat)
  | Retire (cs : gset nat)
  | Hangup (c : nat).

Definition set_flows f n := mkNat f (pending n) (out n) (back n).
Definition set_pending p n := mkNat (flows n) p (out n) (back n).
Definition set_stage st f := mkFlow (client f) st (opened f) (arrived f).
Definition set_arrived a f := mkFlow (client f) (stage_of f) (opened f) a.
Definition hang_up f := mkFlow (client f) (stage_of f) false (arrived f).

(** The client has a listed flow. *)
Definition served (src : string) (fs : gmap nat flow) : bool :=
  existsb (fun '(_, f) => bool_decide (client f = src) && bool_decide (stage_of f = Listed))
    (map_to_list fs).
Definition is_listed (fs : gmap nat flow) (c : nat) : bool :=
  match fs !! c with Some f => bool_decide (stage_of f = Listed) | None => false end.
Definition retire (cs : gset nat) (c : nat) (f : flow) : option flow :=
  Some (if decide (c ∈ cs) then set_stage Retired f else f).

Definition nat_step (a : act) (n : nat_state) : option nat_state :=
  match a with
  | Receive src data =>
      match pending n with None => Some (set_pending (Some (src, data)) n) | Some _ => None end
  | Discard => Some (set_pending None n)
  | Connect c =>
      match pending n, flows n !! c with
      | Some (src, _), None => Some (set_flows (<[c := mkFlow src Fresh true None]> (flows n)) n)
      | _, _ => None
      end
  | Enlist c =>
      f ← flows n !! c;
      if bool_decide (stage_of f = Fresh) && negb (served (client f) (flows n))
      then Some (set_flows (<[c := set_stage Listed f]> (flows n)) n) else None
  | Forward c =>
      f ← flows n !! c;
      match pending n with
      | Some (src, data) =>
          if bool_decide (client f = src) && opened f
          then Some (mkNat (flows n) None (out n ++ [(c, src, data)]) (back n)) else None
      | None => None
      end
  | Arrive c data =>
      f ← flows n !! c;
      match opened f, arrived f with
      | true, None => Some (set_flows (<[c := set_arrived (Some data) f]> (flows n)) n)
      | _, _ => None
      end
  | Answer c =>
      f ← flows n !! c;
      match opened f, arrived f with
      | true, Some data =>
          Some (mkNat (<[c := set_arrived None f]> (flows n)) (pending n) (out n)
                  (back n ++ [(c, client f, data)]))
      | _, _ => None
      end
  | Drop c => f ← flows n !! c; Some (set_flows (<[c := set_arrived None f]> (flows n)) n)
  | Retire cs =>
      if forallb (is_listed (flows n)) (elements cs)
      then Some (set_flows (map_imap (retire cs) (flows n)) n) else None
  | Hangup c =>
      f ← flows n !! c;
      if opened f then Some (set_flows (<[c := hang_up f]> (flows n)) n) else None
  end.

(** The transitions as rules. *)
Lemma do_connect n c src data :
  pending n = Some (src, data) -> flows n !! c = None ->
  nat_step (Connect c) n = Some (set_flows (<[c := mkFlow src Fresh true None]> (flows n)) n).
Proof. intros Hp Hc. unfold nat_step. by rewrite Hp, Hc. Qed.
Section rules.
Context (n : nat_state) (c : nat) (f : flow) (Hc : flows n !! c = Some f).

Lemma do_enlist :
  stage_of f = Fresh -> served (client f) (flows n) = false ->
  nat_step (Enlist c) n = Some (set_flows (<[c := set_stage Listed f]> (flows n)) n).
Proof. intros Hs Hn. unfold nat_step. rewrite Hc. cbn. by rewrite Hs, Hn. Qed.
Lemma do_forward data :
  pending n = Some (client f, data) -> opened f = true ->
  nat_step (Forward c) n = Some (mkNat (flows n) None (out n ++ [(c, client f, data)]) (back n)).
Proof. intros Hp Ho. unfold nat_step. rewrite Hc. cbn. by rewrite Hp, Ho, bool_decide_eq_true_2. Qed.
Lemma do_arrive data :
  opened f = true -> arrived f = None ->
  nat_step (Arrive c data) n = Some (set_flows (<[c := set_arrived (Some data) f]> (flows n)) n).
Proof. intros Ho Ha. unfold nat_step. rewrite Hc. cbn. by rewrite Ho, Ha. Qed.
Lemma do_answer data :
  opened f = true -> arrived f = Some data ->
  nat_step (Answer c) n = Some (mkNat (<[c := set_arrived None f]> (flows n)) (pending n) (out n)
                                  (back n ++ [(c, client f, data)])).
Proof. intros Ho Ha. unfold nat_step. rewrite Hc. cbn. by rewrite Ho, Ha. Qed.
Lemma do_drop :
  nat_step (Drop c) n = Some (set_flows (<[c := set_arrived None f]> (flows n)) n).
Proof. unfold nat_step. by rewrite Hc. Qed.
Lemma do_hangup :
  opened f = true -> nat_step (Hangup c) n = Some (set_flows (<[c := hang_up f]> (flows n)) n).
Proof. intros Ho. unfold nat_step. rewrite Hc. cbn. by rewrite Ho. Qed.
End rules.

(** What arrives from outside. *)
Inductive event :=
  | FromClient (src data : string)
  | FromTarget (c : nat) (data : string).
#[export] Instance event_eq_dec : EqDecision event.
Proof. solve_decision. Defined.
Definition act_events (a : act) : list event :=
  match a with
  | Receive src data => [FromClient src data]
  | Arrive c data => [FromTarget c data]
  | _ => []
  end.

(** ** What holds of the abstract machine *)

(** The datagrams of clients, and those of one connection, among the events. *)
Definition from_clients (es : list event) : list (string * string) :=
  omap (fun e => match e with FromClient src data => Some (src, data) | FromTarget _ _ => None end) es.
Definition from_target (c : nat) (es : list event) : list string :=
  omap (fun e => match e with
    | FromTarget c' data => if decide (c' = c) then Some data else None
    | FromClient _ _ => None
    end) es.
Definition payload (x : nat * string * string) : string * string := (x.1.2, x.2).
Definition of_conn (c : nat) (l : list (nat * string * string)) : list string :=
  omap (fun x => if decide (x.1.1 = c) then Some x.2 else None) l.

(** The promise, given everything that has arrived: datagrams are forwarded in
    order, unchanged, at most once; so are the answers of each connection; a
    connection only ever serves one client; a client has one listed flow. *)
Record promise (es : list event) (n : nat_state) : Prop := {
  p_out : (payload <$> out n) ++ option_list (pending n) `sublist_of` from_clients es;
  p_back c : of_conn c (back n) ++ option_list (flows n !! c ≫= arrived) `sublist_of` from_target c es;
  p_client c src data : (c, src, data) ∈ out n ++ back n -> client <$> flows n !! c = Some src;
  p_listed c c' f f' : flows n !! c = Some f -> flows n !! c' = Some f' ->
    stage_of f = Listed -> stage_of f' = Listed -> client f = client f' -> c = c'
}.

Lemma promise_init : promise [] nat_init.
Proof. split; simpl; try done. by intros c src data ?%not_elem_of_nil. Qed.

Lemma served_false src fs c f :
  served src fs = false -> fs !! c = Some f -> stage_of f = Listed -> client f <> src.
Proof.
  intros Hs Hc Hl Heq. apply not_true_iff_false in Hs. apply Hs, existsb_exists. exists (c, f).
  rewrite !bool_decide_eq_true_2 by done. split; [|done].
  by apply list_elem_of_In, elem_of_map_to_list.
Qed.

Lemma from_clients_app es es' : from_clients (es ++ es') = from_clients es ++ from_clients es'.
Proof. apply omap_app. Qed.
Lemma from_target_app c es es' : from_target c (es ++ es') = from_target c es ++ from_target c es'.
Proof. apply omap_app. Qed.
Lemma of_conn_app c l l' : of_conn c (l ++ l') = of_conn c l ++ of_conn c l'.
Proof. apply omap_app. Qed.

(** ** Replacing one flow by one of the same client *)
Section update.
Context (es : list event) (n : nat_state) (c : nat) (f f' : flow).
Context (Hp : promise es n) (Hf : flows n !! c = Some f) (Hc : client f' = client f).

Lemma client_insert i : client <$> <[c:=f']> (flows n) !! i = client <$> flows n !! i.
Proof. rewrite lookup_insert. destruct (decide (c = i)) as [<-|]; [|done]. rewrite Hf. simpl. by rewrite Hc. Qed.

Lemma p_client_update i src data :
  (i, src, data) ∈ out n ++ back n -> client <$> <[c:=f']> (flows n) !! i = Some src.
Proof. rewrite client_insert. apply (p_client es n Hp). Qed.

(** No two listed flows of a client, if the new one is not newly listed or no
    other one is. *)
Lemma p_listed_update :
  (stage_of f' = Listed -> stage_of f = Listed \/ served (client f) (flows n) = false) ->
  forall i j g g', <[c:=f']> (flows n) !! i = Some g -> <[c:=f']> (flows n) !! j = Some g' ->
     stage_of g = Listed -> stage_of g' = Listed -> client g = client g' -> i = j.
Proof.
  intros Hst. pose proof (p_listed es n Hp) as Hli.
  assert (forall j g, flows n !! j = Some g -> stage_of f' = Listed -> stage_of g = Listed ->
    client f' = client g -> c = j) as Hnew.
  { intros j g Hj H1 H2 H3. destruct (Hst H1) as [H4|H4]; [eapply Hli; eauto; congruence|].
    exfalso. eapply served_false; eauto. congruence. }
  intros i j g g'. rewrite !lookup_insert.
  destruct (decide (c = i)) as [<-|], (decide (c = j)) as [<-|]; intros H1 H2; simplify_eq; eauto.
  intros ? ? ?. symmetry. by eapply Hnew.
Qed.

Lemma p_back_update i :
  arrived f' = arrived f \/ arrived f' = None ->
  of_conn i (back n) ++ option_list (<[c := f']> (flows n) !! i ≫= arrived) `sublist_of` from_target i es.
Proof.
  intros Ha. etrans; [|apply (p_back es n Hp i)]. apply sublist_app; [done|].
  rewrite lookup_insert. destruct (decide (c = i)) as [<-|]; [|done].
  rewrite Hf. simpl. destruct Ha as [->|Ha]; [done|]. rewrite Ha. apply sublist_nil_l.
Qed.
End update.

(** Each kind of action keeps the promise. *)
Lemma promise_connect c es n n' :
  promise es n -> nat_step (Connect c) n = Some n' -> promise es n'.
Proof.
  intros [Hout Hback Hcl Hli]. simpl. destruct (pending n) as [[src data]|] eqn:Hpe; [|done].
  destruct (flows n !! c) eqn:Hc; [done|]. intros [= <-]. split; simpl.
  - by rewrite Hpe.
  - intros i. specialize (Hback i). rewrite lookup_insert. destruct (decide (c = i)) as [<-|]; [|done].
    by rewrite Hc in Hback.
  - intros i src' d Hin. apply Hcl in Hin. rewrite lookup_insert.
    destruct (decide (c = i)) as [<-|]; [|done]. by rewrite Hc in Hin.
  - intros i j g g'. rewrite !lookup_insert.
    destruct (decide (c = i)) as [<-|], (decide (c = j)) as [<-|]; intros; simplify_eq/=; eauto.
Qed.

Lemma promise_enlist c es n n' :
  promise es n -> nat_step (Enlist c) n = Some n' -> promise es n'.
Proof.
  intros Hp. simpl. destruct (flows n !! c) as [f|] eqn:Hc; [|done]. simpl.
  destruct (_ && _) eqn:Hg; [|done]. intros [= <-]. apply andb_true_iff in Hg as [_ Hse%negb_true_iff].
  split; simpl; [apply Hp|intros; by eapply p_back_update; eauto|intros; by eapply p_client_update|].
  eapply p_listed_update; eauto.
Qed.

Lemma promise_forward c es n n' :
  promise es n -> nat_step (Forward c) n = Some n' -> promise es n'.
Proof.
  intros [Hout Hback Hcl Hli]. simpl. destruct (flows n !! c) as [f|] eqn:Hc; [|done]. simpl.
  destruct (pending n) as [[src data]|] eqn:Hpe; [|done].
  destruct (bool_decide (client f = src)) eqn:Hb; [|done]. apply bool_decide_eq_true in Hb as <-.
  destruct (opened f); [|done]. intros [= <-]. split; simpl; try done.
  - rewrite fmap_app, app_nil_r. exact Hout.
  - intros i src d. rewrite <- (assoc_L (++)), !elem_of_app, list_elem_of_singleton.
    intros [?|[Heq|?]]; [apply (Hcl i src d), elem_of_app; auto| |apply (Hcl i src d), elem_of_app; auto].
    injection Heq as -> -> ->. by rewrite Hc.
Qed.

Lemma promise_arrive c data es n n' :
  promise es n -> nat_step (Arrive c data) n = Some n' -> promise (es ++ [FromTarget c data]) n'.
Proof.
  intros Hp. simpl. destruct (flows n !! c) as [f|] eqn:Hc; [|done]. simpl.
  destruct (opened f); [|done]. destruct (arrived f) eqn:Ha; [done|]. intros [= <-]. split; simpl.
  - rewrite from_clients_app, app_nil_r. apply Hp.
  - intros i. pose proof (p_back es n Hp i) as Hb. rewrite from_target_app, lookup_insert. simpl.
    destruct (decide (c = i)) as [<-|]; simpl; [|by rewrite app_nil_r].
    rewrite Hc in Hb. simpl in Hb. rewrite Ha, app_nil_r in Hb. by apply sublist_app.
  - intros; by eapply p_client_update.
  - eapply p_listed_update; eauto.
Qed.

Lemma promise_answer c es n n' :
  promise es n -> nat_step (Answer c) n = Some n' -> promise es n'.
Proof.
  intros Hp. simpl. destruct (flows n !! c) as [f|] eqn:Hc; [|done]. simpl.
  destruct (opened f); [|done]. destruct (arrived f) as [data|] eqn:Ha; [|done]. intros [= <-].
  split; simpl.
  - apply Hp.
  - intros i. pose proof (p_back es n Hp i) as Hb. rewrite of_conn_app, lookup_insert. simpl.
    destruct (decide (c = i)) as [<-|]; simpl; rewrite app_nil_r; [|done].
    rewrite Hc in Hb. simpl in Hb. by rewrite Ha in Hb.
  - intros i src d. rewrite (assoc_L (++)), elem_of_app, list_elem_of_singleton.
    intros [Hin|Heq]; [by eapply p_client_update|]. injection Heq as -> -> ->. by rewrite lookup_insert_eq.
  - eapply p_listed_update; eauto.
Qed.

Lemma promise_retire cs es n n' :
  promise es n -> nat_step (Retire cs) n = Some n' -> promise es n'.
Proof.
  intros [Hout Hback Hcl Hli]. unfold nat_step. destruct (forallb _ _); [|done]. intros [= <-].
  split; simpl; try done.
  - intros i. specialize (Hback i). rewrite map_lookup_imap. unfold retire.
    destruct (flows n !! i) as [f|]; [|done]. simpl in *. by destruct (decide _).
  - intros i src d Hin. apply Hcl in Hin. rewrite map_lookup_imap. unfold retire.
    destruct (flows n !! i) as [f|]; [|done]. simpl in *. by destruct (decide _).
  - intros i j g g'. rewrite !map_lookup_imap. unfold retire.
    destruct (flows n !! i) as [f|] eqn:Hi; [|done]. destruct (flows n !! j) as [f'|] eqn:Hj; [|done].
    simpl. destruct (decide (i ∈ cs)), (decide (j ∈ cs)); intros; simplify_eq/=; eauto.
Qed.

Lemma promise_step a es n n' :
  promise es n -> nat_step a n = Some n' -> promise (es ++ act_events a) n'.
Proof.
  intros Hp. destruct a as [src data| |c|c|c|c data|c|c|cs|c]; cbn [act_events]; rewrite ?app_nil_r;
    eauto using promise_connect, promise_enlist, promise_forward, promise_arrive, promise_answer, promise_retire.
  - simpl. destruct (pending n) eqn:Hpe; [done|]. intros [= <-]. destruct Hp as [Hout Hback Hcl Hli].
    rewrite Hpe, app_nil_r in Hout. split; simpl; try done.
    + rewrite from_clients_app. by apply sublist_app.
    + intros c. rewrite from_target_app. simpl. by rewrite app_nil_r.
  - intros [= <-]. destruct Hp as [Hout Hback Hcl Hli]. split; simpl; try done.
    rewrite app_nil_r. etrans; [|exact Hout]. by apply sublist_inserts_r.
  - simpl. destruct (flows n !! c) as [f|] eqn:Hc; [|done]. intros [= <-].
    split; simpl; [apply Hp|intros; by eapply p_back_update; eauto|intros; by eapply p_client_update|].
    eapply p_listed_update; eauto.
  - simpl. destruct (flows n !! c) as [f|] eqn:Hc; [|done]. simpl. destruct (opened f); [|done]. intros [= <-].
    split; simpl; [apply Hp|intros; by eapply p_back_update; eauto|intros; by eapply p_client_update|].
    eapply p_listed_update; eauto.
Qed.

Lemma promise_run als n :
  run nat_step nat_init als = Some n -> promise (flat_map act_events als) n.
Proof.
  enough (forall es n0, promise es n0 -> run nat_step n0 als = Some n ->
    promise (es ++ flat_map act_events als) n) as H by (intros Hr; by apply (H [] nat_init promise_init)).
  induction als as [|a als IH]; simpl; intros es n0 Hp.
  - intros [= <-]. by rewrite app_nil_r.
  - destruct (nat_step a n0) eqn:Ha; [|done]. simpl. intros Hr.
    rewrite (assoc_L (++)). apply (IH _ _ (promise_step _ _ _ _ Hp Ha) Hr).
Qed.

(** ** The flows of a concrete state

    Both machines have the same ingredients: who a connection was made for, the
    table, the session that is still to be inserted, the open connections, and
    the answer a session's goroutine holds. *)
Definition view_stage (table : gmap string nat) (fresh : option nat) (c : nat) (src : string) : stage :=
  if decide (table !! src = Some c) then Listed
  else if decide (fresh = Some c) then Fresh else Retired.
Definition view_flow table fresh (conns : gset nat) (arr : nat -> option string) c src : flow :=
  mkFlow src (view_stage table fresh c src) (bool_decide (c ∈ conns)) (arr c).
Definition view (owners : gmap nat string) table fresh conns arr : gmap nat flow :=
  map_imap (fun c src => Some (view_flow table fresh conns arr c src)) owners.

Section view.
Implicit Types (owners : gmap nat string) (table : gmap string nat) (conns : gset nat).

Lemma view_lookup owners table fresh conns arr c :
  view owners table fresh conns arr !! c = view_flow table fresh conns arr c <$> owners !! c.
Proof. unfold view. rewrite map_lookup_imap. by destruct (owners !! c). Qed.

Lemma view_ext owners table fresh conns arr table' fresh' conns' arr' :
  (forall c src, owners !! c = Some src ->
     view_flow table fresh conns arr c src = view_flow table' fresh' conns' arr' c src) ->
  view owners table fresh conns arr = view owners table' fresh' conns' arr'.
Proof.
  intros H. apply map_eq. intros c. rewrite !view_lookup.
  destruct (owners !! c) as [src|] eqn:E; simpl; [|done]. by rewrite (H c src E).
Qed.

(** Changing what concerns one connection. *)
Lemma view_insert owners table fresh conns arr table' fresh' conns' arr' c src :
  owners !! c = Some src ->
  (forall i src', i <> c -> owners !! i = Some src' ->
     view_flow table fresh conns arr i src' = view_flow table' fresh' conns' arr' i src') ->
  view owners table' fresh' conns' arr' =
  <[c := view_flow table' fresh' conns' arr' c src]> (view owners table fresh conns arr).
Proof.
  intros Hc H. apply map_eq. intros i. rewrite lookup_insert, !view_lookup.
  destruct (decide (c = i)) as [<-|Hne]; [by rewrite Hc|].
  destruct (owners !! i) as [src'|] eqn:E; simpl; [|done]. by rewrite (H i src') by auto.
Qed.

Lemma served_view owners table fresh conns arr src :
  table !! src = None -> served src (view owners table fresh conns arr) = false.
Proof.
  intros Hn. apply not_true_iff_false. intros ([c f] & Hin & [Hc Hl]%andb_true_iff)%existsb_exists.
  apply list_elem_of_In, elem_of_map_to_list in Hin. rewrite view_lookup in Hin.
  apply fmap_Some in Hin as (src' & _ & ->). apply bool_decide_eq_true in Hc as <-.
  apply bool_decide_eq_true in Hl. simpl in *. unfold view_stage in Hl. rewrite Hn in Hl.
  by destruct (decide (None = Some c)), (decide (fresh = Some c)).
Qed.

(** A table that has lost entries is the outcome of retiring. *)
Lemma view_retire owners table fresh conns arr table' :
  (forall k i, table' !! k = Some i -> table !! k = Some i) ->
  (forall c src, fresh = Some c -> owners !! c = Some src -> table !! src <> Some c) ->
  exists cs, forallb (is_listed (view owners table fresh conns arr)) (elements cs) = true /\
    map_imap (retire cs) (view owners table fresh conns arr) = view owners table' fresh conns arr.
Proof.
  intros Hsub Hfresh.
  exists (dom (filter (fun x => table !! x.2 = Some x.1 /\ table' !! x.2 <> Some x.1) owners)).
  split.
  - apply forallb_forall. intros c Hc%list_elem_of_In%elem_of_elements.
    apply elem_of_dom in Hc as [src [Hc [Ht _]]%map_lookup_filter_Some]. simpl in Ht.
    unfold is_listed. rewrite view_lookup, Hc. simpl. apply bool_decide_eq_true_2.
    unfold view_stage. by rewrite decide_True.
  - apply map_eq. intros c. rewrite map_lookup_imap, !view_lookup. unfold retire.
    destruct (owners !! c) as [src|] eqn:E; simpl; [|done]. f_equal. unfold view_flow, view_stage.
    destruct (decide _) as [[src' [Hc [Ht Ht']]%map_lookup_filter_Some]%elem_of_dom|Hno].
    + simplify_eq/=. rewrite (decide_False (P := table' !! src = _)) by done.
      destruct (decide (fresh = Some c)) as [Hf|]; [|done]. by destruct (Hfresh c src Hf E).
    + destruct (decide (table' !! src = Some c)) as [Ht'|Ht'].
      * by rewrite decide_True by auto.
      * destruct (decide (table !! src = Some c)) as [Ht|]; [|done]. destruct Hno.
        apply elem_of_dom. exists src. by apply map_lookup_filter_Some.
Qed.

(** A new connection, and its entry in the table. *)
Lemma view_connect owners table conns arr arr' c src :
  owners !! c = None -> table !! src <> Some c -> arr' c = None ->
  (forall i, i <> c -> arr' i = arr i) ->
  <[c := mkFlow src Fresh true None]> (view owners table None conns arr) =
  view (<[c := src]> owners) table (Some c) ({[c]} ∪ conns) arr'.
Proof.
  intros Hc Ht Ha Harr. apply map_eq. intros i. rewrite lookup_insert, !view_lookup, lookup_insert.
  destruct (decide (c = i)) as [<-|Hne]; simpl; unfold view_flow, view_stage.
  - rewrite decide_False, decide_True, Ha by done.
    rewrite bool_decide_eq_true_2 by (apply elem_of_union; left; by apply elem_of_singleton). done.
  - destruct (owners !! i) as [src'|]; simpl; [|done].
    rewrite Harr, (decide_False (P := Some c = Some i)) by congruence.
    do 2 f_equal. apply bool_decide_ext. rewrite elem_of_union, elem_of_singleton. intuition congruence.
Qed.

Lemma view_enlist owners table conns arr c src :
  owners !! c = Some src -> table !! src = None ->
  <[c := view_flow (<[src:=c]> table) None conns arr c src]> (view owners table (Some c) conns arr) =
    view owners (<[src := c]> table) None conns arr /\
  view_flow (<[src:=c]> table) None conns arr c src =
    set_stage Listed (view_flow table (Some c) conns arr c src) /\
  stage_of (view_flow table (Some c) conns arr c src) = Fresh.
Proof.
  intros Hc Ht. unfold view_flow, view_stage, set_stage. simpl. split_and!.
  - symmetry. apply view_insert; [done|]. intros i src' Hi Ho. unfold view_flow, view_stage.
    rewrite lookup_insert, (decide_False (P := Some c = Some i)) by congruence.
    f_equal. destruct (decide (src = src')) as [<-|]; [|done]. rewrite Ht.
    by rewrite (decide_False (P := Some c = Some i)) by congruence.
  - by rewrite lookup_insert_eq, decide_True.
  - by rewrite Ht, decide_False, decide_True.
Qed.
End view.

(** ** Matching a concrete step *)
Definition simulated (n : nat_state) (es : list event) (n' : nat_state) : Prop :=
  exists als, run nat_step n als = Some n' /\ flat_map act_events als = es.
Lemma simulated_nil es n n' : es = [] -> n' = n -> simulated n es n'.
Proof. intros -> ->. by exists []. Qed.
Lemma simulated_one a es n n' : act_events a = es -> nat_step a n = Some n' -> simulated n es n'.
Proof. intros He Ha. exists [a]. cbn [run]. rewrite Ha. simpl. by rewrite app_nil_r. Qed.

(** ** The UDP proxy refines the abstract machine *)
Module Proxy.
Import UdpProxy.

Definition arrived_in (s : state) (c : nat) : option string :=
  g ← gors s !! c; match g_pc g with GTouch data | GReply data => Some data | _ => None end.
Definition pending_in (s : state) : option (string * string) :=
  match main s with
  | MGot src data | MTouch _ src data | MSend _ src data => Some (src, data)
  | MRead | MReturned _ => None
  end.
Definition owners (s : state) : gmap nat string := g_src <$> gors s.
Definition abs (s : state) : nat_state :=
  mkNat (view (owners s) (sessions s) None (open_conns s) (arrived_in s)) (pending_in s)
    (forwarded s) (replied s).
Definition events (l : label) : list event :=
  match l with
  | Recv src data => [FromClient src data]
  | GorRead sid data => [FromTarget sid data]
  | _ => []
  end.

Section proxy.
Context (t : Z).

Definition held (pc : gpc) : option string :=
  match pc with GTouch data | GReply data => Some data | _ => None end.
Lemma arrived_in_gor s sid src pc : gors s !! sid = Some (mkGor src pc) -> arrived_in s sid = held pc.
Proof. unfold arrived_in. by intros ->. Qed.

(** A step of a session's goroutine, seen from outside. *)
Definition flow_in (s : state) (sid : nat) (src : string) : flow :=
  view_flow (sessions s) None (open_conns s) (arrived_in s) sid src.
Lemma flow_in_abs s sid src pc :
  gors s !! sid = Some (mkGor src pc) -> flows (abs s) !! sid = Some (flow_in s sid src).
Proof. intros Hg. cbn. by rewrite view_lookup; unfold owners; rewrite lookup_fmap, Hg. Qed.
Lemma owners_set_gor s sid src pc pc' :
  gors s !! sid = Some (mkGor src pc) -> owners (set_gor sid (mkGor src pc') s) = owners s.
Proof.
  intros Hg. unfold owners. cbn. rewrite fmap_insert. apply insert_id. by rewrite lookup_fmap, Hg.
Qed.
Lemma abs_set_gor s sid src pc pc' :
  gors s !! sid = Some (mkGor src pc) ->
  abs (set_gor sid (mkGor src pc') s) =
  set_flows (<[sid := set_arrived (held pc') (flow_in s sid src)]> (flows (abs s))) (abs s).
Proof.
  intros Hg. set (s' := set_gor sid (mkGor src pc') s).
  unfold abs at 1. rewrite (owners_set_gor s sid src pc pc' Hg : owners s' = owners s).
  rewrite (view_insert (owners s) (sessions s) None (open_conns s) (arrived_in s)
    (sessions s') None (open_conns s') (arrived_in s') sid src).
  - replace (held pc') with (arrived_in s' sid); [done|].
    unfold arrived_in. cbn. by rewrite lookup_insert_eq.
  - unfold owners. by rewrite lookup_fmap, Hg.
  - intros i src' Hi _. unfold view_flow, arrived_in. cbn. by rewrite lookup_insert_ne.
Qed.

(** Moves the clients and the target do not see. *)
Lemma abs_silent s sid src pc pc' :
  gors s !! sid = Some (mkGor src pc) -> held pc' = held pc ->
  abs (set_gor sid (mkGor src pc') s) = abs s.
Proof.
  intros Hg Hh. rewrite (abs_set_gor s sid src pc pc' Hg), Hh, insert_id; [done|].
  rewrite <- (arrived_in_gor s sid src pc Hg). by apply (flow_in_abs s sid src pc).
Qed.

(** The end of a session's goroutine. *)
Lemma abs_finish s sid src :
  gors s !! sid = Some (mkGor src GClose) ->
  abs (close_conn sid (set_gor sid (mkGor src GDone) s)) =
  set_flows (<[sid := hang_up (flow_in s sid src)]> (flows (abs s))) (abs s).
Proof.
  intros Hg. set (s' := close_conn sid (set_gor sid (mkGor src GDone) s)).
  unfold abs at 1. rewrite (owners_set_gor s sid src GClose GDone Hg : owners s' = owners s).
  rewrite (view_insert (owners s) (sessions s) None (open_conns s) (arrived_in s)
    (sessions s') None (open_conns s') (arrived_in s') sid src).
  - unfold view_flow, hang_up, set_flows. cbn. rewrite bool_decide_eq_false_2.
    + do 3 f_equal. unfold arrived_in. cbn. by rewrite lookup_insert_eq, Hg.
    + by intros [_ []%not_elem_of_singleton]%elem_of_difference.
  - unfold owners. by rewrite lookup_fmap, Hg.
  - intros i src' Hi _. unfold view_flow, arrived_in. cbn. rewrite lookup_insert_ne by done.
    f_equal. apply bool_decide_ext. rewrite elem_of_difference, elem_of_singleton. intuition.
Qed.

(** Fewer entries in the table. *)
Lemma abs_shrink s h m :
  (forall k i, m !! k = Some i -> sessions s !! k = Some i) ->
  exists cs, nat_step (Retire cs) (abs s) = Some (abs (set_heap_sessions h m s)).
Proof.
  intros Hsub. destruct (view_retire (owners s) (sessions s) None (open_conns s) (arrived_in s) m)
    as (cs & Hl & Hf); [done|done|]. exists cs. unfold nat_step. cbn [abs flows]. by rewrite Hl, Hf.
Qed.

Lemma new_session_simulated s src data now dur l :
  inv s -> main s = MGot src data -> sessions s !! src = None -> events l = [] ->
  let sid := next s in
  simulated (abs s) (events l) (abs (mkState (<[sid := mkSession sid now ChanOpen dur]> (heap s)) (<[src := sid]> (sessions s))
         (<[sid := mkGor src GTop]> (gors s)) ({[sid]} ∪ open_conns s) (MTouch sid src data) (reaper s) (done s)
         (closed s) (listener_open s) (closers s) (panicked s) (forwarded s) (replied s) (S sid))).
Proof.
  intros Hi Hm Hk He sid. destruct (inv_fresh s Hi sid (le_n _)) as [Hg _].
  assert (owners s !! sid = None) as Ho by (unfold owners; by rewrite lookup_fmap, Hg).
  set (s' := mkState _ _ _ _ _ _ _ _ _ _ _ _ _ _).
  assert (owners s' = <[sid := src]> (owners s)) as Ho' by (unfold owners; cbn; by rewrite fmap_insert).
  destruct (view_enlist (<[sid := src]> (owners s)) (sessions s) ({[sid]} ∪ open_conns s) (arrived_in s')
    sid src) as (Hv1 & Hv2 & Hv3); [by rewrite lookup_insert_eq|done|].
  exists [Connect sid; Enlist sid]. split; [|by rewrite He].
  cbn [run]. rewrite (do_connect (abs s) sid src data);
    [|unfold abs, pending_in; cbn; by rewrite Hm|cbn; by rewrite view_lookup, Ho].
  cbn [mbind option_bind flows abs].
  rewrite (view_connect _ _ _ _ (arrived_in s')); [|done|congruence| |].
  - erewrite do_enlist; [|cbn; by rewrite view_lookup, lookup_insert_eq|done|by apply served_view].
    cbn [mbind option_bind set_flows flows pending out back]. rewrite <- Hv2, Hv1. unfold abs, pending_in.
    rewrite Ho'. cbn. by rewrite Hm.
  - unfold arrived_in. cbn. by rewrite lookup_insert_eq.
  - intros i Hi'. unfold arrived_in. cbn. by rewrite lookup_insert_ne.
Qed.

Lemma gor_simulated l sid s s' :
  owner l = Some sid -> inv s -> step t l s = Some s' -> simulated (abs s) (events l) (abs s').
Proof.
  intros Ho Hi. unfold step. destruct (panicked s); [done|].
  destruct l; simpl in Ho; try discriminate; injection Ho as ->;
    intros (src & pc & Hg & Hk)%with_gor_Some; destruct pc; try discriminate Hk;
    (assert (bool_decide (sid ∈ open_conns s) = true) as Hopen
      by (by apply bool_decide_eq_true_2, (inv_gor s Hi sid _ Hg)));
    pose proof (arrived_in_gor _ _ _ _ Hg) as Harr; pose proof (flow_in_abs _ _ _ _ Hg) as Hf.
  - injection Hk as <-. unfold check_close. apply simulated_nil; [done|].
    by eapply abs_silent; [exact Hg|destruct (sess_closed sid s)].
  - injection Hk as <-. apply simulated_nil; [done|]. by eapply abs_silent.
  - injection Hk as <-. apply (simulated_one (Arrive sid data)); [done|].
    by rewrite (do_arrive _ _ _ Hf), (abs_set_gor _ _ _ _ _ Hg).
  - destruct (is_timeout err); [destruct (past_deadline deadline now); [|done]|];
      injection Hk as <-; (apply simulated_nil; [done|]); by eapply abs_silent.
  - injection Hk as <-. unfold check_close. apply simulated_nil; [done|].
    by eapply abs_silent; [exact Hg|destruct (sess_closed sid s)].
  - injection Hk as <-. apply simulated_nil; [done|].
    by rewrite (abs_silent _ sid src (GTouch data)).
  - destruct (ok && listener_open s); injection Hk as <-.
    + apply (simulated_one (Answer sid)); [done|]. rewrite (do_answer _ _ _ Hf data) by done.
      change (abs (add_replied ?r ?s)) with
        (mkNat (flows (abs s)) (pending (abs s)) (out (abs s)) (back (abs s) ++ [r])).
      by rewrite (abs_set_gor _ _ _ _ _ Hg).
    + apply (simulated_one (Drop sid)); [done|].
      by rewrite (do_drop _ _ _ Hf), (abs_set_gor _ _ _ _ _ Hg).
  - destruct (removeSession src sid (heap s, sessions s)) as [h m] eqn:Er. injection Hk as <-.
    destruct (abs_shrink s h m) as [cs Hcs].
    { intros k i. revert Er. unfold removeSession. destruct (bool_decide (sessions s !! src = Some sid)); intros [= <- <-]; [|done].
      by intros [_ ?]%lookup_delete_Some. }
    apply (simulated_one (Retire cs)); [done|]. rewrite Hcs.
    by rewrite (abs_silent (set_heap_sessions h m s) sid src GExit).
  - injection Hk as <-. apply (simulated_one (Hangup sid)); [done|].
    by rewrite (do_hangup _ _ _ Hf), (abs_finish _ _ _ Hg).
Qed.

Lemma main_simulated l s s' :
  owner l = None -> inv s -> step t l s = Some s' -> simulated (abs s) (events l) (abs s').
Proof.
  intros Ho Hi. pose proof (inv_main s Hi) as Hm. unfold step. destruct (panicked s); [done|].
  destruct l; simpl in Ho; try discriminate Ho;
    unfold main_recv, main_recv_err, main_session, main_touch, main_send, reaper_tick,
      reaper_done, close_mark, close_select, close_done, close_listener.
  - destruct (main s) eqn:Hms; try done. destruct (listener_open s); [|done]. intros [= <-].
    apply (simulated_one (Receive src data)); [done|]. unfold nat_step, abs, pending_in. cbn. by rewrite Hms.
  - destruct (main s) eqn:Hms; try done. destruct (closedByUs _ _); intros [= <-]; apply simulated_nil; try done.
    unfold abs, pending_in. cbn. by rewrite Hms.
  - destruct (main s) as [|src data| | |] eqn:Hms; try done. unfold getOrCreateSession.
    destruct (sessions s !! src) as [sid|] eqn:Hk.
    + intros [= <-]. apply simulated_nil; [done|]. unfold abs, pending_in. cbn. by rewrite Hms.
    + destruct dial; intros [= <-]; [by apply (simulated_one Discard)|].
      apply (new_session_simulated s src data now _ (GetSession now None) Hi Hms Hk eq_refl).
  - destruct (main s) eqn:Hms; try done. intros [= <-]. apply simulated_nil; [done|].
    unfold abs, pending_in. cbn. by rewrite Hms.
  - destruct (main s) as [| | |sid src data|] eqn:Hms; try done.
    destruct (write_ok && bool_decide (sid ∈ open_conns s)) eqn:Hw; intros [= <-];
      [|by apply (simulated_one Discard)].
    apply andb_true_iff in Hw as [_ Hopen]. unfold gor_src in Hm.
    destruct (gors s !! sid) as [[src' pc]|] eqn:Hg; [|done]. injection Hm as ->.
    apply (simulated_one (Forward sid)); [done|].
    rewrite (do_forward _ _ _ (flow_in_abs s sid src pc Hg) data); [done| |done].
    unfold abs, pending_in. cbn. by rewrite Hms.
  - destruct (reaper s); [|done]. destruct (reap _ _ _) as [h m] eqn:Er. intros [= <-].
    destruct (abs_shrink s h m) as [cs Hcs]; [|by apply (simulated_one (Retire cs))].
    intros k i. pose proof (reap_sessions now (seconds t) (heap s) (sessions s) k) as Hrs.
    rewrite Er in Hrs. simpl in Hrs. rewrite Hrs. destruct (sessions s !! k); simpl; [|done].
    by destruct (is_expired _ _ _ _).
  - destruct (reaper s); [|done]. destruct (done s); [done|]. intros [= <-]. by apply simulated_nil.
  - destruct (closers s !! c); [done|]. intros [= <-]. by apply simulated_nil.
  - destruct (closers s !! c) as [[]|]; try done. intros [= <-]. by apply simulated_nil.
  - destruct (closers s !! c) as [[]|]; try done. destruct (done s); intros [= <-]; by apply simulated_nil.
  - destruct (closers s !! c) as [[]|]; try done. intros [= <-]. by apply simulated_nil.
Qed.

Lemma proxy_simulated : refines (step t) nat_step inv abs events act_events.
Proof.
  intros l s s' Hi Hs. split; [by eapply inv_step|].
  destruct (owner l) as [sid|] eqn:Ho; [by eapply gor_simulated|by eapply main_simulated].
Qed.

(** C2: the UDP proxy implements its specification: whatever the interleaving
    of read loop, session goroutines, reaper and callers of [Close], a run is a
    run of the abstract flow machine on the same datagrams, and so keeps its
    promise: what is sent to the target is, in order and unchanged, a selection
    of what clients sent, every connection serves one client and returns a
    selection of its own answers to that client only, and no client has two
    listed sessions. *)
Theorem udp_proxy_refines_spec ls s :
  run (step t) (init t) ls = Some s ->
  (exists als, run nat_step nat_init als = Some (abs s) /\
     flat_map act_events als = flat_map events ls) /\
  promise (flat_map events ls) (abs s).
Proof.
  intros Hr. destruct (refines_run _ _ _ _ _ _ _ _ _ proxy_simulated (inv_init t) Hr)
    as (_ & als & Ha & He).
  split; [by exists als|]. rewrite <- He. by apply promise_run.
Qed.
End proxy.
End Proxy.

(** ** The UDP server tunnel refines the abstract machine *)
Module Server.
Import UdpServer.

Definition held (pc : gpc) : option string :=
  match pc with GTouch data | GReply data => Some data | _ => None end.
Definition arrived_in (s : state) (c : nat) : option string := gors s !! c ≫= held.
Definition pending_in (s : state) : option (string * string) :=
  match main s with
  | MGot src data | MDial src data | MInsert _ src data | MSpawn _ src data | MSend _ src data =>
      Some (src, data)
  | MRead | MReturned _ => None
  end.
(** A dialled session that is not in the table yet. *)
Definition fresh_in (s : state) : option nat :=
  match main s with MInsert sid _ _ => Some sid | _ => None end.
Definition flow_in (s : state) (sid : nat) (src : string) : flow :=
  view_flow (sessions s) (fresh_in s) (open_conns s) (arrived_in s) sid src.
Definition abs (s : state) : nat_state :=
  mkNat (view (srcs s) (sessions s) (fresh_in s) (open_conns s) (arrived_in s)) (pending_in s)
    (forwarded s) (replied s).
Definition events (l : label) : list event :=
  match l with
  | Recv src data => [FromClient src data]
  | GorRead sid data => [FromTarget sid data]
  | _ => []
  end.

Section server.
Context (t : Z).

Lemma server_flow_in_abs s sid src :
  srcs s !! sid = Some src -> flows (abs s) !! sid = Some (flow_in s sid src).
Proof. intros Hs. cbn. by rewrite view_lookup, Hs. Qed.

(** A step of a session's goroutine, seen from outside. *)
Lemma server_abs_set_gor s sid src pc' :
  srcs s !! sid = Some src ->
  abs (set_gor sid pc' s) =
  set_flows (<[sid := set_arrived (held pc') (flow_in s sid src)]> (flows (abs s))) (abs s).
Proof.
  intros Hs. set (s' := set_gor sid pc' s). unfold abs at 1. change (srcs s') with (srcs s).
  rewrite (view_insert (srcs s) (sessions s) (fresh_in s) (open_conns s) (arrived_in s)
    (sessions s') (fresh_in s') (open_conns s') (arrived_in s') sid src Hs).
  - replace (held pc') with (arrived_in s' sid); [done|].
    unfold arrived_in. cbn. by rewrite lookup_insert_eq.
  - intros i src' Hi _. unfold view_flow, arrived_in. cbn. by rewrite lookup_insert_ne.
Qed.

Lemma server_abs_silent s sid src pc' :
  srcs s !! sid = Some src -> held pc' = arrived_in s sid -> abs (set_gor sid pc' s) = abs s.
Proof.
  intros Hs Hh. rewrite (server_abs_set_gor s sid src pc' Hs), Hh, insert_id; [done|].
  by apply server_flow_in_abs.
Qed.

(** The connection is closed before the table entry is removed. *)
Lemma server_abs_close s sid src :
  srcs s !! sid = Some src -> arrived_in s sid = None ->
  abs (close_conn sid (set_gor sid GRemove s)) =
  set_flows (<[sid := hang_up (flow_in s sid src)]> (flows (abs s))) (abs s).
Proof.
  intros Hs Ha. set (s' := close_conn sid (set_gor sid GRemove s)). unfold abs at 1. change (srcs s') with (srcs s).
  rewrite (view_insert (srcs s) (sessions s) (fresh_in s) (open_conns s) (arrived_in s)
    (sessions s') (fresh_in s') (open_conns s') (arrived_in s') sid src Hs).
  - unfold view_flow, hang_up, set_flows. cbn. rewrite Ha, bool_decide_eq_false_2.
    + do 3 f_equal. unfold arrived_in. cbn. by rewrite lookup_insert_eq.
    + by intros [_ []%not_elem_of_singleton]%elem_of_difference.
  - intros i src' Hi _. unfold view_flow, arrived_in. cbn. rewrite lookup_insert_ne by done.
    f_equal. apply bool_decide_ext. rewrite elem_of_difference, elem_of_singleton. intuition.
Qed.

Lemma server_abs_shrink s h m :
  inv s -> (forall k i, m !! k = Some i -> sessions s !! k = Some i) ->
  exists cs, nat_step (Retire cs) (abs s) = Some (abs (set_table h m s)).
Proof.
  intros Hi Hsub.
  destruct (view_retire (srcs s) (sessions s) (fresh_in s) (open_conns s) (arrived_in s) m)
    as (cs & Hl & Hf); [done| |exists cs; unfold nat_step; cbn [abs flows]; by rewrite Hl, Hf].
  intros c src Hc Hs. pose proof (i_main s Hi) as Hm. unfold fresh_in in Hc.
  destruct (main s); try done. injection Hc as ->. destruct Hm as (H1 & H2 & _). congruence.
Qed.

Lemma server_gor_simulated l sid s s' :
  owner l = Some sid -> inv s -> step t l s = Some s' -> simulated (abs s) (events l) (abs s').
Proof.
  intros Ho Hi. unfold step. destruct (panicked s); [done|]. rewrite Ho.
  destruct (gors s !! sid) as [pc|] eqn:Hg; [|done].
  destruct (srcs s !! sid) as [src|] eqn:Hs; [|done]. simpl.
  assert (arrived_in s sid = held pc) as Harr by (unfold arrived_in; by rewrite Hg).
  pose proof (server_flow_in_abs s sid src Hs) as Hf.
  assert (pre_close (Some pc) = true -> opened (flow_in s sid src) = true) as Hopen.
  { intros Hp. apply bool_decide_eq_true_2, (i_conns s Hi); [by eexists|]. by rewrite Hg. }
  destruct l; simpl in Ho; try discriminate; injection Ho as ->;
    destruct pc; cbn [gor_step]; try discriminate; simpl in Harr.
  - intros [= <-]. apply simulated_nil; [done|]. apply (server_abs_silent s sid src); [done|].
    rewrite Harr. by destruct (sess_closed sid s).
  - intros [= <-]. apply simulated_nil; [done|]. by apply (server_abs_silent s sid src).
  - intros [= <-]. apply (simulated_one (Arrive sid data)); [done|].
    by rewrite (do_arrive _ _ _ Hf), (server_abs_set_gor _ _ _ _ Hs) by auto.
  - destruct (is_timeout err); [destruct (past_deadline deadline now); [|done]|]; intros [= <-]; apply simulated_nil; try done;
      by apply (server_abs_silent s sid src).
  - intros [= <-]. apply simulated_nil; [done|]. apply (server_abs_silent s sid src); [done|].
    rewrite Harr. by destruct (sess_closed sid s).
  - intros [= <-]. apply simulated_nil; [done|]. by rewrite (server_abs_silent _ sid src).
  - destruct (ok && listener_open s); intros [= <-].
    + apply (simulated_one (Answer sid)); [done|]. rewrite (do_answer _ _ _ Hf data) by auto.
      transitivity (Some (mkNat (flows (abs (set_gor sid GTop s))) (pending_in s) (forwarded s ++ [])
        (replied s ++ [(sid, src, data)]))); [|done].
      by rewrite (server_abs_set_gor _ _ _ _ Hs), app_nil_r.
    + apply (simulated_one (Drop sid)); [done|].
      by rewrite (do_drop _ _ _ Hf), (server_abs_set_gor _ _ _ _ Hs).
  - intros [= <-]. apply (simulated_one (Hangup sid)); [done|].
    by rewrite (do_hangup _ _ _ Hf), (server_abs_close _ _ _ Hs) by auto.
  - destruct (removeSession src sid (heap s, sessions s)) as [h m] eqn:Er. intros [= <-].
    destruct (server_abs_shrink s h m Hi) as [cs Hcs].
    { intros k i. apply removeSession_table in Er as (Hsub & _). by intros [? _]%Hsub. }
    apply (simulated_one (Retire cs)); [done|]. rewrite Hcs.
    by rewrite (server_abs_silent (set_table h m s) sid src).
Qed.

Lemma server_dial_simulated s src data now s' :
  inv s -> main s = MDial src data -> main_step (Dial now None) s = Some s' ->
  nat_step (Connect (next s)) (abs s) = Some (abs s').
Proof.
  intros Hi Hm Hs. pose proof (i_next s Hi (next s) (le_n _)) as Hfree.
  pose proof (i_main s Hi) as Hk. unfold main_step in Hs. rewrite Hm in Hs, Hk. injection Hs as <-.
  rewrite (do_connect (abs s) (next s) src data);
    [|cbn; unfold pending_in; by rewrite Hm|cbn; by rewrite view_lookup, Hfree].
  cbn [flows abs]. unfold fresh_in at 1. rewrite Hm.
  rewrite (view_connect _ _ _ _ (arrived_in s)); [|done|congruence| |done].
  - unfold set_flows, abs, pending_in. cbn. by rewrite Hm.
  - unfold arrived_in. destruct (gors s !! next s) as [pc|] eqn:Hg; [|done].
    destruct (i_gors s Hi (next s)) as [[? ?] _]; [by eexists|congruence].
Qed.

Lemma server_insert_simulated s sid src data s' :
  inv s -> main s = MInsert sid src data -> main_step Insert s = Some s' ->
  nat_step (Enlist sid) (abs s) = Some (abs s').
Proof.
  intros Hi Hm Hs. pose proof (i_main s Hi) as Hk. unfold main_step in Hs. rewrite Hm in Hs, Hk.
  injection Hs as <-. destruct Hk as (Hsrc & Hn & _).
  destruct (view_enlist (srcs s) (sessions s) (open_conns s) (arrived_in s) sid src Hsrc Hn)
    as (Hv1 & Hv2 & Hv3).
  assert (fresh_in s = Some sid) as Hfr by (unfold fresh_in; by rewrite Hm).
  erewrite do_enlist; [|by apply server_flow_in_abs| |by apply served_view].
  - unfold flow_in, abs, set_flows, pending_in. cbn. rewrite Hm, Hfr, <- Hv2, Hv1. done.
  - unfold flow_in. by rewrite Hfr.
Qed.

(** Steps of the read loop that only change its place. *)
Lemma abs_main s m h :
  fresh_in (set_main m s) = fresh_in s -> pending_in (set_main m s) = pending_in s ->
  abs (set_main m (set_table h (sessions s) s)) = abs s.
Proof.
  intros Hf Hp. transitivity (mkNat (view (srcs s) (sessions s) (fresh_in (set_main m s)) (open_conns s)
    (arrived_in s)) (pending_in (set_main m s)) (forwarded s) (replied s)); [done|]. by rewrite Hf, Hp.
Qed.
Lemma abs_discard s m :
  fresh_in (set_main m s) = fresh_in s -> pending_in (set_main m s) = None ->
  nat_step Discard (abs s) = Some (abs (set_main m s)).
Proof.
  intros Hf Hp. simpl. f_equal. unfold abs. rewrite Hf, Hp. done.
Qed.

Lemma server_main_step_simulated l s s' :
  inv s -> main_step l s = Some s' -> simulated (abs s) (events l) (abs s').
Proof.
  intros Hi Hs. pose proof (i_main s Hi) as Hm. pose proof Hs as Hs0. unfold main_step in Hs.
  destruct l; try discriminate Hs;
    destruct (main s) as [|src0 d0|src0 d0|sid0 src0 d0|sid0 src0 d0|sid0 src0 d0|r0] eqn:Hms; try discriminate Hs;
    (assert (fresh_in s = match main s with MInsert i _ _ => Some i | _ => None end) as Hfr by done);
    rewrite Hms in Hfr; (eassert (pending_in s = _) as Hpe by (unfold pending_in; rewrite Hms; reflexivity)).
  - destruct (listener_open s); [|done]. injection Hs as <-.
    apply (simulated_one (Receive src data)); [done|]. unfold nat_step. cbn [pending abs].
    rewrite Hpe. unfold set_pending, abs, fresh_in. cbn. by rewrite Hms.
  - destruct (listener_open s); [|done]. injection Hs as <-. by apply simulated_nil.
  - destruct (closedByUs _ _); injection Hs as <-; apply simulated_nil; try done.
    by apply (abs_main s _ (heap s)).
  - destruct (sessions s !! src0) as [sid|] eqn:Hk; injection Hs as <-; apply simulated_nil; try done;
      by apply abs_main.
  - destruct r; [injection Hs as <-; by apply (simulated_one Discard); [|apply abs_discard]|].
    apply (simulated_one (Connect (next s))); [done|]. by eapply server_dial_simulated.
  - apply (simulated_one (Enlist sid0)); [done|]. by eapply server_insert_simulated.
  - injection Hs as <-. apply simulated_nil; [done|].
    destruct (srcs s !! sid0) as [src|] eqn:Hsrc; [|done].
    transitivity (abs (set_main (MSend sid0 src0 d0) s)); [|by apply (abs_main s _ (heap s))].
    apply (server_abs_silent (set_main (MSend sid0 src0 d0) s) sid0 src); [done|].
    unfold arrived_in. cbn. destruct (gors s !! sid0) eqn:Hg; [|done].
    destruct (i_gors s Hi sid0) as [_ []]; [by eexists|]. unfold fresh_session. by rewrite Hms.
  - destruct (write_ok && bool_decide (sid0 ∈ open_conns s)) eqn:Hw; injection Hs as <-;
      [|by apply (simulated_one Discard); [|apply abs_discard]].
    apply andb_true_iff in Hw as [_ Hopen]. apply (simulated_one (Forward sid0)); [done|].
    rewrite (do_forward _ _ _ (server_flow_in_abs s sid0 src0 Hm) d0); [|done|done].
    unfold log_traffic, abs, fresh_in. cbn. by rewrite Hms, app_nil_r.
Qed.

Lemma server_simulated : refines (step t) nat_step inv abs events act_events.
Proof.
  intros l s s' Hi Hs. split; [by eapply server_inv_step|].
  destruct (owner l) as [sid|] eqn:Ho; [by eapply server_gor_simulated|].
  unfold step in Hs. destruct (panicked s); [done|]. rewrite Ho in Hs.
  destruct l; try (by eapply server_main_step_simulated); simpl in Hs.
  - destruct (reaper s); [|done]. destruct (reap _ _ _) as [h m] eqn:Er. injection Hs as <-.
    destruct (server_abs_shrink s h m Hi) as [cs Hcs]; [|by apply (simulated_one (Retire cs))].
    intros k i. pose proof (reap_sessions now (seconds t) (heap s) (sessions s) k) as Hrs.
    rewrite Er in Hrs. simpl in Hrs. rewrite Hrs. destruct (sessions s !! k); simpl; [|done].
    by destruct (is_expired _ _ _ _).
  - destruct (reaper s); [|done]. destruct (done s); [done|]. injection Hs as <-. by apply simulated_nil.
  - destruct (closers s !! c); [done|]. injection Hs as <-. by apply simulated_nil.
  - destruct (closers s !! c) as [[]|]; try done. injection Hs as <-. by apply simulated_nil.
  - destruct (closers s !! c) as [[]|]; try done. destruct (done s); injection Hs as <-; by apply simulated_nil.
  - destruct (closers s !! c) as [[]|]; try done. injection Hs as <-. by apply simulated_nil.
Qed.

(** C6: the UDP server tunnel implements the same specification, although it
    dials outside the lock, inserts in a second critical section and closes a
    connection before it forgets the session: every run is a run of the
    abstract flow machine on the same datagrams, and keeps its promise. *)
Theorem udp_server_refines_spec ls s :
  run (step t) (init t) ls = Some s ->
  (exists als, run nat_step nat_init als = Some (abs s) /\
     flat_map act_events als = flat_map events ls) /\
  promise (flat_map events ls) (abs s).
Proof.
  intros Hr. destruct (refines_run _ _ _ _ _ _ _ _ _ server_simulated (server_inv_init t) Hr)
    as (_ & als & Ha & He).
  split; [by exists als|]. rewrite <- He. by apply promise_run.
Qed.
End server.
End Server.

(** ** A datagram and its answer, through both tunnels *)
Module Sample.
Definition proxy_run : list UdpProxy.label :=
  [UdpProxy.Recv "10.0.0.2:5000" "ping"; UdpProxy.GetSession 0 None; UdpProxy.Touch 1; UdpProxy.Send true;
   UdpProxy.GorTop 0; UdpProxy.GorArm 0 1; UdpProxy.GorRead 0 "pong"; UdpProxy.GorTouch 0 2; UdpProxy.GorReply 0 true;
   UdpProxy.ReaperTick 60000000000; UdpProxy.GorTop 0; UdpProxy.GorRemove 0; UdpProxy.GorClose 0].
Definition proxy_end : UdpProxy.state := after (UdpProxy.step 30) (UdpProxy.init 30) proxy_run.

Lemma udp_proxy_refines_witness :
  promise [FromClient "10.0.0.2:5000" "ping"; FromTarget 0 "pong"] (Proxy.abs proxy_end) /\
  out (Proxy.abs proxy_end) = [(0, "10.0.0.2:5000", "ping")] /\
  back (Proxy.abs proxy_end) = [(0, "10.0.0.2:5000", "pong")].
Proof.
  split; [|split; vm_compute; reflexivity].
  apply (Proxy.udp_proxy_refines_spec 30 proxy_run proxy_end). vm_compute. reflexivity.
Defined.

Definition server_run : list UdpServer.label :=
  [UdpServer.Recv "10.0.0.2:5000" "ping"; UdpServer.Lookup 0; UdpServer.Dial 1 None; UdpServer.Insert;
   UdpServer.Spawn; UdpServer.Send true; UdpServer.GorTop 0; UdpServer.GorArm 0 1;
   UdpServer.GorRead 0 "pong";
   UdpServer.GorTouch 0 2; UdpServer.GorReply 0 true; UdpServer.ReaperTick 60000000000;
   UdpServer.GorTop 0; UdpServer.GorClose 0; UdpServer.GorRemove 0].
Definition server_end : UdpServer.state := after (UdpServer.step 30) (UdpServer.init 30) server_run.

Lemma udp_server_refines_witness :
  promise [FromClient "10.0.0.2:5000" "ping"; FromTarget 0 "pong"] (Server.abs server_end) /\
  out (Server.abs server_end) = [(0, "10.0.0.2:5000", "ping")] /\
  back (Server.abs server_end) = [(0, "10.0.0.2:5000", "pong")].
Proof.
  split; [|split; vm_compute; reflexivity].
  apply (Server.udp_server_refines_spec 30 server_run server_end). vm_compute. reflexivity.
Defined.
End Sample.
