(* ===== verification/Process.v ===== *)
(** * Process: the life of the process around [main]

    The goroutine that turns the first SIGINT or SIGQUIT into the end of
    [main], the goroutines [main] starts around [Serve] and the health server,
    the ping record they share ([PingTable]) and the machines of the UDP tunnels
    ([UdpProxy], [UdpServer]), and what ends the process: [main] returning,
    [log.Fatal], a panic, a fatal error of the runtime, or a signal nobody asked
    for.  The initial state of the machine is what [Cli.main] leaves behind. *)

From S2P Require Import Prelude GoStr GoNet GoNetip Ini ConfigTypes World Config Router Resolver Sni.
From S2P Require Import ConfigProps Shutdown Lifecycle ClientBind Wireguard Health Cli.
From S2P Require PingTable UdpProxy UdpProxyProps UdpServer UdpServerProps.

(** ** What the started goroutines do with the result of their call *)

(** [if err := spawner.Serve(tun); err != nil { log.Fatal(err) }] *)
Definition serve_goroutine (err : option error) : option exit :=
  match err with Some err => Some (Fatal err) | None => None end.
(** The health server: [if err != nil { panic(err) }]. *)
Definition health_goroutine (err : option error) : option exit :=
  match err with Some err => Some (Panic err) | None => None end.

(** The goroutine of a ping slices the reply's body ([Health.check_reply]). *)
Definition ping_goroutine (o : ping_outcome) : option exit :=
  match o with Panicked => Some (Panic (errorString "slice bounds out of range")) | _ => None end.

(** ** State *)

Inductive status :=
  | Running
  | Left (e : exit)
  | Killed.                 (* by a signal with the default action *)

(** The signals [signal.Notify] asks for, and the others that end a process. *)
Inductive signal := SIGINT | SIGQUIT | SIGTERM | SIGHUP | SIGKILL.
Definition notified (sg : signal) : bool :=
  match sg with SIGINT | SIGQUIT => true | _ => false end.

(** What the routines share with nobody, by the index of the routine: the UDP
    tunnels with their timeout. *)
Record machines := mkMachines {
  record : PingTable.state;                       (* [PingRecord] *)
  proxies : gmap nat (Z * UdpProxy.state);
  servers : gmap nat (Z * UdpServer.state)
}.

Record state := mkState {
  pending : nat;            (* in the channel [s], of capacity 1 *)
  listening : bool;         (* the goroutine at [<-s] *)
  cancelled : bool;         (* [ctx] *)
  running : list thread;    (* started and not ended *)
  inside : machines;
  status_ : status
}.

(** The machines of the bound routines. *)
Definition proxy_of `{RegexpLib} (i : nat) (r : RoutineSpawner) : option (nat * (Z * UdpProxy.state)) :=
  match r with
  | UDPProxyTunnel c =>
      let t := UDPProxyTunnelConfig.InactivityTimeout c in Some (i, (t, UdpProxy.init t))
  | _ => None
  end.
Definition server_of `{RegexpLib} (i : nat) (r : RoutineSpawner) : option (nat * (Z * UdpServer.state)) :=
  match r with
  | UDPServerTunnel c =>
      let t := UDPServerTunnelConfig.InactivityTimeout c in Some (i, (t, UdpServer.init t))
  | _ => None
  end.
Definition started `{RegexpLib} (tun : VirtualTun.t) (bound : list RoutineSpawner) : machines :=
  mkMachines (PingTable.init (VirtualTun.PingRecord tun))
    (list_to_map (omap id (imap proxy_of bound))) (list_to_map (omap id (imap server_of bound))).
Definition nothing_started : machines := mkMachines (PingTable.init ∅) ∅ ∅.

(** [main] up to [<-ctx.Done()]. *)
Definition boot `{RegexpLib} (m : P (VirtualTun.t * list RoutineSpawner)) : state :=
  match outcome m with
  | inl (tun, bound) => mkState 0 true false (threads (effects m)) (started tun bound) Running
  | inr e => mkState 0 true false (threads (effects m)) nothing_started (Left e)
  end.

(** ** Steps *)
Inductive label :=
  | Signal (sg : signal)                          (* from outside *)
  | Handle                                        (* [<-s]; [cancel()] *)
  | MainReturns                                   (* [<-ctx.Done()] *)
  | ServeReturns (i : nat) (err : option error)
  | HealthReturns (addr : string) (err : option error)
  | PingEnds (o : ping_outcome)                   (* of a goroutine of the ping loop *)
  | Record_ (l : PingTable.label)                 (* of a pong or of a /readyz request *)
  | Proxy (i : nat) (l : UdpProxy.label)
  | Server (i : nat) (l : UdpServer.label).

Definition is_health (t : thread) : bool := match t with HealthServer _ => true | _ => false end.

(** Pongs come from the ping loop, requests through the health server. *)
Definition may_use_record (l : PingTable.label) (s : state) : bool :=
  match l with
  | PingTable.Pong _ _ => bool_decide (PingLoop ∈ running s)
  | PingTable.Request _ => existsb is_health (running s)
  | _ => true
  end.

(** A goroutine ends, and the process with it if it says so. *)
Definition ends (t : thread) (e : option exit) (s : state) : option state :=
  if bool_decide (t ∈ running s)
  then Some (mkState (pending s) (listening s) (cancelled s)
               (List.filter (fun t' => negb (bool_decide (t' = t))) (running s)) (inside s)
               match e with Some e => Left e | None => status_ s end)
  else None.

Definition set_inside (m : machines) (e : option exit) (s : state) : state :=
  mkState (pending s) (listening s) (cancelled s) (running s) m
    match e with Some e => Left e | None => status_ s end.

(** The runtime has found two users of a map, or a channel closed twice. *)
Definition map_fatal (crashed : bool) : option exit :=
  if crashed then Some (Throw "concurrent map iteration and map write") else None.
Definition close_panic (panicked : bool) : option exit :=
  if panicked then Some (Panic (errorString "close of closed channel")) else None.

(** Nothing in the program calls [Close]: it is there for those who embed the
    package.  So the machines of the tunnels never take a step of [Close]. *)
Definition step (l : label) (s : state) : option state :=
  match status_ s with
  | Running =>
      match l with
      | Signal sg =>
          if notified sg
          then Some (mkState (Nat.min 1 (S (pending s))) (listening s) (cancelled s) (running s) (inside s) Running)
          else Some (mkState (pending s) (listening s) (cancelled s) (running s) (inside s) Killed)
      | Handle =>
          match pending s, listening s with
          | S n, true => Some (mkState n false true (running s) (inside s) Running)
          | _, _ => None
          end
      | MainReturns =>
          if cancelled s
          then Some (mkState (pending s) (listening s) true (running s) (inside s) (Left Return)) else None
      | ServeReturns i err => ends (ServeRoutine i) (serve_goroutine err) s
      | HealthReturns addr err => ends (HealthServer addr) (health_goroutine err) s
      | PingEnds o =>
          if bool_decide (PingLoop ∈ running s)
          then Some (set_inside (inside s) (ping_goroutine o) s) else None
      | Record_ l =>
          if may_use_record l s then
            r ← PingTable.step l (record (inside s));
            Some (set_inside (mkMachines r (proxies (inside s)) (servers (inside s)))
                    (map_fatal (PingTable.crashed r)) s)
          else None
      | Proxy i l =>
          '(t, u) ← proxies (inside s) !! i;
          if UdpProxyProps.calls_Close l then None else
          u' ← UdpProxy.step t l u;
          Some (set_inside (mkMachines (record (inside s)) (<[i := (t, u')]> (proxies (inside s))) (servers (inside s)))
                  (close_panic (UdpProxy.panicked u')) s)
      | Server i l =>
          '(t, u) ← servers (inside s) !! i;
          if UdpServerProps.calls_Close l then None else
          u' ← UdpServer.step t l u;
          Some (set_inside (mkMachines (record (inside s)) (proxies (inside s)) (<[i := (t, u')]> (servers (inside s))))
                  (close_panic (UdpServer.panicked u')) s)
      end
  | _ => None
  end.

Definition exit_status (e : exit) : Z :=
  match e with Return => 0 | Fatal _ => 1 | Panic _ | Throw _ => 2 end.

(** The steps of the process itself that an interrupt needs. *)
Definition own (l : label) : bool := match l with Handle | MainReturns => true | _ => false end.
(** A step that is a failure of the program: [Serve] or the health server
    returned an error, a ping panicked, or a request for [/readyz] and a pong met
    at the ping record. *)
Definition failure (l : label) (s : state) : option exit :=
  match l with
  | ServeReturns _ err => serve_goroutine err
  | HealthReturns _ err => health_goroutine err
  | PingEnds o => ping_goroutine o
  | Record_ l => r ← PingTable.step l (record (inside s)); map_fatal (PingTable.crashed r)
  | _ => None
  end.

(** ** Lemmas *)
Lemma step_Some l s s' : step l s = Some s' -> status_ s = Running.
Proof. unfold step. by destruct (status_ s). Qed.

Ltac split_step :=
  unfold step, ends, set_inside, mbind, option_bind; intros; go_cases; try done.

(** Each step but a signal, a failure and the return of [main] leaves the
    process running; the UDP tunnels never end it. *)
Lemma step_status l s s' :
  step l s = Some s' ->
  match l with
  | Signal sg => status_ s' = if notified sg then Running else Killed
  | MainReturns => status_ s' = Left Return /\ cancelled s = true
  | _ => status_ s' = match failure l s with Some e => Left e | None => Running end
  end.
Proof.
  destruct l as [sg| | |i err|addr err|o|l|i l|i l]; cbn [failure]; split_step; simpl;
    repeat match goal with H : _ = ?x |- context [?x] => rewrite H end; try done.
  - pose proof (UdpProxyProps.no_Close_no_panic l _ _ ltac:(eassumption) ltac:(eassumption)) as Hp.
    by rewrite Hp in *.
  - pose proof (UdpServerProps.server_no_Close_no_panic l _ _ ltac:(eassumption) ltac:(eassumption)) as Hp.
    by rewrite Hp in *.
Qed.

(** The channel, the goroutine at it and the context. *)
Lemma step_interrupt l s s' :
  step l s = Some s' ->
  match l with
  | Signal sg => (if notified sg then 0 < pending s' else pending s' = pending s) /\
      listening s' = listening s /\ cancelled s' = cancelled s
  | Handle => 0 < pending s /\ listening s = true /\ listening s' = false /\ cancelled s' = true
  | _ => pending s' = pending s /\ listening s' = listening s /\ cancelled s' = cancelled s
  end.
Proof.
  destruct l as [sg| | |i err|addr err|o|l|i l|i l]; split_step; simpl in *; split_and!; try done; lia.
Qed.

Definition interrupted (ls : list label) : Prop := exists sg, Signal sg ∈ ls /\ notified sg = true.
(** Somewhere in a run from [s0] a step failed with [e]. *)
Definition failed (s0 : state) (ls : list label) (e : exit) : Prop :=
  exists ls1 l ls2 s1, ls = ls1 ++ l :: ls2 /\ run step s0 ls1 = Some s1 /\ failure l s1 = Some e.

(** What the past explains. *)
Record explained (s0 : state) (ls : list label) (s : state) : Prop := {
  e_signal : 0 < pending s \/ cancelled s = true -> interrupted ls;
  e_status : match status_ s with
             | Running => True
             | Left e => (e = Return /\ interrupted ls) \/ failed s0 ls e
             | Killed => exists sg, Signal sg ∈ ls /\ notified sg = false
             end;
  e_waiting : listening s = negb (cancelled s)
}.

Lemma interrupted_snoc ls l : interrupted ls -> interrupted (ls ++ [l]).
Proof. intros (sg & Hin & Hn). exists sg. split; [|done]. apply elem_of_app. by left. Qed.

Lemma explained_step s0 ls l s s' :
  run step s0 ls = Some s -> explained s0 ls s -> step l s = Some s' -> explained s0 (ls ++ [l]) s'.
Proof.
  intros Hr [Hsi Hst Hw] Hs.
  pose proof (step_status _ _ _ Hs) as H1. pose proof (step_interrupt _ _ _ Hs) as H2.
  assert (l ∈ ls ++ [l]) as Hl by (apply elem_of_app; right; by apply list_elem_of_singleton).
  assert (forall r, status_ s' = match failure l s with Some e => Left e | None => Running end ->
    match status_ s' with Running => True | Left e => r e \/ failed s0 (ls ++ [l]) e
    | Killed => exists sg, Signal sg ∈ ls ++ [l] /\ notified sg = false end) as Hfail.
  { intros r ->. destruct (failure l s) as [e|] eqn:Hf; [|done]. right. by exists ls, l, [], s. }
  split.
  - destruct l as [sg| | |i err|addr err|o|l|i l|i l]; simpl in H2;
      try (destruct H2 as (-> & _ & ->); auto using interrupted_snoc).
    + destruct (notified sg) eqn:Hn; [by intros _; exists sg|].
      destruct H2 as (-> & _ & ->); auto using interrupted_snoc.
    + intros _. apply interrupted_snoc, Hsi. left. apply H2.
  - destruct l as [sg| | |i err|addr err|o|l|i l|i l];
      try (by apply (Hfail (fun e => e = Return /\ interrupted _))).
    + rewrite H1. destruct (notified sg) eqn:Hn; [done|by exists sg].
    + destruct H1 as [-> Hc]. left. split; [done|]. by apply interrupted_snoc, Hsi; right.
  - destruct l; destruct H2 as (H3 & H4 & H5); try congruence. destruct H5 as [H5 H6]. by rewrite H5, H6.
Qed.

Lemma explained_run s0 ls s : explained s0 [] s0 -> run step s0 ls = Some s -> explained s0 ls s.
Proof.
  intros H0. revert s. induction ls as [|l ls IH] using rev_ind; simpl; intros s; [by intros [= <-]|].
  rewrite run_app. destruct (run step s0 ls) as [s1|] eqn:E; [|done]. simpl.
  destruct (step l s1) eqn:Hs; [|done]. intros [= <-]. eapply explained_step; eauto.
Qed.

Section life.
Context `{RL : RegexpLib}.

Lemma boot_explained (m : P (VirtualTun.t * list RoutineSpawner)) x :
  outcome m = inl x -> explained (boot m) [] (boot m).
Proof.
  intros Hm. unfold boot. rewrite Hm. destruct x as [tun bound]. split; simpl; try done.
  intros [?|?]; [lia|done].
Qed.

(** C33: what ends the process: once [main] has brought it up, it exits with
    status 0 only after a SIGINT or SIGQUIT; with status 1 only because a
    [Serve] returned an error; with status 2 only because the health server
    failed, a ping goroutine panicked, or a request for [/readyz] walked the
    ping record while a pong was being written; and it is killed only by
    another signal.  The UDP tunnels, whose [Close] nothing calls, never end it.
    Without such an event it runs on, also when every routine has returned nil. *)
Theorem process_ends_for_a_reason (m : P (VirtualTun.t * list RoutineSpawner)) x ls s :
  outcome m = inl x -> run step (boot m) ls = Some s ->
  match status_ s with
  | Running => True
  | Left e =>
      (exit_status e = 0%Z /\ interrupted ls) \/ (exit_status e <> 0%Z /\ failed (boot m) ls e)
  | Killed => exists sg, Signal sg ∈ ls /\ notified sg = false
  end /\
  ((forall e, ~ failed (boot m) ls e) -> (forall sg, Signal sg ∉ ls) -> status_ s = Running).
Proof.
  intros Hm Hr. pose proof (explained_run _ _ _ (boot_explained m x Hm) Hr) as [_ Hst _].
  assert (forall e, failed (boot m) ls e -> exit_status e <> 0%Z) as Hne.
  { intros e (ls1 & l & ls2 & s1 & _ & _ & Hf). revert Hf.
    destruct l as [sg| | |i [err|]|addr [err|]|[]|l|i l|i l]; simpl; try (by intros [= <-]).
    destruct (PingTable.step l _) as [r|]; simpl; [|done]. destruct (PingTable.crashed r); by intros [= <-]. }
  split.
  - destruct (status_ s) as [|e|]; [done| |done]. destruct Hst as [[-> Hi]|Hf]; [by left|right; eauto].
  - intros Hf Hno. destruct (status_ s) as [|e|]; [done|exfalso..].
    + destruct Hst as [[_ (sg & Hin & _)]|He]; [by eapply Hno|by eapply Hf].
    + destruct Hst as (sg & Hin & _). by eapply Hno.
Qed.

(** C17: an interrupt ends the process: after a SIGINT or SIGQUIT, whatever
    else happens, at most two steps of its own bring [main] to its end, one of
    them can always be taken as long as the process is running, and no
    routine can hold it up. *)
Theorem interrupt_ends_the_process (m : P (VirtualTun.t * list RoutineSpawner)) x ls sg ls' s s1 s' :
  outcome m = inl x -> run step (boot m) ls = Some s -> notified sg = true ->
  step (Signal sg) s = Some s1 -> run step s1 ls' = Some s' ->
  length (List.filter own ls') <= 2 /\
  (status_ s' <> Running \/ exists l, own l = true /\ is_Some (step l s')).
Proof.
  intros Hm Hr Hn Hs Hr'.
  pose proof (explained_run _ _ _ (boot_explained m x Hm) Hr) as He.
  pose proof (explained_step _ _ _ _ _ Hr He Hs) as [_ _ Hw].
  pose proof (step_interrupt _ _ _ Hs) as H2. simpl in H2. rewrite Hn in H2.
  set (rank s := match status_ s with Running => if cancelled s then 1 else 2 | _ => 0 end).
  destruct (run_rank step own rank
    (fun s => listening s = negb (cancelled s) /\ (0 < pending s \/ cancelled s = true)) s1 ls' s')
    as [(Hw' & Hp') Hlen].
  - intros l s2 s3 [Hw2 Hp2] Hs2. pose proof (step_Some _ _ _ Hs2) as Hrun.
    pose proof (step_interrupt _ _ _ Hs2) as H3. pose proof (step_status _ _ _ Hs2) as H4.
    unfold rank. rewrite Hrun.
    destruct l as [sg'| | |i err|addr err|o|l|i l|i l]; cbn [own] in *;
      try (destruct H3 as (-> & -> & ->); split; [done|]; by destruct (status_ s3), (cancelled s2); lia).
    + destruct H3 as (E1 & -> & ->). split; [|destruct (status_ s3), (cancelled s2); lia].
      split; [done|]. destruct (notified sg'); [by left|by rewrite E1].
    + destruct H3 as (E1 & E2 & -> & ->). split; [by auto|].
      rewrite E2 in Hw2. destruct (cancelled s2); [done|]. destruct (status_ s3); lia.
    + destruct H3 as (-> & -> & ->). split; [done|]. destruct H4 as [-> ->]. lia.
  - split; [done|]. left. apply H2.
  - done.
  - split; [unfold rank in Hlen; by destruct (status_ s1), (cancelled s1); lia|].
    destruct (status_ s') eqn:Hst; [right|by left..]. destruct (cancelled s') eqn:Hc.
    + exists MainReturns. split; [done|]. simpl. unfold step. rewrite Hst, Hc. eauto.
    + exists Handle. split; [done|]. unfold step. rewrite Hst, Hw'. destruct (pending s') as [|n]; [|eauto].
      destruct Hp'; [lia|done].
Qed.
End life.

(** ** The Android build *)
Section android.
Context `{UT : UnicodeTables, IL : IniLib, RL : RegexpLib, CE : ConfigEnv, E : Environment}
  {TL : TlsLib} {SL : Socks5Lib} {HD : Heredoc}.
#[local] Existing Instance landlock_android.

Definition probes_landlock (o : op) : bool :=
  match o with ORestrictPaths _ | ORestrictNet _ => true | _ => false end.
Definition no_probe (o : op) : bool := negb (probes_landlock o).

Lemma does_pbind {A B} (m : P A) (k : A -> P B) :
  does no_probe m -> (forall a, does no_probe (k a)) -> does no_probe (pbind_ m k).
Proof. intros Hm Hk. apply does_bind; [done|]. intros [a|e]; [apply Hk|apply does_ret]. Qed.
Lemma does_lift {A} (m : M A) : does no_probe m -> does no_probe (lift m).
Proof. intros Hm. apply does_bind; [done|]. intros a. apply does_ret. Qed.
Lemma does_panicIfError (m : M (option error)) : does no_probe m -> does no_probe (panicIfError m).
Proof. intros Hm. apply does_bind; [done|]. intros [e|]; apply does_ret. Qed.

Ltac quiet :=
  repeat first
    [ apply does_ret | apply does_perform; reflexivity | apply does_pbind; [|intros]
    | apply does_lift | apply does_panicIfError | apply does_bind; [|intros]
    | case_match | solve [eauto with go] ].

Lemma executablePath_quiet arg0 : does no_probe (executablePath arg0).
Proof. unfold executablePath. quiet. Qed.
Lemma lock_quiet arg0 stage files : does no_probe (lock arg0 stage files).
Proof. unfold lock, pledgeOrPanic, unveilOrPanic. quiet; apply executablePath_quiet. Qed.
Lemma bind_all_quiet rs : does no_probe (bind_all rs).
Proof.
  induction rs as [|r rs IH]; cbn [bind_all]; [apply does_ret|].
  apply does_bind.
  - eapply does_weaken; [apply Bind_does|]. by intros [].
  - intros [s' [err|]]; [apply does_ret|]. apply does_pbind; [done|intros; apply does_ret].
Qed.
Lemma start_quiet conf infoAddr : does no_probe (start conf infoAddr).
Proof.
  unfold start. apply does_pbind.
  - apply does_lift. unfold StartWireguard, StartWireguardWithLogger. rewrite CreateIPCRequest_render. quiet.
  - intros [conf' [tun|err]]; [|apply does_ret]. apply does_pbind; [apply bind_all_quiet|intros bound].
    apply does_pbind.
    + generalize 0. induction bound as [|r rs IH]; intros i; cbn [serve_all]; quiet.
    + intros _. unfold StartPingIPs. quiet.
Qed.

(** The Android build never asks Landlock for anything, on any path
    through [main], so the probe that would kill an Android process is not
    made; everything else [main] does is the same code. *)
Theorem android_never_probes_landlock args home parsed :
  ops_of probes_landlock (effects (main args home parsed)) = [].
Proof.
  unfold effects. rewrite (does_none no_probe); [done| |].
  2:{ intros o. unfold no_probe. apply negb_true_iff. }
  unfold main. apply does_pbind; [apply does_lift, executablePath_quiet|intros exe].
  apply does_pbind; [apply lock_quiet|intros _].
  apply does_pbind; [case_match; [apply lock_quiet|apply does_ret]|intros _].
  destruct parsed as [opts|err]; [|quiet].
  destruct (printVersion opts); [quiet|]. apply does_pbind.
  { case_match; [|apply does_ret]. apply does_lift. unfold configFilePath.
    induction (default_config_paths home) as [|p ps IH]; cbn [first_existing]; quiet. }
  intros [path|]; [|quiet]. apply does_pbind; [case_match; [apply lock_quiet|apply does_ret]|intros _].
  unfold run_configured. apply does_pbind.
  { apply does_lift. eapply does_weaken; [apply ParseConfig_reads|]. by intros []. }
  intros [conf|err]; [|apply does_ret].
  destruct (configTest opts); [quiet|]. apply does_pbind.
  { unfold lockNetwork. quiet. }
  intros _. apply does_pbind; [quiet|intros _]. destruct (daemon opts && _).
  - apply does_bind; [by apply does_perform|intros err; quiet].
  - apply does_pbind; [apply lock_quiet|intros _]. apply start_quiet.
Qed.
End android.

(** ** Witnesses *)
Module Sample.
Import ConfigProps.Sample Cli.Sample.
(** The running program of [Cli.Sample] with its one routine, pings and health server. *)
Definition up := main (RL := ConfigProps.Sample.regexps) (SL := Cli.Sample.socks5) (LL := landlock_other)
  ["wireproxy"] "/root" (Ok opts).
Lemma up_runs : exists x, outcome up = inl x.
Proof. destruct (outcome up) as [x|e] eqn:E; [by exists x|vm_compute in E; discriminate E]. Qed.

(** One routine stops, another fails. *)
Definition faulty : list label := [ServeReturns 0 None; ServeReturns 1 (Some (errorString "accept"))].
(** A request for [/readyz] meets a pong. *)
Definition unlucky : list label :=
  [Record_ (PingTable.Pong 0 (Recorded "10.0.0.1" 1700000000)); Record_ (PingTable.Lock 0);
   Record_ (PingTable.Request 7); Record_ (PingTable.BeginWrite 0); Record_ (PingTable.WalkNext 7)].
Lemma process_ends_witness :
  status_ (after step (boot up) [ServeReturns 0 None]) = Running /\
  status_ (after step (boot up) faulty) = Left (Fatal (errorString "accept")) /\
  (exists msg, status_ (after step (boot up) unlucky) = Left (Throw msg) /\
     failed (boot up) unlucky (Throw msg)).
Proof.
  destruct up_runs as [x Hx]. split; [|split; [vm_compute; reflexivity|]].
  - apply (process_ends_for_a_reason up x [ServeReturns 0 None] _ Hx).
    + vm_compute. reflexivity.
    + intros e (ls1 & l & ls2 & s1 & Heq & _ & Hf). destruct ls1 as [|l1 [|l2 ls1]]; [|discriminate Heq..].
      injection Heq as <- <-. discriminate Hf.
    + intros sg Hs. apply list_elem_of_singleton in Hs. discriminate Hs.
  - eexists. split; [vm_compute; reflexivity|].
    destruct (process_ends_for_a_reason up x unlucky (after step (boot up) unlucky) Hx) as [H _].
    + vm_compute. reflexivity.
    + destruct (status_ (after step (boot up) unlucky)) as [|e|] eqn:E; vm_compute in E; try discriminate E.
      injection E as <-. destruct H as [[H _]|[_ H]]; [discriminate H|exact H].
Defined.

Definition s1 := after step (boot up) [Signal SIGINT].
Lemma interrupt_witness :
  length (List.filter own [Handle; MainReturns]) <= 2 /\
  status_ (after step s1 [Handle; MainReturns]) = Left Return.
Proof.
  split; [|vm_compute; reflexivity]. destruct up_runs as [x Hx].
  apply (interrupt_ends_the_process up x [] SIGINT [Handle; MainReturns] (boot up) s1
    (after step s1 [Handle; MainReturns]) Hx eq_refl eq_refl); vm_compute; reflexivity.
Defined.
End Sample.
